(** * Exchange-ratio completion and invoice totals

    A shallow embedding of [slip39/invoice/artifact.py]: the completion of the
    graph of conversion ratios ([conversions_remaining]), the pricing of one
    line ([LineItem.net]), the running totals of [Invoice.__iter__] and the
    pagination of [Invoice.pages].

    Numbers.  The Python code works on [int], [float] and [Fraction] alike; the
    embedding takes the exact reading, [Fraction], as canonical rationals [Qc].
    Division is the one arithmetic operation that can fail, and it is modelled
    as such ([truediv]).

    Effects.  [conversions_remaining] changes the dictionary it is given in
    place, also when it raises, and writes to a log; a call is therefore a
    function from the dictionary to its result, the dictionary it leaves and
    the records it logged.  [Invoice.__iter__] is a generator: it is the list
    of the rows it yields, with the exception that ends it early, if any.
    What the file imports from modules that are not among the sources
    ([tokeninfo], the defaults, [commas]) is a parameter or is modelled where
    it is used. *)

From Stdlib Require Import List String Ascii Bool Arith ZArith QArith Qcanon Lia Sorted.
From Stdlib Require Import Decimal DecimalNat DecimalString Qround.
Import ListNotations.

Local Open Scope nat_scope.
Local Open Scope string_scope.
Local Open Scope list_scope.

(** ** Python values *)

Module Py.

(** The exceptions the embedded functions can raise. *)
Inductive exn : Type :=
| ZeroDivisionError
| TypeError
| ValueError
| UnboundLocalError
| KeyError (key : string * string)
| LookupError (name : string)
| RuntimeError (msg : string).

(** [x / y] on numbers. *)
Definition truediv (x y : Qc) : exn + Qc :=
  if Qc_eq_bool y 0 then inl ZeroDivisionError else inr (x / y)%Qc.

(** [bool(x)] for a number. *)
Definition nonzero (x : Qc) : bool := negb (Qc_eq_bool x 0).

(** [x > y] and [x < y] on numbers. *)
Definition gt (x y : Qc) : bool := negb (Qle_bool x y).
Definition lt (x y : Qc) : bool := negb (Qle_bool y x).

(** What a function hands back: a returned value or a raised exception. *)
Inductive completion (A : Type) : Type :=
| Return (v : A)
| Raise (e : exn).
Arguments Return {A} v.
Arguments Raise {A} e.

End Py.

(** ** Insertion-ordered dictionaries

    A Python [dict] iterates in insertion order, and the deduction passes
    depend on that order, so a dictionary is an association list in insertion
    order whose keys are distinct ([Dict.ok]). *)

Module Dict.

Section Keyed.
Context {K V : Type}.
Variable eqb : K -> K -> bool.

Definition t : Type := list (K * V).

(** [d[k]], [None] standing for [KeyError]. *)
Fixpoint lookup (k : K) (d : t) : option V :=
  match d with
  | [] => None
  | (k', v) :: d' => if eqb k k' then Some v else lookup k d'
  end.

(** [d[k] = v]: an existing key keeps its place, a new key goes last. *)
Fixpoint setitem (k : K) (v : V) (d : t) : t :=
  match d with
  | [] => [(k, v)]
  | (k', v') :: d' =>
      if eqb k k' then (k', v) :: d' else (k', v') :: setitem k v d'
  end.

Definition keys (d : t) : list K := map fst d.

(** A dictionary holds each key once. *)
Definition ok (d : t) : Prop := NoDup (keys d).
End Keyed.

End Dict.

(** ** The graph of conversion ratios *)

Module Conv.

Import Py.

Definition Symbol : Type := string.

(** A key [(a, b)]: the ratio stored under it is the worth of one [a] in [b]. *)
Definition Pair : Type := (Symbol * Symbol)%type.

(** A value: a known ratio, or Python's [None] for a ratio that is wanted
    but not known yet.  A ratio is an exact rational: the model of an [int]
    or a [Fraction], whose quotients and products (lines 149, 159 and 177)
    the code takes exactly.  On floats the same lines round, and what is
    proved here of inverses and products holds of them up to that
    rounding. *)
Definition Ratio : Type := option Qc.

Definition pair_eqb (c c' : Pair) : bool :=
  (fst c =? fst c') && (snd c =? snd c').

Definition Conversions : Type := list (Pair * Ratio).

Definition lookup : Pair -> Conversions -> option Ratio := Dict.lookup pair_eqb.
Definition setitem : Pair -> Ratio -> Conversions -> Conversions :=
  Dict.setitem pair_eqb.

(** [conversions.get( k )]: [None] for a missing key as for a stored [None]. *)
Definition get (k : Pair) (d : Conversions) : Ratio :=
  match lookup k d with
  | Some r => r
  | None => None
  end.

(** [r is None] *)
Definition is_None (r : Ratio) : bool :=
  match r with
  | None => true
  | Some _ => false
  end.

(** [bool( r )]: neither [None] nor zero. *)
Definition truthy (r : Ratio) : bool :=
  match r with
  | None => false
  | Some q => nonzero q
  end.

(** [s in c] for a key [c]. *)
Definition in_pair (s : Symbol) (c : Pair) : bool :=
  (s =? fst c) || (s =? snd c).

(** [set( c2 ).intersection( set( c3 ))], listed without repetition. *)
Definition intersection (c2 c3 : Pair) : list Symbol :=
  (if in_pair (fst c2) c3 then [fst c2] else [])
  ++ (if negb (snd c2 =? fst c2) && in_pair (snd c2) c3 then [snd c2] else []).

(** [bool( x_s )] for a set. *)
Definition nonempty {A : Type} (l : list A) : bool :=
  match l with
  | [] => false
  | _ :: _ => true
  end.

(** The records the function hands to [log]. *)
Inductive LogRecord : Type :=
| Deduced (b a : Symbol) (v : Qc) (r : Qc)
    (* info: "Deduced b/a = 1/r from a/b == r" *)
| Invert (a b2 : Symbol) (v : Qc) (b : Symbol) (r : Qc) (a2 : Symbol) (r2 : Qc)
    (* info: "Invert a/b2 = r*r2 from a/b == r and a2/b2 == r2" *)
| Found (c2 c3 : Pair) (x_s : list Symbol)
    (* warning: "Found intersection between c2 and c3: x_s" *)
| Compute (a b2 : Symbol) (v : Qc) (x b : Symbol)
    (* info: "Compute a/b2 = v from a/x and b/x" *)
| Failed (msg : string).
    (* warning: msg *)

(** What the function can see and change while it runs: the dictionary it was
    given (changed in place), its local [updated], the loop variable [b2] of
    the first pass (read again by a log line of the second), and the log. *)
Record State : Type := mkState {
  conv : Conversions;
  updated : bool;
  var_b2 : option Symbol;
  log : list LogRecord
}.

Definition start (d : Conversions) : State := mkState d false None [].

(** The inner loop of the first pass, lines 154-161, for one outer entry
    [(a, b) -> r] with [r] known; [snapshot] is [list( conversions.items() )]
    as taken when the loop starts. *)
Fixpoint compose_with (a b : Symbol) (r : Qc) (snapshot : Conversions) (s : State)
  : State :=
  match snapshot with
  | [] => s
  | ((a2, b2), r2) :: rest =>
      let s := mkState (conv s) (updated s) (Some b2) (log s) in
      match r2 with
      | None => compose_with a b r rest s
      | Some q2 =>
          if (b =? a2) && negb (a =? b2) && is_None (get (a, b2) (conv s))
          then compose_with a b r rest
                 (mkState (setitem (a, b2) (Some (r * q2)%Qc) (conv s)) true (var_b2 s)
                          (log s ++ [Invert a b2 (r * q2)%Qc b r a2 q2]))
          else compose_with a b r rest s
      end
  end.

(** Lines 148-151: the inverse of one entry. *)
Definition invert_entry (a b : Symbol) (r : Ratio) (s : State) : exn + State :=
  match r with
  | Some q =>
      if nonzero q && is_None (get (b, a) (conv s))
      then match truediv 1 q with
           | inl e => inl e
           | inr v => inr (mkState (setitem (b, a) (Some v) (conv s)) true (var_b2 s)
                                   (log s ++ [Deduced b a v q]))
           end
      else inr s
  | None => inr s
  end.

(** The first pass, lines 147-161, over [list( conversions.items() )] as taken
    before the loop.  An exception leaves the dictionary as it stands. *)
Fixpoint single_hop (snapshot : Conversions) (s : State) : completion unit * State :=
  match snapshot with
  | [] => (Return tt, s)
  | ((a, b), r) :: rest =>
      match invert_entry a b r s with
      | inl e => (Raise e, s)
      | inr s1 =>
          match r with
          | None => single_hop rest s1
          | Some q => single_hop rest (compose_with a b q (conv s1) s1)
          end
      end
  end.

(** [first f l]: the value of the first element on which [f] answers, the way a
    [for] loop leaves through [return]. *)
Fixpoint first {A B : Type} (f : A -> option B) (l : list A) : option B :=
  match l with
  | [] => None
  | x :: l' =>
      match f x with
      | Some y => Some y
      | None => first f l'
      end
  end.

(** Lines 175-180, once [c2] and [c3] are found for the wanted [(a, b)]. *)
Definition escalate (a b : Symbol) (c2 c3 : Pair) (s : State)
  : completion bool * State :=
  let x_s := intersection c2 c3 in
  let s := mkState (conv s) (updated s) (var_b2 s) (log s ++ [Found c2 c3 x_s]) in
  match x_s with
  | [x] =>
      match lookup (a, x) (conv s) with
      | None => (Raise (KeyError (a, x)), s)
      | Some r_a =>
          match lookup (b, x) (conv s) with
          | None => (Raise (KeyError (b, x)), s)
          | Some r_b =>
              match r_a, r_b with
              | Some q_a, Some q_b =>
                  let v := (q_a * q_b)%Qc in
                  let s1 := mkState (setitem (a, b) (Some v) (conv s)) (updated s)
                                    (var_b2 s) (log s) in
                  match var_b2 s1 with
                  | None => (Raise UnboundLocalError, s1)
                  | Some b2 =>
                      let s2 := mkState (conv s1) (updated s1) (var_b2 s1)
                                        (log s1 ++ [Compute a b2 v x b]) in
                      match truediv 1 v with
                      | inl e => (Raise e, s2)
                      | inr w =>
                          (Return true,
                           mkState (setitem (b, a) (Some w) (conv s2)) (updated s2)
                                   (var_b2 s2) (log s2))
                      end
                  end
              | _, _ => (Raise TypeError, s)
              end
          end
      end
  | _ => (Raise ValueError, s)
  end.

(** The second pass, lines 166-180: three nested loops over the dictionary,
    left at the first triple that passes the tests. *)
Definition two_hop (s : State) : option (completion bool * State) :=
  let d := conv s in
  first (fun e1 : Pair * Ratio =>
    let '((a, b), r) := e1 in
    if is_None r then
      first (fun e2 : Pair * Ratio =>
        let '(c2, r2) := e2 in
        if truthy r2 && in_pair a c2 then
          first (fun e3 : Pair * Ratio =>
            let '(c3, r3) := e3 in
            if negb (pair_eqb c2 c3) && truthy r3 && in_pair b c3
               && nonempty (intersection c2 c3)
            then Some (escalate a b c2 c3 s)
            else None) d
        else None) d
    else None) d.

(** [sorted( names )] on strings (the order of [str]: code point by code
    point), as an insertion sort. *)
Fixpoint insert_sorted (x : string) (l : list string) : list string :=
  match l with
  | [] => [x]
  | y :: l' => if String.leb x y then x :: l else y :: insert_sorted x l'
  end.

Definition sorted (l : list string) : list string :=
  fold_right insert_sorted [] l.

(** Modelled from the spec: [commas( seq, final='and' )] of [slip39/util.py],
    a file that is not among the sources.  The unresolvable scenario of the
    spec (section 8) and the test of it show what it makes of a list of
    names: "BTC/ETH, BTC/USD and ETH/USD"; for no name at all it gives the
    empty string, which line 186 tests. *)
Fixpoint commas_and (l : list string) : string :=
  match l with
  | [] => ""
  | [x] => x
  | [x; y] => x ++ " and " ++ y
  | x :: (_ :: _ :: _) as rest => x ++ ", " ++ commas_and rest
  end.

(** [f'{a}/{b}'] *)
Definition pair_name (c : Pair) : string := fst c ++ "/" ++ snd c.

(** Line 185: the names of the pairs still mapped to [None]. *)
Definition unknown_names (d : Conversions) : list string :=
  map (fun e => pair_name (fst e)) (filter (fun e => is_None (snd e)) d).

(** Line 188: the names of the pairs with [r and r > 1]. *)
Definition resolved_names (d : Conversions) : list string :=
  map (fun e => pair_name (fst e))
      (filter (fun e => match snd e with
                        | Some q => nonzero q && gt q 1
                        | None => false
                        end) d).

Definition remains (d : Conversions) : string := commas_and (sorted (unknown_names d)).
Definition resolved (d : Conversions) : string := commas_and (sorted (resolved_names d)).

(** Line 189 *)
Definition failure_message (d : Conversions) : string :=
  "Failed to find ratio(s) for " ++ remains d ++ " via " ++ resolved d.

(** What [conversions_remaining] returns: [True], [False] or the message. *)
Inductive Value : Type :=
| Bool (b : bool)
| Str (msg : string).

(** [bool( v )] of a returned value, as the callers' [while] tests it. *)
Definition truth (v : Value) : bool :=
  match v with
  | Bool b => b
  | Str msg => negb (msg =? "")
  end.

(** A call seen from outside: its result, the dictionary as the call leaves it
    (it is changed in place, also when the call raises), and what was logged. *)
Record Outcome : Type := mkOutcome {
  result : completion Value;
  dict : Conversions;
  records : list LogRecord
}.

(** [conversions_remaining( conversions, verify )], lines 126-193. *)
Definition conversions_remaining (conversions : Conversions) (verify : bool) : Outcome :=
  match single_hop conversions (start conversions) with
  | (Raise e, s) => mkOutcome (Raise e) (conv s) (log s)
  | (Return _, s) =>
      if updated s then mkOutcome (Return (Bool true)) (conv s) (log s)
      else
        match two_hop s with
        | Some (Return b, s') => mkOutcome (Return (Bool b)) (conv s') (log s')
        | Some (Raise e, s') => mkOutcome (Raise e) (conv s') (log s')
        | None =>
            if remains (conv s) =? "" then mkOutcome (Return (Bool false)) (conv s) (log s)
            else
              let msg := failure_message (conv s) in
              if verify then mkOutcome (Raise (RuntimeError msg)) (conv s) (log s)
              else mkOutcome (Return (Str msg)) (conv s) (log s ++ [Failed msg])
        end
  end.

(** The loop the callers put around it (lines 374 and 403; the test's
    [while conversions_remaining( c, verify=True )]): call again while the
    call returns [True].  [fuel] bounds the number of calls; [None] is a run
    that needs more. *)
Fixpoint resolve (fuel : nat) (verify : bool) (d : Conversions) : option Outcome :=
  match fuel with
  | O => None
  | S fuel' =>
      let o := conversions_remaining d verify in
      match result o with
      | Return (Bool true) => resolve fuel' verify (dict o)
      | _ => Some o
      end
  end.

End Conv.

(** ** Line items *)

Module Line.

Import Py.

(** The dataclass [Item], lines 72-79. *)
Record LineItem : Type := mkLineItem {
  description : string;
  price : Qc;
  units : Qc;
  tax : option Qc;
  decimals : option Z;
  currency : option string
}.

Section Net.
(** [f"{round( float( p ), 2 ):g}"]: the text of a percentage.  It goes
    through [float] formatting, which is left open here. *)
Variable percent : Qc -> string.

(** [LineItem.net], lines 83-100: the amount, the taxes and the tax text.
    [amount / self.tax] divides by a number above 1. *)
Definition net (self : LineItem) : Qc * Qc * string :=
  let amount := (units self * price self)%Qc in
  match tax self with
  | Some t =>
      if nonzero t then
        if lt t 1 then
          let taxes := (amount * t)%Qc in
          ((amount + taxes)%Qc, taxes, (percent (t * Q2Qc 100)%Qc ++ "% added")%string)
        else if gt t 1 then
          (amount, (amount - amount / t)%Qc, (percent ((t - 1) * Q2Qc 100)%Qc ++ "% incl.")%string)
        else (amount, Q2Qc 0, "no tax")
      else (amount, Q2Qc 0, "no tax")
  | None => (amount, Q2Qc 0, "no tax")
  end.
End Net.

(** The no-tax result: taxes 0 and the text "no tax". *)
Definition no_tax_result (r : Qc * Qc * string) : Prop :=
  snd (fst r) = Q2Qc 0 /\ snd r = "no tax".

End Line.

(** ** Invoices *)

Module Inv.

Import Py Conv Line.

(** What [tokeninfo] tells of a currency ([.ethereum.TokenInfo]). *)
Record TokenInfo : Type := mkTokenInfo {
  name : string;
  symbol : Symbol;
  token_decimals : Z
}.

(** [round( x )] of a [Fraction]: to the nearest integer, a half to the even one. *)
Definition round_half_even (x : Qc) : Z :=
  let n := Qnum (this x) in
  let d := Zpos (Qden (this x)) in
  let floor := (n / d)%Z in
  let remainder := (n mod d)%Z in
  if (remainder * 2 <? d)%Z then floor
  else if (d <? remainder * 2)%Z then (floor + 1)%Z
  else if Z.even floor then floor
  else (floor + 1)%Z.

(** [round( x, ndigits )] of a [Fraction]. *)
Definition round (x : Qc) (ndigits : Z) : Qc :=
  let shift := (10 ^ Z.abs ndigits)%Z in
  if (0 <? ndigits)%Z
  then (Q2Qc (inject_Z (round_half_even (x * Q2Qc (inject_Z shift))%Qc)) / Q2Qc (inject_Z shift))%Qc
  else Q2Qc (inject_Z (round_half_even (x / Q2Qc (inject_Z shift))%Qc * shift)).

(** One tuple of [Invoice.__iter__], lines 480-498. *)
Record Row : Type := mkRow {
  row_i : nat;
  row_description : string;
  row_units : Qc;
  row_price : Qc;
  row_tax : option Qc;
  row_taxinf : string;
  row_taxes : Qc;
  row_net : Qc;
  row_amount : Qc;
  row_currency : string;
  row_symbol : Symbol;
  row_decimals : Z;
  row_token : TokenInfo;
  row_totals : list Qc;      (* tot[c] for c in sorted( self.currencies ) *)
  row_taxtotals : list Qc    (* tax[c] for c in sorted( self.currencies ) *)
}.

(** The fields of an [Invoice] that rows and pages are made from;
    [currencies] lists the elements of the set [self.currencies]. *)
Record Invoice : Type := mkInvoice {
  lines : list LineItem;
  currencies : list Symbol;
  conversions : Conversions
}.

(** The [page] argument of [Invoice.pages]: [None], an object with
    [__contains__] (seen through its membership test), or anything else,
    compared with [==]. *)
Inductive PageFilter : Type :=
| AllPages
| PagesIn (contains : nat -> bool)
| PageIs (page : Z).

Section Invoice.
Variable percent : Qc -> string.
(** [..defaults.INVOICE_CURRENCY] and [..defaults.INVOICE_ROWS] *)
Variable INVOICE_CURRENCY : string.
Variable INVOICE_ROWS : Z.
(** [.ethereum.tokeninfo], an exception of it as the [exn]. *)
Variable tokeninfo : string -> exn + TokenInfo.

(** [sorted( self.currencies )] *)
Definition sorted_currencies (self : Invoice) : list Symbol :=
  sorted (nodup string_dec (currencies self)).

(** [sums[c] += x] on one of the dictionaries [tot] and [tax].  Both are
    keyed by the currencies of the invoice and only ever read at those, so
    they are taken as functions of the currency. *)
Definition add_at (sums : Symbol -> Qc) (c : Symbol) (x : Qc) : Symbol -> Qc :=
  fun c' => if c' =? c then (sums c' + x)%Qc else sums c'.

(** The loop of lines 473-479 over the currencies [cs] still to come, for a
    line in the currency [line_symbol]. *)
Fixpoint add_line (self : Invoice) (line_symbol : Symbol) (line_amount line_taxes : Qc)
         (cs : list Symbol) (tot tax : Symbol -> Qc)
  : exn + ((Symbol -> Qc) * (Symbol -> Qc)) :=
  match cs with
  | [] => inr (tot, tax)
  | c :: cs' =>
      if line_symbol =? c then
        add_line self line_symbol line_amount line_taxes cs'
                 (add_at tot c line_amount) (add_at tax c line_taxes)
      else
        match lookup (line_symbol, c) (conversions self) with
        | None => inl (KeyError (line_symbol, c))
        | Some None => inl TypeError
        | Some (Some ratio) =>
            add_line self line_symbol line_amount line_taxes cs'
                     (add_at tot c (line_amount * ratio)%Qc)
                     (add_at tax c (line_taxes * ratio)%Qc)
        end
  end.

(** [line.currency or INVOICE_CURRENCY] *)
Definition currency_of (line : LineItem) : string :=
  match currency line with
  | Some c => if c =? "" then INVOICE_CURRENCY else c
  | None => INVOICE_CURRENCY
  end.

(** The body of the loop of [Invoice.__iter__], lines 462-498, for line
    number [i]: the row it yields and the two dictionaries after it. *)
Definition line_row (self : Invoice) (i : nat) (line : LineItem)
           (tot tax : Symbol -> Qc) : exn + (Row * (Symbol -> Qc) * (Symbol -> Qc)) :=
  let line_currency := currency_of line in
  let '(line_amount, line_taxes, line_taxinf) := net percent line in
  match tokeninfo line_currency with
  | inl e => inl e
  | inr line_curr =>
      let line_symbol := symbol line_curr in
      let line_decimals :=
        match decimals line with
        | None => (token_decimals line_curr / 3)%Z
        | Some d => d
        end in
      let line_amount := round line_amount line_decimals in
      let line_taxes := round line_taxes line_decimals in
      let line_net := (line_amount - line_taxes)%Qc in
      let cs := nodup string_dec (currencies self) in
      match add_line self line_symbol line_amount line_taxes cs tot tax with
      | inl e => inl e
      | inr (tot', tax') =>
          inr (mkRow i (description line) (units line) (price line) (Line.tax line)
                     line_taxinf line_taxes line_net line_amount line_currency
                     line_symbol line_decimals line_curr
                     (map tot' (sorted_currencies self))
                     (map tax' (sorted_currencies self)),
               tot', tax')
      end
  end.

(** The generator's loop from line number [i] on: the rows it yields, and
    the exception that ends it early, if one does. *)
Fixpoint rows_from (self : Invoice) (i : nat) (ls : list LineItem)
         (tot tax : Symbol -> Qc) : list Row * option exn :=
  match ls with
  | [] => ([], None)
  | line :: ls' =>
      match line_row self i line tot tax with
      | inl e => ([], Some e)
      | inr (row, tot', tax') =>
          let '(rows, e) := rows_from self (S i) ls' tot' tax' in
          (row :: rows, e)
      end
  end.

(** [Invoice.__iter__], lines 437-498.  The sums [tot] and [tax] start at
    the float [0.] in the code (lines 454-459), which makes floats of all
    that is added to them; here they are exact rationals that start at 0,
    as every number of this development is. *)
Definition iter (self : Invoice) : list Row * option exn :=
  rows_from self 0 (lines self) (fun _ => Q2Qc 0) (fun _ => Q2Qc 0).

(** [page_match], lines 512-517 *)
Definition page_match (page : PageFilter) (i : nat) : bool :=
  match page with
  | AllPages => true
  | PagesIn contains => contains i
  | PageIs p => (Z.of_nat i =? p)%Z
  end.

(** The loop of [Invoice.pages], lines 519-527, over the rows still to come. *)
Fixpoint pages_loop {A : Type} (page : PageFilter) (rows : Z) (it : list A)
         (page_i : nat) (page_l : list A) : list (list A) :=
  match it with
  | [] => if nonempty page_l && page_match page page_i then [page_l] else []
  | row :: it' =>
      let page_l := page_l ++ [row] in
      if (rows <=? Z.of_nat (List.length page_l))%Z
      then (if page_match page page_i then [page_l] else [])
             ++ pages_loop page rows it' (S page_i) []
      else pages_loop page rows it' page_i page_l
  end.

(** [Invoice.pages( page, rows )] over the rows of an iteration that ends
    without an exception. *)
Definition pages_of {A : Type} (page : PageFilter) (rows : option Z) (it : list A)
  : list (list A) :=
  let rows := match rows with
              | None => INVOICE_ROWS
              | Some n => n
              end in
  pages_loop page rows it 0 [].

(** The same loop over the rows that an iteration yields before it raises:
    the exception leaves the loop, and line 526 is not reached. *)
Fixpoint pages_cut {A : Type} (page : PageFilter) (rows : Z) (it : list A)
         (page_i : nat) (page_l : list A) : list (list A) :=
  match it with
  | [] => []
  | row :: it' =>
      let page_l := page_l ++ [row] in
      if (rows <=? Z.of_nat (List.length page_l))%Z
      then (if page_match page page_i then [page_l] else [])
             ++ pages_cut page rows it' (S page_i) []
      else pages_cut page rows it' page_i page_l
  end.

(** [Invoice.pages( page, rows )], lines 500-527: the pages the generator
    yields, and the exception of the iteration that ends it, if one does. *)
Definition pages (self : Invoice) (page : PageFilter) (rows : option Z)
  : list (list Row) * option exn :=
  match iter self with
  | (all_rows, None) => (pages_of page rows all_rows, None)
  | (seen, Some e) =>
      (pages_cut page (match rows with
                       | None => INVOICE_ROWS
                       | Some n => n
                       end) seen 0 [],
       Some e)
  end.

(** What the properties of the totals speak of: the symbol of a line with its
    amount and its taxes rounded to the line's decimals ([None] when
    [tokeninfo] knows no such currency), ... *)
Definition rounded (line : LineItem) : option (Symbol * Qc * Qc) :=
  match tokeninfo (currency_of line) with
  | inl _ => None
  | inr line_curr =>
      let line_decimals :=
        match decimals line with
        | None => (token_decimals line_curr / 3)%Z
        | Some d => d
        end in
      let '(line_amount, line_taxes, _) := net percent line in
      Some (symbol line_curr, round line_amount line_decimals,
            round line_taxes line_decimals)
  end.

(** ... an amount in the currency [line_symbol] taken to the currency [c] at
    the ratio the invoice holds for the pair, or as it is when the two are
    the same, ... *)
Definition at_ratio (self : Invoice) (line_symbol : Symbol) (amount : Qc) (c : Symbol)
  : Qc :=
  if line_symbol =? c then amount
  else (amount * match get (line_symbol, c) (conversions self) with
                 | Some ratio => ratio
                 | None => Q2Qc 0
                 end)%Qc.

(** ... and the sum of that over the lines, for the amounts and for the taxes. *)
Definition sum_amounts (self : Invoice) (c : Symbol) (ls : list LineItem) : Qc :=
  fold_right (fun line acc =>
                (match rounded line with
                 | Some (line_symbol, amount, _) => at_ratio self line_symbol amount c
                 | None => Q2Qc 0
                 end + acc)%Qc) (Q2Qc 0) ls.

Definition sum_taxes (self : Invoice) (c : Symbol) (ls : list LineItem) : Qc :=
  fold_right (fun line acc =>
                (match rounded line with
                 | Some (line_symbol, _, taxes) => at_ratio self line_symbol taxes c
                 | None => Q2Qc 0
                 end + acc)%Qc) (Q2Qc 0) ls.
End Invoice.

(** Units, price and tax of a line are not negative. *)
Definition nonneg_item (line : LineItem) : Prop :=
  (Q2Qc 0 <= units line)%Qc /\ (Q2Qc 0 <= price line)%Qc
  /\ forall t : Qc, tax line = Some t -> (Q2Qc 0 <= t)%Qc.

(** The known ratios of an invoice are not negative (section 3 of the spec:
    a ratio is a positive or zero number). *)
Definition nonneg_ratios (self : Invoice) : Prop :=
  forall (k : Pair) (r : Qc),
    lookup k (conversions self) = Some (Some r) -> (Q2Qc 0 <= r)%Qc.

(** The running sums of a row are at most those of the next one, currency by
    currency. *)
Definition totals_le (row next : Row) : Prop :=
  Forall2 Qcle (row_totals row) (row_totals next)
  /\ Forall2 Qcle (row_taxtotals row) (row_taxtotals next).

(** [enumerate( l )]: the items with their numbers, from 0. *)
Definition enumerate {A : Type} (batches : list A) : list (nat * A) :=
  combine (seq 0 (List.length batches)) batches.

End Inv.

(** ** What the properties are stated with

    The deduction rules as section 4.1 of the spec states them ([step],
    [saturated]), which do not come from the code and are what the code is
    compared with, and the notions and checks the statements below need. *)

Module Deduction.

Import Py Conv.

(** The pair [k] has a known ratio (zero included). *)
Definition known (d : Conversions) (k : Pair) : Prop :=
  exists q : Qc, lookup k d = Some (Some q).

(** The pair [k] is wanted: present and mapped to [None]. *)
Definition unknown (d : Conversions) (k : Pair) : Prop :=
  lookup k d = Some None.

(** No pair is mapped to [None]. *)
Definition no_unknown (d : Conversions) : Prop :=
  forall k : Pair, ~ unknown d k.

(** One deduction: the inverse of a known non-zero ratio, or the product of
    two known ratios that share their middle symbol, written to a pair that
    is absent or mapped to [None]. *)
Inductive step (d : Conversions) : Conversions -> Prop :=
| step_inversion (a b : Symbol) (q : Qc) :
    lookup (a, b) d = Some (Some q) ->
    q <> Q2Qc 0 ->
    is_None (get (b, a) d) = true ->
    step d (setitem (b, a) (Some (1 / q)%Qc) d)
| step_composition (a b c : Symbol) (q q2 : Qc) :
    lookup (a, b) d = Some (Some q) ->
    lookup (b, c) d = Some (Some q2) ->
    a <> c ->
    is_None (get (a, c) d) = true ->
    step d (setitem (a, c) (Some (q * q2)%Qc) d).

(** Any number of deductions, one after the other. *)
Inductive steps (d : Conversions) : Conversions -> Prop :=
| steps_refl : steps d d
| steps_step (d1 d2 : Conversions) : steps d d1 -> step d1 d2 -> steps d d2.

(** Nothing is left to deduce by inversion or single-hop composition. *)
Definition saturated (d : Conversions) : Prop :=
  (forall (a b : Symbol) (q : Qc),
      lookup (a, b) d = Some (Some q) -> q <> Q2Qc 0 -> known d (b, a))
  /\ (forall (a b c : Symbol) (q q2 : Qc),
        lookup (a, b) d = Some (Some q) -> lookup (b, c) d = Some (Some q2) ->
        a <> c -> known d (a, c)).

(** The known ratios agree with one valuation [worth] of the symbols: the
    ratio of [(a, b)] is [worth a / worth b]. *)
Definition priced_by (worth : Symbol -> Qc) (d : Conversions) : Prop :=
  forall (a b : Symbol) (r : Qc),
    lookup (a, b) d = Some (Some r) ->
    worth b <> Q2Qc 0 /\ (r * worth b)%Qc = worth a.

(** Every known ratio from or to [a] is zero: [a] is a worthless token. *)
Definition worthless (d : Conversions) (a : Symbol) : Prop :=
  forall (x : Symbol) (q : Qc),
    lookup (a, x) d = Some (Some q) \/ lookup (x, a) d = Some (Some q) -> q = Q2Qc 0.

(** The inner loop of the first pass has nothing to write for [(a, b)]. *)
Definition quiet (a b : Symbol) (snapshot d : Conversions) : Prop :=
  forall (a2 b2 : Symbol) (q2 : Qc),
    In ((a2, b2), Some q2) snapshot -> b = a2 -> a <> b2 -> known d (a, b2).

(** The first pass has nothing to write for the entries of [snapshot]. *)
Definition calm (snapshot d : Conversions) : Prop :=
  forall (a b : Symbol) (q : Qc),
    In ((a, b), Some q) snapshot ->
    (q <> Q2Qc 0 -> known d (b, a)) /\ quiet a b d d.

(** What lines 185-193 give for a dictionary the two passes leave alone. *)
Definition settled (d : Conversions) (verify : bool) : Outcome :=
  if remains d =? "" then mkOutcome (Return (Bool false)) d []
  else if verify then mkOutcome (Raise (RuntimeError (failure_message d))) d []
       else mkOutcome (Return (Str (failure_message d))) d [Failed (failure_message d)].

(** [name] occurs in [text]. *)
Fixpoint mentions (text name : string) : bool :=
  String.prefix name text
  || match text with
     | EmptyString => false
     | String _ text' => mentions text' name
     end.

(** The symbols of the keys of a dictionary. *)
Definition symbols (d : Conversions) : list Symbol :=
  flat_map (fun e : Pair * Ratio => [fst (fst e); snd (fst e)]) d.

(** Every key of [d] is a pair of symbols of [syms]. *)
Definition within (syms : list Symbol) (d : Conversions) : Prop :=
  forall a b : Symbol, lookup (a, b) d <> None -> In a syms /\ In b syms.

(** How many pairs of the symbols in [syms] have no known ratio in [d]: what
    the loop around [conversions_remaining] still has to gain. *)
Definition missing (syms : list Symbol) (d : Conversions) : nat :=
  List.length (filter (fun k => is_None (get k d)) (list_prod syms syms)).

(** The distinct symbols of the keys of a dictionary, and a bound on the
    calls the loop makes on [d]: the square of their number, and one. *)
Definition distinct_symbols (d : Conversions) : list Symbol :=
  nodup string_dec (symbols d).

Definition enough_calls (d : Conversions) : nat :=
  List.length (distinct_symbols d) * List.length (distinct_symbols d) + 1.


(** Two dictionaries hold the same entries in the same order, as a check
    that runs. *)
Definition ratio_eqb (r r' : Ratio) : bool :=
  match r, r' with
  | Some q, Some q' => Qc_eq_bool q q'
  | None, None => true
  | _, _ => false
  end.

Fixpoint conv_eqb (d d' : Conversions) : bool :=
  match d, d' with
  | [], [] => true
  | (k, r) :: d, (k', r') :: d' => pair_eqb k k' && ratio_eqb r r' && conv_eqb d d'
  | _, _ => false
  end.

(** The keys of a dictionary are distinct, as a check that runs. *)
Fixpoint distinct_keys (ks : list Pair) : bool :=
  match ks with
  | [] => true
  | k :: ks' => negb (existsb (pair_eqb k) ks') && distinct_keys ks'
  end.

End Deduction.

(** ** Inputs used as examples *)

Module Examples.

Import Py Conv Line Inv.

Definition ratio (n : Z) (d : positive) : Ratio := Some (Q2Qc (n # d)).

(** A line of 100 units at price 1, taxed 0.05 on top. *)
Definition item_added : LineItem :=
  mkLineItem "Widgets" (Q2Qc 1) (Q2Qc 100) (Some (Q2Qc (5 # 100))) None None.

(** The same line with the tax 1.05, included in the price. *)
Definition item_included : LineItem :=
  mkLineItem "Widgets" (Q2Qc 1) (Q2Qc 100) (Some (Q2Qc (105 # 100))) None None.

(** The same line with a tax of exactly 1. *)
Definition item_tax_one : LineItem :=
  mkLineItem "Widgets" (Q2Qc 1) (Q2Qc 100) (Some (Q2Qc 1)) None None.

(** The test's [c1]: two ratios known, their cross ratio wanted. *)
Definition c1 : Conversions :=
  [ (("ETH", "USD"), ratio 123456 100);
    (("BTC", "USD"), ratio 2345678 100);
    (("BTC", "ETH"), None) ].

(** The third call of the loop on [c1], the one that returns [False]. *)
Definition c1_outcome : Outcome :=
  conversions_remaining
    (dict (conversions_remaining (dict (conversions_remaining c1 false)) false)) false.


(** The bridge scenario of section 8: [c1] with DOGE priced in BTC and
    wanted in USD. *)
Definition c_doge : Conversions :=
  [ (("ETH", "USD"), ratio 123456 100);
    (("BTC", "USD"), ratio 2345678 100);
    (("BTC", "ETH"), None);
    (("DOGE", "BTC"), ratio 385 100000000);
    (("DOGE", "USD"), None) ].

(** The unresolvable scenario of section 8. *)
Definition c_bad : Conversions :=
  [ (("ETH", "USD"), ratio 123456 100);
    (("BTC", "USD"), ratio 2345678 100);
    (("DOGE", "USD"), None) ].

(** [c_bad] once nothing more can be deduced. *)
Definition c_bad_done : Conversions :=
  [ (("ETH", "USD"), ratio 123456 100);
    (("BTC", "USD"), ratio 2345678 100);
    (("DOGE", "USD"), None);
    (("USD", "ETH"), ratio 100 123456);
    (("USD", "BTC"), ratio 100 2345678);
    (("BTC", "ETH"), ratio 2345678 123456);
    (("ETH", "BTC"), ratio 123456 2345678) ].

(** Two worthless tokens priced in ETH, their cross ratio wanted. *)
Definition c_zero : Conversions :=
  [ (("WEENUS", "ETH"), ratio 0 1);
    (("ZEENUS", "ETH"), ratio 0 1);
    (("ZEENUS", "WEENUS"), None) ].

(** One known ratio and nothing wanted. *)
Definition c_one : Conversions := [ (("A", "B"), ratio 2 1) ].

(** A ratio and its inverse. *)
Definition c_both : Conversions :=
  [ (("A", "B"), ratio 2 1); (("B", "A"), ratio 1 2) ].


(** A zero ratio [A/B], with [A/C] wanted and [C/A] supplied. *)
Definition c_early : Conversions :=
  [ (("C", "A"), ratio 2 1);
    (("A", "B"), ratio 0 1);
    (("B", "C"), ratio 5 1);
    (("A", "C"), None) ].

(** A worthless token [A] priced in [B], with [A/C] wanted. *)
Definition c_worthless : Conversions :=
  [ (("A", "B"), ratio 0 1);
    (("B", "C"), ratio 5 1);
    (("A", "C"), None) ].

(** A pair resolved at the ratio 1 in both directions, and a pair wanted. *)
Definition c_par : Conversions :=
  [ (("A", "B"), ratio 1 1); (("B", "A"), ratio 1 1); (("C", "D"), None) ].

(** A wanted pair of a symbol with itself. *)
Definition c_self : Conversions :=
  [ (("A", "A"), None); (("A", "X"), ratio 2 1); (("X", "A"), ratio 1 2) ].

(** A rendering of percentages to run the examples with. *)
Definition percent_plain (p : Qc) : string := "5".

(** A [tokeninfo] that knows two currencies. *)
Definition tokens (name : string) : exn + TokenInfo :=
  if name =? "USD" then inr (mkTokenInfo "USD Coin" "USD" 6)
  else if name =? "ETH" then inr (mkTokenInfo "Ethereum" "ETH" 18)
  else inl (LookupError name).

(** An invoice of two lines, one in USD and one in ETH, totalled in both. *)
Definition invoice : Invoice :=
  mkInvoice
    [ mkLineItem "Widgets for the Thing" (Q2Qc (201 # 100)) (Q2Qc 198)
                 (Some (Q2Qc (5 # 100))) None None;
      mkLineItem "More Widgets" (Q2Qc (201 # 100000)) (Q2Qc 2500)
                 (Some (Q2Qc (5 # 100))) None (Some "ETH") ]
    [ "USD"; "ETH" ]
    [ (("ETH", "USD"), ratio 123456 100);
      (("USD", "ETH"), ratio 100 123456) ].

(** The same invoice with a negative ratio supplied for ETH/USD. *)
Definition invoice_negative : Invoice :=
  mkInvoice (lines invoice) [ "USD"; "ETH" ]
            [ (("ETH", "USD"), ratio (-123456) 100);
              (("USD", "ETH"), ratio 100 123456) ].


End Examples.

(** ** Further exceptions

    The functions below raise two more kinds of exception than those of
    [Py.exn]. *)

Module Raised.

Inductive error : Type :=
| Exn (e : Py.exn)
| AttributeError (attribute : string)
| AssertionError
| IndexError.

(** An exception of the first kind, raised where the second is expected. *)
Definition lift {A : Type} (x : Py.exn + A) : error + A :=
  match x with
  | inl e => inl (Exn e)
  | inr a => inr a
  end.

(** One statement after the other: the second runs when the first did not
    raise. *)
Definition bind {A B : Type} (x : error + A) (f : A -> error + B) : error + B :=
  match x with
  | inl e => inl e
  | inr a => f a
  end.

(** A comprehension [f( x ) for x in l], left at the first exception. *)
Fixpoint mapM {A B : Type} (f : A -> error + B) (l : list A) : error + list B :=
  match l with
  | [] => inr []
  | x :: l' => bind (f x) (fun y => bind (mapM f l') (fun ys => inr (y :: ys)))
  end.

(** [l[i]] for an index from 0 up. *)
Definition getitem {A : Type} (l : list A) (i : nat) : error + A :=
  match nth_error l i with
  | Some x => inr x
  | None => inl IndexError
  end.

End Raised.

(** ** The table of conversions *)

Module Table.

Import Py Conv.

(** A cell of the rows handed to [tabulate]. *)
Inductive Cell : Type :=
| Label (s : Symbol)   (* the symbol that starts a row *)
| One                  (* the integer 1 *)
| Blank                (* the empty string *)
| Held (r : Ratio).    (* a value of the dictionary; [None] is shown as "?" *)

(** [sorted( set( sum( conversions.keys(), () )))] *)
Definition default_symbols (conversions : Conversions) : list Symbol :=
  sorted (nodup string_dec (Deduction.symbols conversions)).

(** Line 113: the cell of row [r] under column [c]. *)
Definition cell (conversions : Conversions) (r c : Symbol) : Cell :=
  if r =? c then One
  else match lookup (r, c) conversions with
       | None => Blank
       | Some v => Held v
       end.

(** Lines 111-117: the rows. *)
Definition table_rows (conversions : Conversions) (symbols : list Symbol)
  : list (list Cell) :=
  map (fun r => Label r :: map (cell conversions r) symbols) symbols.

Section ConversionsTable.
(** [tabulate.tabulate] with the formats of lines 119-122, which are constants. *)
Variable tabulate : list (list Cell) -> list string -> string.

(** [conversions_table( conversions, symbols )], lines 103-123. *)
Definition conversions_table (conversions : Conversions) (symbols : option (list Symbol))
  : string :=
  let symbols := match symbols with
                 | None => default_symbols conversions
                 | Some given => given
                 end in
  tabulate (table_rows conversions symbols) ("Symbol" :: symbols).
End ConversionsTable.

(** Reading a table: [l.index( x )], and the cell of the row of [a] under the
    column headed [b]. *)
Fixpoint index (x : string) (l : list string) : option nat :=
  match l with
  | [] => None
  | y :: l' => if x =? y then Some 0
               else match index x l' with
                    | Some i => Some (S i)
                    | None => None
                    end
  end.

Definition read (headers : list string) (rows : list (list Cell)) (a b : Symbol)
  : option Cell :=
  match index a (tl headers), index b (tl headers) with
  | Some i, Some j =>
      match nth_error rows i with
      | Some row => nth_error row (S j)
      | None => None
      end
  | _, _ => None
  end.

End Table.

(** ** Dates *)

Module Dates.

Import Py Raised.

Local Open Scope Z_scope.

(** [calendar.isleap] and the days of a month ([calendar.mdays], with the
    29th of February), as the standard library has them. *)
Definition isleap (year : Z) : bool :=
  (year mod 4 =? 0) && (negb (year mod 100 =? 0) || (year mod 400 =? 0)).

Definition mdays (month : Z) : Z :=
  match month with
  | 1 => 31 | 2 => 28 | 3 => 31 | 4 => 30 | 5 => 31 | 6 => 30
  | 7 => 31 | 8 => 31 | 9 => 30 | 10 => 31 | 11 => 30 | 12 => 31
  | _ => 0
  end.

Definition days_in_month (year month : Z) : Z :=
  mdays month + (if (month =? 2) && isleap year then 1 else 0).

(** [calendar.monthrange( year, month )[1]]: a month outside 1..12 raises
    [IllegalMonthError], a [ValueError]. *)
Definition monthrange (year month : Z) : exn + Z :=
  if (1 <=? month) && (month <=? 12) then inr (days_in_month year month)
  else inl ValueError.

Section DateTime.
(** The time of day and the zone of a [datetime], which [replace] keeps. *)
Variable Clock : Type.

Record datetime : Type := mkDatetime {
  year : Z;
  month : Z;
  day : Z;
  clock : Clock
}.

(** The dates a [datetime] can hold: [replace] raises [ValueError] on others. *)
Definition valid (y m d : Z) : bool :=
  (1 <=? y) && (y <=? 9999) && (1 <=? m) && (m <=? 12)
  && (1 <=? d) && (d <=? days_in_month y m).

Definition replace (dt : datetime) (y m d : Z) : error + datetime :=
  if valid y m d then inr (mkDatetime y m d (clock dt)) else inl (Exn ValueError).

Definition replace_day (d : Z) (dt : datetime) : error + datetime :=
  replace dt (year dt) (month dt) d.
Definition replace_year (y : Z) (dt : datetime) : error + datetime :=
  replace dt y (month dt) (day dt).
Definition replace_month (m : Z) (dt : datetime) : error + datetime :=
  replace dt (year dt) m (day dt).

(** [dt + timedelta( days=.., hours=.., minutes=.., seconds=.. )], which is
    left to the standard library. *)
Variable plus_timedelta : datetime -> Z -> Z -> Z -> Z -> error + datetime.

(** [x or 0] and [bool( x )] for an argument that is [None] or an integer. *)
Definition or0 (x : option Z) : Z :=
  match x with
  | Some z => z
  | None => 0
  end.

Definition given (x : option Z) : bool :=
  match x with
  | Some z => negb (z =? 0)
  | None => false
  end.

(** [datetime_advance], lines 791-811. *)
Definition datetime_advance (dt : datetime)
           (years months days hours minutes seconds : option Z) : error + datetime :=
  bind
    (if given years || given months then
       let yr := year dt + or0 years in
       let mo := month dt + or0 months in
       let dy := day dt in
       bind
         (if 12 <? mo then
            let yr := yr + (mo - 1) / 12 in
            let mo := (mo - 1) mod 12 + 1 in
            if (1 <=? mo) && (mo <=? 12) then inr (yr, mo) else inl AssertionError
          else inr (yr, mo))
         (fun '(yr, mo) =>
            match monthrange yr mo with
            | inl e => inl (Exn e)
            | inr dy_max =>
                let dy := if dy_max <? dy then dy_max else dy in
                bind (replace_day 1 dt) (fun dt =>
                bind (replace_year yr dt) (fun dt =>
                bind (replace_month mo dt) (fun dt =>
                replace_day dy dt)))
            end)
     else inr dt)
    (fun dt =>
       if given days || given hours || given minutes || given seconds
       then plus_timedelta dt (or0 days) (or0 hours) (or0 minutes) (or0 seconds)
       else inr dt).

(** The months of a date, counted from the year 0. *)
Definition months_of (dt : datetime) : Z := 12 * year dt + (month dt - 1).

(** A date that a [datetime] can hold. *)
Definition well_formed (dt : datetime) : Prop :=
  valid (year dt) (month dt) (day dt) = true.
End DateTime.

Arguments mkDatetime {Clock} _ _ _ _.
Arguments year {Clock} _.
Arguments month {Clock} _.
Arguments day {Clock} _.
Arguments clock {Clock} _.
Arguments replace {Clock} _ _ _ _.
Arguments replace_day {Clock} _ _.
Arguments replace_year {Clock} _ _.
Arguments replace_month {Clock} _ _.
Arguments datetime_advance {Clock} _ _ _ _ _ _ _ _.
Arguments months_of {Clock} _.
Arguments well_formed {Clock} _.

End Dates.

(** ** String methods

    [str.lower], [str.strip] and [str.startswith] on texts of ASCII
    characters (a character outside ASCII is left as it is by [lower]). *)

Module PyStr.

Definition lower_ascii (c : ascii) : ascii :=
  let n := nat_of_ascii c in
  if ((65 <=? n) && (n <=? 90))%nat then ascii_of_nat (n + 32) else c.

Fixpoint lower (s : string) : string :=
  match s with
  | EmptyString => EmptyString
  | String c s' => String (lower_ascii c) (lower s')
  end.

Fixpoint lstrip (c : ascii) (s : string) : string :=
  match s with
  | EmptyString => EmptyString
  | String c' s' => if Ascii.eqb c' c then lstrip c s' else s
  end.

Fixpoint rstrip (c : ascii) (s : string) : string :=
  match s with
  | EmptyString => EmptyString
  | String c' s' =>
      match rstrip c s' with
      | EmptyString => if Ascii.eqb c' c then EmptyString else String c' EmptyString
      | t => String c' t
      end
  end.

(** [s.strip( c )] for a single character [c]. *)
Definition strip (c : ascii) (s : string) : string := rstrip c (lstrip c s).

Definition startswith (s p : string) : bool := String.prefix p s.

(** [f"{n}"] for an integer from 0 up. *)
Definition decimal (n : nat) : string := NilZero.string_of_uint (Nat.to_uint n).

End PyStr.

(** ** The headers and the tables of an invoice *)

Module Tables.

Import Py Raised Conv Line Inv.

(** A field of a row, or a cell handed to [tabulate]. *)
Inductive Cell : Type :=
| Nothing               (* None *)
| Int (n : Z)
| Num (q : Qc)
| Str (s : string)
| Token (t : TokenInfo).

(** The tuple of lines 480-498. *)
Definition row_tuple (r : Row) : list Cell :=
  [ Int (Z.of_nat (row_i r));
    Str (row_description r);
    Num (row_units r);
    Num (row_price r);
    match row_tax r with Some t => Num t | None => Nothing end;
    Str (row_taxinf r);
    Num (row_taxes r);
    Num (row_net r);
    Num (row_amount r);
    Str (row_currency r);
    Str (row_symbol r);
    Int (row_decimals r);
    Token (row_token r) ]
  ++ map Num (row_totals r)
  ++ map Num (row_taxtotals r).

(** [Invoice.headers], lines 412-435. *)
Definition headers (self : Invoice) : list string :=
  [ "_#"; "Description"; "Units"; "Price"; "_Tax"; "Tax %"; "Taxes"; "Net";
    "Amount"; "Currency"; "_Symbol"; "_Decimals"; "_Token" ]
  ++ map (fun currency => ("_Total " ++ currency)%string) (sorted_currencies self)
  ++ map (fun currency => ("_Taxes " ++ currency)%string) (sorted_currencies self).

(** [can], lines 551-553: a column name made canonical for comparison. *)
Definition can (c : string) : string := PyStr.lower (PyStr.strip "_" c).

(** The [columns] argument of [Invoice.tables]: nothing, a list or tuple of
    names, another container of names (seen through the names it holds), or
    a predicate. *)
Inductive Columns : Type :=
| NoColumns
| Listed (names : list string)
| Among (names : list string)
| Where (predicate : string -> bool).

(** [bool( columns )] *)
Definition chosen (columns : Columns) : bool :=
  match columns with
  | NoColumns => false
  | Listed names => nonempty names
  | Among names => nonempty names
  | Where _ => true
  end.

(** [l.index( x )], which raises [ValueError] for an [x] that is not in [l]. *)
Definition index (l : list string) (x : string) : error + nat :=
  match Table.index x l with
  | Some i => inr i
  | None => inl (Exn ValueError)
  end.

(** [tuple( i for i,h in enumerate( headers ) if keep( h ))] *)
Definition indices_where (keep : string -> bool) (headers : list string) : list nat :=
  map fst (filter (fun ih => keep (snd ih)) (enumerate headers)).

(** The same with the count starting at [s], for the proofs. *)
Definition indices_from (s : nat) (keep : string -> bool) (l : list string) : list nat :=
  map fst (filter (fun ih : nat * string => keep (snd ih))
                  (combine (seq s (List.length l)) l)).

(** Lines 555-571: the indices of the columns to show. *)
Definition select (headers : list string) (columns : Columns) : error + list nat :=
  let headers_can := map can headers in
  if chosen columns then
    match columns with
    | Listed names => mapM (fun c => index headers_can (can c)) names
    | Among names =>
        let selected :=
          indices_where (fun h => existsb (String.eqb (can h)) (map can names)) headers in
        if nonempty selected then inr selected else inl AssertionError
    | Where predicate => inr (indices_where predicate headers)
    | NoColumns => inr []
    end
  else inr (indices_where (fun h => negb (PyStr.startswith h "_")) headers).

(** What [tables] reads of an account ([slip39.api.Account]). *)
Record Account : Type := mkAccount {
  address : string;
  account_name : string;
  account_symbol : Symbol
}.

(** The two dictionaries of an [Invoice] that the sub-totals are made from:
    [self.currencies_account], where a currency without an account is
    mapped to [None], and [self.currencies_proxy]. *)
Record Payable : Type := mkPayable {
  currencies_account : list (Symbol * option Account);
  currencies_proxy : list (string * TokenInfo)
}.

(** The formats handed to [tabulate]: [floatfmt] is [f',.{decimals}f'] for
    the lines and [',g'] for the sums. *)
Inductive FloatFormat : Type :=
| Fixed (decimals : Z)
| General.

Record Format : Type := mkFormat {
  intfmt : string;
  floatfmt : FloatFormat;
  tablefmt : string
}.

(** [max( cells )] for cells that are integers. *)
Fixpoint max_int (cells : list Cell) : error + Z :=
  match cells with
  | [] => inl (Exn ValueError)
  | Int n :: [] => inr n
  | Int n :: cells' => bind (max_int cells') (fun m => inr (Z.max n m))
  | _ :: _ => inl (Exn TypeError)
  end.

(** [round( x, n )] and [x - y] on cells. *)
Definition round_cell (x : Cell) (n : Z) : error + Cell :=
  match x with
  | Num q => inr (Num (round q n))
  | Int z => inr (Int (Qnum (this (round (Q2Qc (inject_Z z)) n))))
  | _ => inl (Exn TypeError)
  end.

Definition minus_cell (x y : Cell) : error + Cell :=
  match x, y with
  | Num q, Num q' => inr (Num (q - q')%Qc)
  | _, _ => inl (Exn TypeError)
  end.

(** [page[-1]] *)
Definition last_row (page : list Row) : error + list Cell :=
  match List.rev page with
  | row :: _ => inr (row_tuple row)
  | [] => inl IndexError
  end.

(** What one round of the loop of [tables] yields, line 664. *)
Record Yield (Rendered : Type) : Type := mkYield {
  yield_page : list Row;
  yield_table : Rendered;
  yield_subtotal : Rendered;
  yield_total : Rendered
}.
Arguments mkYield {Rendered} _ _ _ _.
Arguments yield_page {Rendered} _.
Arguments yield_table {Rendered} _.
Arguments yield_subtotal {Rendered} _.
Arguments yield_total {Rendered} _.

Section Tabulate.
Variable percent : Qc -> string.
Variable INVOICE_CURRENCY : string.
Variable INVOICE_ROWS : Z.
Variable tokeninfo : string -> exn + TokenInfo.
(** [Account.supported] and [Account.CRYPTO_SYMBOLS] of [slip39.api]. *)
Variable supported : string -> exn + Symbol.
Variable CRYPTO_SYMBOLS : Symbol -> option string.
(** [tabulate.tabulate] and what it makes of rows, headers and formats. *)
Variable Rendered : Type.
Variable tabulate : list (list Cell) -> list string -> Format -> Rendered.

(** [cryptocurrency_known], lines 221-238 (the icon of the token is left
    out, as it is in [TokenInfo]). *)
Definition cryptocurrency_known (name : string) (decimals : option Z) : exn + TokenInfo :=
  match supported name with
  | inl e => inl e
  | inr symbol =>
      match CRYPTO_SYMBOLS symbol with
      | None => inl (LookupError symbol)
      | Some full_name =>
          inr (mkTokenInfo full_name symbol
                           (match decimals with
                            | None => 24
                            | Some d => d
                            end))
      end
  end.

(** [cryptocurrency_symbol], lines 196-206: only a [ValueError] of
    [Account.supported] leads on to the tokens. *)
Definition cryptocurrency_symbol (name : string) : exn + Symbol :=
  match supported name with
  | inr symbol => inr symbol
  | inl ValueError =>
      match tokeninfo name with
      | inr token => inr (symbol token)
      | inl e => inl e
      end
  | inl e => inl e
  end.

(** [cryptocurrency_proxy], lines 209-218. *)
Definition cryptocurrency_proxy (name : string) (decimals : option Z) : exn + TokenInfo :=
  match tokeninfo name with
  | inr token => inr token
  | inl _ => cryptocurrency_known name decimals
  end.

Section Pages.
Variable self : Invoice.
Variable payable : Payable.
Variable headers_can : list string.

(** [deci], lines 601-605 *)
Definition deci (c : Symbol) : error + Z :=
  match cryptocurrency_known c None with
  | inr known => inr (token_decimals known / 3)%Z
  | inl _ =>
      match Dict.lookup String.eqb c (currencies_proxy payable) with
      | Some proxy => inr (token_decimals proxy / 3)%Z
      | None => inl (Exn (LookupError c))
      end
  end.

(** [toti] and [taxi], lines 607-611 *)
Definition toti (c : Symbol) : error + nat := index headers_can (can ("_Total " ++ c)%string).
Definition taxi (c : Symbol) : error + nat := index headers_can (can ("_Taxes " ++ c)%string).

(** [self.currencies_account[c]], and an attribute of it: a currency without
    an account is mapped to [None], which has no attributes. *)
Definition account_of (c : Symbol) (attribute : string) : error + Account :=
  match Dict.lookup String.eqb c (currencies_account payable) with
  | None => inl (Exn (LookupError c))
  | Some None => inl (AttributeError attribute)
  | Some (Some account) => inr account
  end.

(** Lines 617-619 and 644-646: the account, the currency and its name. *)
Definition payee (c : Symbol) : error + list Cell :=
  bind (account_of c "address") (fun a1 =>
  bind (account_of c "symbol") (fun a2 =>
  bind (if c =? account_symbol a2
        then bind (account_of c "name") (fun a3 => inr (account_name a3))
        else match Dict.lookup String.eqb c (currencies_proxy payable) with
             | Some proxy => inr (name proxy)
             | None => inl (Exn (LookupError c))
             end) (fun currency_name =>
  inr [ Str (address a1); Str c; Str currency_name ]))).

(** [round( page[-1][at( c )], deci( c ))] *)
Definition rounded_at (at_ : Symbol -> error + nat) (page : list Row) (c : Symbol)
  : error + Cell :=
  bind (last_row page) (fun row =>
  bind (at_ c) (fun i =>
  bind (getitem row i) (fun x =>
  bind (deci c) (fun n =>
  round_cell x n)))).

(** [round( page[-1][at( c )] - page_prev[-1][at( c )], deci( c ))] *)
Definition rounded_since (at_ : Symbol -> error + nat) (page page_prev : list Row)
           (c : Symbol) : error + Cell :=
  bind (last_row page) (fun row =>
  bind (at_ c) (fun i =>
  bind (getitem row i) (fun x =>
  bind (last_row page_prev) (fun row_prev =>
  bind (at_ c) (fun i_prev =>
  bind (getitem row_prev i_prev) (fun x_prev =>
  bind (minus_cell x x_prev) (fun difference =>
  bind (deci c) (fun n =>
  round_cell difference n)))))))).

(** Lines 615-628: the rows of the sub-totals of a page.  The conditional
    expression takes in the whole sum of the two lists, so that without
    [first] a row is the two differences alone. *)
Definition subtotal_rows (page : list Row) (page_prev : option (list Row))
  : error + list (list Cell) :=
  mapM (fun c =>
          match page_prev with
          | None =>
              bind (payee c) (fun who =>
              bind (rounded_at taxi page c) (fun taxes =>
              bind (rounded_at toti page c) (fun total =>
              inr (who ++ [ taxes; total ]))))
          | Some prev =>
              bind (rounded_since taxi page prev c) (fun taxes =>
              bind (rounded_since toti page prev c) (fun total =>
              inr [ taxes; total ]))
          end)
       (sorted_currencies self).

(** Lines 642-651: the rows of the totals up to a page. *)
Definition total_rows (page : list Row) : error + list (list Cell) :=
  mapM (fun c =>
          bind (payee c) (fun who =>
          bind (rounded_at taxi page c) (fun taxes =>
          bind (rounded_at toti page c) (fun total =>
          inr (who ++ [ taxes; total ])))))
       (sorted_currencies self).

(** ['Taxes' if final else f'Taxes {p+1}/{len( pages )}'] and the like *)
Definition numbered (label : string) (final : bool) (p count : nat) : string :=
  if final then label
  else (label ++ " " ++ PyStr.decimal (p + 1) ++ "/" ++ PyStr.decimal count)%string.

Definition sum_headers (label : string) (final : bool) (p count : nat) : list string :=
  [ "Account"; "Crypto"; "Currency";
    numbered "Taxes" final p count; numbered label final p count ].

(** The body of the loop of lines 585-664, for page number [p] of [count]. *)
Definition page_tables (selected : list nat) (headers_selected : list string)
           (decimals : Z) (tablefmt : string) (page_prev : option (list Row))
           (count p : nat) (page : list Row) : error + Yield Rendered :=
  bind (mapM (fun line => mapM (getitem (row_tuple line)) selected) page) (fun lines =>
  let table :=
    tabulate lines (map (PyStr.strip "_") headers_selected)
             (mkFormat "," (Fixed decimals) tablefmt) in
  let final := (p + 1 =? count)%nat in
  bind (subtotal_rows page page_prev) (fun rows =>
  let subtotal :=
    tabulate rows (sum_headers "Subtotal" final p count) (mkFormat "," General tablefmt) in
  bind (total_rows page) (fun rows =>
  let total :=
    tabulate rows (sum_headers "Total" final p count) (mkFormat "," General tablefmt) in
  inr (mkYield page table subtotal total)))).

(** The loop itself: [page_prev] is set before it and by no round of it. *)
Fixpoint tables_loop (selected : list nat) (headers_selected : list string)
         (decimals : Z) (tablefmt : string) (page_prev : option (list Row))
         (count p : nat) (pages : list (list Row))
  : list (Yield Rendered) * option error :=
  match pages with
  | [] => ([], None)
  | page :: pages' =>
      match page_tables selected headers_selected decimals tablefmt page_prev
                        count p page with
      | inl e => ([], Some e)
      | inr y =>
          let '(ys, e) :=
            tables_loop selected headers_selected decimals tablefmt page_prev
                        count (S p) pages' in
          (y :: ys, e)
      end
  end.
End Pages.

(** [list( self.pages( page, rows ))]: the pages, or the exception that ends
    the iteration of the lines. *)
Definition all_pages (self : Invoice) (page : PageFilter) (rows : option Z)
  : error + list (list Row) :=
  match iter percent INVOICE_CURRENCY tokeninfo self with
  | (all_rows, None) => inr (pages_of INVOICE_ROWS page rows all_rows)
  | (_, Some e) => inl (Exn e)
  end.

(** [Invoice.tables], lines 529-664: what the generator yields, and the
    exception that ends it, if one does. *)
Definition tables (self : Invoice) (payable : Payable) (page : PageFilter)
           (rows : option Z) (tablefmt : option string) (columns : Columns)
  : list (Yield Rendered) * option error :=
  let headers := headers self in
  let headers_can := map can headers in
  let tablefmt := match tablefmt with
                  | Some given => if given =? "" then "orgtbl" else given
                  | None => "orgtbl"
                  end in
  match
    bind (select headers columns) (fun selected =>
    bind (mapM (getitem headers) selected) (fun headers_selected =>
    bind (all_pages self page rows) (fun pages =>
    bind (index headers_can (can "_Decimals")) (fun decimals_i =>
    bind (mapM (fun line => getitem (row_tuple line) decimals_i) (List.concat pages))
         (fun cells =>
    bind (max_int cells) (fun decimals =>
    inr (selected, headers_selected, pages, decimals)))))))
  with
  | inl e => ([], Some e)
  | inr (selected, headers_selected, pages, decimals) =>
      tables_loop self payable headers_can selected headers_selected decimals tablefmt
                  None (List.length pages) 0 pages
  end.
End Tabulate.

End Tables.

(** ** The constructor of an invoice *)

Module Init.

Import Py Raised Conv Line Inv Tables.

(** The [currencies] argument of [Invoice.__init__]: [None], one name, or a
    list of names. *)
Inductive Wanted : Type :=
| NoCurrency
| OneCurrency (name : string)
| Currencies (names : list string).

(** What [__init__] sets: [lines], [currencies] and [conversions], and the
    two dictionaries [currencies_account] and [currencies_proxy]. *)
Record Built : Type := mkBuilt {
  invoice : Invoice;
  payable : Payable
}.

(** [a == b] on two [TokenInfo]. *)
Definition token_eqb (a b : TokenInfo) : bool :=
  (name a =? name b) && (symbol a =? symbol b)
  && (token_decimals a =? token_decimals b)%Z.

(** [conversions.setdefault( k, None )] *)
Definition setdefault (k : Pair) (d : Conversions) : Conversions :=
  match lookup k d with
  | Some _ => d
  | None => setitem k None d
  end.

(** Lines 356-359: the pairs of a line symbol and an invoice currency are
    asked for. *)
Fixpoint want_row (ls : Symbol) (currencies : list Symbol) (d : Conversions)
  : Conversions :=
  match currencies with
  | [] => d
  | c :: currencies' =>
      want_row ls currencies' (if ls =? c then d else setdefault (ls, c) d)
  end.

Fixpoint want (line_symbols currencies : list Symbol) (d : Conversions) : Conversions :=
  match line_symbols with
  | [] => d
  | ls :: line_symbols' => want line_symbols' currencies (want_row ls currencies d)
  end.

(** Lines 314-317: each account is filed under its symbol, which must not
    have an account yet. *)
Fixpoint add_accounts (accounts : list Account)
         (currencies_account : list (Symbol * option Account))
  : error + list (Symbol * option Account) :=
  match accounts with
  | [] => inr currencies_account
  | a :: accounts' =>
      match Dict.lookup String.eqb (account_symbol a) currencies_account with
      | Some (Some _) => inl AssertionError
      | _ =>
          add_accounts accounts'
            (Dict.setitem String.eqb (account_symbol a) (Some a) currencies_account)
      end
  end.

(** Lines 383-386: the symbols of the pairs still mapped to [None], but for
    ETH. *)
Definition candidates (d : Conversions) : list Symbol :=
  filter (fun c => negb (c =? "ETH"))
         (flat_map (fun e : Pair * Ratio =>
                      if is_None (snd e) then [fst (fst e); snd (fst e)] else [])
                   d).

Section Constructor.
(** [..defaults.INVOICE_CURRENCY] *)
Variable INVOICE_CURRENCY : string.
(** [tokeninfo] and [tokenprices] of [.ethereum] with the [w3_url] and the
    [use_provider] of the call, and [tokeninfo] with the defaults of both;
    an exception of [tokenprices], or a result that is not one triple, is
    [None]. *)
Variable tokeninfo : string -> exn + TokenInfo.
Variable tokeninfo_default : string -> exn + TokenInfo.
Variable tokenprices : string -> option (TokenInfo * TokenInfo * Qc).
(** [Account.supported] and [Account.CRYPTO_SYMBOLS] of [slip39.api]. *)
Variable supported : string -> exn + Symbol.
Variable CRYPTO_SYMBOLS : Symbol -> option string.
(** The elements of a set, in the order an iteration over it gives them. *)
Variable listing : list string -> list string.

(** Lines 327-336: the tokens that stand for the currencies, each paid into
    the ETH account when there is one. *)
Fixpoint add_proxies (currencies : list Symbol)
         (currencies_account : list (Symbol * option Account))
         (currencies_proxy : list (string * TokenInfo))
  : list (Symbol * option Account) * list (string * TokenInfo) :=
  match currencies with
  | [] => (currencies_account, currencies_proxy)
  | c :: currencies' =>
      match tokeninfo c with
      | inl _ => add_proxies currencies' currencies_account currencies_proxy
      | inr token =>
          let currencies_proxy := Dict.setitem String.eqb c token currencies_proxy in
          match Dict.lookup String.eqb "ETH" currencies_account with
          | Some (Some eth) =>
              add_proxies currencies'
                (Dict.setitem String.eqb (symbol token) (Some eth) currencies_account)
                currencies_proxy
          | _ => add_proxies currencies' currencies_account currencies_proxy
          end
      end
  end.

(** Lines 366-370: a currency is filed under each of its names, which must
    not stand for another token. *)
Fixpoint add_aliases (aliases : list string) (proxy : TokenInfo)
         (currencies_proxy : list (string * TokenInfo))
  : error + list (string * TokenInfo) :=
  match aliases with
  | [] => inr currencies_proxy
  | alias :: aliases' =>
      match Dict.lookup String.eqb alias currencies_proxy with
      | Some other =>
          if token_eqb other proxy
          then add_aliases aliases' proxy
                 (Dict.setitem String.eqb alias proxy currencies_proxy)
          else inl AssertionError
      | None =>
          add_aliases aliases' proxy
            (Dict.setitem String.eqb alias proxy currencies_proxy)
      end
  end.

(** Lines 364-370 *)
Fixpoint add_names (names : list string) (currencies_proxy : list (string * TokenInfo))
  : error + list (string * TokenInfo) :=
  match names with
  | [] => inr currencies_proxy
  | lc :: names' =>
      bind (lift (cryptocurrency_proxy tokeninfo supported CRYPTO_SYMBOLS lc None))
           (fun proxy =>
      bind (add_aliases (listing [ lc; name proxy; symbol proxy ]) proxy currencies_proxy)
           (fun currencies_proxy =>
      add_names names' currencies_proxy))
  end.

(** Lines 387-402: the first candidate with a price that is news is written
    to the dictionary; [None] when the loop ends without one.  The oracle
    [tokenprices] is a function of the symbol: it answers the same each time
    it is asked about a symbol, where the code asks anew in every round and
    could be told something else. *)
Fixpoint price_one (cs : list Symbol) (d : Conversions) : option Conversions :=
  match cs with
  | [] => None
  | c :: cs' =>
      match tokenprices c with
      | None => price_one cs' d
      | Some (one, two, ratio) =>
          if is_None (get (c, symbol two) d) || is_None (get (symbol one, symbol two) d)
          then
            let d := setitem (c, symbol two) (Some ratio) d in
            Some (if c =? symbol one then d
                  else setitem (symbol one, symbol two) (Some ratio) d)
          else price_one cs' d
      end
  end.

(** Line 402: the candidates are an iterator that the loop has used up when
    the message is made. *)
Definition unpriced_message (remaining : string) : string :=
  ("Failed to resolve " ++ remaining ++ ", using candidates " ++ commas_and [])%string.

(** Lines 374 and 403: [conversions_remaining] is called until it returns
    something else than [True]; [None] is a run that needs more calls than
    [fuel]. *)
Definition settle (fuel : nat) (d : Conversions) : option (error + Value * Conversions) :=
  match resolve fuel false d with
  | None => None
  | Some o =>
      Some (match result o with
            | Return remaining => inr (remaining, dict o)
            | Raise e => inl (Exn e)
            end)
  end.

(** Lines 378-405: while pairs remain, a price is fetched and the
    deductions are made again. *)
Fixpoint fetch (fuel : nat) (remaining : Value) (d : Conversions)
  : option (error + Conversions) :=
  match fuel with
  | O => None
  | S fuel' =>
      if truth remaining then
        match price_one (candidates d) d with
        | None =>
            Some (inl (Exn (RuntimeError
                              (unpriced_message (match remaining with
                                                 | Conv.Str msg => msg
                                                 | Conv.Bool _ => "True"
                                                 end)))))
        | Some d' =>
            match settle fuel' d' with
            | None => None
            | Some (inl e) => Some (inl e)
            | Some (inr (remaining', d'')) => fetch fuel' remaining' d''
            end
        end
      else Some (inr d)
  end.

(** [Invoice.__init__], lines 272-410. *)
Definition init (fuel : nat) (lines : list LineItem) (accounts : list Account)
           (currencies : Wanted) (conversions : option Conversions)
  : option (error + Built) :=
  let currencies :=
    listing (match currencies with
             | OneCurrency one => [ one ]
             | Currencies (c :: cs) => c :: cs
             | _ => [ INVOICE_CURRENCY ]
             end) in
  match
    bind (mapM (fun c => lift (cryptocurrency_symbol tokeninfo supported c)) currencies)
         (fun symbols =>
    let currencies := listing symbols in
    bind (add_accounts accounts (map (fun c => (c, None)) currencies))
         (fun currencies_account =>
    let currencies := listing (Dict.keys currencies_account) in
    let '(currencies_account, currencies_proxy) :=
      add_proxies currencies currencies_account [] in
    let currencies := listing (Dict.keys currencies_account) in
    let conversions := match conversions with
                       | None => []
                       | Some supplied => supplied
                       end in
    let line_currencies := listing (map (currency_of INVOICE_CURRENCY) lines) in
    bind (mapM (fun lc => lift (cryptocurrency_symbol tokeninfo_default supported lc))
               line_currencies)
         (fun symbols =>
    let line_symbols := listing symbols in
    let conversions := want line_symbols currencies conversions in
    bind (add_names (listing (line_currencies ++ currencies)) currencies_proxy)
         (fun currencies_proxy =>
    inr (currencies, currencies_account, currencies_proxy, conversions)))))
  with
  | inl e => Some (inl e)
  | inr (currencies, currencies_account, currencies_proxy, conversions) =>
      match settle fuel conversions with
      | None => None
      | Some (inl e) => Some (inl e)
      | Some (inr (remaining, conversions)) =>
          match fetch fuel remaining conversions with
          | None => None
          | Some (inl e) => Some (inl e)
          | Some (inr conversions) =>
              Some (inr (mkBuilt (mkInvoice lines currencies conversions)
                                 (mkPayable currencies_account currencies_proxy)))
          end
      end
  end.
End Constructor.

(** What the loop of lines 378-405 is measured with: the symbols the oracle
    can bring in for the symbols [cs], and the symbols a dictionary can
    come to hold. *)
Definition priced_symbols (tokenprices : string -> option (TokenInfo * TokenInfo * Qc))
           (cs : list Symbol) : list Symbol :=
  flat_map (fun c => match tokenprices c with
                     | Some (one, two, _) => [ symbol one; symbol two ]
                     | None => []
                     end) cs.

Definition reach (tokenprices : string -> option (TokenInfo * TokenInfo * Qc))
           (d : Conversions) : list Symbol :=
  Deduction.symbols d ++ priced_symbols tokenprices (Deduction.symbols d).

End Init.

(** ** Components on the pages of a PDF ([slip39/layout.py]) *)

Module Sheet.

Import Py.

(** The namedtuple [Coordinate], line 167. *)
Record Coordinate : Type := mkCoordinate {
  x : Qc;
  y : Qc
}.

(** An integer as a number. *)
Definition of_int (z : Z) : Qc := Q2Qc (inject_Z z).

(** [int( a // b )] on numbers. *)
Definition floordiv (a b : Qc) : exn + Z :=
  if Qc_eq_bool b (Q2Qc 0) then inl ZeroDivisionError else inr (Qfloor (a / b)%Qc).

(** [divmod( a, b )] on integers. *)
Definition divmod (a b : Z) : exn + Z * Z :=
  if (b =? 0)%Z then inl ZeroDivisionError else inr ((a / b)%Z, (a mod b)%Z).

(** [page_xy], lines 404-411, in a [layout_components] that has arrived at
    [comps_pp] and [comp_cols].  The sizes and the offsets are exact
    rationals, where the code has the floats of FPDF, and the text that
    line 410 formats for the log is left out. *)
Definition page_xy (comps_pp comp_cols : Z) (comp_dim : Coordinate) (page_margin_mm : Qc)
           (num : Z) : exn + Z * Coordinate :=
  match divmod num comps_pp with
  | inl e => inl e
  | inr (page, nth) =>
      match divmod nth comp_cols with
      | inl e => inl e
      | inr (page_rows, page_cols) =>
          inr (page,
               mkCoordinate (page_margin_mm + of_int page_cols * x comp_dim)%Qc
                            (page_margin_mm + of_int page_rows * y comp_dim)%Qc)
      end
  end.

(** The columns (with [epw]) or the rows (with [eph]) of lines 400-401. *)
Definition fitting (extent page_margin_mm size : Qc) : exn + Z :=
  floordiv (extent - page_margin_mm * Q2Qc 2 * Q2Qc 95 / Q2Qc 100)%Qc size.

(** [layout_components], lines 390-413, for a [pdf] with the effective page
    width [epw] and height [eph]. *)
Definition layout_components (epw eph : Qc) (comp_dim : Coordinate) (page_margin_mm : Qc)
  : exn + Z * (Z -> exn + Z * Coordinate) :=
  match fitting epw page_margin_mm (x comp_dim) with
  | inl e => inl e
  | inr comp_cols =>
      match fitting eph page_margin_mm (y comp_dim) with
      | inl e => inl e
      | inr comp_rows =>
          let comps_pp := (comp_rows * comp_cols)%Z in
          inr (comps_pp, page_xy comps_pp comp_cols comp_dim page_margin_mm)
      end
  end.

(** An item of a tuple, as [max] compares it: numbers and texts by value,
    functions and other objects by identity. *)
Inductive Item : Type :=
| Number (n : Z)
| Word (s : string)
| Function (identity : nat)
| Object (identity : nat).

(** [a == b] *)
Definition item_eqb (a b : Item) : bool :=
  match a, b with
  | Number n, Number m => (n =? m)%Z
  | Word s, Word t => (s =? t)%string
  | Function i, Function j => (i =? j)%nat
  | Object i, Object j => (i =? j)%nat
  | _, _ => false
  end.

(** [a > b]: functions and objects have no order. *)
Definition item_gt (a b : Item) : exn + bool :=
  match a, b with
  | Number n, Number m => inr (m <? n)%Z
  | Word s, Word t => inr (negb (String.leb s t))
  | _, _ => inl TypeError
  end.

(** [a > b] on tuples: the first items that differ decide. *)
Fixpoint tuple_gt (a b : list Item) : exn + bool :=
  match a, b with
  | i :: a', j :: b' => if item_eqb i j then tuple_gt a' b' else item_gt i j
  | _ :: _, [] => inr true
  | [], _ => inr false
  end.

(** [max( tuples )] *)
Fixpoint max_from (best : list Item) (tuples : list (list Item)) : exn + list Item :=
  match tuples with
  | [] => inr best
  | t :: tuples' =>
      match tuple_gt t best with
      | inl e => inl e
      | inr true => max_from t tuples'
      | inr false => max_from best tuples'
      end
  end.

Definition max (tuples : list (list Item)) : exn + list Item :=
  match tuples with
  | [] => inl ValueError
  | t :: tuples' => max_from t tuples'
  end.

(** Lines 463-466 of [output_pdf]: the layouts of the two orientations, each
    a tuple of the cards on a page, the function [page_xy], the PDF and the
    name of the orientation, and the greatest of them.  [portrait] and
    [landscape] are the page width and height the PDF of each has. *)
Definition best_layout (portrait landscape : Qc * Qc) (card_dim : Coordinate)
           (page_margin_mm : Qc) : exn + list Item :=
  match layout_components (fst portrait) (snd portrait) card_dim page_margin_mm with
  | inl e => inl e
  | inr (cards_portrait, _) =>
      match layout_components (fst landscape) (snd landscape) card_dim page_margin_mm with
      | inl e => inl e
      | inr (cards_landscape, _) =>
          max [ [ Number cards_portrait; Function 0; Object 0; Word "portrait" ];
                [ Number cards_landscape; Function 1; Object 1; Word "landscape" ] ]
      end
  end.

(** [chunker], lines 699-702 of [write_pdfs], for a size from 0 up: the
    slices it yields, [None] for a run of more rounds than [fuel]. *)
Fixpoint chunker {A : Type} (fuel : nat) (sequence : list A) (size : nat)
  : option (list (list A)) :=
  match fuel with
  | O => None
  | S fuel' =>
      match sequence with
      | [] => Some []
      | _ :: _ =>
          match chunker fuel' (skipn size sequence) size with
          | Some chunks => Some (firstn size sequence :: chunks)
          | None => None
          end
      end
  end.

End Sheet.

(** ** Regions and the layout of a card ([slip39/layout.py])

    A [Region] is an object that other regions hold in their [regions] and
    that is changed after it has been handed over, so the regions live in a
    store: a region is the number under which the store holds it, the
    [n]-th object made being number [n]. *)

Module Layout.

Import Py Raised.

(** [Region] and its subclasses. *)
Inductive Class : Type :=
| RegionClass
| TextClass
| ImageClass
| LineClass
| BoxClass.

(** The attributes of a region; those from [font] on are the ones [Text]
    adds (an [Image] has [font], [text] and [size] of them), and [bold],
    [italic] and [underline] are held as the truth of what was given. *)
Record Object : Type := mkObject {
  class : Class;
  name : string;
  x1 : option Qc;
  y1 : option Qc;
  x2 : option Qc;
  y2 : option Qc;
  rotate : option Qc;
  regions : list nat;
  font : option string;
  text : option string;
  size : option Qc;
  size_ratio : Qc;
  align : option string;
  foreground : option Z;
  background : option Z;
  bold : bool;
  italic : bool;
  underline : bool
}.

(** [Text.SIZE_RATIO], line 101 *)
Definition SIZE_RATIO : Qc := Q2Qc (3 # 4).

(** [Region( name, x1, y1, x2, y2, rotate )] and the like for [Box] and
    [Line], lines 39-46. *)
Definition plain (c : Class) (name : string) (x1 y1 x2 y2 rotate : option Qc) : Object :=
  mkObject c name x1 y1 x2 y2 rotate [] None None None (Q2Qc 0) None None None
           false false false.

(** [Text( name, x1, ..., font=, text=, size=, size_ratio=, align=,
    foreground=, background=, bold=, italic=, underline= )], lines 103-116. *)
Definition Text (name : string) (x1 y1 x2 y2 rotate : option Qc)
           (font text : option string) (size size_ratio : option Qc)
           (align : option string) (foreground background : option Z)
           (bold italic underline : bool) : Object :=
  mkObject TextClass name x1 y1 x2 y2 rotate [] font text size
           (match size_ratio with
            | Some given => if nonzero given then given else SIZE_RATIO
            | None => SIZE_RATIO
            end)
           align foreground background bold italic underline.

(** [Image( name, x1, ..., font=, text=, size= )], lines 142-146: the size
    given is dropped. *)
Definition Image (name : string) (x1 y1 x2 y2 rotate : option Qc)
           (font text : option string) : Object :=
  mkObject ImageClass name x1 y1 x2 y2 rotate [] font text None (Q2Qc 0) None None None
           false false false.

(** The four sides of a region. *)
Inductive Side : Type := X1 | Y1 | X2 | Y2.

Definition side (s : Side) (o : Object) : option Qc :=
  match s with
  | X1 => x1 o
  | Y1 => y1 o
  | X2 => x2 o
  | Y2 => y2 o
  end.

Definition set_side (s : Side) (v : option Qc) (o : Object) : Object :=
  mkObject (class o) (name o)
           (match s with X1 => v | _ => x1 o end)
           (match s with Y1 => v | _ => y1 o end)
           (match s with X2 => v | _ => x2 o end)
           (match s with Y2 => v | _ => y2 o end)
           (rotate o) (regions o) (font o) (text o) (size o) (size_ratio o)
           (align o) (foreground o) (background o) (bold o) (italic o) (underline o).

Definition set_regions (rs : list nat) (o : Object) : Object :=
  mkObject (class o) (name o) (x1 o) (y1 o) (x2 o) (y2 o) (rotate o) rs
           (font o) (text o) (size o) (size_ratio o)
           (align o) (foreground o) (background o) (bold o) (italic o) (underline o).

(** The store, and a statement that reads and changes it or raises. *)
Definition Store : Type := list Object.

Definition M (A : Type) : Type := Store -> error + A * Store.

Definition ret {A : Type} (a : A) : M A := fun h => inr (a, h).

Definition raise {A : Type} (e : error) : M A := fun _ => inl e.

Definition andthen {A B : Type} (m : M A) (k : A -> M B) : M B :=
  fun h => match m h with
           | inl e => inl e
           | inr (a, h') => k a h'
           end.

Notation "x <- m ;; k" := (andthen m (fun x => k))
  (at level 61, m at next level, right associativity).
Notation "m ;;; k" := (andthen m (fun _ => k))
  (at level 61, right associativity).

(** A result or an exception of a computation that leaves the store alone. *)
Definition try {A : Type} (x : error + A) : M A :=
  fun h => match x with
           | inl e => inl e
           | inr a => inr (a, h)
           end.

(** A new object. *)
Definition alloc (o : Object) : M nat := fun h => inr (List.length h, h ++ [ o ]).

Fixpoint put (r : nat) (o : Object) (h : Store) : Store :=
  match h, r with
  | [], _ => []
  | _ :: h', O => o :: h'
  | o' :: h', S r' => o' :: put r' o h'
  end.

Definition read (r : nat) : M Object :=
  fun h => match nth_error h r with
           | Some o => inr (o, h)
           | None => inl IndexError
           end.

Definition write (r : nat) (o : Object) : M unit :=
  fun h => match nth_error h r with
           | Some _ => inr (tt, put r o h)
           | None => inl IndexError
           end.

(** An operand of arithmetic: [None] is none. *)
Definition number (v : option Qc) : error + Qc :=
  match v with
  | Some q => inr q
  | None => inl (Exn TypeError)
  end.

(** [region.<side> = value], where the value is made from [self] and
    [region] as they are when the statement runs. *)
Definition assign (s : Side) (value : Object -> Object -> error + option Qc)
           (self region : nat) : M unit :=
  me <- read self ;;
  it <- read region ;;
  v <- try (value me it) ;;
  write region (set_side s v it).

(** [self.regions.append( region )] *)
Definition append (self region : nat) : M unit :=
  me <- read self ;;
  write self (set_regions (regions me ++ [ region ]) me).

(** [Region.add_region], lines 62-69. *)
Definition inherited (s : Side) (me it : Object) : error + option Qc :=
  inr (match side s it with
       | None => side s me
       | Some given => Some given
       end).

Definition add_region (self region : nat) : M nat :=
  assign X1 (inherited X1) self region ;;;
  assign Y1 (inherited Y1) self region ;;;
  assign X2 (inherited X2) self region ;;;
  assign Y2 (inherited Y2) self region ;;;
  append self region ;;;
  ret region.

(** [Region.add_region_relative], lines 71-77. *)
Definition shifted (s : Side) (me it : Object) : error + option Qc :=
  bind (number (side s it)) (fun offset =>
  bind (number (side s me)) (fun base =>
  inr (Some (offset + base)%Qc))).

Definition add_region_relative (self region : nat) : M nat :=
  assign X1 (shifted X1) self region ;;;
  assign Y1 (shifted Y1) self region ;;;
  assign X2 (shifted X2) self region ;;;
  assign Y2 (shifted Y2) self region ;;;
  append self region ;;;
  ret region.

(** [Region.add_region_proportional], lines 79-85: a side is taken between
    the two sides [low] and [high] of [self], at the ratio the region holds
    for it, or at [otherwise].  The sides are exact rationals; on float
    sides the sum and the product of the code round. *)
Definition between (low high s : Side) (otherwise : Qc) (me it : Object)
  : error + option Qc :=
  bind (number (side low me)) (fun a =>
  bind (number (side high me)) (fun b =>
  inr (Some (a + (b - a) * match side s it with
                           | None => otherwise
                           | Some ratio => ratio
                           end)%Qc))).

Definition add_region_proportional (self region : nat) : M nat :=
  assign X1 (between X1 X2 X1 (Q2Qc 0)) self region ;;;
  assign Y1 (between Y1 Y2 Y1 (Q2Qc 0)) self region ;;;
  assign X2 (between X1 X2 X2 (Q2Qc 1)) self region ;;;
  assign Y2 (between Y1 Y2 Y2 (Q2Qc 1)) self region ;;;
  append self region ;;;
  ret region.

(** The ratio a region holds for a side, or [otherwise], and a region as
    [add_region_proportional] leaves it in a [self] with the sides [a], [b],
    [c] and [d]. *)
Definition ratio (s : Side) (otherwise : Qc) (it : Object) : Qc :=
  match side s it with
  | Some given => given
  | None => otherwise
  end.

Definition placed (a b c d : Qc) (it : Object) : Object :=
  set_side Y2 (Some (b + (d - b) * ratio Y2 (Q2Qc 1) it)%Qc)
    (set_side X2 (Some (a + (c - a) * ratio X2 (Q2Qc 1) it)%Qc)
       (set_side Y1 (Some (b + (d - b) * ratio Y1 (Q2Qc 0) it)%Qc)
          (set_side X1 (Some (a + (c - a) * ratio X1 (Q2Qc 0) it)%Qc) it))).

(** The millimetres of an inch, and the points. *)
Definition MM : Qc := Q2Qc (254 # 10).
Definition POINTS : Qc := Q2Qc 72.

(** [Region.dimensions], lines 87-89. *)
Definition dimensions (o : Object) : error + Sheet.Coordinate :=
  bind (number (x2 o)) (fun c =>
  bind (number (x1 o)) (fun a =>
  bind (number (y2 o)) (fun d =>
  bind (number (y1 o)) (fun b =>
  inr (Sheet.mkCoordinate ((c - a) * MM)%Qc ((d - b) * MM)%Qc))))).

(** A value of the dictionary that [element] makes. *)
Inductive Value : Type :=
| Words (s : string)
| Amount (q : Qc)
| Whole (n : Z)
| Yes
| Nil.

(** The dictionary itself: the keys every element has, and the others in
    the order they are set. *)
Record Element : Type := mkElement {
  el_name : string;
  el_x1 : Qc;
  el_y1 : Qc;
  el_x2 : Qc;
  el_y2 : Qc;
  el_rotate : Qc;
  el_more : list (string * Value)
}.

Definition more (key : string) (v : Value) (d : Element) : Element :=
  mkElement (el_name d) (el_x1 d) (el_y1 d) (el_x2 d) (el_y2 d) (el_rotate d)
            (Dict.setitem String.eqb key v (el_more d)).

(** [Region.element], lines 48-57. *)
Definition region_element (o : Object) : error + Element :=
  bind (number (x1 o)) (fun a =>
  bind (number (y1 o)) (fun b =>
  bind (number (x2 o)) (fun c =>
  bind (number (y2 o)) (fun d =>
  inr (mkElement (name o) (a * MM)%Qc (b * MM)%Qc (c * MM)%Qc (d * MM)%Qc
                 (match rotate o with
                  | Some angle => angle
                  | None => Q2Qc 0
                  end) []))))).

Section Elements.
(** [..defaults.FONTS], as its [get]. *)
Variable FONTS : string -> option string.

(** [a or b] on texts that can be [None]. *)
Definition or_else (a b : option string) : option string :=
  match a with
  | Some s => if s =? "" then b else a
  | None => b
  end.

Definition optional (key : string) (present : bool) (v : Value) (d : Element) : Element :=
  if present then more key v d else d.

(** [Text.element], lines 118-138. *)
Definition text_element (o : Object) : error + Element :=
  bind (region_element o) (fun d =>
  let d := more "type" (Words "T") d in
  let chosen :=
    or_else (or_else (match font o with
                      | Some f => FONTS f
                      | None => None
                      end) (font o)) (FONTS "sans") in
  let d := more "font" (match chosen with
                        | Some f => Words f
                        | None => Nil
                        end) d in
  bind (number (y2 o)) (fun bottom =>
  bind (number (y1 o)) (fun top =>
  let line_height := ((bottom - top) * POINTS)%Qc in
  let d := more "size" (Amount (match size o with
                                | Some given =>
                                    if nonzero given then given
                                    else (line_height * size_ratio o)%Qc
                                | None => (line_height * size_ratio o)%Qc
                                end)) d in
  let d := match text o with
           | Some t => more "text" (Words t) d
           | None => d
           end in
  let d := optional "bold" (bold o) Yes d in
  let d := optional "italic" (italic o) Yes d in
  let d := optional "underline" (underline o) Yes d in
  let d := match align o with
           | Some a => more "align" (Words a) d
           | None => d
           end in
  let d := match foreground o with
           | Some colour => more "foreground" (Whole colour) d
           | None => d
           end in
  let d := match background o with
           | Some colour => more "background" (Whole colour) d
           | None => d
           end in
  inr d))).

(** [self.element()], by the class of [self]: [Image] and [Box] add their
    type (lines 148-151 and 161-164), [Line] has no [element] of its own. *)
Definition element (o : Object) : error + Element :=
  match class o with
  | TextClass => text_element o
  | ImageClass => bind (region_element o) (fun d => inr (more "type" (Words "I") d))
  | BoxClass => bind (region_element o) (fun d => inr (more "type" (Words "B") d))
  | _ => region_element o
  end.

Definition is_region (c : Class) : bool :=
  match c with
  | RegionClass => true
  | _ => false
  end.

(** [for r in self.regions: for d in r.elements(): yield d], lines 95-97,
    with [sub] for [r.elements()]: what is yielded, and the exception that
    ends it, if one does. *)
Fixpoint gather (sub : nat -> option (list Element * option error)) (rs : list nat)
  : option (list Element * option error) :=
  match rs with
  | [] => Some ([], None)
  | r :: rs' =>
      match sub r with
      | None => None
      | Some (ds, Some e) => Some (ds, Some e)
      | Some (ds, None) =>
          match gather sub rs' with
          | None => None
          | Some (ds', e) => Some (ds ++ ds', e)
          end
      end
  end.

(** [Region.elements], lines 91-97: what the generator yields and the
    exception that ends it, if one does; [None] when the regions are nested
    deeper than [fuel]. *)
Fixpoint elements (fuel : nat) (h : Store) (self : nat)
  : option (list Element * option error) :=
  match fuel with
  | O => None
  | S fuel' =>
      match nth_error h self with
      | None => Some ([], Some IndexError)
      | Some me =>
          let below := gather (elements fuel' h) (regions me) in
          if is_region (class me) then below
          else match element me with
               | inl e => Some ([], Some e)
               | inr d =>
                   match below with
                   | None => None
                   | Some (ds, e) => Some (d :: ds, e)
                   end
               end
      end
  end.
End Elements.

(** A loop [for x in l]. *)
Fixpoint for_each {A : Type} (l : list A) (body : A -> M unit) : M unit :=
  match l with
  | [] => ret tt
  | a :: l' => body a ;;; for_each l' body
  end.

Definition frac (n : Z) (d : positive) : option Qc := Some (Q2Qc (n # d)).

(** An integer from 0 up as a number. *)
Definition of_nat (n : nat) : Qc := Q2Qc (inject_Z (Z.of_nat n)).

Section Card.
(** [..defaults.COLOR] and [..defaults.MNEM_ROWS_COLS], and [int( s, 16 )]. *)
Variable COLOR : list string.
Variable MNEM_ROWS_COLS : nat -> option (nat * nat).
Variable int_16 : string -> exn + Z.

(** [int( COLOR[c_n % len( COLOR )], 16 )] *)
Definition colour (c_n : nat) : error + Z :=
  match COLOR with
  | [] => inl (Exn ZeroDivisionError)
  | _ :: _ =>
      match nth_error COLOR (c_n mod List.length COLOR) with
      | Some s => lift (int_16 s)
      | None => inl IndexError
      end
  end.

(** The [Text] of one mnemonic word, lines 221-229. *)
Definition mnemonic_cell (rows cols r c : nat) : error + Object :=
  bind (lift (truediv (of_nat c) (of_nat cols))) (fun left =>
  bind (lift (truediv (of_nat r) (of_nat rows))) (fun top =>
  bind (lift (truediv (of_nat (c + 1)) (of_nat cols))) (fun right =>
  bind (lift (truediv (of_nat (r + 1)) (of_nat rows))) (fun bottom =>
  inr (Text ("mnem-" ++ PyStr.decimal (c * rows + r))
            (Some left) (Some top) (Some right) (Some bottom) None
            (Some "mono") None None (Some (Q2Qc (9 # 16))) None None None
            false false false))))).

(** [layout_card], lines 170-231. *)
Definition layout_card (card_size : Sheet.Coordinate) (card_margin : Qc)
           (num_mnemonics : nat) : M nat :=
  card <- alloc (plain BoxClass "card" (Some (Q2Qc 0)) (Some (Q2Qc 0))
                       (Some (Sheet.x card_size)) (Some (Sheet.y card_size)) None) ;;
  interior <- alloc (plain RegionClass "card-interior"
                           (Some card_margin) (Some card_margin)
                           (Some (- card_margin)%Qc) (Some (- card_margin)%Qc) None) ;;
  card_interior <- add_region_relative card interior ;;
  for_each (seq 0 16)
    (fun c_n =>
       shade <- try (colour c_n) ;;
       g <- alloc (Text ("card-g" ++ PyStr.decimal c_n)
                        (frac 1 8) (frac (-1) 16) (frac 7 8) (frac 5 16)
                        (Some (Q2Qc (-45))) None None None None None
                        (Some shade) None false false false) ;;
       add_region_proportional card_interior g ;;;
       ret tt) ;;;
  top <- alloc (plain RegionClass "card-top" (frac 0 1) (frac 0 1) (frac 1 1) (frac 1 4)
                      None) ;;
  card_top <- add_region_proportional card_interior top ;;
  bottom <- alloc (plain RegionClass "card-bottom" (frac 0 1) (frac 1 4) (frac 1 1)
                         (frac 1 1) None) ;;
  card_bottom <- add_region_proportional card_interior bottom ;;
  mnemonics <- alloc (plain RegionClass "card-mnemonics" (frac 0 1) (frac 0 1)
                            (frac 13 16) (frac 1 1) None) ;;
  card_mnemonics <- add_region_proportional card_bottom mnemonics ;;
  qr1 <- alloc (Image "card-qr1" (frac 13 16) (frac 0 1) (frac 1 1) (frac 1 2) None
                      None None) ;;
  card_qr1 <- add_region_proportional card_bottom qr1 ;;
  assign Y2 (fun _ it =>
               bind (number (y1 it)) (fun a =>
               bind (number (x2 it)) (fun c =>
               bind (number (x1 it)) (fun b =>
               inr (Some (a + (c - b))%Qc)))))
         card_qr1 card_qr1 ;;;
  qr2 <- alloc (Image "card-qr2" (frac 13 16) (frac 1 2) (frac 1 1) (frac 1 1) None
                      None None) ;;
  card_qr2 <- add_region_proportional card_bottom qr2 ;;
  assign Y1 (fun _ it =>
               bind (number (y2 it)) (fun a =>
               bind (number (x2 it)) (fun c =>
               bind (number (x1 it)) (fun b =>
               inr (Some (a - (c - b))%Qc)))))
         card_qr2 card_qr2 ;;;
  title <- alloc (Text "card-title" (frac 0 1) (frac 0 1) (frac 1 1) (frac 40 100) None
                       None None None None None None None true false false) ;;
  add_region_proportional card_top title ;;;
  requires <- alloc (Text "card-requires" (frac 0 1) (frac 40 100) (frac 1 1)
                          (frac 66 100) None None None None None (Some "C") None None
                          false true false) ;;
  add_region_proportional card_top requires ;;;
  crypto1 <- alloc (Text "card-crypto1" (frac 0 1) (frac 66 100) (frac 1 1)
                         (frac 83 100) None None None None None (Some "R") None None
                         false false false) ;;
  add_region_proportional card_top crypto1 ;;;
  crypto2 <- alloc (Text "card-crypto2" (frac 0 1) (frac 83 100) (frac 1 1)
                         (frac 100 100) None None None None None (Some "R") None None
                         false false false) ;;
  add_region_proportional card_top crypto2 ;;;
  match MNEM_ROWS_COLS num_mnemonics with
  | None => raise AssertionError
  | Some (rows, cols) =>
      for_each (seq 0 rows)
        (fun r =>
           for_each (seq 0 cols)
             (fun c =>
                cell <- try (mnemonic_cell rows cols r c) ;;
                word <- alloc cell ;;
                add_region_proportional card_mnemonics word ;;;
                ret tt)) ;;;
      ret card
  end.
End Card.

End Layout.

(** ** Further inputs used as examples *)

Module Samples.

Import Py Conv Inv Tables.

(** An [Account.supported] that knows Ethereum alone. *)
Definition supported (name : string) : exn + Symbol :=
  if name =? "ETH" then inr "ETH" else inl ValueError.

Definition CRYPTO_SYMBOLS (symbol : Symbol) : option string :=
  if symbol =? "ETH" then Some "Ethereum" else None.

(** One Ethereum account, which also takes the USD token. *)
Definition account : Account :=
  mkAccount "0x336cBeAB83aCCdb2541e43D514B62DC6C53675f4" "Ethereum" "ETH".

Definition payable : Payable :=
  mkPayable
    [ ("USD", Some account); ("ETH", Some account) ]
    [ ("USD", mkTokenInfo "USD Coin" "USD" 6);
      ("ETH", mkTokenInfo "Ethereum" "ETH" 18) ].

(** A [tabulate] that keeps what it is given. *)
Definition kept (rows : list (list Cell)) (headers : list string) (format : Format)
  : list (list Cell) * list string * Format :=
  (rows, headers, format).

(** An oracle that prices nothing, and one that prices DOGE in ETH. *)
Definition no_prices (c : string) : option (TokenInfo * TokenInfo * Qc) := None.

Definition doge_prices (c : string) : option (TokenInfo * TokenInfo * Qc) :=
  if c =? "DOGE"
  then Some (mkTokenInfo "Dogecoin" "DOGE" 8, mkTokenInfo "Ethereum" "ETH" 18,
             Q2Qc (5 # 100000))
  else None.

(** An oracle that prices USD in ETH, and the constructor on the lines of
    [Examples.invoice] with ETH/USD wanted and no ratio supplied, which has
    to ask it. *)
Definition usd_prices (c : string) : option (TokenInfo * TokenInfo * Qc) :=
  if c =? "USD"
  then Some (mkTokenInfo "USD Coin" "USD" 6, mkTokenInfo "Ethereum" "ETH" 18,
             Q2Qc (100 # 123456))
  else None.

Definition built_priced : option (Raised.error + Init.Built) :=
  Init.init "USD" Examples.tokens Examples.tokens usd_prices supported CRYPTO_SYMBOLS
            (nodup string_dec) 20 (lines Examples.invoice) [ account ]
            (Init.Currencies [ "USD"; "ETH" ]) (Some [ (("ETH", "USD"), None) ]).

(** The constructor on the lines of [Examples.invoice], with one account,
    the two currencies and one ratio. *)
Definition built (prices : string -> option (TokenInfo * TokenInfo * Qc))
  : option (Raised.error + Init.Built) :=
  Init.init "USD" Examples.tokens Examples.tokens prices supported CRYPTO_SYMBOLS
            (nodup string_dec) 20 (lines Examples.invoice) [ account ]
            (Init.Currencies [ "USD"; "ETH" ])
            (Some [ (("ETH", "USD"), Examples.ratio 123456 100) ]).

(** A store of a box of 10 by 20, a text for its lower right quarter, an
    image for the middle of whatever takes it, and a region with no side. *)
Definition store : Layout.Store :=
  [ Layout.plain Layout.BoxClass "box" (Some (Q2Qc 0)) (Some (Q2Qc 0))
                 (Some (Q2Qc 10)) (Some (Q2Qc 20)) None;
    Layout.Text "quarter" (Layout.frac 1 2) (Layout.frac 1 2) None None None
                None None None None None None None false false false;
    Layout.Image "middle" (Layout.frac 1 4) (Layout.frac 1 4) (Layout.frac 3 4)
                 (Layout.frac 3 4) None None None;
    Layout.plain Layout.RegionClass "open" None None None None None ].

(** A [COLOR] of two colours with their [int( s, 16 )], a [MNEM_ROWS_COLS]
    of two word counts, a [FONTS] of two fonts, and a card of 3 3/8 by
    2 1/8 inches. *)
Definition COLOR : list string := [ "FF0000"; "00FF00" ].

Definition int_16 (s : string) : exn + Z :=
  if s =? "FF0000" then inr 16711680%Z
  else if s =? "00FF00" then inr 65280%Z
  else inl ValueError.

Definition MNEM_ROWS_COLS (n : nat) : option (nat * nat) :=
  if (n =? 20)%nat then Some (7, 3)
  else if (n =? 33)%nat then Some (11, 3)
  else None.

Definition FONTS (f : string) : option string :=
  if f =? "mono" then Some "DejaVuSansMono"
  else if f =? "sans" then Some "helvetica"
  else None.

Definition card_size : Sheet.Coordinate :=
  Sheet.mkCoordinate (Q2Qc (27 # 8)) (Q2Qc (17 # 8)).

(** A row that is not one of an invoice. *)
Definition no_row : Row :=
  mkRow 0 "" (Q2Qc 0) (Q2Qc 0) None "" (Q2Qc 0) (Q2Qc 0) (Q2Qc 0) "" "" 0
        (mkTokenInfo "" "" 0) [] [].

End Samples.

(** * Properties *)

(** ** Numbers and strings *)

Section Numbers.
Import Py.
Local Open Scope Qc_scope.

Lemma nonzero_true (q : Qc) : nonzero q = true <-> q <> 0.
Proof.
  unfold nonzero. split.
  - intros H E. subst q. discriminate H.
  - intros H. destruct (Qc_eq_bool q 0) eqn:E; [|reflexivity].
    apply Qc_eq_bool_correct in E. contradiction.
Qed.

Lemma nonzero_false (q : Qc) : nonzero q = false <-> q = 0.
Proof.
  split.
  - intros H. destruct (Qc_eq_dec q 0) as [E|E]; [exact E|].
    apply nonzero_true in E. congruence.
  - intros ->. reflexivity.
Qed.

Lemma lt_true (x y : Qc) : lt x y = true <-> x < y.
Proof.
  unfold lt. rewrite negb_true_iff. split.
  - intros H. apply Qcnot_le_lt. intros L.
    apply Qle_bool_iff in L. congruence.
  - intros H. destruct (Qle_bool y x) eqn:E; [|reflexivity].
    apply Qle_bool_iff in E. exact (False_ind _ (Qclt_not_le _ _ H E)).
Qed.

Lemma gt_true (x y : Qc) : gt x y = true <-> y < x.
Proof. exact (lt_true y x). Qed.

Lemma lt_irrefl (x : Qc) : lt x x = false.
Proof.
  destruct (lt x x) eqn:E; [|reflexivity].
  apply lt_true in E. exact (False_ind _ (Qclt_not_le _ _ E (Qcle_refl x))).
Qed.

Lemma truediv_nonzero (x y : Qc) : nonzero y = true -> truediv x y = inr (x / y).
Proof. unfold truediv, nonzero. destruct (Qc_eq_bool y 0); [discriminate|reflexivity]. Qed.

Lemma length_app_string (s t : string) :
  String.length (s ++ t) = (String.length s + String.length t)%nat.
Proof. induction s as [|c s IH]; simpl; [reflexivity | now rewrite IH]. Qed.
End Numbers.

(** Closes an equation between two given rationals. *)
Ltac qc_eq := apply Qc_is_canon; vm_compute; reflexivity.

(** ** [LineItem.net] *)

Section NetProperties.
Import Py Line.
Local Open Scope Qc_scope.
Variable percent : Qc -> string.

Lemma net_no_tax (item : LineItem) :
  tax item = None \/ tax item = Some 0 ->
  net percent item = (units item * price item, 0, "no tax").
Proof. unfold net. intros [-> | ->]; reflexivity. Qed.

Lemma net_added (item : LineItem) (t : Qc) :
  tax item = Some t -> t <> 0 -> t < 1 ->
  net percent item
  = (units item * price item + units item * price item * t,
     units item * price item * t,
     (percent (t * Q2Qc 100) ++ "% added")%string).
Proof.
  intros E Hz Hlt. unfold net. rewrite E.
  apply nonzero_true in Hz. apply lt_true in Hlt. now rewrite Hz, Hlt.
Qed.

Lemma net_included (item : LineItem) (t : Qc) :
  tax item = Some t -> 1 < t ->
  net percent item
  = (units item * price item,
     units item * price item - units item * price item / t,
     (percent ((t - 1) * Q2Qc 100) ++ "% incl.")%string).
Proof.
  intros E Hgt. unfold net. rewrite E.
  assert (Hz : nonzero t = true).
  { apply nonzero_true. intros ->. exact (Qclt_not_le _ _ Hgt ltac:(discriminate)). }
  assert (Hlt : lt t 1 = false).
  { destruct (lt t 1) eqn:L; [|reflexivity]. apply lt_true in L.
    exact (False_ind _ (Qclt_not_le _ _ L (Qclt_le_weak _ _ Hgt))). }
  apply gt_true in Hgt. now rewrite Hz, Hlt, Hgt.
Qed.

Lemma net_one (item : LineItem) :
  tax item = Some 1 -> net percent item = (units item * price item, 0, "no tax").
Proof. unfold net. intros ->. reflexivity. Qed.
End NetProperties.

Section NetResults.
Import Py Line.
Local Open Scope Qc_scope.
Variable percent : Qc -> string.

(** C2.  [LineItem.net] returns (amount, taxes, text) from the base amount
    [units * price]: with no tax, or a tax of 0, the base, taxes 0 and
    "no tax"; with a tax between 0 and 1, the base plus the taxes, the taxes
    [base * tax], and the percentage "added"; with a tax above 1, the base
    unchanged, the taxes [base - base / tax], and the percentage
    "incl[uded]".  A tax of 0.05 on a base of 100 gives (105, 5, "5% added"),
    a tax of 1.05 gives (100, 100/21, "5% incl."), and 100/21 lies between
    4.7619 and 4.7620. *)
Theorem net_postcondition :
  (forall item : LineItem,
      tax item = None \/ tax item = Some 0 ->
      net percent item = (units item * price item, 0, "no tax"))
  /\ (forall (item : LineItem) (t : Qc),
        tax item = Some t -> 0 < t -> t < 1 ->
        net percent item
        = (units item * price item + units item * price item * t,
           units item * price item * t,
           (percent (t * Q2Qc 100) ++ "% added")%string))
  /\ (forall (item : LineItem) (t : Qc),
        tax item = Some t -> 1 < t ->
        net percent item
        = (units item * price item,
           units item * price item - units item * price item / t,
           (percent ((t - 1) * Q2Qc 100) ++ "% incl.")%string))
  /\ net percent Examples.item_added
     = (Q2Qc 105, Q2Qc 5, (percent (Q2Qc 5) ++ "% added")%string)
  /\ net percent Examples.item_included
     = (Q2Qc 100, Q2Qc (100 # 21), (percent (Q2Qc 5) ++ "% incl.")%string)
  /\ Q2Qc (47619 # 10000) < Q2Qc (100 # 21) < Q2Qc (47620 # 10000).
Proof.
  split; [exact (net_no_tax percent)|].
  split.
  { intros item t E Hpos Hlt. apply net_added; [exact E | | exact Hlt].
    intros ->. exact (Qclt_not_le _ _ Hpos (Qcle_refl _)). }
  split; [exact (net_included percent)|].
  split.
  { rewrite (net_added percent Examples.item_added (Q2Qc (5 # 100)));
      [ | reflexivity | discriminate | reflexivity ].
    replace (Q2Qc (5 # 100) * Q2Qc 100) with (Q2Qc 5) by qc_eq.
    repeat f_equal; qc_eq. }
  split.
  { rewrite (net_included percent Examples.item_included (Q2Qc (105 # 100)));
      [ | reflexivity | reflexivity ].
    replace ((Q2Qc (105 # 100) - 1) * Q2Qc 100) with (Q2Qc 5) by qc_eq.
    repeat f_equal; qc_eq. }
  split; reflexivity.
Qed.

(** C3, amended.  [net] gives the no-tax result (taxes 0, text "no tax")
    exactly when the tax is absent, 0 or 1: a tax of exactly 1 passes
    neither [tax < 1] nor [tax > 1] and is priced like no tax. *)
Theorem net_no_tax_iff (item : LineItem) :
  no_tax_result (net percent item)
  <-> tax item = None \/ tax item = Some 0 \/ tax item = Some 1.
Proof.
  unfold no_tax_result. split.
  - intros [_ Hs]. unfold net in Hs.
    destruct (tax item) as [t|]; [|now left].
    right. destruct (nonzero t) eqn:Hz.
    + destruct (lt t 1) eqn:Hlt.
      { exfalso. simpl in Hs. apply (f_equal String.length) in Hs.
        rewrite length_app_string in Hs. simpl in Hs. lia. }
      destruct (gt t 1) eqn:Hgt.
      { exfalso. simpl in Hs. apply (f_equal String.length) in Hs.
        rewrite length_app_string in Hs. simpl in Hs. lia. }
      right. f_equal.
      destruct (Qclt_le_dec t 1) as [L|L]; [apply lt_true in L; congruence|].
      destruct (Qcle_lt_or_eq _ _ L) as [L'|L']; [|now symmetry].
      apply gt_true in L'. congruence.
    + left. f_equal. now apply nonzero_false.
  - intros [E | [E | E]].
    + now rewrite (net_no_tax percent item (or_introl E)).
    + now rewrite (net_no_tax percent item (or_intror E)).
    + now rewrite (net_one percent item E).
Qed.
End NetResults.

(** C3 as the spec has it fails: the line with a tax of exactly 1 gets the
    no-tax result, though its tax is neither absent nor 0. *)
Lemma net_tax_one_counterexample :
  Line.tax Examples.item_tax_one = Some (Q2Qc 1)
  /\ Line.net Examples.percent_plain Examples.item_tax_one
     = (Q2Qc 100, Q2Qc 0, "no tax")
  /\ ~ (forall (percent : Qc -> string) (item : Line.LineItem),
          Line.no_tax_result (Line.net percent item) ->
          Line.tax item = None \/ Line.tax item = Some (Q2Qc 0)).
Proof.
  split; [reflexivity|]. split.
  - reflexivity.
  - intros H.
    destruct (H Examples.percent_plain Examples.item_tax_one) as [E|E].
    + split; reflexivity.
    + discriminate E.
    + discriminate E.
Qed.

(** ** [Invoice.pages] *)

Section Pages.
Import Inv.
Context {A : Type}.
Variable rows : Z.

Lemma pages_loop_concat (it : list A) :
  forall (page_i : nat) (page_l : list A),
    List.concat (pages_loop AllPages rows it page_i page_l) = page_l ++ it.
Proof.
  induction it as [|row it IH]; intros page_i page_l; simpl.
  - destruct page_l; simpl; [reflexivity|]. now rewrite !app_nil_r.
  - destruct (rows <=? _)%Z; simpl.
    + rewrite IH. simpl. now rewrite <- app_assoc.
    + rewrite IH. now rewrite <- app_assoc.
Qed.

Lemma pages_loop_sizes (it : list A) :
  (0 < rows)%Z ->
  forall (page_i : nat) (page_l : list A),
    (Z.of_nat (List.length page_l) < rows)%Z ->
    let batches := pages_loop AllPages rows it page_i page_l in
    Forall (fun b => (1 <= Z.of_nat (List.length b) <= rows)%Z) batches
    /\ (forall k, S k < List.length batches ->
                  Z.of_nat (List.length (nth k batches [])) = rows).
Proof.
  intros Hpos. induction it as [|row it IH]; intros page_i page_l Hl; simpl.
  - destruct page_l as [|x page_l]; simpl.
    + split; [constructor | intros k Hk; simpl in Hk; lia].
    + split.
      * constructor; [simpl in *; lia | constructor].
      * intros k Hk. simpl in Hk. lia.
  - assert (Hlen : List.length (page_l ++ [row]) = S (List.length page_l))
      by (rewrite length_app; simpl; lia).
    destruct (rows <=? Z.of_nat (List.length (page_l ++ [row])))%Z eqn:Hfull.
    + apply Z.leb_le in Hfull. simpl.
      destruct (IH (S page_i) []) as [Hall Hbut]; [simpl; lia|].
      split.
      * constructor; [rewrite Hlen in *; lia | exact Hall].
      * intros [|k] Hk; simpl in *; [rewrite Hlen in *; lia|].
        apply Hbut. lia.
    + apply Z.leb_gt in Hfull. apply IH. exact Hfull.
Qed.

Lemma pages_loop_filter (page : PageFilter) (it : list A) :
  forall (page_i : nat) (page_l : list A),
    pages_loop page rows it page_i page_l
    = map snd
        (filter (fun ib => page_match page (fst ib))
           (combine (seq page_i (List.length (pages_loop AllPages rows it page_i page_l)))
                    (pages_loop AllPages rows it page_i page_l))).
Proof.
  induction it as [|row it IH]; intros page_i page_l; simpl.
  - destruct page_l; simpl; [reflexivity|].
    destruct (page_match page page_i); reflexivity.
  - destruct (rows <=? _)%Z; simpl.
    + rewrite (IH (S page_i) []).
      destruct (page_match page page_i); reflexivity.
    + apply IH.
Qed.
End Pages.

Section PageFilters.
Import Py Inv.

Lemma only_page {A : Type} (batches : list (list A)) :
  forall (start p : nat),
    map snd (filter (fun ib : nat * list A => (Z.of_nat (fst ib) =? Z.of_nat (start + p))%Z)
                    (combine (seq start (List.length batches)) batches))
    = match nth_error batches p with
      | Some b => [ b ]
      | None => []
      end.
Proof.
  induction batches as [|b batches IH]; intros start p; simpl; [now destruct p|].
  destruct p as [|p]; simpl.
  - rewrite Nat.add_0_r, Z.eqb_refl. simpl. f_equal.
    assert (H : forall (l : list (list A)) (s : nat),
               start < s ->
               filter (fun ib : nat * list A => (Z.of_nat (fst ib) =? Z.of_nat start)%Z)
                      (combine (seq s (List.length l)) l) = []).
    { induction l as [|x l IHl]; intros s Hs; simpl; [reflexivity|].
      replace (Z.of_nat s =? Z.of_nat start)%Z with false
        by (symmetry; apply Z.eqb_neq; lia).
      apply IHl. lia. }
    rewrite H by lia. reflexivity.
  - replace (Z.of_nat start =? Z.of_nat (start + S p))%Z with false
      by (symmetry; apply Z.eqb_neq; lia).
    replace (start + S p) with (S start + p) by lia. apply IH.
Qed.

Lemma no_page {A : Type} (batches : list (list A)) (p : Z) :
  (p < 0)%Z ->
  forall start : nat,
    filter (fun ib : nat * list A => (Z.of_nat (fst ib) =? p)%Z)
           (combine (seq start (List.length batches)) batches) = [].
Proof.
  intros Hp. induction batches as [|b batches IH]; intros start; simpl; [reflexivity|].
  replace (Z.of_nat start =? p)%Z with false by (symmetry; apply Z.eqb_neq; lia).
  apply IH.
Qed.

End PageFilters.

(** C9.  For a positive number [n] of rows per page and any sequence of rows,
    the batches [Invoice.pages] yields with no page filter concatenate to the
    sequence, each of them has between 1 and [n] rows and each but the last
    exactly [n].  With a membership test for a page filter the batches
    yielded are, in their order, the batches of that same partition whose
    number, counted from 0, passes the test; with a single index they are
    the one batch of that number, or none when the partition has no batch
    of that number. *)
Theorem pages_batching {A : Type} (INVOICE_ROWS : Z) (it : list A) (n : Z) :
  (0 < n)%Z ->
  let batches := Inv.pages_of INVOICE_ROWS Inv.AllPages (Some n) it in
  List.concat batches = it
  /\ Forall (fun b => (1 <= Z.of_nat (List.length b) <= n)%Z) batches
  /\ (forall k, S k < List.length batches ->
                Z.of_nat (List.length (nth k batches [])) = n)
  /\ (forall contains : nat -> bool,
        Inv.pages_of INVOICE_ROWS (Inv.PagesIn contains) (Some n) it
        = map snd (filter (fun ib : nat * list A => contains (fst ib))
                          (combine (seq 0 (List.length batches)) batches)))
  /\ (forall index : Z,
        Inv.pages_of INVOICE_ROWS (Inv.PageIs index) (Some n) it
        = if (index <? 0)%Z then []
          else match nth_error batches (Z.to_nat index) with
               | Some batch => [ batch ]
               | None => []
               end).
Proof.
  intros Hpos batches. unfold batches, Inv.pages_of.
  split; [apply pages_loop_concat|].
  destruct (pages_loop_sizes n it Hpos 0 []) as [Hall Hbut]; [simpl; lia|].
  split; [exact Hall|]. split; [exact Hbut|]. split.
  - intros contains. apply (pages_loop_filter n (Inv.PagesIn contains)).
  - intros index. rewrite (pages_loop_filter n (Inv.PageIs index)).
    cbn [Inv.page_match].
    destruct (index <? 0)%Z eqn:Hneg.
    + apply Z.ltb_lt in Hneg. now rewrite no_page.
    + apply Z.ltb_ge in Hneg.
      rewrite <- (only_page _ 0 (Z.to_nat index)). simpl.
      now rewrite Z2Nat.id.
Qed.

Lemma pages_batching_witness :
  (0 < 2)%Z
  /\ Inv.pages_of 60 Inv.AllPages (Some 2%Z) [1; 2; 3; 4; 5] = [[1; 2]; [3; 4]; [5]]
  /\ Inv.pages_of 60 (Inv.PageIs 1) (Some 2%Z) [1; 2; 3; 4; 5] = [[3; 4]]
  /\ Inv.pages_of 60 (Inv.PagesIn Nat.even) (Some 2%Z) [1; 2; 3; 4; 5] = [[1; 2]; [5]]
  /\ let batches := Inv.pages_of 60 Inv.AllPages (Some 2%Z) [1; 2; 3; 4; 5] in
     List.concat batches = [1; 2; 3; 4; 5]
     /\ Forall (fun b => (1 <= Z.of_nat (List.length b) <= 2)%Z) batches
     /\ (forall k, S k < List.length batches ->
                   Z.of_nat (List.length (nth k batches [])) = 2%Z)
     /\ (forall contains : nat -> bool,
           Inv.pages_of 60 (Inv.PagesIn contains) (Some 2%Z) [1; 2; 3; 4; 5]
           = map snd (filter (fun ib : nat * list nat => contains (fst ib))
                             (combine (seq 0 (List.length batches)) batches)))
     /\ (forall index : Z,
           Inv.pages_of 60 (Inv.PageIs index) (Some 2%Z) [1; 2; 3; 4; 5]
           = if (index <? 0)%Z then []
             else match nth_error batches (Z.to_nat index) with
                  | Some batch => [ batch ]
                  | None => []
                  end).
Proof.
  split; [lia|]. split; [reflexivity|]. split; [reflexivity|]. split; [reflexivity|].
  apply (pages_batching 60%Z [1; 2; 3; 4; 5] 2%Z). lia.
Defined.

(** ** Dictionaries *)

Section DictFacts.
Context {K V : Type}.
Variable eqb : K -> K -> bool.
Hypothesis eqb_eq : forall x y : K, eqb x y = true <-> x = y.

Let eqb_refl (x : K) : eqb x x = true.
Proof. now apply eqb_eq. Qed.

Let eqb_neq (x y : K) : x <> y -> eqb x y = false.
Proof.
  intros H. destruct (eqb x y) eqn:E; [|reflexivity].
  apply eqb_eq in E. contradiction.
Qed.

Lemma lookup_setitem_same (k : K) (v : V) (d : Dict.t) :
  Dict.lookup eqb k (Dict.setitem eqb k v d) = Some v.
Proof.
  induction d as [|[k' v'] d IH]; simpl.
  - now rewrite eqb_refl.
  - destruct (eqb k k') eqn:E; simpl; rewrite E; [reflexivity | exact IH].
Qed.

Lemma lookup_setitem_other (k k' : K) (v : V) (d : Dict.t) :
  k' <> k ->
  Dict.lookup eqb k' (Dict.setitem eqb k v d) = Dict.lookup eqb k' d.
Proof.
  intros Hne. induction d as [|[k0 v0] d IH]; simpl.
  - now rewrite (eqb_neq k' k Hne).
  - destruct (eqb k k0) eqn:E; simpl.
    + apply eqb_eq in E. subst k0. now rewrite (eqb_neq k' k Hne).
    + now rewrite IH.
Qed.

Lemma lookup_In (k : K) (v : V) (d : Dict.t) :
  Dict.lookup eqb k d = Some v -> In (k, v) d.
Proof.
  induction d as [|[k' v'] d IH]; simpl; [discriminate|].
  destruct (eqb k k') eqn:E.
  - intros [= ->]. apply eqb_eq in E. subst. now left.
  - intros H. right. now apply IH.
Qed.

Lemma lookup_None (k : K) (d : Dict.t (V := V)) :
  Dict.lookup eqb k d = None <-> ~ In k (Dict.keys d).
Proof.
  induction d as [|[k' v'] d IH]; simpl.
  - tauto.
  - destruct (eqb k k') eqn:E.
    + apply eqb_eq in E. subst. split; [discriminate | intros H; exfalso; apply H; now left].
    + rewrite IH. split.
      * intros H [H'|H']; [subst; rewrite eqb_refl in E; discriminate | contradiction].
      * intros H H'. apply H. now right.
Qed.

Lemma In_lookup (k : K) (v : V) (d : Dict.t) :
  Dict.ok d -> In (k, v) d -> Dict.lookup eqb k d = Some v.
Proof.
  unfold Dict.ok. induction d as [|[k' v'] d IH]; simpl; [contradiction|].
  intros Hok [H|H].
  - injection H as -> ->. now rewrite eqb_refl.
  - inversion Hok as [|? ? Hnot Hok']; subst.
    destruct (eqb k k') eqn:E.
    + apply eqb_eq in E. subst k'. exfalso. apply Hnot.
      apply (in_map fst) in H. exact H.
    + now apply IH.
Qed.

Lemma setitem_absent (k : K) (v : V) (d : Dict.t) :
  Dict.lookup eqb k d = None -> Dict.setitem eqb k v d = d ++ [(k, v)].
Proof.
  induction d as [|[k' v'] d IH]; simpl; [reflexivity|].
  destruct (eqb k k'); [discriminate|]. intros H. now rewrite IH.
Qed.

Lemma keys_setitem_present (k : K) (v : V) (d : Dict.t) :
  Dict.lookup eqb k d <> None -> Dict.keys (Dict.setitem eqb k v d) = Dict.keys d.
Proof.
  unfold Dict.keys. induction d as [|[k' v'] d IH]; simpl; [congruence|].
  destruct (eqb k k'); simpl; [reflexivity|]. intros H. now rewrite IH.
Qed.

Lemma ok_setitem (k : K) (v : V) (d : Dict.t) :
  Dict.ok d -> Dict.ok (Dict.setitem eqb k v d).
Proof.
  intros Hok. unfold Dict.ok.
  destruct (Dict.lookup eqb k d) eqn:E.
  - rewrite keys_setitem_present; [exact Hok | congruence].
  - rewrite (setitem_absent _ _ _ E). unfold Dict.keys. rewrite map_app. simpl.
    apply lookup_None in E.
    apply NoDup_app; [exact Hok | repeat constructor; intros [] | ].
    intros x Hx [<-|[]]. contradiction.
Qed.
End DictFacts.

(** ** Conversions: lookups and single deductions *)

Section ConvFacts.
Import Py Conv Deduction.

Lemma pair_eqb_eq (c c' : Pair) : pair_eqb c c' = true <-> c = c'.
Proof.
  destruct c as [a b], c' as [a' b']. unfold pair_eqb. simpl.
  rewrite andb_true_iff, !String.eqb_eq. split.
  - now intros [-> ->].
  - now intros [= -> ->].
Qed.

Lemma pair_eqb_refl (c : Pair) : pair_eqb c c = true.
Proof. now apply pair_eqb_eq. Qed.

Lemma lookup_set_same (k : Pair) (v : Ratio) (d : Conversions) :
  lookup k (setitem k v d) = Some v.
Proof. exact (lookup_setitem_same pair_eqb pair_eqb_eq k v d). Qed.

Lemma lookup_set_other (k k' : Pair) (v : Ratio) (d : Conversions) :
  k' <> k -> lookup k' (setitem k v d) = lookup k' d.
Proof. exact (lookup_setitem_other pair_eqb pair_eqb_eq k k' v d). Qed.

Lemma entry_lookup (k : Pair) (v : Ratio) (d : Conversions) :
  Dict.ok d -> In (k, v) d -> lookup k d = Some v.
Proof. exact (In_lookup pair_eqb pair_eqb_eq k v d). Qed.

Lemma lookup_entry (k : Pair) (v : Ratio) (d : Conversions) :
  lookup k d = Some v -> In (k, v) d.
Proof. exact (lookup_In pair_eqb pair_eqb_eq k v d). Qed.

Lemma ok_set (k : Pair) (v : Ratio) (d : Conversions) :
  Dict.ok d -> Dict.ok (setitem k v d).
Proof. exact (ok_setitem pair_eqb pair_eqb_eq k v d). Qed.

Lemma distinct_keys_spec (ks : list Pair) : distinct_keys ks = true -> NoDup ks.
Proof.
  induction ks as [|k ks IH]; simpl; [constructor|].
  rewrite andb_true_iff, negb_true_iff. intros [Hk Hks].
  constructor; [|now apply IH].
  intros Hin. assert (existsb (pair_eqb k) ks = true); [|congruence].
  apply existsb_exists. exists k. split; [exact Hin | apply pair_eqb_refl].
Qed.

Lemma distinct_keys_ok (d : Conversions) :
  distinct_keys (Dict.keys d) = true -> Dict.ok d.
Proof. apply distinct_keys_spec. Qed.

Lemma get_known (k : Pair) (d : Conversions) :
  is_None (get k d) = false <-> known d k.
Proof.
  unfold get, known. destruct (lookup k d) as [[q|]|]; simpl; split;
    try discriminate; try (intros [q' H]; discriminate H).
  - intros _. now exists q.
  - reflexivity.
Qed.

Lemma get_not_known (k : Pair) (d : Conversions) :
  is_None (get k d) = true <-> ~ known d k.
Proof.
  rewrite <- get_known. destruct (is_None (get k d)); split; congruence.
Qed.

Lemma set_keeps_known (k k' : Pair) (v : Ratio) (q : Qc) (d : Conversions) :
  is_None (get k d) = true ->
  lookup k' d = Some (Some q) -> lookup k' (setitem k v d) = Some (Some q).
Proof.
  intros Hnone Hk'. rewrite lookup_set_other; [exact Hk'|].
  intros ->. apply get_not_known in Hnone. apply Hnone. now exists q.
Qed.

Lemma set_keeps_present (k k' : Pair) (v : Ratio) (d : Conversions) :
  lookup k' d <> None -> lookup k' (setitem k v d) <> None.
Proof.
  intros H. destruct (pair_eqb k' k) eqn:E.
  - apply pair_eqb_eq in E. subst. rewrite lookup_set_same. discriminate.
  - rewrite lookup_set_other; [exact H|]. intros ->.
    rewrite pair_eqb_refl in E. discriminate.
Qed.

(** What a deduction writes, and where. *)
Lemma step_writes (d d' : Conversions) :
  step d d' ->
  exists (k : Pair) (q : Qc),
    is_None (get k d) = true /\ d' = setitem k (Some q) d.
Proof. intros [a b q H1 H2 H3 | a b c q q2 H1 H2 H3 H4]; eauto. Qed.

Lemma step_keeps_known (d d' : Conversions) (k : Pair) (q : Qc) :
  step d d' -> lookup k d = Some (Some q) -> lookup k d' = Some (Some q).
Proof.
  intros Hs Hk. destruct (step_writes d d' Hs) as (k0 & q0 & Hnone & ->).
  now apply set_keeps_known.
Qed.

Lemma steps_keep_known (d d' : Conversions) (k : Pair) (q : Qc) :
  steps d d' -> lookup k d = Some (Some q) -> lookup k d' = Some (Some q).
Proof.
  induction 1 as [|d1 d2 _ IH Hs]; intros Hk; [exact Hk|].
  eapply step_keeps_known; eauto.
Qed.

Lemma steps_keep_present (d d' : Conversions) (k : Pair) :
  steps d d' -> lookup k d <> None -> lookup k d' <> None.
Proof.
  induction 1 as [|d1 d2 _ IH Hs]; intros Hk; [exact Hk|].
  destruct (step_writes d1 d2 Hs) as (k0 & q0 & _ & ->).
  apply set_keeps_present. now apply IH.
Qed.

Lemma steps_keep_ok (d d' : Conversions) :
  steps d d' -> Dict.ok d -> Dict.ok d'.
Proof.
  induction 1 as [|d1 d2 _ IH Hs]; intros Hok; [exact Hok|].
  destruct (step_writes d1 d2 Hs) as (k0 & q0 & _ & ->).
  apply ok_set. now apply IH.
Qed.

Lemma steps_trans (d1 d2 d3 : Conversions) :
  steps d1 d2 -> steps d2 d3 -> steps d1 d3.
Proof.
  intros H12 H23. induction H23 as [|d d' _ IH Hs]; [exact H12|].
  eapply steps_step; eauto.
Qed.

(** A deduction changes something: it makes a known pair of one that was not. *)
Lemma step_changes (d d' : Conversions) : step d d' -> d' <> d.
Proof.
  intros Hs E. destruct (step_writes d d' Hs) as (k & q & Hnone & Hd').
  apply get_not_known in Hnone. apply Hnone. exists q.
  rewrite <- E, Hd'. apply lookup_set_same.
Qed.
End ConvFacts.

(** ** The first pass: inversion and single-hop composition *)

Section FirstPass.
Import Py Conv Deduction.

Lemma compose_test (a b a2 b2 : Symbol) (d : Conversions) :
  (b =? a2) && negb (a =? b2) && is_None (get (a, b2) d) = true
  <-> b = a2 /\ a <> b2 /\ is_None (get (a, b2) d) = true.
Proof.
  rewrite !andb_true_iff, negb_true_iff, String.eqb_eq, String.eqb_neq. tauto.
Qed.

Lemma compose_with_keeps_known (a b : Symbol) (r : Qc) (snapshot : Conversions) :
  forall (s : State) (k : Pair) (q : Qc),
    lookup k (conv s) = Some (Some q) ->
    lookup k (conv (compose_with a b r snapshot s)) = Some (Some q).
Proof.
  induction snapshot as [|[[a2 b2] [q2|]] rest IH]; intros s k q Hk; simpl.
  - exact Hk.
  - destruct ((b =? a2) && negb (a =? b2) && is_None (get (a, b2) (conv s))) eqn:T.
    + apply IH. simpl. apply compose_test in T as (_ & _ & Hnone).
      now apply set_keeps_known.
    + apply IH. exact Hk.
  - apply IH. exact Hk.
Qed.

Lemma compose_with_updated_mono (a b : Symbol) (r : Qc) (snapshot : Conversions) :
  forall s : State,
    updated s = true -> updated (compose_with a b r snapshot s) = true.
Proof.
  induction snapshot as [|[[a2 b2] [q2|]] rest IH]; intros s Hs; simpl.
  - exact Hs.
  - destruct ((b =? a2) && negb (a =? b2) && is_None (get (a, b2) (conv s)));
      apply IH; [reflexivity | exact Hs].
  - apply IH. exact Hs.
Qed.

Lemma compose_with_steps (a b : Symbol) (r : Qc) (snapshot : Conversions) :
  forall s : State,
    lookup (a, b) (conv s) = Some (Some r) ->
    (forall k q, In (k, Some q) snapshot -> lookup k (conv s) = Some (Some q)) ->
    steps (conv s) (conv (compose_with a b r snapshot s)).
Proof.
  induction snapshot as [|[[a2 b2] [q2|]] rest IH]; intros s Hab Hsnap; simpl.
  - constructor.
  - destruct ((b =? a2) && negb (a =? b2) && is_None (get (a, b2) (conv s))) eqn:T.
    + apply compose_test in T as (-> & Hne & Hnone).
      assert (Hstep : step (conv s) (setitem (a, b2) (Some (r * q2)%Qc) (conv s))).
      { apply (step_composition (conv s) a a2 b2 r q2); auto.
        apply Hsnap. now left. }
      eapply steps_trans; [eapply steps_step; [constructor | exact Hstep]|].
      apply (IH (mkState _ _ _ _)); simpl.
      * now apply set_keeps_known.
      * intros k q Hin. apply set_keeps_known; [exact Hnone|].
        apply Hsnap. now right.
    + apply (IH (mkState _ _ _ _)); simpl; [exact Hab|].
      intros k q Hin. apply Hsnap. now right.
  - apply (IH (mkState _ _ _ _)); simpl; [exact Hab|].
    intros k q Hin. apply Hsnap. now right.
Qed.

Lemma compose_with_quiet (a b : Symbol) (r : Qc) (snapshot : Conversions) :
  forall s : State,
    quiet a b snapshot (conv s) ->
    conv (compose_with a b r snapshot s) = conv s
    /\ updated (compose_with a b r snapshot s) = updated s
    /\ log (compose_with a b r snapshot s) = log s.
Proof.
  induction snapshot as [|[[a2 b2] [q2|]] rest IH]; intros s Hq; simpl.
  - auto.
  - destruct ((b =? a2) && negb (a =? b2) && is_None (get (a, b2) (conv s))) eqn:T.
    + exfalso. apply compose_test in T as (E & Hne & Hnone).
      apply get_not_known in Hnone. apply Hnone.
      apply (Hq a2 b2 q2); auto. now left.
    + apply (IH (mkState _ _ _ _)). simpl.
      intros a3 b3 q3 Hin. apply (Hq a3 b3 q3). now right.
  - apply (IH (mkState _ _ _ _)). simpl.
    intros a3 b3 q3 Hin. apply (Hq a3 b3 q3). now right.
Qed.

Lemma compose_with_not_updated (a b : Symbol) (r : Qc) (snapshot : Conversions) :
  forall s : State,
    updated (compose_with a b r snapshot s) = false ->
    quiet a b snapshot (conv s).
Proof.
  induction snapshot as [|[[a2 b2] [q2|]] rest IH]; intros s Hu; simpl in Hu.
  - intros a3 b3 q3 [].
  - destruct ((b =? a2) && negb (a =? b2) && is_None (get (a, b2) (conv s))) eqn:T.
    + rewrite compose_with_updated_mono in Hu; [discriminate | reflexivity].
    + apply IH in Hu. simpl in Hu.
      intros a3 b3 q3 [[= -> -> ->]|Hin] E Hne.
      * apply get_known. destruct (is_None (get (a, b3) (conv s))) eqn:N; [|reflexivity].
        exfalso. assert (H : (b =? a3) && negb (a =? b3) && true = true).
        { apply andb_true_iff. split; [|reflexivity].
          apply andb_true_iff. split; [now apply String.eqb_eq|].
          apply negb_true_iff. now apply String.eqb_neq. }
        congruence.
      * now apply (Hu a3 b3 q3).
  - apply IH in Hu. simpl in Hu.
    intros a3 b3 q3 [[=]|Hin]. now apply (Hu a3 b3 q3).
Qed.

Lemma compose_with_reaches (a b c : Symbol) (r q2 : Qc) (snapshot : Conversions) :
  forall s : State,
    In ((b, c), Some q2) snapshot -> a <> c ->
    known (conv (compose_with a b r snapshot s)) (a, c).
Proof.
  induction snapshot as [|[[a2 b2] [q3|]] rest IH]; intros s Hin Hne; simpl.
  - destruct Hin.
  - destruct Hin as [[= -> -> ->]|Hin].
    + destruct ((b =? b) && negb (a =? c) && is_None (get (a, c) (conv s))) eqn:T.
      * exists (r * q2)%Qc. apply compose_with_keeps_known. simpl.
        apply lookup_set_same.
      * assert (K : known (conv s) (a, c)).
        { apply get_known. destruct (is_None (get (a, c) (conv s))); [|reflexivity].
          rewrite String.eqb_refl in T.
          apply String.eqb_neq in Hne. rewrite Hne in T. discriminate T. }
        destruct K as [q K]. exists q. now apply compose_with_keeps_known.
    + destruct ((b =? a2) && negb (a =? b2) && is_None (get (a, b2) (conv s)));
        now apply IH.
  - destruct Hin as [[=]|Hin]. now apply IH.
Qed.

Lemma compose_with_log (a b : Symbol) (r : Qc) (snapshot : Conversions) :
  forall (s : State) (b0 a0 : Symbol) (v0 r0 : Qc),
    In (Deduced b0 a0 v0 r0) (log (compose_with a b r snapshot s)) ->
    In (Deduced b0 a0 v0 r0) (log s).
Proof.
  induction snapshot as [|[[a2 b2] [q2|]] rest IH]; intros s b0 a0 v0 r0 Hin;
    simpl in Hin.
  - exact Hin.
  - destruct ((b =? a2) && negb (a =? b2) && is_None (get (a, b2) (conv s))).
    + apply IH in Hin. simpl in Hin. apply in_app_or in Hin as [Hin|[Hin|[]]];
        [exact Hin | discriminate Hin].
    + apply IH in Hin. exact Hin.
  - apply IH in Hin. exact Hin.
Qed.
End FirstPass.

Section FirstPassOuter.
Import Py Conv Deduction.

Lemma invert_entry_cases (a b : Symbol) (r : Ratio) (s : State) :
  (exists q : Qc,
      r = Some q /\ q <> Q2Qc 0 /\ is_None (get (b, a) (conv s)) = true
      /\ invert_entry a b r s
         = inr (mkState (setitem (b, a) (Some (1 / q)%Qc) (conv s)) true (var_b2 s)
                        (log s ++ [Deduced b a (1 / q)%Qc q])))
  \/ (invert_entry a b r s = inr s
      /\ forall q : Qc, r = Some q -> q <> Q2Qc 0 -> known (conv s) (b, a)).
Proof.
  unfold invert_entry. destruct r as [q|]; [|right; split; [reflexivity | discriminate]].
  destruct (nonzero q) eqn:Hz; simpl.
  - destruct (is_None (get (b, a) (conv s))) eqn:Hn.
    + left. exists q. rewrite (truediv_nonzero _ _ Hz).
      apply nonzero_true in Hz. auto.
    + right. split; [reflexivity|]. intros q' [= <-] _. now apply get_known.
  - right. split; [reflexivity|]. intros q' [= <-] Hq.
    apply nonzero_true in Hq. congruence.
Qed.

Lemma single_hop_returns (snapshot : Conversions) :
  forall s : State, fst (single_hop snapshot s) = Return tt.
Proof.
  induction snapshot as [|[[a b] r] rest IH]; intros s; simpl; [reflexivity|].
  destruct (invert_entry_cases a b r s) as [(q & -> & _ & _ & ->)|[-> _]].
  - apply IH.
  - destruct r; apply IH.
Qed.

Lemma single_hop_keeps_known (snapshot : Conversions) :
  forall (s : State) (k : Pair) (q : Qc),
    lookup k (conv s) = Some (Some q) ->
    lookup k (conv (snd (single_hop snapshot s))) = Some (Some q).
Proof.
  induction snapshot as [|[[a b] r] rest IH]; intros s k q Hk; simpl; [exact Hk|].
  destruct (invert_entry_cases a b r s) as [(q0 & -> & _ & Hn & ->)|[-> _]].
  - apply IH. apply compose_with_keeps_known. simpl. now apply set_keeps_known.
  - destruct r; apply IH; [apply compose_with_keeps_known|]; exact Hk.
Qed.

Lemma single_hop_updated_mono (snapshot : Conversions) :
  forall s : State,
    updated s = true -> updated (snd (single_hop snapshot s)) = true.
Proof.
  induction snapshot as [|[[a b] r] rest IH]; intros s Hs; simpl; [exact Hs|].
  destruct (invert_entry_cases a b r s) as [(q0 & -> & _ & Hn & ->)|[-> _]].
  - apply IH. now apply compose_with_updated_mono.
  - destruct r; apply IH; [apply compose_with_updated_mono|]; exact Hs.
Qed.

Lemma single_hop_steps (snapshot : Conversions) :
  forall s : State,
    Dict.ok (conv s) ->
    (forall k q, In (k, Some q) snapshot -> lookup k (conv s) = Some (Some q)) ->
    steps (conv s) (conv (snd (single_hop snapshot s))).
Proof.
  induction snapshot as [|[[a b] r] rest IH]; intros s Hok Hsnap; simpl; [constructor|].
  destruct (invert_entry_cases a b r s) as [(q0 & -> & Hq0 & Hn & ->)|[-> _]].
  - assert (Hab : lookup (a, b) (conv s) = Some (Some q0)) by (apply Hsnap; now left).
    set (s1 := mkState (setitem (b, a) (Some (1 / q0)%Qc) (conv s)) true (var_b2 s)
                       (log s ++ [Deduced b a (1 / q0)%Qc q0])).
    assert (H1 : steps (conv s) (conv s1)).
    { eapply steps_step; [constructor|]. now apply (step_inversion (conv s) a b q0). }
    assert (Hok1 : Dict.ok (conv s1)) by (eapply steps_keep_ok; eauto).
    assert (H2 : steps (conv s1) (conv (compose_with a b q0 (conv s1) s1))).
    { apply compose_with_steps.
      - simpl. now apply set_keeps_known.
      - intros k q Hin. now apply entry_lookup. }
    eapply steps_trans; [exact H1|]. eapply steps_trans; [exact H2|].
    apply IH; [eapply steps_keep_ok; eauto|]. intros k q Hin.
    eapply steps_keep_known; [exact H2|]. simpl. apply set_keeps_known; [exact Hn|].
    apply Hsnap. now right.
  - destruct r as [q0|].
    + assert (H2 : steps (conv s) (conv (compose_with a b q0 (conv s) s))).
      { apply compose_with_steps.
        - apply Hsnap. now left.
        - intros k q Hin. now apply entry_lookup. }
      eapply steps_trans; [exact H2|].
      apply IH; [eapply steps_keep_ok; eauto|]. intros k q Hin.
      eapply steps_keep_known; [exact H2|]. apply Hsnap. now right.
    + apply IH; [exact Hok|]. intros k q Hin. apply Hsnap. now right.
Qed.
End FirstPassOuter.

Section FirstPassIdle.
Import Py Conv Deduction.

Lemma calm_tail (e : Pair * Ratio) (snapshot d : Conversions) :
  calm (e :: snapshot) d -> calm snapshot d.
Proof. intros H a b q Hin. apply H. now right. Qed.

Lemma single_hop_quiet (snapshot : Conversions) :
  forall s : State,
    calm snapshot (conv s) ->
    conv (snd (single_hop snapshot s)) = conv s
    /\ updated (snd (single_hop snapshot s)) = updated s
    /\ log (snd (single_hop snapshot s)) = log s.
Proof.
  induction snapshot as [|[[a b] r] rest IH]; intros s Hcalm; simpl; [auto|].
  destruct (invert_entry_cases a b r s) as [(q0 & -> & Hq0 & Hn & _)|[-> _]].
  - exfalso. apply get_not_known in Hn. apply Hn.
    apply (Hcalm a b q0); [now left | exact Hq0].
  - destruct r as [q0|].
    + destruct (compose_with_quiet a b q0 (conv s) s) as (Ec & Eu & El).
      { apply (Hcalm a b q0). now left. }
      destruct (IH (compose_with a b q0 (conv s) s)) as (Ec' & Eu' & El').
      { rewrite Ec. eapply calm_tail; eauto. }
      rewrite Ec', Eu', El'. auto.
    + apply IH. eapply calm_tail; eauto.
Qed.

Lemma single_hop_not_updated (snapshot : Conversions) :
  forall s : State,
    updated (snd (single_hop snapshot s)) = false -> calm snapshot (conv s).
Proof.
  induction snapshot as [|[[a b] r] rest IH]; intros s Hu; simpl in Hu.
  - intros a0 b0 q0 [].
  - destruct (invert_entry_cases a b r s) as [(q0 & -> & Hq0 & Hn & E)|[E Hinv]];
      rewrite E in Hu.
    + rewrite single_hop_updated_mono in Hu; [discriminate|].
      now apply compose_with_updated_mono.
    + destruct r as [q0|].
      * assert (Hq : quiet a b (conv s) (conv s)).
        { apply (compose_with_not_updated a b q0).
          destruct (updated (compose_with a b q0 (conv s) s)) eqn:U; [|reflexivity].
          rewrite single_hop_updated_mono in Hu; [discriminate | exact U]. }
        destruct (compose_with_quiet a b q0 (conv s) s Hq) as (Ec & _ & _).
        apply IH in Hu. rewrite Ec in Hu.
        intros a0 b0 q1 [[= -> -> ->]|Hin]; [|now apply Hu].
        split; [now apply Hinv | exact Hq].
      * apply IH in Hu. intros a0 b0 q1 [[=]|Hin]. now apply Hu.
Qed.

Lemma single_hop_reaches (a b c : Symbol) (q q2 : Qc) (snapshot : Conversions) :
  forall s : State,
    In ((a, b), Some q) snapshot ->
    lookup (b, c) (conv s) = Some (Some q2) -> a <> c ->
    known (conv (snd (single_hop snapshot s))) (a, c).
Proof.
  induction snapshot as [|[[a0 b0] r] rest IH]; intros s Hin Hbc Hne; simpl.
  - destruct Hin.
  - destruct (invert_entry_cases a0 b0 r s) as [(q0 & -> & Hq0 & Hn & ->)|[-> _]].
    + set (s1 := mkState (setitem (b0, a0) (Some (1 / q0)%Qc) (conv s)) true (var_b2 s)
                         (log s ++ [Deduced b0 a0 (1 / q0)%Qc q0])).
      assert (Hbc1 : lookup (b, c) (conv s1) = Some (Some q2))
        by (simpl; now apply set_keeps_known).
      destruct Hin as [[= -> -> ->]|Hin].
      * destruct (compose_with_reaches a b c q q2 (conv s1) s1) as [v Hv];
          [now apply lookup_entry | exact Hne |].
        exists v. now apply single_hop_keeps_known.
      * apply IH; [exact Hin | | exact Hne]. now apply compose_with_keeps_known.
    + destruct r as [q0|].
      * destruct Hin as [[= -> -> ->]|Hin].
        -- destruct (compose_with_reaches a b c q q2 (conv s) s) as [v Hv];
             [now apply lookup_entry | exact Hne |].
           exists v. now apply single_hop_keeps_known.
        -- apply IH; [exact Hin | | exact Hne]. now apply compose_with_keeps_known.
      * destruct Hin as [[=]|Hin]. now apply IH.
Qed.

Lemma single_hop_log (snapshot : Conversions) :
  forall (s : State) (b0 a0 : Symbol) (v0 r0 : Qc),
    In (Deduced b0 a0 v0 r0) (log (snd (single_hop snapshot s))) ->
    In (Deduced b0 a0 v0 r0) (log s)
    \/ (In ((a0, b0), Some r0) snapshot /\ r0 <> Q2Qc 0 /\ v0 = (1 / r0)%Qc).
Proof.
  induction snapshot as [|[[a b] r] rest IH]; intros s b0 a0 v0 r0 Hin; simpl in Hin.
  - now left.
  - destruct (invert_entry_cases a b r s) as [(q0 & -> & Hq0 & Hn & E)|[E _]];
      rewrite E in Hin.
    + apply IH in Hin as [Hin|(Hin & Hr & Hv)]; [|right; split; [now right | auto]].
      apply compose_with_log in Hin. simpl in Hin.
      apply in_app_or in Hin as [Hin|[Hin|[]]]; [now left|].
      injection Hin as <- <- <- <-. right. split; [now left | auto].
    + destruct r as [q0|].
      * apply IH in Hin as [Hin|(Hin & Hr & Hv)]; [|right; split; [now right | auto]].
        apply compose_with_log in Hin. now left.
      * apply IH in Hin as [Hin|(Hin & Hr & Hv)]; [now left|].
        right. split; [now right | auto].
Qed.

(** Under distinct keys, the pass has nothing to write exactly when the
    dictionary is saturated. *)
Lemma calm_saturated (d : Conversions) :
  Dict.ok d -> (calm d d <-> saturated d).
Proof.
  intros Hok. split.
  - intros Hcalm. split.
    + intros a b q Hab Hq. apply (Hcalm a b q); [now apply lookup_entry | exact Hq].
    + intros a b c q q2 Hab Hbc Hne.
      apply (proj2 (Hcalm a b q (lookup_entry _ _ _ Hab)) b c q2); auto.
      now apply lookup_entry.
  - intros [Hinv Hcomp] a b q Hin. apply entry_lookup in Hin; [|exact Hok]. split.
    + now apply (Hinv a b q).
    + intros a2 b2 q2 Hin2 <- Hne. apply entry_lookup in Hin2; [|exact Hok].
      now apply (Hcomp a b b2 q q2).
Qed.
End FirstPassIdle.

(** ** The second pass: the two-hop escalation *)

Section SecondPass.
Import Py Conv Deduction.

Lemma first_some {A B : Type} (f : A -> option B) (l : list A) (y : B) :
  first f l = Some y -> exists x : A, In x l /\ f x = Some y.
Proof.
  induction l as [|x l IH]; simpl; [discriminate|].
  destruct (f x) eqn:E.
  - intros [= ->]. exists x. auto.
  - intros H. destruct (IH H) as (x' & Hin & Hx'). exists x'. auto.
Qed.

Lemma first_none {A B : Type} (f : A -> option B) (l : list A) :
  (forall x : A, In x l -> f x = None) -> first f l = None.
Proof.
  induction l as [|x l IH]; simpl; [reflexivity|].
  intros H. rewrite (H x (or_introl eq_refl)). apply IH. auto.
Qed.

(** What the three loops have found when they reach line 175. *)
Lemma two_hop_found (s : State) (res : completion bool * State) :
  two_hop s = Some res ->
  exists (a b : Symbol) (c2 c3 : Pair) (r2 r3 : Ratio),
    In ((a, b), None) (conv s)
    /\ In (c2, r2) (conv s) /\ truthy r2 = true /\ in_pair a c2 = true
    /\ In (c3, r3) (conv s) /\ c2 <> c3 /\ truthy r3 = true /\ in_pair b c3 = true
    /\ nonempty (intersection c2 c3) = true
    /\ res = escalate a b c2 c3 s.
Proof.
  unfold two_hop. intros H.
  apply first_some in H as ([[a b] r] & Hin1 & H).
  destruct r as [q|]; simpl in H; [discriminate|].
  apply first_some in H as ([c2 r2] & Hin2 & H).
  destruct (truthy r2 && in_pair a c2) eqn:T2; [|discriminate].
  apply andb_true_iff in T2 as [Hr2 Ha].
  apply first_some in H as ([c3 r3] & Hin3 & H).
  destruct (negb (pair_eqb c2 c3) && truthy r3 && in_pair b c3
            && nonempty (intersection c2 c3)) eqn:T3; [|discriminate].
  rewrite !andb_true_iff, negb_true_iff in T3. destruct T3 as [[[Hne Hr3] Hb] Hx].
  injection H as <-.
  exists a, b, c2, c3, r2, r3. repeat (split; [assumption|]).
  split; [|auto]. intros ->. now rewrite pair_eqb_refl in Hne.
Qed.

Lemma in_pair_spec (x : Symbol) (c : Pair) :
  in_pair x c = true <-> x = fst c \/ x = snd c.
Proof. unfold in_pair. now rewrite orb_true_iff, !String.eqb_eq. Qed.

Lemma intersection_spec (c2 c3 : Pair) (x : Symbol) :
  In x (intersection c2 c3) <-> in_pair x c2 = true /\ in_pair x c3 = true.
Proof.
  unfold intersection. rewrite in_app_iff, (in_pair_spec x c2).
  destruct (in_pair (fst c2) c3) eqn:E1;
    destruct (negb (snd c2 =? fst c2) && in_pair (snd c2) c3) eqn:E2; simpl.
  - apply andb_true_iff in E2 as [_ E2]. intuition (subst; auto).
  - split; [intros [[<-|[]]|[]]; auto|].
    intros [[->| ->] Hx]; [auto|].
    rewrite Hx, andb_true_r, negb_false_iff, String.eqb_eq in E2. auto.
  - apply andb_true_iff in E2 as [_ E2].
    split; [intros [[]|[<-|[]]]; auto|].
    intros [[->| ->] Hx]; [congruence | auto].
  - split; [intros [[]|[]]|].
    intros [[->| ->] Hx]; [congruence|].
    rewrite Hx, andb_true_r, negb_false_iff, String.eqb_eq in E2.
    rewrite E2 in Hx. congruence.
Qed.

Lemma nonempty_In {A : Type} (l : list A) :
  nonempty l = true -> exists x : A, In x l.
Proof. destruct l as [|x l]; [discriminate|]. exists x. now left. Qed.

(** A known non-zero ratio on a pair that holds [a] links [a] to the other
    symbol of the pair, in both directions once the pass has nothing to add. *)
Lemma saturated_link (d : Conversions) (a : Symbol) (c : Pair) (r : Ratio) :
  Dict.ok d -> saturated d ->
  In (c, r) d -> truthy r = true -> in_pair a c = true ->
  exists y : Symbol,
    (c = (a, y) \/ c = (y, a)) /\ known d (a, y) /\ known d (y, a).
Proof.
  intros Hok [Hinv _] Hin Hr Ha. destruct c as [p q'], r as [q|]; [|discriminate].
  simpl in Hr. apply nonzero_true in Hr.
  apply entry_lookup in Hin; [|exact Hok].
  pose proof (Hinv p q' q Hin Hr) as Hback.
  apply in_pair_spec in Ha as [->| ->]; simpl.
  - exists q'. split; [now left|]. split; [now exists q | exact Hback].
  - exists p. split; [now right|]. split; [exact Hback | now exists q].
Qed.

(** Once the first pass has nothing to add, no wanted pair of two different
    symbols has the two links the second pass looks for. *)
Lemma no_bridge (d : Conversions) (a b : Symbol) (c2 c3 : Pair) (r2 r3 : Ratio) :
  Dict.ok d -> saturated d ->
  unknown d (a, b) -> a <> b ->
  In (c2, r2) d -> truthy r2 = true -> in_pair a c2 = true ->
  In (c3, r3) d -> truthy r3 = true -> in_pair b c3 = true ->
  nonempty (intersection c2 c3) = true ->
  False.
Proof.
  intros Hok Hsat Hab Hne Hin2 Hr2 Ha Hin3 Hr3 Hb Hx.
  assert (Hnot : ~ known d (a, b)).
  { intros [q Hq]. unfold unknown in Hab. congruence. }
  destruct (saturated_link d a c2 r2 Hok Hsat Hin2 Hr2 Ha) as (y & Hc2 & Hay & Hya).
  destruct (saturated_link d b c3 r3 Hok Hsat Hin3 Hr3 Hb) as (z & Hc3 & Hbz & Hzb).
  apply nonempty_In in Hx as [x Hx]. apply intersection_spec in Hx as [Hx2 Hx3].
  assert (Hxy : x = a \/ x = y).
  { apply in_pair_spec in Hx2. destruct Hc2 as [->| ->]; simpl in Hx2; tauto. }
  assert (Hxz : x = b \/ x = z).
  { apply in_pair_spec in Hx3. destruct Hc3 as [->| ->]; simpl in Hx3; tauto. }
  destruct Hxy as [->| ->], Hxz as [E|E].
  - contradiction.
  - subst z. exact (Hnot Hzb).
  - subst y. exact (Hnot Hay).
  - subst z. destruct Hay as [q Hq], Hzb as [q2 Hq2].
    exact (Hnot (proj2 Hsat a y b q q2 Hq Hq2 Hne)).
Qed.

(** So the second pass, when it finds anything, has found a wanted pair
    [(a, a)]; line 176 or line 177 then raises, before anything is written. *)
Lemma two_hop_saturated (s : State) (res : completion bool * State) :
  Dict.ok (conv s) -> saturated (conv s) ->
  two_hop s = Some res ->
  exists (a : Symbol) (e : exn) (c2 c3 : Pair),
    unknown (conv s) (a, a)
    /\ (e = ValueError \/ e = TypeError)
    /\ res = (Raise e, mkState (conv s) (updated s) (var_b2 s)
                              (log s ++ [Found c2 c3 (intersection c2 c3)])).
Proof.
  intros Hok Hsat H.
  apply two_hop_found in H
    as (a & b & c2 & c3 & r2 & r3 & H1 & H2 & Hr2 & Ha & H3 & Hne & Hr3 & Hb & Hx & ->).
  apply entry_lookup in H1; [|exact Hok].
  destruct (String.eqb_spec a b) as [<-|Hab];
    [|exfalso; exact (no_bridge _ a b c2 c3 r2 r3 Hok Hsat H1 Hab H2 Hr2 Ha H3 Hr3 Hb Hx)].
  exists a. unfold escalate.
  assert (Hx' : In a (intersection c2 c3)) by (apply intersection_spec; auto).
  destruct (intersection c2 c3) as [|x [|x' xs]] eqn:Ex.
  - exists ValueError, c2, c3. rewrite Ex. auto.
  - destruct Hx' as [->|[]].
    exists TypeError, c2, c3. rewrite Ex. simpl. rewrite H1. auto.
  - exists ValueError, c2, c3. rewrite Ex. auto.
Qed.

Lemma two_hop_none (s : State) :
  Dict.ok (conv s) -> saturated (conv s) ->
  (forall a : Symbol, ~ unknown (conv s) (a, a)) ->
  two_hop s = None.
Proof.
  intros Hok Hsat Hrefl. destruct (two_hop s) as [res|] eqn:E; [|reflexivity].
  destruct (two_hop_saturated s res Hok Hsat E) as (a & _ & _ & _ & Ha & _).
  exfalso. exact (Hrefl a Ha).
Qed.
End SecondPass.

(** ** The message of lines 185-189 *)

Section Message.
Import Py Conv Deduction.

Lemma insert_sorted_In (x y : string) (l : list string) :
  In y (insert_sorted x l) <-> y = x \/ In y l.
Proof.
  induction l as [|z l IH]; simpl; [intuition|].
  destruct (String.leb x z); simpl; [intuition|]. rewrite IH. intuition.
Qed.

Lemma sorted_In (y : string) (l : list string) : In y (sorted l) <-> In y l.
Proof.
  induction l as [|x l IH]; simpl; [tauto|].
  rewrite insert_sorted_In, IH. intuition.
Qed.

Lemma pair_name_not_empty (c : Pair) : pair_name c <> "".
Proof.
  unfold pair_name. intros E. apply (f_equal String.length) in E.
  rewrite !length_app_string in E. simpl in E. lia.
Qed.

Lemma commas_and_empty (l : list string) :
  (forall x, In x l -> x <> "") -> commas_and l = "" -> l = [].
Proof.
  intros Hne E. destruct l as [|x [|y [|z l]]]; [reflexivity | | |]; exfalso.
  - simpl in E. apply (Hne x); [now left | exact E].
  - simpl in E. apply (Hne x); [now left|].
    destruct x; [reflexivity | discriminate E].
  - cbn [commas_and] in E. apply (Hne x); [now left|].
    destruct x; [reflexivity | discriminate E].
Qed.

Lemma remains_empty (d : Conversions) :
  remains d = "" <-> forall k : Pair, ~ In (k, None) d.
Proof.
  unfold remains. split.
  - intros E k Hin. apply commas_and_empty in E.
    + assert (H : In (pair_name k) (sorted (unknown_names d))).
      { apply sorted_In. unfold unknown_names.
        apply (in_map (fun e : Pair * Ratio => pair_name (fst e)) _ (k, None)).
        apply filter_In. auto. }
      rewrite E in H. destruct H.
    + intros x Hx. apply (proj1 (sorted_In _ _)) in Hx. unfold unknown_names in Hx.
      apply in_map_iff in Hx as (e & <- & _). apply pair_name_not_empty.
  - intros H. assert (E : unknown_names d = []); [|now rewrite E].
    unfold unknown_names.
    destruct (filter (fun e : Pair * Ratio => is_None (snd e)) d) as [|[k r] l] eqn:F;
      [reflexivity|].
    assert (Hin : In (k, r) (filter (fun e : Pair * Ratio => is_None (snd e)) d))
      by (rewrite F; now left).
    apply filter_In in Hin as [Hin Hr]. destruct r; [discriminate|].
    exfalso. exact (H k Hin).
Qed.

Lemma remains_no_unknown (d : Conversions) :
  Dict.ok d -> (remains d = "" <-> no_unknown d).
Proof.
  intros Hok. rewrite remains_empty. unfold no_unknown, unknown. split.
  - intros H k Hk. apply (H k). now apply lookup_entry.
  - intros H k Hk. apply (H k). now apply entry_lookup.
Qed.
End Message.

(** ** [conversions_remaining] as a whole *)

Section Remaining.
Import Py Conv Deduction.

Lemma start_snapshot (d : Conversions) :
  Dict.ok d ->
  forall k q, In (k, Some q) d -> lookup k (conv (start d)) = Some (Some q).
Proof. intros Hok k q Hin. simpl. now apply entry_lookup. Qed.

Lemma pass_steps (d : Conversions) :
  Dict.ok d -> steps d (conv (snd (single_hop d (start d)))).
Proof.
  intros Hok. apply (single_hop_steps d (start d)); [exact Hok|].
  now apply start_snapshot.
Qed.

Lemma pass_updated (d : Conversions) :
  Dict.ok d ->
  (updated (snd (single_hop d (start d))) = false <-> saturated d).
Proof.
  intros Hok. rewrite <- (calm_saturated d Hok). split.
  - apply (single_hop_not_updated d (start d)).
  - intros Hcalm. now destruct (single_hop_quiet d (start d) Hcalm) as (_ & -> & _).
Qed.

Lemma pass_saturated (d : Conversions) :
  Dict.ok d -> saturated d ->
  exists b2 : option Symbol, single_hop d (start d) = (Return tt, mkState d false b2 []).
Proof.
  intros Hok Hsat. apply (calm_saturated d Hok) in Hsat.
  destruct (single_hop_quiet d (start d) Hsat) as (Ec & Eu & El).
  pose proof (single_hop_returns d (start d)) as Er.
  destruct (single_hop d (start d)) as [c [dc u b2 l]]. simpl in *. subst.
  now exists b2.
Qed.

Lemma remaining_progress (d : Conversions) (verify : bool) :
  Dict.ok d -> ~ saturated d ->
  result (conversions_remaining d verify) = Return (Bool true)
  /\ steps d (dict (conversions_remaining d verify)).
Proof.
  intros Hok Hnot. unfold conversions_remaining.
  pose proof (single_hop_returns d (start d)) as Er.
  pose proof (pass_steps d Hok) as Hs.
  pose proof (pass_updated d Hok) as Hu.
  destruct (single_hop d (start d)) as [c s]. simpl in *. subst c.
  destruct (updated s); [simpl; auto|]. exfalso. apply Hnot. now apply Hu.
Qed.

Lemma remaining_settled (d : Conversions) (verify : bool) :
  Dict.ok d -> saturated d -> (forall a : Symbol, ~ unknown d (a, a)) ->
  conversions_remaining d verify = settled d verify.
Proof.
  intros Hok Hsat Hrefl. unfold conversions_remaining, settled.
  destruct (pass_saturated d Hok Hsat) as [b2 ->]. cbn [updated conv log].
  rewrite two_hop_none; auto.
Qed.

Lemma remaining_saturated (d : Conversions) (verify : bool) :
  Dict.ok d -> saturated d ->
  conversions_remaining d verify = settled d verify
  \/ exists (a : Symbol) (e : exn) (c2 c3 : Pair),
      unknown d (a, a) /\ (e = ValueError \/ e = TypeError)
      /\ conversions_remaining d verify
         = mkOutcome (Raise e) d [Found c2 c3 (intersection c2 c3)].
Proof.
  intros Hok Hsat. unfold conversions_remaining, settled.
  destruct (pass_saturated d Hok Hsat) as [b2 ->]. cbn [updated conv log].
  destruct (two_hop (mkState d false b2 [])) as [res|] eqn:E; [|now left].
  right.
  destruct (two_hop_saturated (mkState d false b2 []) res Hok Hsat E)
    as (a & e & c2 & c3 & Ha & He & ->).
  exists a, e, c2, c3. simpl. auto.
Qed.

Lemma remaining_steps (d : Conversions) (verify : bool) :
  Dict.ok d -> steps d (dict (conversions_remaining d verify)).
Proof.
  intros Hok. pose proof (pass_updated d Hok) as Hu.
  destruct (updated (snd (single_hop d (start d)))) eqn:U.
  - apply remaining_progress; [exact Hok|]. intros Hsat. apply Hu in Hsat. discriminate.
  - assert (Hsat : saturated d) by now apply Hu.
    destruct (remaining_saturated d verify Hok Hsat)
      as [->|(a & e & c2 & c3 & _ & _ & ->)].
    + unfold settled. destruct (remains d =? ""); [constructor|].
      destruct verify; constructor.
    + constructor.
Qed.

Lemma remaining_ok (d : Conversions) (verify : bool) :
  Dict.ok d -> Dict.ok (dict (conversions_remaining d verify)).
Proof. intros Hok. eapply steps_keep_ok; [now apply remaining_steps | exact Hok]. Qed.
End Remaining.

Section RemainingFacts.
Import Py Conv Deduction.
Local Open Scope Qc_scope.

Lemma remaining_dict (d : Conversions) (verify : bool) :
  Dict.ok d ->
  dict (conversions_remaining d verify) = conv (snd (single_hop d (start d))).
Proof.
  intros Hok. pose proof (pass_updated d Hok) as Hu.
  destruct (updated (snd (single_hop d (start d)))) eqn:U.
  - unfold conversions_remaining.
    pose proof (single_hop_returns d (start d)) as Er.
    destruct (single_hop d (start d)) as [c s]. simpl in *. subst c.
    now rewrite U.
  - assert (Hsat : saturated d) by now apply Hu.
    destruct (pass_saturated d Hok Hsat) as [b2 E]. rewrite E. simpl.
    destruct (remaining_saturated d verify Hok Hsat)
      as [->|(a & e & c2 & c3 & _ & _ & ->)]; [|reflexivity].
    unfold settled. destruct (remains d =? "")%string; [reflexivity|].
    now destruct verify.
Qed.

Lemma remaining_deduced (d : Conversions) (verify : bool)
      (b a : Symbol) (v r : Qc) :
  Dict.ok d ->
  In (Deduced b a v r) (records (conversions_remaining d verify)) ->
  lookup (a, b) d = Some (Some r) /\ r <> 0 /\ v = 1 / r.
Proof.
  intros Hok Hin. pose proof (pass_updated d Hok) as Hu.
  destruct (updated (snd (single_hop d (start d)))) eqn:U.
  - unfold conversions_remaining in Hin.
    pose proof (single_hop_returns d (start d)) as Er.
    pose proof (single_hop_log d (start d) b a v r) as Hlog.
    destruct (single_hop d (start d)) as [c s]. simpl in *. subst c.
    rewrite U in Hin. simpl in Hin.
    destruct (Hlog Hin) as [[]|(He & Hr & Hv)].
    split; [now apply entry_lookup | auto].
  - exfalso. assert (Hsat : saturated d) by now apply Hu.
    destruct (remaining_saturated d verify Hok Hsat)
      as [E|(a0 & e & c2 & c3 & _ & _ & E)]; rewrite E in Hin.
    + unfold settled in Hin. destruct (remains d =? "")%string; [destruct Hin|].
      destruct verify; [destruct Hin|]. destruct Hin as [Hin|[]]. discriminate Hin.
    + destruct Hin as [Hin|[]]. discriminate Hin.
Qed.

Lemma saturated_check (d : Conversions) :
  distinct_keys (Dict.keys d) = true ->
  updated (snd (single_hop d (start d))) = false ->
  saturated d.
Proof. intros Hk Hu. apply pass_updated; [now apply distinct_keys_ok | exact Hu]. Qed.

Lemma no_unknown_check (d : Conversions) :
  distinct_keys (Dict.keys d) = true -> remains d = "" -> no_unknown d.
Proof. intros Hk Hr. apply remains_no_unknown; [now apply distinct_keys_ok | exact Hr]. Qed.

Lemma no_unknown_self (d : Conversions) :
  forallb (fun e : Pair * Ratio => negb (is_None (snd e) && (fst (fst e) =? snd (fst e))%string)) d
  = true ->
  forall a : Symbol, ~ unknown d (a, a).
Proof.
  intros H a Ha. apply lookup_entry in Ha.
  rewrite forallb_forall in H. specialize (H _ Ha). simpl in H.
  now rewrite String.eqb_refl in H.
Qed.
End RemainingFacts.

(** ** What a call keeps *)

(** C10.  A call only fills entries that are absent or mapped to [None]:
    every pair with a known ratio, zero included, keeps that ratio, every key
    stays, and a pair whose entry differs after the call had no known ratio
    before.  This holds for whatever the call returns or raises. *)
Theorem known_ratios_kept (d : Conv.Conversions) (verify : bool) :
  Dict.ok d ->
  (forall (k : Conv.Pair) (q : Qc),
      Conv.lookup k d = Some (Some q) ->
      Conv.lookup k (Conv.dict (Conv.conversions_remaining d verify)) = Some (Some q))
  /\ (forall k : Conv.Pair,
        Conv.lookup k d <> None ->
        Conv.lookup k (Conv.dict (Conv.conversions_remaining d verify)) <> None)
  /\ (forall k : Conv.Pair,
        Conv.lookup k (Conv.dict (Conv.conversions_remaining d verify)) <> Conv.lookup k d ->
        Conv.is_None (Conv.get k d) = true).
Proof.
  intros Hok. pose proof (remaining_steps d verify Hok) as Hs.
  split; [|split].
  - intros k q Hk. eapply steps_keep_known; eauto.
  - intros k Hk. eapply steps_keep_present; eauto.
  - intros k Hk. destruct (Conv.is_None (Conv.get k d)) eqn:E; [reflexivity|].
    exfalso. apply get_known in E as [q Hq]. apply Hk.
    rewrite Hq. eapply steps_keep_known; eauto.
Qed.

Lemma known_ratios_kept_witness :
  Dict.ok Examples.c1
  /\ Conv.lookup ("ETH", "USD") Examples.c1 = Some (Examples.ratio 123456 100)
  /\ Conv.lookup ("ETH", "USD") (Conv.dict (Conv.conversions_remaining Examples.c1 false))
     = Some (Examples.ratio 123456 100).
Proof.
  assert (Hok : Dict.ok Examples.c1) by (apply distinct_keys_ok; reflexivity).
  split; [exact Hok|]. split; [reflexivity|].
  apply (proj1 (known_ratios_kept Examples.c1 false Hok)). reflexivity.
Defined.

(** ** What a message mentions *)

Section Mentions.
Import Conv Deduction.

Lemma mentions_unfold (text name : string) :
  mentions text name
  = String.prefix name text
    || match text with
       | EmptyString => false
       | String _ text' => mentions text' name
       end.
Proof. destruct text; reflexivity. Qed.

Lemma prefix_app (x t : string) : String.prefix x (x ++ t) = true.
Proof.
  induction x as [|c x IH]; simpl; [now destruct t|].
  destruct (ascii_dec c c); [exact IH | contradiction].
Qed.

Lemma prefix_app_l (x t u : string) :
  String.prefix x t = true -> String.prefix x (t ++ u) = true.
Proof.
  revert t. induction x as [|c x IH]; intros t H; simpl.
  - now destruct (t ++ u)%string.
  - destruct t as [|c' t]; simpl in *; [discriminate|].
    destruct (ascii_dec c c'); [now apply IH | discriminate].
Qed.

Lemma mentions_here (x t : string) : mentions (x ++ t) x = true.
Proof. rewrite mentions_unfold, prefix_app. reflexivity. Qed.

Lemma mentions_self (x : string) : mentions x x = true.
Proof.
  rewrite mentions_unfold.
  replace (String.prefix x x) with true; [reflexivity|].
  symmetry. induction x as [|c x IH]; simpl; [reflexivity|].
  destruct (ascii_dec c c); [exact IH | contradiction].
Qed.

Lemma mentions_app_r (p t x : string) :
  mentions t x = true -> mentions (p ++ t) x = true.
Proof.
  intros H. induction p as [|c p IH]; simpl; [exact H|].
  rewrite IH. apply orb_true_r.
Qed.

Lemma mentions_app_l (t u x : string) :
  mentions t x = true -> mentions (t ++ u) x = true.
Proof.
  induction t as [|c t IH]; intros H.
  - rewrite mentions_unfold in H. rewrite orb_false_r in H.
    pose proof (prefix_app_l x "" u H) as P. simpl in P.
    simpl. rewrite mentions_unfold, P. reflexivity.
  - rewrite mentions_unfold in H. apply orb_true_iff in H as [H|H].
    + pose proof (prefix_app_l x _ u H) as P.
      rewrite mentions_unfold, P. reflexivity.
    + rewrite mentions_unfold. simpl. rewrite (IH H). apply orb_true_r.
Qed.

Lemma mentions_commas (l : list string) (x : string) :
  In x l -> mentions (commas_and l) x = true.
Proof.
  induction l as [|y l IH]; intros Hin; [destruct Hin|].
  destruct l as [|z [|w l]].
  - destruct Hin as [->|[]]. apply mentions_self.
  - destruct Hin as [->|[->|[]]]; cbn [commas_and].
    + apply mentions_here.
    + apply mentions_app_r, mentions_app_r, mentions_self.
  - destruct Hin as [->|Hin].
    + apply (mentions_here x).
    + change (commas_and (y :: z :: w :: l))
        with (y ++ ", " ++ commas_and (z :: w :: l))%string.
      apply mentions_app_r, mentions_app_r, IH, Hin.
Qed.

Lemma message_mentions_unknown (d : Conversions) (k : Pair) :
  unknown d k -> mentions (failure_message d) (pair_name k) = true.
Proof.
  intros Hk. unfold failure_message, remains.
  apply mentions_app_r, mentions_app_l, mentions_commas, sorted_In.
  unfold unknown_names.
  apply (in_map (fun e : Pair * Ratio => pair_name (fst e)) _ (k, None)).
  apply filter_In. split; [now apply lookup_entry | reflexivity].
Qed.

Lemma message_mentions_resolved (d : Conversions) (k : Pair) (q : Qc) :
  lookup k d = Some (Some q) -> (1 < q)%Qc ->
  mentions (failure_message d) (pair_name k) = true.
Proof.
  intros Hk Hq. unfold failure_message, resolved.
  apply mentions_app_r, mentions_app_r, mentions_app_r, mentions_commas, sorted_In.
  unfold resolved_names.
  apply (in_map (fun e : Pair * Ratio => pair_name (fst e)) _ (k, Some q)).
  apply filter_In. split; [now apply lookup_entry|]. simpl.
  apply andb_true_iff. split; [|now apply gt_true].
  apply nonzero_true. intros ->. exact (Qclt_not_le _ _ Hq ltac:(discriminate)).
Qed.
End Mentions.

(** ** Comparing dictionaries by computation *)

Section Compare.
Import Conv Deduction.

Lemma conv_eqb_eq (d d' : Conversions) : conv_eqb d d' = true -> d = d'.
Proof.
  revert d'. induction d as [|[k r] d IH]; intros [|[k' r'] d']; simpl;
    try discriminate; [reflexivity|].
  rewrite !andb_true_iff. intros [[Hk Hr] Hd].
  apply pair_eqb_eq in Hk. subst k'. rewrite (IH d' Hd). f_equal. f_equal.
  destruct r as [q|], r' as [q'|]; simpl in Hr; try discriminate; [|reflexivity].
  now rewrite (Qc_eq_bool_correct _ _ Hr).
Qed.
End Compare.

(** ** Calls on a saturated mapping *)

Section Saturated.
Import Py Conv Deduction.
Local Open Scope Qc_scope.

Lemma saturated_result (d : Conversions) (verify : bool) :
  Dict.ok d -> saturated d ->
  dict (conversions_remaining d verify) = d
  /\ result (conversions_remaining d verify) <> Return (Bool true).
Proof.
  intros Hok Hsat.
  destruct (remaining_saturated d verify Hok Hsat)
    as [->|(a & e & c2 & c3 & _ & _ & ->)]; [|split; [reflexivity | discriminate]].
  unfold settled. destruct (remains d =? "")%string; [split; [reflexivity | discriminate]|].
  destruct verify; split; try reflexivity; discriminate.
Qed.

Lemma false_result (d : Conversions) (verify : bool) :
  Dict.ok d ->
  result (conversions_remaining d verify) = Return (Bool false) ->
  saturated d /\ no_unknown d.
Proof.
  intros Hok Hres. pose proof (pass_updated d Hok) as Hu.
  destruct (updated (snd (single_hop d (start d)))) eqn:U.
  - exfalso. destruct (remaining_progress d verify Hok) as [E _]; [|congruence].
    intros Hsat. apply Hu in Hsat. discriminate.
  - assert (Hsat : saturated d) by now apply Hu.
    split; [exact Hsat|].
    destruct (remaining_saturated d verify Hok Hsat)
      as [E|(a & e & c2 & c3 & _ & _ & E)]; rewrite E in Hres; [|discriminate].
    unfold settled in Hres. destruct (remains d =? "")%string eqn:R.
    + apply String.eqb_eq in R. now apply remains_no_unknown.
    + destruct verify; discriminate.
Qed.

Lemma settled_no_unknown (d : Conversions) (verify : bool) :
  Dict.ok d -> no_unknown d ->
  settled d verify = mkOutcome (Return (Bool false)) d [].
Proof.
  intros Hok Hno. unfold settled.
  apply (remains_no_unknown d Hok) in Hno. now rewrite Hno.
Qed.
End Saturated.

(** C6, amended.  On a mapping with no pair mapped to [None] that inversion
    and single-hop composition have nothing to add to, a call returns [False],
    logs nothing and leaves the mapping exactly as it was; and a call that
    returned [False] was made on such a mapping, so it changed nothing and
    any further call returns [False] again. *)
Theorem idempotent_after_success (d : Conv.Conversions) (verify : bool) :
  Dict.ok d ->
  (Deduction.no_unknown d -> Deduction.saturated d ->
   Conv.conversions_remaining d verify = Conv.mkOutcome (Py.Return (Conv.Bool false)) d [])
  /\ (Conv.result (Conv.conversions_remaining d verify) = Py.Return (Conv.Bool false) ->
      Conv.dict (Conv.conversions_remaining d verify) = d
      /\ Deduction.no_unknown d /\ Deduction.saturated d
      /\ forall verify' : bool,
          Conv.conversions_remaining d verify'
          = Conv.mkOutcome (Py.Return (Conv.Bool false)) d []).
Proof.
  intros Hok.
  assert (H : Deduction.no_unknown d -> Deduction.saturated d ->
              forall v, Conv.conversions_remaining d v
                        = Conv.mkOutcome (Py.Return (Conv.Bool false)) d []).
  { intros Hno Hsat v. rewrite remaining_settled; auto.
    now apply settled_no_unknown. }
  split; [intros Hno Hsat; now apply H|].
  intros Hres. destruct (false_result d verify Hok Hres) as [Hsat Hno].
  split; [now rewrite (H Hno Hsat verify)|]. auto.
Qed.

Lemma idempotent_after_success_witness :
  Dict.ok Examples.c_both
  /\ Conv.conversions_remaining Examples.c_both false
     = Conv.mkOutcome (Py.Return (Conv.Bool false)) Examples.c_both [].
Proof.
  assert (Hok : Dict.ok Examples.c_both) by (apply distinct_keys_ok; reflexivity).
  split; [exact Hok|].
  apply (proj1 (idempotent_after_success Examples.c_both false Hok)).
  - apply no_unknown_check; reflexivity.
  - apply saturated_check; reflexivity.
Defined.

(** C6 as the spec has it fails: the mapping with the one entry A/B = 2 has no
    pair mapped to [None], and the call adds B/A = 1/2 and returns [True]. *)
Lemma no_unknown_counterexample :
  Deduction.no_unknown Examples.c_one
  /\ Conv.result (Conv.conversions_remaining Examples.c_one false)
     = Py.Return (Conv.Bool true)
  /\ Conv.lookup ("B", "A") Examples.c_one = None
  /\ Conv.lookup ("B", "A") (Conv.dict (Conv.conversions_remaining Examples.c_one false))
     = Some (Examples.ratio 1 2)
  /\ ~ (forall (d : Conv.Conversions) (verify : bool),
          Dict.ok d -> Deduction.no_unknown d ->
          Conv.result (Conv.conversions_remaining d verify) = Py.Return (Conv.Bool false)
          /\ Conv.dict (Conv.conversions_remaining d verify) = d).
Proof.
  assert (Hno : Deduction.no_unknown Examples.c_one)
    by (apply no_unknown_check; reflexivity).
  split; [exact Hno|]. split; [reflexivity|]. split; [reflexivity|].
  split; [vm_compute; do 2 f_equal; qc_eq|].
  intros H.
  destruct (H Examples.c_one false) as [E _];
    [apply distinct_keys_ok; reflexivity | exact Hno | discriminate E].
Qed.

Section Unresolvable.
Import Py Conv Deduction.
Local Open Scope Qc_scope.

Lemma settled_unknown (d : Conversions) (k : Pair) :
  Dict.ok d -> unknown d k ->
  settled d true = mkOutcome (Raise (RuntimeError (failure_message d))) d []
  /\ settled d false
     = mkOutcome (Return (Str (failure_message d))) d [Failed (failure_message d)].
Proof.
  intros Hok Hk. unfold settled.
  destruct (remains d =? "")%string eqn:R; [|auto].
  exfalso. apply String.eqb_eq in R. apply (remains_no_unknown d Hok) in R.
  exact (R k Hk).
Qed.

Lemma In_nonempty {A : Type} (x : A) (l : list A) : In x l -> nonempty l = true.
Proof. destruct l; [intros [] | reflexivity]. Qed.

Lemma no_pivot (d : Conversions) (a b x : Symbol) (r_a r_b : Qc) :
  Dict.ok d -> saturated d -> unknown d (a, b) -> a <> b ->
  lookup (a, x) d = Some (Some r_a) \/ lookup (x, a) d = Some (Some r_a) -> r_a <> 0 ->
  lookup (b, x) d = Some (Some r_b) \/ lookup (x, b) d = Some (Some r_b) -> r_b <> 0 ->
  False.
Proof.
  intros Hok Hsat Hab Hne Ha Hra Hb Hrb.
  apply nonzero_true in Hra, Hrb.
  assert (H2 : exists c2, In (c2, Some r_a) d /\ in_pair a c2 = true /\ in_pair x c2 = true).
  { destruct Ha as [Ha|Ha]; apply lookup_entry in Ha;
      [exists (a, x) | exists (x, a)]; (split; [exact Ha|]);
      unfold in_pair; simpl; rewrite !String.eqb_refl; split;
      auto using orb_true_r. }
  assert (H3 : exists c3, In (c3, Some r_b) d /\ in_pair b c3 = true /\ in_pair x c3 = true).
  { destruct Hb as [Hb|Hb]; apply lookup_entry in Hb;
      [exists (b, x) | exists (x, b)]; (split; [exact Hb|]);
      unfold in_pair; simpl; rewrite !String.eqb_refl; split;
      auto using orb_true_r. }
  destruct H2 as (c2 & Hin2 & Ha2 & Hx2), H3 as (c3 & Hin3 & Hb3 & Hx3).
  apply (no_bridge d a b c2 c3 (Some r_a) (Some r_b)); auto.
  apply (In_nonempty x). now apply intersection_spec.
Qed.
End Unresolvable.

(** Why the escalation of lines 166-180 deduces nothing for two different
    symbols.  When the first pass has nothing to add and a pair (a, b) of
    two different symbols is still wanted, no two known non-zero ratios link
    a and b to one pivot x: inversion and single-hop composition would have
    resolved (a, b) from them, and a zero ratio is not taken as a link.  So
    the escalation deduces nothing: the call leaves the mapping as it was and
    (a, b) unknown, returns neither [True] nor [False], and - no pair of a
    symbol with itself being wanted - returns the failure message, or raises
    it in verify mode. *)
Theorem escalation_never_deduces
        (d : Conv.Conversions) (verify : bool) (a b : Conv.Symbol) :
  Dict.ok d -> Deduction.saturated d -> Deduction.unknown d (a, b) -> a <> b ->
  (forall (x : Conv.Symbol) (r_a r_b : Qc),
      Conv.lookup (a, x) d = Some (Some r_a) \/ Conv.lookup (x, a) d = Some (Some r_a) ->
      r_a <> Q2Qc 0 ->
      Conv.lookup (b, x) d = Some (Some r_b) \/ Conv.lookup (x, b) d = Some (Some r_b) ->
      r_b <> Q2Qc 0 ->
      False)
  /\ Conv.dict (Conv.conversions_remaining d verify) = d
  /\ Deduction.unknown (Conv.dict (Conv.conversions_remaining d verify)) (a, b)
  /\ Conv.result (Conv.conversions_remaining d verify) <> Py.Return (Conv.Bool true)
  /\ Conv.result (Conv.conversions_remaining d verify) <> Py.Return (Conv.Bool false)
  /\ ((forall c : Conv.Symbol, ~ Deduction.unknown d (c, c)) ->
      Conv.conversions_remaining d verify
      = if verify
        then Conv.mkOutcome (Py.Raise (Py.RuntimeError (Conv.failure_message d))) d []
        else Conv.mkOutcome (Py.Return (Conv.Str (Conv.failure_message d))) d
                            [Conv.Failed (Conv.failure_message d)]).
Proof.
  intros Hok Hsat Hab Hne.
  destruct (saturated_result d verify Hok Hsat) as [Hd Hres].
  split; [intros x r_a r_b; now apply no_pivot|].
  split; [exact Hd|]. split; [now rewrite Hd|]. split; [exact Hres|].
  split.
  - intros E. destruct (false_result d verify Hok E) as [_ Hno]. exact (Hno _ Hab).
  - intros Hself. rewrite remaining_settled; auto.
    destruct (settled_unknown d (a, b) Hok Hab) as [Et Ef].
    now destruct verify.
Qed.

Lemma escalation_never_deduces_witness :
  Dict.ok Examples.c_bad_done
  /\ Deduction.saturated Examples.c_bad_done
  /\ Deduction.unknown Examples.c_bad_done ("DOGE", "USD")
  /\ "DOGE" <> "USD"
  /\ Conv.conversions_remaining Examples.c_bad_done false
     = Conv.mkOutcome
         (Py.Return (Conv.Str (Conv.failure_message Examples.c_bad_done)))
         Examples.c_bad_done
         [Conv.Failed (Conv.failure_message Examples.c_bad_done)].
Proof.
  assert (Hok : Dict.ok Examples.c_bad_done) by (apply distinct_keys_ok; reflexivity).
  assert (Hsat : Deduction.saturated Examples.c_bad_done)
    by (apply saturated_check; reflexivity).
  assert (Hne : "DOGE" <> "USD") by discriminate.
  split; [exact Hok|]. split; [exact Hsat|]. split; [reflexivity|]. split; [exact Hne|].
  apply (escalation_never_deduces Examples.c_bad_done false "DOGE" "USD"
           Hok Hsat eq_refl Hne).
  apply no_unknown_self. reflexivity.
Defined.

(** The escalation where its links are zero ratios, and where it is
    reached.  With ZEENUS/ETH = 0 and WEENUS/ETH = 0 known and ZEENUS/WEENUS
    wanted, the first pass has nothing to add and ETH is a pivot for the
    wanted pair, yet the call writes nothing and returns the failure message;
    and with A/A wanted beside A/X = 2 and X/A = 1/2 the call raises
    [ValueError] at line 176. *)
Lemma escalation_counterexample :
  Deduction.saturated Examples.c_zero
  /\ Deduction.unknown Examples.c_zero ("ZEENUS", "WEENUS")
  /\ Conv.lookup ("ZEENUS", "ETH") Examples.c_zero = Some (Some (Q2Qc 0))
  /\ Conv.lookup ("WEENUS", "ETH") Examples.c_zero = Some (Some (Q2Qc 0))
  /\ Conv.conversions_remaining Examples.c_zero false
     = Conv.mkOutcome
         (Py.Return (Conv.Str "Failed to find ratio(s) for ZEENUS/WEENUS via "))
         Examples.c_zero
         [Conv.Failed "Failed to find ratio(s) for ZEENUS/WEENUS via "]
  /\ Deduction.saturated Examples.c_self
  /\ Conv.result (Conv.conversions_remaining Examples.c_self false) = Py.Raise Py.ValueError
  /\ ~ (forall (d : Conv.Conversions) (verify : bool) (a b x : Conv.Symbol) (r_a r_b : Qc),
          Dict.ok d -> Deduction.saturated d -> Deduction.unknown d (a, b) ->
          Conv.lookup (a, x) d = Some (Some r_a) ->
          Conv.lookup (b, x) d = Some (Some r_b) ->
          x <> a -> x <> b ->
          (exists v : Conv.Value,
              Conv.result (Conv.conversions_remaining d verify) = Py.Return v
              /\ Conv.truth v = true)
          /\ Conv.lookup (a, b) (Conv.dict (Conv.conversions_remaining d verify))
             = Some (Some (r_a / r_b)%Qc)
          /\ Conv.lookup (b, a) (Conv.dict (Conv.conversions_remaining d verify))
             = Some (Some (r_b / r_a)%Qc)).
Proof.
  assert (Hok : Dict.ok Examples.c_zero) by (apply distinct_keys_ok; reflexivity).
  assert (Hsat : Deduction.saturated Examples.c_zero)
    by (apply saturated_check; reflexivity).
  split; [exact Hsat|]. split; [reflexivity|]. split; [reflexivity|].
  split; [reflexivity|].
  assert (E : Conv.conversions_remaining Examples.c_zero false
              = Deduction.settled Examples.c_zero false).
  { apply remaining_settled; auto. apply no_unknown_self. reflexivity. }
  split; [rewrite E; reflexivity|].
  split; [apply saturated_check; reflexivity|].
  split; [reflexivity|].
  intros H.
  assert (Hab : Conv.lookup ("ZEENUS", "WEENUS")
                  (Conv.dict (Conv.conversions_remaining Examples.c_zero false))
                = Some (Some (Q2Qc 0 / Q2Qc 0)%Qc)).
  { apply (H Examples.c_zero false "ZEENUS" "WEENUS" "ETH" (Q2Qc 0) (Q2Qc 0));
      [exact Hok | exact Hsat | reflexivity | reflexivity | reflexivity
       | discriminate | discriminate]. }
  rewrite E in Hab. discriminate Hab.
Qed.


Section MessageLists.
Import Py Conv Deduction.
Local Open Scope Qc_scope.

Lemma insert_sorted_ordered (x : string) (l : list string) :
  Sorted (fun a b => String.leb a b = true) l ->
  Sorted (fun a b => String.leb a b = true) (insert_sorted x l).
Proof.
  induction l as [|y l IH]; intros Hl; simpl; [repeat constructor|].
  destruct (String.leb x y) eqn:E.
  - constructor; [exact Hl|]. constructor. exact E.
  - apply Sorted_inv in Hl as [Hl Hy].
    constructor; [now apply IH|].
    assert (Hyx : String.leb y x = true)
      by (destruct (String.leb_total x y) as [H|H]; [congruence|exact H]).
    destruct l as [|z l]; simpl; [now constructor|].
    destruct (String.leb x z); constructor; [exact Hyx|].
    now apply HdRel_inv in Hy.
Qed.

Lemma sorted_ordered (l : list string) :
  Sorted (fun a b => String.leb a b = true) (sorted l).
Proof.
  induction l as [|x l IH]; simpl; [constructor|]. now apply insert_sorted_ordered.
Qed.

Lemma unknown_names_spec (d : Conversions) (n : string) :
  Dict.ok d ->
  (In n (sorted (unknown_names d)) <-> exists k : Pair, unknown d k /\ pair_name k = n).
Proof.
  intros Hok. rewrite sorted_In. unfold unknown_names. rewrite in_map_iff. split.
  - intros ([k v] & <- & Hin). apply filter_In in Hin as [Hin Hv]. simpl in *.
    destruct v; [discriminate|]. exists k. split; [|reflexivity].
    now apply entry_lookup.
  - intros (k & Hk & <-). exists (k, None). split; [reflexivity|].
    apply filter_In. split; [now apply lookup_entry|reflexivity].
Qed.

Lemma resolved_names_spec (d : Conversions) (n : string) :
  Dict.ok d ->
  (In n (sorted (resolved_names d))
   <-> exists (k : Pair) (q : Qc),
         lookup k d = Some (Some q) /\ 1 < q /\ pair_name k = n).
Proof.
  intros Hok. rewrite sorted_In. unfold resolved_names. rewrite in_map_iff. split.
  - intros ([k v] & <- & Hin). apply filter_In in Hin as [Hin Hv]. simpl in *.
    destruct v as [q|]; [|discriminate]. apply andb_true_iff in Hv as [_ Hq].
    exists k, q. split; [now apply entry_lookup|]. split; [now apply gt_true|reflexivity].
  - intros (k & q & Hk & Hq & <-). exists (k, Some q). split; [reflexivity|].
    apply filter_In. split; [now apply lookup_entry|]. simpl.
    apply andb_true_iff. split; [|now apply gt_true].
    apply nonzero_true. intros ->. revert Hq. unfold Qclt. vm_compute. discriminate.
Qed.

End MessageLists.

(** C7, amended.  When the first pass has nothing to add and some pair is
    still wanted, a call in verify mode raises and leaves the mapping as it
    was.  No pair of a symbol with itself being wanted, it raises
    [RuntimeError] with the message "Failed to find ratio(s) for R via S":
    R joins a sorted list that holds the names a/b of the wanted pairs and
    of nothing else, S a sorted list that holds the names of the resolved
    pairs whose ratio is above 1 and of nothing else, so that a resolved pair
    with a ratio of at most 1 is not listed (unless a pair with a ratio above
    1 has the very same name); every wanted pair and every pair with a ratio
    above 1 is named in the message.  On the mapping
    {ETH/USD: 1234.56, BTC/USD: 23456.78, DOGE/USD: None} the loop that calls
    in verify mode raises on its third call, naming DOGE/USD via BTC/ETH,
    BTC/USD and ETH/USD. *)
Theorem unresolvable_raises :
  (forall d : Conv.Conversions,
      Dict.ok d -> Deduction.saturated d -> (exists k, Deduction.unknown d k) ->
      (exists e : Py.exn,
          Conv.result (Conv.conversions_remaining d true) = Py.Raise e)
      /\ Conv.dict (Conv.conversions_remaining d true) = d
      /\ ((forall a : Conv.Symbol, ~ Deduction.unknown d (a, a)) ->
          exists remains resolved : list string,
            let msg := ("Failed to find ratio(s) for " ++ Conv.commas_and remains
                        ++ " via " ++ Conv.commas_and resolved)%string in
            Conv.result (Conv.conversions_remaining d true)
            = Py.Raise (Py.RuntimeError msg)
            /\ Sorted (fun a b => String.leb a b = true) remains
            /\ Sorted (fun a b => String.leb a b = true) resolved
            /\ (forall n : string,
                  In n remains
                  <-> exists k : Conv.Pair, Deduction.unknown d k /\ Conv.pair_name k = n)
            /\ (forall n : string,
                  In n resolved
                  <-> exists (k : Conv.Pair) (q : Qc),
                        Conv.lookup k d = Some (Some q) /\ (Q2Qc 1 < q)%Qc
                        /\ Conv.pair_name k = n)
            /\ (forall (k : Conv.Pair) (q : Qc),
                  Conv.lookup k d = Some (Some q) -> (q <= Q2Qc 1)%Qc ->
                  (forall (k' : Conv.Pair) (q' : Qc),
                      Conv.lookup k' d = Some (Some q') -> (Q2Qc 1 < q')%Qc ->
                      Conv.pair_name k' <> Conv.pair_name k) ->
                  ~ In (Conv.pair_name k) resolved)
            /\ (forall k : Conv.Pair,
                  Deduction.unknown d k ->
                  Deduction.mentions msg (Conv.pair_name k) = true)
            /\ (forall (k : Conv.Pair) (q : Qc),
                  Conv.lookup k d = Some (Some q) -> (Q2Qc 1 < q)%Qc ->
                  Deduction.mentions msg (Conv.pair_name k) = true)))
  /\ option_map Conv.result (Conv.resolve 3 true Examples.c_bad)
     = Some (Py.Raise (Py.RuntimeError
          "Failed to find ratio(s) for DOGE/USD via BTC/ETH, BTC/USD and ETH/USD"))
  /\ option_map (fun o => Deduction.conv_eqb (Conv.dict o) Examples.c_bad_done)
                (Conv.resolve 3 true Examples.c_bad)
     = Some true
  /\ Conv.resolve 2 true Examples.c_bad = None.
Proof.
  split; [|split; [reflexivity | split; reflexivity]].
  intros d Hok Hsat [k Hk].
  destruct (saturated_result d true Hok Hsat) as [Hd _].
  split; [|split; [exact Hd|]].
  - destruct (remaining_saturated d true Hok Hsat)
      as [->|(a & e & c2 & c3 & _ & _ & ->)]; [|now exists e].
    destruct (settled_unknown d k Hok Hk) as [-> _]. simpl. eauto.
  - intros Hself.
    exists (Conv.sorted (Conv.unknown_names d)), (Conv.sorted (Conv.resolved_names d)).
    intros msg. rewrite remaining_settled; auto.
    destruct (settled_unknown d k Hok Hk) as [-> _].
    split; [reflexivity|].
    split; [apply sorted_ordered|]. split; [apply sorted_ordered|].
    split; [intros n; now apply unknown_names_spec|].
    split; [intros n; now apply resolved_names_spec|].
    split.
    { intros k0 q Hk0 Hq Hnames Hin.
      apply (resolved_names_spec d _ Hok) in Hin as (k' & q' & Hk' & Hq' & E).
      exact (Hnames k' q' Hk' Hq' E). }
    split.
    + intros k' Hk'. now apply message_mentions_unknown.
    + intros k' q Hk' Hq. now apply (message_mentions_resolved d k' q).
Qed.

Lemma unresolvable_raises_witness :
  Dict.ok Examples.c_bad_done
  /\ Deduction.saturated Examples.c_bad_done
  /\ Deduction.unknown Examples.c_bad_done ("DOGE", "USD")
  /\ Conv.result (Conv.conversions_remaining Examples.c_bad_done true)
     = Py.Raise (Py.RuntimeError
          "Failed to find ratio(s) for DOGE/USD via BTC/ETH, BTC/USD and ETH/USD")
  /\ exists remains resolved : list string,
      Conv.result (Conv.conversions_remaining Examples.c_bad_done true)
      = Py.Raise (Py.RuntimeError
                    ("Failed to find ratio(s) for " ++ Conv.commas_and remains
                     ++ " via " ++ Conv.commas_and resolved)%string)
      /\ (forall n : string,
            In n resolved
            <-> exists (k : Conv.Pair) (q : Qc),
                  Conv.lookup k Examples.c_bad_done = Some (Some q) /\ (Q2Qc 1 < q)%Qc
                  /\ Conv.pair_name k = n)
      /\ ~ In "USD/ETH" resolved.
Proof.
  assert (Hok : Dict.ok Examples.c_bad_done) by (apply distinct_keys_ok; reflexivity).
  assert (Hsat : Deduction.saturated Examples.c_bad_done)
    by (apply saturated_check; reflexivity).
  assert (Hself : forall a : Conv.Symbol, ~ Deduction.unknown Examples.c_bad_done (a, a))
    by (apply no_unknown_self; reflexivity).
  split; [exact Hok|]. split; [exact Hsat|]. split; [reflexivity|].
  destruct (proj2 (proj2 (proj1 unresolvable_raises Examples.c_bad_done Hok Hsat
                            (ex_intro _ ("DOGE", "USD") eq_refl))) Hself)
    as (remains & resolved & Hmsg & _ & _ & _ & Hres & Hnot & _).
  split.
  - rewrite remaining_settled by assumption. reflexivity.
  - exists remains, resolved. split; [exact Hmsg|]. split; [exact Hres|].
    apply (Hnot ("USD", "ETH") (Q2Qc (100 # 123456)) eq_refl).
    + unfold Qcle. vm_compute. discriminate.
    + intros k' q' Hk' Hq' E. apply lookup_entry in Hk'.
      unfold Examples.c_bad_done, Examples.ratio in Hk'.
      repeat (destruct Hk' as [Hk'|Hk'];
              [inversion Hk'; subst;
               first [discriminate E
                     | exfalso; revert Hq'; unfold Qclt; vm_compute; discriminate]|]).
      destruct Hk'.
Defined.

(** C7 as the spec has it fails on the resolved pairs: with A/B = 1 and
    B/A = 1 resolved and C/D wanted, the message raised names C/D and no
    resolved pair at all. *)
Lemma unresolvable_counterexample :
  Deduction.saturated Examples.c_par
  /\ Deduction.unknown Examples.c_par ("C", "D")
  /\ Conv.lookup ("A", "B") Examples.c_par = Some (Some (Q2Qc 1))
  /\ Conv.conversions_remaining Examples.c_par true
     = Conv.mkOutcome
         (Py.Raise (Py.RuntimeError "Failed to find ratio(s) for C/D via "))
         Examples.c_par []
  /\ Deduction.mentions "Failed to find ratio(s) for C/D via " "A/B" = false
  /\ ~ (forall d : Conv.Conversions,
          Dict.ok d -> Deduction.saturated d -> (exists k, Deduction.unknown d k) ->
          exists msg : string,
            Conv.result (Conv.conversions_remaining d true)
            = Py.Raise (Py.RuntimeError msg)
            /\ (forall k, Deduction.unknown d k ->
                          Deduction.mentions msg (Conv.pair_name k) = true)
            /\ (forall k, Deduction.known d k ->
                          Deduction.mentions msg (Conv.pair_name k) = true)).
Proof.
  assert (Hok : Dict.ok Examples.c_par) by (apply distinct_keys_ok; reflexivity).
  assert (Hsat : Deduction.saturated Examples.c_par)
    by (apply saturated_check; reflexivity).
  assert (E : Conv.conversions_remaining Examples.c_par true
              = Deduction.settled Examples.c_par true).
  { apply remaining_settled; auto. apply no_unknown_self. reflexivity. }
  split; [exact Hsat|]. split; [reflexivity|]. split; [reflexivity|].
  split; [rewrite E; reflexivity|]. split; [reflexivity|].
  intros H.
  destruct (H Examples.c_par Hok Hsat (ex_intro _ ("C", "D") eq_refl))
    as (msg & Hmsg & _ & Hres).
  rewrite E in Hmsg. injection Hmsg as <-.
  specialize (Hres ("A", "B") (ex_intro _ (Q2Qc 1) eq_refl)).
  discriminate Hres.
Qed.

(** ** Zero ratios *)

Section ZeroRatios.
Import Py Conv Deduction.
Local Open Scope Qc_scope.

Lemma pair_eq_dec (k k' : Pair) : {k = k'} + {k <> k'}.
Proof.
  destruct (pair_eqb k k') eqn:E.
  - left. now apply pair_eqb_eq.
  - right. intros ->. rewrite pair_eqb_refl in E. discriminate.
Qed.

Lemma step_worthless (d d' : Conversions) (a : Symbol) :
  step d d' -> worthless d a -> worthless d' a.
Proof.
  intros Hs Hw x v Hx.
  assert (Hold : forall k : Pair,
             (k = (a, x) \/ k = (x, a)) -> lookup k d' = Some (Some v) ->
             lookup k d = Some (Some v) \/ v = 0).
  { intros k Hk Hv. destruct Hs as [a0 b0 q H1 Hq Hn | a0 b0 c0 q q2 H1 H2 Hne Hn].
    - destruct (pair_eq_dec k (b0, a0)) as [->|Hkne].
      + exfalso. apply Hq. apply (Hw (if String.eqb a0 a then b0 else a0) q).
        destruct Hk as [[= -> ->]|[= -> ->]].
        * right. destruct (String.eqb_spec x a) as [->|_]; exact H1.
        * left. rewrite String.eqb_refl. exact H1.
      + left. rewrite lookup_set_other in Hv; auto.
    - destruct (pair_eq_dec k (a0, c0)) as [->|Hkne].
      + right. rewrite lookup_set_same in Hv. injection Hv as <-.
        destruct Hk as [[= -> ->]|[= -> ->]].
        * rewrite (Hw b0 q (or_introl H1)). ring.
        * rewrite (Hw b0 q2 (or_intror H2)). ring.
      + left. rewrite lookup_set_other in Hv; auto. }
  destruct Hx as [Hx|Hx].
  - destruct (Hold (a, x) (or_introl eq_refl) Hx) as [H|H]; [|exact H].
    apply (Hw x v). now left.
  - destruct (Hold (x, a) (or_intror eq_refl) Hx) as [H|H]; [|exact H].
    apply (Hw x v). now right.
Qed.

Lemma steps_worthless (d d' : Conversions) (a : Symbol) :
  steps d d' -> worthless d a -> worthless d' a.
Proof.
  induction 1 as [|d1 d2 _ IH Hs]; intros Hw; [exact Hw|].
  eapply step_worthless; eauto.
Qed.

Lemma worthless_check (d : Conversions) (a : Symbol) :
  forallb (fun e : Pair * Ratio =>
             negb (in_pair a (fst e))
             || match snd e with
                | Some q => Qc_eq_bool q 0
                | None => true
                end) d = true ->
  worthless d a.
Proof.
  intros H x q Hx. rewrite forallb_forall in H.
  assert (Hin : exists k : Pair, In (k, Some q) d /\ in_pair a k = true).
  { destruct Hx as [Hx|Hx]; apply lookup_entry in Hx;
      [exists (a, x) | exists (x, a)]; (split; [exact Hx|]);
      unfold in_pair; simpl; rewrite String.eqb_refl; auto using orb_true_r. }
  destruct Hin as (k & Hin & Ha). specialize (H _ Hin). simpl in H.
  rewrite Ha in H. simpl in H. now apply Qc_eq_bool_correct.
Qed.

Lemma remaining_never_divides_by_zero (d : Conversions) (verify : bool) :
  Dict.ok d -> result (conversions_remaining d verify) <> Raise ZeroDivisionError.
Proof.
  intros Hok. pose proof (pass_updated d Hok) as Hu.
  destruct (updated (snd (single_hop d (start d)))) eqn:U.
  - destruct (remaining_progress d verify Hok) as [E _]; [|rewrite E; discriminate].
    intros Hsat. apply Hu in Hsat. discriminate.
  - assert (Hsat : saturated d) by now apply Hu.
    destruct (remaining_saturated d verify Hok Hsat)
      as [->|(a & e & c2 & c3 & _ & [-> | ->] & ->)]; try discriminate.
    unfold settled. destruct (remains d =? "")%string; [discriminate|].
    destruct verify; discriminate.
Qed.

Lemma remaining_reaches (d : Conversions) (verify : bool)
      (a b c : Symbol) (q q2 : Qc) :
  Dict.ok d ->
  lookup (a, b) d = Some (Some q) -> lookup (b, c) d = Some (Some q2) -> a <> c ->
  known (dict (conversions_remaining d verify)) (a, c).
Proof.
  intros Hok Hab Hbc Hne. rewrite remaining_dict; [|exact Hok].
  apply (single_hop_reaches a b c q q2 d (start d)); auto.
  now apply lookup_entry.
Qed.
End ZeroRatios.

(** C4, amended.  A call never divides by zero and never inverts a zero
    ratio: every inversion it logs is of a known non-zero ratio, so none is
    of a pair mapped to 0.  A zero ratio takes part in single-hop
    composition: if (a, b) maps to 0, (b, c) to a known ratio, a and c differ
    and (a, c) is absent or unknown, then (a, c) is known after the call; it
    is 0 when every known ratio from or to a is zero, and otherwise it may
    hold what an earlier inversion or composition of the same pass gave it. *)
Theorem zero_ratio_guard (d : Conv.Conversions) (verify : bool) :
  Dict.ok d ->
  Conv.result (Conv.conversions_remaining d verify) <> Py.Raise Py.ZeroDivisionError
  /\ (forall (b a : Conv.Symbol) (v r : Qc),
        In (Conv.Deduced b a v r) (Conv.records (Conv.conversions_remaining d verify)) ->
        Conv.lookup (a, b) d = Some (Some r) /\ r <> Q2Qc 0 /\ v = (1 / r)%Qc)
  /\ (forall (a b : Conv.Symbol),
        Conv.lookup (a, b) d = Some (Some (Q2Qc 0)) ->
        forall v r : Qc,
          ~ In (Conv.Deduced b a v r) (Conv.records (Conv.conversions_remaining d verify)))
  /\ (forall (a b c : Conv.Symbol) (r2 : Qc),
        Conv.lookup (a, b) d = Some (Some (Q2Qc 0)) ->
        Conv.lookup (b, c) d = Some (Some r2) ->
        a <> c ->
        Conv.is_None (Conv.get (a, c) d) = true ->
        exists v : Qc,
          Conv.lookup (a, c) (Conv.dict (Conv.conversions_remaining d verify))
          = Some (Some v)
          /\ (Deduction.worthless d a -> v = Q2Qc 0)).
Proof.
  intros Hok.
  split; [now apply remaining_never_divides_by_zero|].
  split; [intros b a v r; now apply remaining_deduced|].
  split.
  - intros a b Hab v r Hin.
    destruct (remaining_deduced d verify b a v r Hok Hin) as (Hr & Hnz & _).
    rewrite Hab in Hr. injection Hr as <-. now apply Hnz.
  - intros a b c r2 Hab Hbc Hne _.
    destruct (remaining_reaches d verify a b c _ r2 Hok Hab Hbc Hne) as [v Hv].
    exists v. split; [exact Hv|]. intros Hw.
    apply (steps_worthless d _ a (remaining_steps d verify Hok) Hw c v). now left.
Qed.

Lemma zero_ratio_guard_witness :
  Dict.ok Examples.c_worthless
  /\ Conv.lookup ("A", "B") Examples.c_worthless = Some (Some (Q2Qc 0))
  /\ Conv.lookup ("A", "C") Examples.c_worthless = Some None
  /\ Conv.lookup ("B", "A")
       (Conv.dict (Conv.conversions_remaining Examples.c_worthless false)) = None
  /\ exists v : Qc,
      Conv.lookup ("A", "C")
        (Conv.dict (Conv.conversions_remaining Examples.c_worthless false))
      = Some (Some v)
      /\ (Deduction.worthless Examples.c_worthless "A" -> v = Q2Qc 0).
Proof.
  assert (Hok : Dict.ok Examples.c_worthless) by (apply distinct_keys_ok; reflexivity).
  split; [exact Hok|]. split; [reflexivity|]. split; [reflexivity|].
  split; [reflexivity|].
  apply (proj2 (proj2 (proj2 (zero_ratio_guard Examples.c_worthless false Hok)))
           "A" "B" "C" (Q2Qc 5)); [reflexivity | reflexivity | discriminate | reflexivity].
Defined.

(** C4 as the spec has it fails on the value: with C/A = 2, A/B = 0, B/C = 5
    and A/C wanted, the pass inverts C/A first, so A/C is 1/2 when it comes
    to A/B, and stays 1/2. *)
Lemma zero_propagation_counterexample :
  Conv.lookup ("A", "B") Examples.c_early = Some (Some (Q2Qc 0))
  /\ Conv.lookup ("B", "C") Examples.c_early = Some (Some (Q2Qc 5))
  /\ Deduction.unknown Examples.c_early ("A", "C")
  /\ Conv.lookup ("A", "C") (Conv.dict (Conv.conversions_remaining Examples.c_early false))
     = Some (Examples.ratio 1 2)
  /\ ~ (forall (d : Conv.Conversions) (verify : bool) (a b c : Conv.Symbol) (r2 : Qc),
          Dict.ok d ->
          Conv.lookup (a, b) d = Some (Some (Q2Qc 0)) ->
          Conv.lookup (b, c) d = Some (Some r2) ->
          Deduction.unknown d (a, c) ->
          Conv.lookup (a, c) (Conv.dict (Conv.conversions_remaining d verify))
          = Some (Some (Q2Qc 0))).
Proof.
  assert (E : Conv.lookup ("A", "C")
                (Conv.dict (Conv.conversions_remaining Examples.c_early false))
              = Some (Examples.ratio 1 2))
    by (vm_compute; do 2 f_equal; qc_eq).
  split; [reflexivity|]. split; [reflexivity|]. split; [reflexivity|].
  split; [exact E|].
  intros H.
  assert (E0 : Conv.lookup ("A", "C")
                 (Conv.dict (Conv.conversions_remaining Examples.c_early false))
               = Some (Some (Q2Qc 0))).
  { apply (H Examples.c_early false "A" "B" "C" (Q2Qc 5));
      [apply distinct_keys_ok; reflexivity | reflexivity | reflexivity | reflexivity]. }
  rewrite E in E0. discriminate E0.
Qed.

(** ** The loop around [conversions_remaining] *)

Section Resolve.
Import Py Conv Deduction.
Local Open Scope Qc_scope.

Lemma step_priced (worth : Symbol -> Qc) (d d' : Conversions) :
  step d d' -> priced_by worth d -> priced_by worth d'.
Proof.
  intros Hs Hp a b r Hr.
  destruct Hs as [a0 b0 q H1 Hq Hn | a0 b0 c0 q q2 H1 H2 Hne Hn].
  - destruct (pair_eq_dec (a, b) (b0, a0)) as [[= -> ->]|Hk].
    + rewrite lookup_set_same in Hr. injection Hr as <-.
      destruct (Hp a0 b0 q H1) as [Hb E]. split.
      * rewrite <- E. intros Hz. apply Qcmult_integral in Hz. tauto.
      * rewrite <- E. field. exact Hq.
    + rewrite lookup_set_other in Hr; auto.
  - destruct (pair_eq_dec (a, b) (a0, c0)) as [[= -> ->]|Hk].
    + rewrite lookup_set_same in Hr. injection Hr as <-.
      destruct (Hp a0 b0 q H1) as [Hb E], (Hp b0 c0 q2 H2) as [Hc E2].
      split; [exact Hc|]. rewrite <- E, <- E2. ring.
    + rewrite lookup_set_other in Hr; auto.
Qed.

Lemma steps_priced (worth : Symbol -> Qc) (d d' : Conversions) :
  steps d d' -> priced_by worth d -> priced_by worth d'.
Proof.
  induction 1 as [|d1 d2 _ IH Hs]; intros Hp; [exact Hp|].
  eapply step_priced; eauto.
Qed.


(** The loop ends on a call made on a mapping the first pass has nothing to
    add to, which that call leaves as it is. *)
Lemma resolve_ends (fuel : nat) (verify : bool) :
  forall (d : Conversions) (o : Outcome),
    Dict.ok d -> resolve fuel verify d = Some o ->
    steps d (dict o) /\ Dict.ok (dict o) /\ saturated (dict o)
    /\ o = conversions_remaining (dict o) verify.
Proof.
  induction fuel as [|fuel IH]; intros d o Hok Hres; simpl in Hres; [discriminate|].
  assert (Hend : result (conversions_remaining d verify) <> Return (Bool true) ->
                 Some (conversions_remaining d verify) = Some o ->
                 steps d (dict o) /\ Dict.ok (dict o) /\ saturated (dict o)
                 /\ o = conversions_remaining (dict o) verify).
  { intros Hnot [= <-]. pose proof (pass_updated d Hok) as Hu.
    destruct (updated (snd (single_hop d (start d)))) eqn:U.
    - exfalso. apply Hnot. apply remaining_progress; [exact Hok|].
      intros Hsat. apply Hu in Hsat. discriminate.
    - assert (Hsat : saturated d) by now apply Hu.
      destruct (saturated_result d verify Hok Hsat) as [-> _].
      split; [constructor|]. split; [exact Hok|]. split; [exact Hsat | reflexivity]. }
  destruct (result (conversions_remaining d verify)) as [[[|]|msg]|e] eqn:R;
    try (apply Hend; [discriminate | exact Hres]).
  destruct (IH _ o (remaining_ok d verify Hok) Hres) as (Hs & Hok' & Hsat & Ho).
  split; [|auto]. eapply steps_trans; [apply remaining_steps; exact Hok | exact Hs].
Qed.
End Resolve.





(** ** Running totals *)

Section Nonnegative.
Import Py Line Inv.
Local Open Scope Qc_scope.

Lemma Qc_mult_nonneg (x y : Qc) : 0 <= x -> 0 <= y -> 0 <= x * y.
Proof.
  intros Hx Hy. rewrite <- (Qcmult_0_l y). now apply Qcmult_le_compat_r.
Qed.

Lemma Qc_plus_nonneg (x y : Qc) : 0 <= x -> 0 <= y -> 0 <= x + y.
Proof.
  intros Hx Hy. replace 0 with (0 + 0) by ring. now apply Qcplus_le_compat.
Qed.

Lemma Qc_inv_nonneg (x : Qc) : 0 <= x -> 0 <= / x.
Proof.
  unfold Qcle, Qcinv. intros Hx. cbn [this Q2Qc] in *.
  rewrite !Qred_correct in *.
  apply Qinv_le_0_compat. exact Hx.
Qed.

Lemma Qc_div_nonneg (x y : Qc) : 0 <= x -> 0 <= y -> 0 <= x / y.
Proof. intros Hx Hy. apply Qc_mult_nonneg; [exact Hx | now apply Qc_inv_nonneg]. Qed.

Lemma Qc_inject_nonneg (k : Z) : (0 <= k)%Z -> 0 <= Q2Qc (inject_Z k).
Proof.
  intros Hk. unfold Qcle. cbn [this Q2Qc]. rewrite !Qred_correct.
  unfold Qle. simpl. lia.
Qed.

Lemma Qc_le_plus_r (x y : Qc) : 0 <= y -> x <= x + y.
Proof.
  intros Hy. replace x with (x + 0) at 1 by ring.
  apply Qcplus_le_compat; [apply Qcle_refl | exact Hy].
Qed.

Lemma round_half_even_nonneg (x : Qc) : 0 <= x -> (0 <= round_half_even x)%Z.
Proof.
  unfold round_half_even, Qcle, Qle. simpl. intros Hx.
  assert (Hn : (0 <= Qnum x)%Z) by lia.
  assert (Hf : (0 <= Qnum x / Z.pos (Qden x))%Z) by (apply Z.div_pos; lia).
  destruct (_ <? _)%Z; [exact Hf|].
  destruct (_ <? _)%Z; [lia|].
  destruct (Z.even _); lia.
Qed.

Lemma round_nonneg (x : Qc) (ndigits : Z) : 0 <= x -> 0 <= round x ndigits.
Proof.
  intros Hx. unfold round.
  assert (Hs : (0 <= 10 ^ Z.abs ndigits)%Z) by (apply Z.pow_nonneg; lia).
  pose proof (Qc_inject_nonneg _ Hs) as Hshift.
  destruct (0 <? ndigits)%Z.
  - apply Qc_div_nonneg; [|exact Hshift].
    apply Qc_inject_nonneg, round_half_even_nonneg. now apply Qc_mult_nonneg.
  - apply Qc_inject_nonneg. apply Z.mul_nonneg_nonneg; [|exact Hs].
    apply round_half_even_nonneg. now apply Qc_div_nonneg.
Qed.

Lemma net_nonneg (percent : Qc -> string) (line : LineItem) :
  nonneg_item line ->
  0 <= fst (fst (net percent line)) /\ 0 <= snd (fst (net percent line)).
Proof.
  intros (Hu & Hp & Ht). unfold net.
  assert (Ha : 0 <= units line * price line) by now apply Qc_mult_nonneg.
  destruct (tax line) as [t|] eqn:E; [|split; [exact Ha | apply Qcle_refl]].
  specialize (Ht t eq_refl).
  destruct (nonzero t) eqn:Hz; [|split; [exact Ha | apply Qcle_refl]].
  destruct (lt t 1) eqn:Hlt; simpl.
  - assert (Hx : 0 <= units line * price line * t) by now apply Qc_mult_nonneg.
    split; [now apply Qc_plus_nonneg | exact Hx].
  - destruct (gt t 1) eqn:Hgt; simpl; [|split; [exact Ha | apply Qcle_refl]].
    split; [exact Ha|]. apply gt_true in Hgt. apply nonzero_true in Hz.
    replace (units line * price line - units line * price line / t)
      with (units line * price line * ((t - 1) / t)) by (field; exact Hz).
    apply Qc_mult_nonneg; [exact Ha|]. apply Qc_div_nonneg; [|exact Ht].
    unfold Qcminus. apply (proj1 (Qcle_minus_iff 1 t)). now apply Qclt_le_weak.
Qed.
End Nonnegative.

Section Totals.
Import Py Conv Line Inv.
Local Open Scope Qc_scope.
Variable percent : Qc -> string.
Variable INVOICE_CURRENCY : string.
Variable tokeninfo : string -> exn + TokenInfo.
Variable self : Invoice.

Let cs : list Symbol := nodup string_dec (currencies self).

Lemma at_ratio_nonneg (line_symbol : Symbol) (amount : Qc) (c : Symbol) :
  nonneg_ratios self -> 0 <= amount -> 0 <= at_ratio self line_symbol amount c.
Proof.
  intros Hr Ha. unfold at_ratio, get. destruct (line_symbol =? c)%string; [exact Ha|].
  apply Qc_mult_nonneg; [exact Ha|].
  destruct (lookup (line_symbol, c) (conversions self)) as [[r|]|] eqn:E;
    [now apply (Hr _ _ E) | apply Qcle_refl | apply Qcle_refl].
Qed.

Lemma add_line_spec (line_symbol : Symbol) (amount taxes : Qc) (l : list Symbol) :
  forall tot tax tot' tax' : Symbol -> Qc,
    NoDup l ->
    add_line self line_symbol amount taxes l tot tax = inr (tot', tax') ->
    forall c : Symbol,
      (In c l -> tot' c = tot c + at_ratio self line_symbol amount c
                 /\ tax' c = tax c + at_ratio self line_symbol taxes c)
      /\ (~ In c l -> tot' c = tot c /\ tax' c = tax c).
Proof.
  induction l as [|c0 l IH]; intros tot tax tot' tax' Hnd H c; simpl in H.
  - injection H as <- <-. split; [intros [] | auto].
  - inversion Hnd as [|? ? Hnot Hnd']; subst.
    assert (Hstep : exists x y : Qc,
               x = at_ratio self line_symbol amount c0
               /\ y = at_ratio self line_symbol taxes c0
               /\ add_line self line_symbol amount taxes l
                           (add_at tot c0 x) (add_at tax c0 y) = inr (tot', tax')).
    { unfold at_ratio, get. destruct (line_symbol =? c0)%string; [eauto|].
      destruct (lookup (line_symbol, c0) (conversions self)) as [[r|]|];
        [eauto | discriminate | discriminate]. }
    destruct Hstep as (x & y & -> & -> & Hrest).
    destruct (IH _ _ _ _ Hnd' Hrest c) as [Hin Hout]. unfold add_at in Hin, Hout.
    destruct (c =? c0)%string eqn:Ec.
    + apply String.eqb_eq in Ec. subst c0.
      split; [|intros Hn; exfalso; apply Hn; now left].
      intros _. exact (Hout Hnot).
    + apply String.eqb_neq in Ec. split.
      * intros [->|Hc]; [contradiction | exact (Hin Hc)].
      * intros Hn. apply Hout. intros Hc. apply Hn. now right.
Qed.

(** What one turn of the loop of [Invoice.__iter__] does to the sums. *)
Lemma line_row_spec (i : nat) (line : LineItem) (tot tax : Symbol -> Qc)
      (row : Row) (tot' tax' : Symbol -> Qc) :
  line_row percent INVOICE_CURRENCY tokeninfo self i line tot tax
  = inr (row, tot', tax') ->
  exists (line_symbol : Symbol) (amount taxes : Qc),
    rounded percent INVOICE_CURRENCY tokeninfo line = Some (line_symbol, amount, taxes)
    /\ row_totals row = map tot' (sorted_currencies self)
    /\ row_taxtotals row = map tax' (sorted_currencies self)
    /\ (nonneg_item line -> 0 <= amount /\ 0 <= taxes)
    /\ forall c : Symbol,
        (In c cs -> tot' c = tot c + at_ratio self line_symbol amount c
                    /\ tax' c = tax c + at_ratio self line_symbol taxes c)
        /\ (~ In c cs -> tot' c = tot c /\ tax' c = tax c).
Proof.
  unfold line_row, rounded. intros H.
  pose proof (net_nonneg percent line) as Hnet.
  destruct (net percent line) as [[a t] inf].
  destruct (tokeninfo (currency_of INVOICE_CURRENCY line)) as [e|line_curr];
    [discriminate|].
  set (d := match decimals line with
            | Some d => d
            | None => (token_decimals line_curr / 3)%Z
            end) in *.
  destruct (add_line self (symbol line_curr) (round a d) (round t d)
              (nodup string_dec (currencies self)) tot tax) as [e|[t1 t2]] eqn:E1;
    [discriminate|].
  injection H as <- <- <-.
  exists (symbol line_curr), (round a d), (round t d).
  split; [reflexivity|]. split; [reflexivity|]. split; [reflexivity|].
  split.
  - intros Hn. destruct (Hnet Hn) as [Ha Ht]. simpl in Ha, Ht.
    split; now apply round_nonneg.
  - intros c. exact (add_line_spec _ _ _ _ _ _ _ _ (NoDup_nodup string_dec _) E1 c).
Qed.

Lemma map_le (f g : Symbol -> Qc) (l : list Symbol) :
  (forall c, f c <= g c) -> Forall2 Qcle (map f l) (map g l).
Proof. intros H. induction l; simpl; constructor; auto. Qed.

(** Each row's sums are at least the sums the loop had before it, and each
    row is below the next. *)
Lemma rows_from_monotone (ls : list LineItem) :
  forall (i : nat) (tot tax : Symbol -> Qc),
    (forall line, In line ls -> nonneg_item line) ->
    nonneg_ratios self ->
    let rows := fst (rows_from percent INVOICE_CURRENCY tokeninfo self i ls tot tax) in
    Sorted.Sorted totals_le rows
    /\ forall row, In row rows ->
         Forall2 Qcle (map tot (sorted_currencies self)) (row_totals row)
         /\ Forall2 Qcle (map tax (sorted_currencies self)) (row_taxtotals row).
Proof.
  induction ls as [|line ls IH]; intros i tot tax Hls Hr; simpl.
  - split; [constructor | intros row []].
  - destruct (line_row percent INVOICE_CURRENCY tokeninfo self i line tot tax)
      as [e|[[row tot'] tax']] eqn:E; simpl; [split; [constructor | intros row []]|].
    destruct (line_row_spec i line tot tax row tot' tax' E)
      as (sym & a & t & _ & Htot & Htax & Hnn & Hc).
    destruct (Hnn (Hls line (or_introl eq_refl))) as [Ha Ht].
    assert (Hle : (forall c, tot c <= tot' c) /\ (forall c, tax c <= tax' c)).
    { split; intros c; destruct (in_dec string_dec c cs) as [Hin|Hout].
      - rewrite (proj1 (proj1 (Hc c) Hin)). apply Qc_le_plus_r. now apply at_ratio_nonneg.
      - rewrite (proj1 (proj2 (Hc c) Hout)). apply Qcle_refl.
      - rewrite (proj2 (proj1 (Hc c) Hin)). apply Qc_le_plus_r. now apply at_ratio_nonneg.
      - rewrite (proj2 (proj2 (Hc c) Hout)). apply Qcle_refl. }
    destruct Hle as [Hle1 Hle2].
    specialize (IH (S i) tot' tax' (fun l Hl => Hls l (or_intror Hl)) Hr).
    destruct (rows_from percent INVOICE_CURRENCY tokeninfo self (S i) ls tot' tax')
      as [rows e]. simpl in *. destruct IH as [Hsorted Hrows].
    assert (Hrow : Forall2 Qcle (map tot (sorted_currencies self)) (row_totals row)
                   /\ Forall2 Qcle (map tax (sorted_currencies self)) (row_taxtotals row)).
    { rewrite Htot, Htax. split; now apply map_le. }
    split.
    + constructor; [exact Hsorted|]. destruct rows as [|next rows]; constructor.
      unfold totals_le. rewrite Htot, Htax. apply Hrows. now left.
    + intros row' [<-|Hin]; [exact Hrow|].
      destruct (Hrows row' Hin) as [H1 H2]. split.
      * clear - H1 Hle1. revert H1. generalize (row_totals row').
        induction (sorted_currencies self) as [|c l IHl]; intros l' H;
          inversion H; subst; simpl; constructor; auto.
        eapply Qcle_trans; [apply Hle1 | eassumption].
      * clear - H2 Hle2. revert H2. generalize (row_taxtotals row').
        induction (sorted_currencies self) as [|c l IHl]; intros l' H;
          inversion H; subst; simpl; constructor; auto.
        eapply Qcle_trans; [apply Hle2 | eassumption].
Qed.
End Totals.

Section FinalTotals.
Import Py Conv Line Inv.
Local Open Scope Qc_scope.
Variable percent : Qc -> string.
Variable INVOICE_CURRENCY : string.
Variable tokeninfo : string -> exn + TokenInfo.
Variable self : Invoice.

Lemma sorted_currency (c : Symbol) :
  In c (sorted_currencies self) -> In c (nodup string_dec (currencies self)).
Proof. unfold sorted_currencies. intros H. now apply (proj1 (sorted_In _ _)) in H. Qed.

(** A loop that ends without an exception has yielded a row per line, and
    the sums of its last row are the sums it started from plus what the
    lines add. *)
Lemma rows_from_total (ls : list LineItem) :
  forall (i : nat) (tot tax : Symbol -> Qc) (rows : list Row),
    rows_from percent INVOICE_CURRENCY tokeninfo self i ls tot tax = (rows, None) ->
    List.length rows = List.length ls
    /\ forall (front : list Row) (row : Row),
        rows = front ++ [row] ->
        row_totals row
        = map (fun c => tot c + sum_amounts percent INVOICE_CURRENCY tokeninfo self c ls)
              (sorted_currencies self)
        /\ row_taxtotals row
           = map (fun c => tax c + sum_taxes percent INVOICE_CURRENCY tokeninfo self c ls)
                 (sorted_currencies self).
Proof.
  induction ls as [|line ls IH]; intros i tot tax rows H; simpl in H.
  - injection H as <-. split; [reflexivity|].
    intros front row E. destruct front; discriminate E.
  - destruct (line_row percent INVOICE_CURRENCY tokeninfo self i line tot tax)
      as [e|[[row0 tot'] tax']] eqn:E; [discriminate|].
    destruct (line_row_spec percent INVOICE_CURRENCY tokeninfo self
                i line tot tax row0 tot' tax' E)
      as (sym & a & t & Hround & Htot & Htax & _ & Hc).
    destruct (rows_from percent INVOICE_CURRENCY tokeninfo self (S i) ls tot' tax')
      as [rows' e'] eqn:R.
    injection H as <- ->.
    destruct (IH (S i) tot' tax' rows' R) as [Hlen Hlast].
    split; [simpl; now rewrite Hlen|].
    assert (Hstep :
              map (fun c => tot' c
                            + sum_amounts percent INVOICE_CURRENCY tokeninfo self c ls)
                  (sorted_currencies self)
              = map (fun c => tot c + sum_amounts percent INVOICE_CURRENCY tokeninfo
                                        self c (line :: ls))
                    (sorted_currencies self)
              /\ map (fun c => tax' c
                               + sum_taxes percent INVOICE_CURRENCY tokeninfo self c ls)
                     (sorted_currencies self)
                 = map (fun c => tax c + sum_taxes percent INVOICE_CURRENCY tokeninfo
                                           self c (line :: ls))
                       (sorted_currencies self)).
    { split; apply map_ext_in; intros c Hin; apply sorted_currency in Hin;
        destruct (proj1 (Hc c) Hin) as [E1 E2]; rewrite ?E1, ?E2; simpl;
        rewrite Hround; ring. }
    destruct Hstep as [Hs1 Hs2].
    intros front row Efront. destruct front as [|r0 front]; simpl in Efront.
    + injection Efront as -> ->. destruct ls; [|discriminate Hlen].
      rewrite Htot, Htax, <- Hs1, <- Hs2. simpl.
      split; apply map_ext; intros c; ring.
    + injection Efront as <- ->.
      destruct (Hlast front row eq_refl) as [-> ->]. auto.
Qed.
End FinalTotals.

(** C8, amended.  With the numbers read as exact rationals (the code adds
    to sums that start at the float 0., lines 454-459, so that its sums are
    these up to the rounding of floats): for an invoice whose lines have no
    negative units, price or tax and whose known ratios are not negative,
    the rows of [Invoice.__iter__] carry running totals and running taxes
    that do not decrease from a row to the next, in any currency, and that
    are not negative; and when the iteration ends without an exception, the
    last row holds, for each currency c of the invoice in sorted order, the
    sum over all lines of the line's rounded amount taken to c at the ratio
    [conversions[(line symbol, c)]] - as it is when the line's currency is
    c - and the like sum of the rounded taxes. *)
Theorem running_totals
        (percent : Qc -> string) (INVOICE_CURRENCY : string)
        (tokeninfo : string -> Py.exn + Inv.TokenInfo) (self : Inv.Invoice) :
  (forall line, In line (Inv.lines self) -> Inv.nonneg_item line) ->
  Inv.nonneg_ratios self ->
  let rows := fst (Inv.iter percent INVOICE_CURRENCY tokeninfo self) in
  Sorted Inv.totals_le rows
  /\ (forall row, In row rows ->
        Forall (Qcle (Q2Qc 0)) (Inv.row_totals row)
        /\ Forall (Qcle (Q2Qc 0)) (Inv.row_taxtotals row))
  /\ (snd (Inv.iter percent INVOICE_CURRENCY tokeninfo self) = None ->
      List.length rows = List.length (Inv.lines self)
      /\ forall (front : list Inv.Row) (row : Inv.Row),
          rows = front ++ [row] ->
          Inv.row_totals row
          = map (fun c => Inv.sum_amounts percent INVOICE_CURRENCY tokeninfo self c
                                          (Inv.lines self))
                (Inv.sorted_currencies self)
          /\ Inv.row_taxtotals row
             = map (fun c => Inv.sum_taxes percent INVOICE_CURRENCY tokeninfo self c
                                           (Inv.lines self))
                   (Inv.sorted_currencies self)).
Proof.
  intros Hls Hr rows. unfold rows, Inv.iter.
  destruct (rows_from_monotone percent INVOICE_CURRENCY tokeninfo self
              (Inv.lines self) 0 (fun _ => Q2Qc 0) (fun _ => Q2Qc 0) Hls Hr)
    as [Hsorted Hrows].
  split; [exact Hsorted|]. split.
  - intros row Hin. destruct (Hrows row Hin) as [H1 H2].
    assert (Hall : forall l l', Forall2 Qcle (map (fun _ : Conv.Symbol => Q2Qc 0) l) l' ->
                                Forall (Qcle (Q2Qc 0)) l').
    { induction l as [|c l IHl]; intros l' H; inversion H; subst; constructor; auto. }
    split; eapply Hall; eassumption.
  - intros Hnone.
    destruct (Inv.rows_from percent INVOICE_CURRENCY tokeninfo self 0 (Inv.lines self)
                (fun _ => Q2Qc 0) (fun _ => Q2Qc 0)) as [rs e] eqn:R.
    simpl in Hnone. subst e. simpl.
    destruct (rows_from_total percent INVOICE_CURRENCY tokeninfo self
                (Inv.lines self) 0 _ _ rs R) as [Hlen Hlast].
    split; [exact Hlen|].
    intros front row E. destruct (Hlast front row E) as [-> ->].
    split; apply map_ext; intros c; ring.
Qed.

(** Closes an inequality between two given rationals. *)
Ltac qc_le := unfold Qcle; vm_compute; discriminate.

Lemma running_totals_witness :
  (forall line, In line (Inv.lines Examples.invoice) -> Inv.nonneg_item line)
  /\ Inv.nonneg_ratios Examples.invoice
  /\ Inv.sorted_currencies Examples.invoice = ["ETH"; "USD"]
  /\ map (fun row => map this (Inv.row_totals row))
         (fst (Inv.iter Examples.percent_plain "USD" Examples.tokens Examples.invoice))
     = [ [10447 # 30864; 10447 # 25]; [8664659 # 1543200; 8664659 # 1250] ]
  /\ snd (Inv.iter Examples.percent_plain "USD" Examples.tokens Examples.invoice) = None
  /\ Sorted Inv.totals_le
       (fst (Inv.iter Examples.percent_plain "USD" Examples.tokens Examples.invoice)).
Proof.
  assert (Hls : forall line, In line (Inv.lines Examples.invoice) -> Inv.nonneg_item line).
  { intros line [<-|[<-|[]]]; (split; [qc_le|]); (split; [qc_le|]);
      intros t [= <-]; qc_le. }
  assert (Hr : Inv.nonneg_ratios Examples.invoice).
  { intros k r Hk. apply lookup_entry in Hk.
    destruct Hk as [[= <- <-]|[[= <- <-]|[]]]; qc_le. }
  split; [exact Hls|]. split; [exact Hr|]. split; [reflexivity|].
  split; [vm_compute; reflexivity|]. split; [vm_compute; reflexivity|].
  exact (proj1 (running_totals Examples.percent_plain "USD" Examples.tokens
                  Examples.invoice Hls Hr)).
Defined.

(** C8 as the spec has it fails where a ratio is negative, which nothing in
    the code excludes: with ETH/USD = -1234.56 supplied, the second line of
    the invoice, 5.27625 ETH, takes the running total in USD from 417.88
    down to -6095.9672, although no line has a negative unit, price or
    tax. *)
Lemma running_totals_counterexample :
  (forall line, In line (Inv.lines Examples.invoice_negative) -> Inv.nonneg_item line)
  /\ Inv.sorted_currencies Examples.invoice_negative = ["ETH"; "USD"]
  /\ map (fun row => map this (Inv.row_totals row))
         (fst (Inv.iter Examples.percent_plain "USD" Examples.tokens
                        Examples.invoice_negative))
     = [ [10447 # 30864; 10447 # 25]; [8664659 # 1543200; -7619959 # 1250] ]
  /\ snd (Inv.iter Examples.percent_plain "USD" Examples.tokens Examples.invoice_negative)
     = None
  /\ ~ (forall (percent : Qc -> string) (INVOICE_CURRENCY : string)
               (tokeninfo : string -> Py.exn + Inv.TokenInfo) (self : Inv.Invoice),
          (forall line, In line (Inv.lines self) -> Inv.nonneg_item line) ->
          Sorted Inv.totals_le (fst (Inv.iter percent INVOICE_CURRENCY tokeninfo self))).
Proof.
  assert (Hls : forall line,
             In line (Inv.lines Examples.invoice_negative) -> Inv.nonneg_item line).
  { intros line [<-|[<-|[]]]; (split; [qc_le|]); (split; [qc_le|]);
      intros t [= <-]; qc_le. }
  assert (E : map (fun row => map this (Inv.row_totals row))
                  (fst (Inv.iter Examples.percent_plain "USD" Examples.tokens
                                 Examples.invoice_negative))
              = [ [10447 # 30864; 10447 # 25]; [8664659 # 1543200; -7619959 # 1250] ])
    by (vm_compute; reflexivity).
  split; [exact Hls|]. split; [reflexivity|]. split; [exact E|].
  split; [vm_compute; reflexivity|].
  intros H.
  specialize (H Examples.percent_plain "USD" Examples.tokens Examples.invoice_negative Hls).
  destruct (fst (Inv.iter Examples.percent_plain "USD" Examples.tokens
                          Examples.invoice_negative)) as [|r1 [|r2 rest]];
    try discriminate E.
  apply Sorted_inv in H as [_ H]. apply HdRel_inv in H. destruct H as [H _].
  cbn [map] in E. injection E as E1 E2 _.
  destruct (Inv.row_totals r1) as [|a1 [|b1 t1]]; try discriminate E1.
  destruct (Inv.row_totals r2) as [|a2 [|b2 t2]]; try discriminate E2.
  cbn [map] in E1, E2. injection E1 as _ E1 _. injection E2 as _ E2 _.
  apply Forall2_cons_iff in H as [_ H]. apply Forall2_cons_iff in H as [H _].
  unfold Qcle in H. rewrite E1, E2 in H. revert H. vm_compute. intros H. now apply H.
Qed.

(** ** The loop ends *)

Section Termination.
Import Py Conv Deduction.

Lemma within_symbols (d : Conversions) : within (symbols d) d.
Proof.
  intros a b H. destruct (lookup (a, b) d) as [r|] eqn:E; [|congruence].
  apply lookup_entry in E. unfold symbols.
  split; apply in_flat_map; exists ((a, b), r); simpl; auto.
Qed.

Lemma known_present (d : Conversions) (k : Pair) (q : Qc) :
  lookup k d = Some (Some q) -> lookup k d <> None.
Proof. congruence. Qed.

Lemma step_within (syms : list Symbol) (d d' : Conversions) :
  step d d' -> within syms d -> within syms d'.
Proof.
  intros Hs Hw a b H.
  destruct Hs as [a0 b0 q H1 Hq Hn | a0 b0 c0 q q2 H1 H2 Hne Hn].
  - destruct (pair_eq_dec (a, b) (b0, a0)) as [[= -> ->]|Hk].
    + destruct (Hw a0 b0 (known_present _ _ _ H1)). auto.
    + rewrite lookup_set_other in H; auto.
  - destruct (pair_eq_dec (a, b) (a0, c0)) as [[= -> ->]|Hk].
    + destruct (Hw a0 b0 (known_present _ _ _ H1)),
               (Hw b0 c0 (known_present _ _ _ H2)). auto.
    + rewrite lookup_set_other in H; auto.
Qed.

Lemma steps_within (syms : list Symbol) (d d' : Conversions) :
  steps d d' -> within syms d -> within syms d'.
Proof.
  induction 1 as [|d1 d2 _ IH Hs]; intros Hw; [exact Hw|].
  eapply step_within; eauto.
Qed.

Lemma filter_shrinks {A : Type} (f g : A -> bool) (l : list A) (x : A) :
  (forall y, In y l -> g y = true -> f y = true) ->
  In x l -> f x = true -> g x = false ->
  List.length (filter g l) < List.length (filter f l).
Proof.
  intros Hfg. induction l as [|y l IH]; intros Hin Hf Hg; [destruct Hin|].
  assert (Hle : forall l', (forall z, In z l' -> g z = true -> f z = true) ->
                           List.length (filter g l') <= List.length (filter f l')).
  { induction l' as [|z l' IHl']; intros H; simpl; [lia|].
    specialize (IHl' (fun w Hw => H w (or_intror Hw))).
    destruct (g z) eqn:Gz.
    - rewrite (H z (or_introl eq_refl) Gz). simpl. lia.
    - destruct (f z); simpl; lia. }
  simpl. destruct Hin as [->|Hin].
  - rewrite Hf, Hg. simpl.
    specialize (Hle l (fun z Hz => Hfg z (or_intror Hz))). lia.
  - specialize (IH (fun z Hz => Hfg z (or_intror Hz)) Hin Hf Hg).
    destruct (g y) eqn:Gy.
    + rewrite (Hfg y (or_introl eq_refl) Gy). simpl. lia.
    + destruct (f y); simpl; lia.
Qed.

Lemma step_gains (syms : list Symbol) (d d' : Conversions) :
  within syms d -> step d d' -> missing syms d' < missing syms d.
Proof.
  intros Hw Hs. pose proof (step_within syms d d' Hs Hw) as Hw'.
  destruct (step_writes d d' Hs) as ([a b] & q & Hnone & ->). unfold missing.
  apply (filter_shrinks _ _ _ (a, b)).
  - intros k _ Hk. destruct (is_None (get k d)) eqn:E; [reflexivity|].
    apply get_known in E as [q' Hq']. apply get_not_known in Hk. exfalso. apply Hk.
    exists q'. now apply set_keeps_known.
  - apply in_prod; apply (Hw' a b); rewrite lookup_set_same; discriminate.
  - exact Hnone.
  - apply get_known. exists q. apply lookup_set_same.
Qed.

Lemma steps_gain (syms : list Symbol) (d d' : Conversions) :
  within syms d -> steps d d' -> d' = d \/ missing syms d' < missing syms d.
Proof.
  intros Hw Hs. induction Hs as [|d1 d2 Hs IH Hstep]; [now left|].
  right. pose proof (step_gains syms d1 d2 (steps_within _ _ _ Hs Hw) Hstep).
  destruct IH as [->|IH]; lia.
Qed.

Lemma compose_with_changed (a b : Symbol) (r : Qc) (snapshot : Conversions) :
  forall s : State,
    updated s = false -> updated (compose_with a b r snapshot s) = true ->
    exists k : Pair,
      is_None (get k (conv s)) = true /\ known (conv (compose_with a b r snapshot s)) k.
Proof.
  induction snapshot as [|[[a2 b2] [q2|]] rest IH]; intros s Hs Hu; simpl in *.
  - congruence.
  - destruct ((b =? a2) && negb (a =? b2) && is_None (get (a, b2) (conv s)))%string eqn:T.
    + apply compose_test in T as (_ & _ & Hnone). exists (a, b2). split; [exact Hnone|].
      exists (r * q2)%Qc. apply compose_with_keeps_known. simpl. apply lookup_set_same.
    + apply (IH (mkState _ _ _ _)); auto.
  - apply (IH (mkState _ _ _ _)); auto.
Qed.

Lemma single_hop_changed (snapshot : Conversions) :
  forall s : State,
    updated s = false -> updated (snd (single_hop snapshot s)) = true ->
    exists k : Pair,
      is_None (get k (conv s)) = true /\ known (conv (snd (single_hop snapshot s))) k.
Proof.
  induction snapshot as [|[[a b] r] rest IH]; intros s Hs Hu; simpl in *.
  - congruence.
  - destruct (invert_entry_cases a b r s) as [(q0 & -> & Hq0 & Hn & E)|[E _]];
      rewrite E in *.
    + exists (b, a). split; [exact Hn|]. exists (1 / q0)%Qc.
      apply single_hop_keeps_known, compose_with_keeps_known. simpl.
      apply lookup_set_same.
    + destruct r as [q0|]; [|now apply IH].
      destruct (updated (compose_with a b q0 (conv s) s)) eqn:U.
      * destruct (compose_with_changed a b q0 (conv s) s Hs U) as (k & Hk & [q Hq]).
        exists k. split; [exact Hk|]. exists q. now apply single_hop_keeps_known.
      * destruct (compose_with_quiet a b q0 (conv s) s) as (Ec & _ & _);
          [now apply (compose_with_not_updated a b q0)|].
        destruct (IH _ U Hu) as (k & Hk & Hq). exists k. rewrite Ec in Hk. auto.
Qed.

(** A call that returns [True] has gained at least one pair. *)
Lemma remaining_gains (syms : list Symbol) (d : Conversions) (verify : bool) :
  Dict.ok d -> within syms d ->
  result (conversions_remaining d verify) = Return (Bool true) ->
  missing syms (dict (conversions_remaining d verify)) < missing syms d.
Proof.
  intros Hok Hw Hres.
  destruct (steps_gain syms d _ Hw (remaining_steps d verify Hok)) as [E|H]; [|exact H].
  exfalso. pose proof (pass_updated d Hok) as Hu.
  destruct (updated (snd (single_hop d (start d)))) eqn:U.
  - destruct (single_hop_changed d (start d) eq_refl U) as (k & Hk & Hq).
    rewrite <- (remaining_dict d verify Hok), E in Hq. simpl in Hk.
    apply get_not_known in Hk. contradiction.
  - destruct (saturated_result d verify Hok (proj1 Hu eq_refl)) as [_ Hnot].
    contradiction.
Qed.

Lemma resolve_enough (verify : bool) (syms : list Symbol) (fuel : nat) :
  forall d : Conversions,
    Dict.ok d -> within syms d -> missing syms d < fuel ->
    exists o : Outcome, resolve fuel verify d = Some o.
Proof.
  induction fuel as [|fuel IH]; intros d Hok Hw Hm; [lia|]. simpl.
  destruct (result (conversions_remaining d verify)) as [[[|]|msg]|e] eqn:R; eauto.
  apply IH.
  - now apply remaining_ok.
  - eapply steps_within; [now apply remaining_steps | exact Hw].
  - pose proof (remaining_gains syms d verify Hok Hw R). lia.
Qed.

Lemma missing_bound (syms : list Symbol) (d : Conversions) :
  missing syms d <= List.length syms * List.length syms.
Proof.
  unfold missing. rewrite <- length_prod. apply filter_length_le.
Qed.
End Termination.

(** X1.  The loop around [conversions_remaining] ends: on a mapping whose
    keys hold n different symbols, n * n + 1 calls are enough for a call to
    return [False] or the failure message, or to raise, with nothing left to
    deduce.  Every call that returns [True] has made known a pair that was
    not, and has kept every known ratio as it was. *)
Theorem resolve_terminates (d : Conv.Conversions) (verify : bool) :
  Dict.ok d ->
  let n := List.length (Deduction.distinct_symbols d) in
  NoDup (Deduction.distinct_symbols d)
  /\ (forall s : Conv.Symbol,
        In s (Deduction.distinct_symbols d)
        <-> exists (k : Conv.Pair) (v : Conv.Ratio),
              Conv.lookup k d = Some v /\ (s = fst k \/ s = snd k))
  /\ (exists o : Conv.Outcome,
        Conv.resolve (n * n + 1) verify d = Some o
        /\ Conv.result o <> Py.Return (Conv.Bool true)
        /\ Deduction.saturated (Conv.dict o))
  /\ (forall (d' : Conv.Conversions) (verify' : bool),
        Dict.ok d' ->
        Conv.result (Conv.conversions_remaining d' verify') = Py.Return (Conv.Bool true) ->
        (exists k : Conv.Pair,
            Conv.is_None (Conv.get k d') = true
            /\ Deduction.known (Conv.dict (Conv.conversions_remaining d' verify')) k)
        /\ (forall (k : Conv.Pair) (q : Qc),
              Conv.lookup k d' = Some (Some q) ->
              Conv.lookup k (Conv.dict (Conv.conversions_remaining d' verify'))
              = Some (Some q))).
Proof.
  intros Hok n. split; [apply NoDup_nodup|]. split; [|split].
  - intros s. unfold Deduction.distinct_symbols. rewrite nodup_In.
    unfold Deduction.symbols. rewrite in_flat_map. split.
    + intros ([k v] & Hin & Hs). exists k, v. split; [now apply entry_lookup|].
      simpl in Hs. destruct Hs as [<-|[<-|[]]]; auto.
    + intros (k & v & Hk & Hs). exists (k, v). split; [now apply lookup_entry|].
      simpl. destruct Hs as [->| ->]; auto.
  - destruct (resolve_enough verify (Deduction.distinct_symbols d) (n * n + 1) d)
      as [o Ho]; [exact Hok | | |].
    + intros a b H. destruct (within_symbols d a b H) as [Ha Hb].
      unfold Deduction.distinct_symbols. now rewrite !nodup_In.
    + pose proof (missing_bound (Deduction.distinct_symbols d) d). subst n. lia.
    + exists o. split; [exact Ho|].
      destruct (resolve_ends _ verify d o Hok Ho) as (_ & Hok' & Hsat & E).
      split; [|exact Hsat]. rewrite E. now apply saturated_result.
  - intros d' verify' Hok' Hres. split.
    + pose proof (pass_updated d' Hok') as Hu.
      destruct (Conv.updated (snd (Conv.single_hop d' (Conv.start d')))) eqn:U.
      * destruct (single_hop_changed d' (Conv.start d') eq_refl U) as (k & Hk & Hq).
        exists k. split; [exact Hk|]. now rewrite (remaining_dict d' verify' Hok').
      * destruct (saturated_result d' verify' Hok' (proj1 Hu eq_refl)) as [_ Hnot].
        contradiction.
    + intros k q Hk.
      exact (steps_keep_known _ _ k q (remaining_steps d' verify' Hok') Hk).
Qed.

Lemma resolve_terminates_witness :
  Dict.ok Examples.c1
  /\ Deduction.distinct_symbols Examples.c1 = [ "USD"; "BTC"; "ETH" ]
  /\ Conv.resolve 2 false Examples.c1 = None
  /\ exists o : Conv.Outcome,
      Conv.resolve (3 * 3 + 1) false Examples.c1 = Some o
      /\ Conv.result o <> Py.Return (Conv.Bool true)
      /\ Deduction.saturated (Conv.dict o).
Proof.
  assert (Hok : Dict.ok Examples.c1) by (apply distinct_keys_ok; reflexivity).
  split; [exact Hok|]. split; [reflexivity|]. split; [reflexivity|].
  exact (proj1 (proj2 (proj2 (resolve_terminates Examples.c1 false Hok)))).
Defined.

(** ** Further properties of the deduction *)

(** X2.  A call returns [True] exactly when inversion or single-hop composition
    had something to add; the mapping it leaves then comes from the one it
    was given by such deductions only, and holds more known ratios. *)
Theorem changed_iff_deduced (d : Conv.Conversions) (verify : bool) :
  Dict.ok d ->
  (Conv.result (Conv.conversions_remaining d verify) = Py.Return (Conv.Bool true)
   <-> ~ Deduction.saturated d)
  /\ Deduction.steps d (Conv.dict (Conv.conversions_remaining d verify))
  /\ (Conv.result (Conv.conversions_remaining d verify) = Py.Return (Conv.Bool true) ->
      Deduction.missing (Deduction.symbols d) (Conv.dict (Conv.conversions_remaining d verify))
      < Deduction.missing (Deduction.symbols d) d).
Proof.
  intros Hok. split; [|split].
  - split.
    + intros Hres Hsat. now destruct (saturated_result d verify Hok Hsat) as [_ Hnot].
    + intros Hnot. now apply remaining_progress.
  - now apply remaining_steps.
  - apply remaining_gains; [exact Hok | apply within_symbols].
Qed.

Lemma changed_iff_deduced_witness :
  Dict.ok Examples.c_one
  /\ Conv.result (Conv.conversions_remaining Examples.c_one false)
     = Py.Return (Conv.Bool true)
  /\ ~ Deduction.saturated Examples.c_one.
Proof.
  assert (Hok : Dict.ok Examples.c_one) by (apply distinct_keys_ok; reflexivity).
  split; [exact Hok|]. split; [reflexivity|].
  apply (proj1 (proj1 (changed_iff_deduced Examples.c_one false Hok))). reflexivity.
Defined.

(** X3.  Composition law, with the ratios read as exact rationals: when
    the loop has ended, two known ratios (a, b) and (b, c) with a and c
    different have (a, c) known, and (a, c) is their product when the known
    ratios the loop started from agree with one valuation of the symbols. *)
Theorem composition_law
        (fuel : nat) (verify : bool) (d : Conv.Conversions) (o : Conv.Outcome)
        (a b c : Conv.Symbol) (r r2 : Qc) :
  Dict.ok d ->
  Conv.resolve fuel verify d = Some o ->
  Conv.lookup (a, b) (Conv.dict o) = Some (Some r) ->
  Conv.lookup (b, c) (Conv.dict o) = Some (Some r2) ->
  a <> c ->
  exists r3 : Qc,
    Conv.lookup (a, c) (Conv.dict o) = Some (Some r3)
    /\ (forall worth : Conv.Symbol -> Qc,
          Deduction.priced_by worth d -> r3 = (r * r2)%Qc).
Proof.
  intros Hok Hres Hab Hbc Hne.
  destruct (resolve_ends fuel verify d o Hok Hres) as (Hs & Hok' & [_ Hcomp] & _).
  destruct (Hcomp a b c r r2 Hab Hbc Hne) as [r3 Hac].
  exists r3. split; [exact Hac|].
  intros worth Hp. pose proof (steps_priced worth d _ Hs Hp) as Hp'.
  destruct (Hp' a b r Hab) as [Hb E], (Hp' b c r2 Hbc) as [Hc E2],
           (Hp' a c r3 Hac) as [_ E3].
  assert (H : ((r3 - r * r2) * worth c = Q2Qc 0)%Qc).
  { replace ((r3 - r * r2) * worth c)%Qc
      with (r3 * worth c - r * (r2 * worth c))%Qc by ring.
    rewrite E3, E2, E. ring. }
  apply Qcmult_integral in H as [H|H]; [|contradiction].
  replace r3 with (r3 - r * r2 + r * r2)%Qc by ring. rewrite H. ring.
Qed.

Lemma composition_law_witness :
  Dict.ok Examples.c1
  /\ Conv.resolve 3 false Examples.c1 = Some Examples.c1_outcome
  /\ "BTC" <> "ETH"
  /\ exists r3 : Qc,
      Conv.lookup ("BTC", "ETH") (Conv.dict Examples.c1_outcome) = Some (Some r3)
      /\ (forall worth : Conv.Symbol -> Qc,
            Deduction.priced_by worth Examples.c1 ->
            r3 = (Q2Qc (2345678 # 100) * Q2Qc (100 # 123456))%Qc).
Proof.
  assert (Hok : Dict.ok Examples.c1) by (apply distinct_keys_ok; reflexivity).
  assert (Hres : Conv.resolve 3 false Examples.c1 = Some Examples.c1_outcome)
    by (vm_compute; reflexivity).
  assert (Hne : "BTC" <> "ETH") by discriminate.
  split; [exact Hok|]. split; [exact Hres|]. split; [exact Hne|].
  apply (composition_law 3 false Examples.c1 Examples.c1_outcome "BTC" "USD" "ETH"
           (Q2Qc (2345678 # 100)) (Q2Qc (100 # 123456)) Hok Hres);
    [vm_compute; do 2 f_equal; qc_eq | vm_compute; do 2 f_equal; qc_eq | exact Hne].
Defined.

(** The scenario "two known, one derived" of section 8: from ETH/USD and
    BTC/USD the loop - two calls that return [True], a third that returns
    [False] - derives BTC/ETH = 19.000113... and ETH/BTC = 0.0526312... *)
Theorem two_known_one_derived :
  option_map Conv.result (Conv.resolve 3 false Examples.c1)
  = Some (Py.Return (Conv.Bool false))
  /\ Conv.resolve 2 false Examples.c1 = None
  /\ option_map (fun o => option_map (option_map this)
                                     (Conv.lookup ("BTC", "ETH") (Conv.dict o)))
                (Conv.resolve 3 false Examples.c1)
     = Some (Some (Some (1172839 # 61728)))
  /\ option_map (fun o => option_map (option_map this)
                                     (Conv.lookup ("ETH", "BTC") (Conv.dict o)))
                (Conv.resolve 3 false Examples.c1)
     = Some (Some (Some (61728 # 1172839)))
  /\ (19000113 # 1000000 < 1172839 # 61728 < 19000114 # 1000000)%Q
  /\ (526312 # 10000000 < 61728 # 1172839 < 526313 # 10000000)%Q.
Proof. repeat split; vm_compute; reflexivity. Qed.

(** The bridge scenario of section 8: with DOGE/BTC = 0.00000385 given and
    DOGE/USD wanted, the loop makes three calls - two return [True], the
    third [False] - and DOGE/USD is the product of DOGE/BTC and BTC/USD,
    0.0903086...; every deduction is an inversion or a single-hop
    composition: the log of the calls holds no record of the second pass. *)
Theorem bridge_by_single_hops :
  Conv.result (Conv.conversions_remaining Examples.c_doge false)
  = Py.Return (Conv.Bool true)
  /\ option_map Conv.result (Conv.resolve 3 false Examples.c_doge)
     = Some (Py.Return (Conv.Bool false))
  /\ Conv.resolve 2 false Examples.c_doge = None
  /\ option_map this
       (Conv.get ("DOGE", "USD")
          (Conv.dict (Conv.conversions_remaining Examples.c_doge false)))
     = Some (Qred ((385 # 100000000) * (2345678 # 100)))
  /\ (903086 # 10000000 < (385 # 100000000) * (2345678 # 100) < 903087 # 10000000)%Q
  /\ forallb (fun record => match record with
                            | Conv.Found _ _ _ | Conv.Compute _ _ _ _ _ => false
                            | _ => true
                            end)
             (Conv.records (Conv.conversions_remaining Examples.c_doge false)
              ++ Conv.records
                   (Conv.conversions_remaining
                      (Conv.dict (Conv.conversions_remaining Examples.c_doge false)) false))
     = true.
Proof. repeat split; vm_compute; reflexivity. Qed.

(** ** The table of conversions *)

Section TableFacts.
Import Py Conv Table.

Lemma index_In (x : string) (l : list string) :
  In x l -> exists i : nat, index x l = Some i /\ nth_error l i = Some x.
Proof.
  induction l as [|y l IH]; simpl; [tauto|].
  intros H. destruct (String.eqb_spec x y) as [->|Hxy].
  - exists 0. split; reflexivity.
  - destruct H as [H|H]; [congruence|].
    destruct (IH H) as [i [Hi Hn]]. exists (S i). rewrite Hi. split; [reflexivity|exact Hn].
Qed.

Lemma key_symbols (d : Conversions) (a b : Symbol) (v : Ratio) :
  lookup (a, b) d = Some v ->
  In a (default_symbols d) /\ In b (default_symbols d).
Proof.
  intros H. apply lookup_entry in H.
  unfold default_symbols.
  split; apply sorted_In; apply nodup_In; unfold Deduction.symbols;
    apply in_flat_map; exists ((a, b), v); simpl; auto.
Qed.

Lemma read_table (d : Conversions) (syms : list Symbol) (a b : Symbol) :
  In a syms -> In b syms ->
  read ("Symbol" :: syms) (table_rows d syms) a b = Some (cell d a b).
Proof.
  intros Ha Hb. unfold read. simpl tl.
  destruct (index_In a syms Ha) as [i [Hi Hni]].
  destruct (index_In b syms Hb) as [j [Hj Hnj]].
  rewrite Hi, Hj. unfold table_rows, Symbol in *.
  rewrite nth_error_map, Hni. cbn [option_map nth_error].
  rewrite nth_error_map, Hnj. reflexivity.
Qed.

End TableFacts.

(** X4 (conversions_table, lines 103-123).  What [conversions_table] hands
    to [tabulate] when no symbols are given, before anything is formatted:
    the headers are "Symbol" and the sorted symbols of the keys, and the
    rows can be read back, for every key [(a, b)] of the dictionary the row
    of [a] and the column of [b] exist and their cell holds the value of
    the key ([None] included) when [a] and [b] differ, and the integer 1 when
    they are the same symbol, whatever the dictionary holds for [(a, a)].
    The text returned is what [tabulate] makes of these rows, whose formats
    (",.6g", "," and "?" for [None]) are not modelled. *)
Theorem conversions_table_reads_back
        (tabulate : list (list Table.Cell) -> list string -> string)
        (d : Conv.Conversions) :
  exists (rows : list (list Table.Cell)) (headers : list string),
    Table.conversions_table tabulate d None = tabulate rows headers
    /\ headers = "Symbol" :: Table.default_symbols d
    /\ List.length rows = List.length (Table.default_symbols d)
    /\ forall (a b : Conv.Symbol) (v : Conv.Ratio),
        Conv.lookup (a, b) d = Some v ->
        Table.read headers rows a b
        = Some (if a =? b then Table.One else Table.Held v).
Proof.
  exists (Table.table_rows d (Table.default_symbols d)),
         ("Symbol" :: Table.default_symbols d).
  split; [reflexivity|]. split; [reflexivity|].
  split; [unfold Table.table_rows; apply length_map|].
  intros a b v H. destruct (key_symbols d a b v H) as [Ha Hb].
  rewrite (read_table d _ a b Ha Hb). unfold Table.cell.
  destruct (a =? b); [reflexivity|]. now rewrite H.
Qed.

(** ** Dates *)

Section DateFacts.
Import Py Raised Dates.
Local Open Scope Z_scope.
Context {Clock : Type}.
Variable plus_timedelta : datetime Clock -> Z -> Z -> Z -> Z -> error + datetime Clock.

Lemma days_in_month_bounds (y m : Z) :
  1 <= m <= 12 -> 28 <= days_in_month y m <= 31.
Proof.
  intros H. unfold days_in_month.
  assert (Hm : m = 1 \/ m = 2 \/ m = 3 \/ m = 4 \/ m = 5 \/ m = 6 \/ m = 7
               \/ m = 8 \/ m = 9 \/ m = 10 \/ m = 11 \/ m = 12) by lia.
  repeat (destruct Hm as [->|Hm]); try subst m; simpl;
    try destruct (isleap y); simpl; lia.
Qed.

Lemma valid_spec (y m d : Z) :
  valid y m d = true
  <-> 1 <= y <= 9999 /\ 1 <= m <= 12 /\ 1 <= d <= days_in_month y m.
Proof.
  unfold valid. rewrite !andb_true_iff, !Z.leb_le. lia.
Qed.

Lemma min_if (a b : Z) : (if b <? a then b else a) = Z.min a b.
Proof.
  destruct (Z.ltb_spec b a); [rewrite Z.min_r by lia | rewrite Z.min_l by lia]; reflexivity.
Qed.

Lemma valid_false_year (y m d : Z) : (1 <=? y) && (y <=? 9999) = false -> valid y m d = false.
Proof. unfold valid. intros H. rewrite H. reflexivity. Qed.

(** What [datetime_advance] does when no days, hours, minutes or seconds are
    asked for, in closed form. *)
Lemma advance_eq (dt : datetime Clock) (years months days hours minutes seconds : option Z) :
  well_formed dt ->
  given days || given hours || given minutes || given seconds = false ->
  let mo := month dt + or0 months in
  let yr := year dt + or0 years + (mo - 1) / 12 in
  let m' := (mo - 1) mod 12 + 1 in
  datetime_advance plus_timedelta dt years months days hours minutes seconds
  = if (1 <=? mo) && ((1 <=? yr) && (yr <=? 9999))
    then inr (mkDatetime yr m' (Z.min (day dt) (days_in_month yr m')) (clock dt))
    else inl (Exn ValueError).
Proof.
  intros Hwf Hno mo yr m'. unfold well_formed in Hwf. apply valid_spec in Hwf.
  destruct Hwf as [Hy [Hm Hd]].
  assert (Hdiv := Z.div_mod (mo - 1) 12 ltac:(lia)).
  assert (Hmod := Z.mod_pos_bound (mo - 1) 12 ltac:(lia)).
  assert (Hfirst : replace_day 1 dt = inr (mkDatetime (year dt) (month dt) 1 (clock dt))).
  { unfold replace_day, replace.
    assert (Hb0 := days_in_month_bounds (year dt) (month dt) ltac:(lia)).
    replace (valid (year dt) (month dt) 1) with true by (symmetry; apply valid_spec; lia).
    reflexivity. }
  assert (Hrest : forall mo1 : Z,
             1 <= mo1 <= 12 ->
             bind (replace_day 1 dt) (fun dt1 =>
             bind (replace_year yr dt1) (fun dt2 =>
             bind (replace_month mo1 dt2) (fun dt3 =>
             replace_day (if days_in_month yr mo1 <? day dt
                          then days_in_month yr mo1 else day dt) dt3)))
             = if (1 <=? yr) && (yr <=? 9999)
               then inr (mkDatetime yr mo1 (Z.min (day dt) (days_in_month yr mo1)) (clock dt))
               else inl (Exn ValueError)).
  { intros mo1 Hmo1. rewrite Hfirst. cbn [bind].
    unfold replace_year, replace. cbn [year month day clock].
    destruct ((1 <=? yr) && (yr <=? 9999)) eqn:Hyr.
    - apply andb_true_iff in Hyr. rewrite !Z.leb_le in Hyr.
      assert (Hb := days_in_month_bounds yr mo1 ltac:(lia)).
      assert (Hb1 := days_in_month_bounds yr (month dt) ltac:(lia)).
      replace (valid yr (month dt) 1) with true by (symmetry; apply valid_spec; lia).
      cbn [bind]. unfold replace_month, replace_day, replace. cbn [year month day clock].
      replace (valid yr mo1 1) with true by (symmetry; apply valid_spec; lia).
      cbn [bind year month day clock]. rewrite min_if.
      replace (valid yr mo1 (Z.min (day dt) (days_in_month yr mo1))) with true
        by (symmetry; apply valid_spec; lia).
      reflexivity.
    - rewrite (valid_false_year _ _ _ Hyr). reflexivity. }
  unfold datetime_advance. rewrite Hno.
  destruct (given years || given months) eqn:Hg.
  - fold mo. destruct (12 <? mo) eqn:Hbig.
    + apply Z.ltb_lt in Hbig. fold yr. fold m'.
      assert (Hin : (1 <=? m') && (m' <=? 12) = true).
      { apply andb_true_iff. rewrite !Z.leb_le. unfold m'. lia. }
      rewrite Hin. cbn [bind]. unfold monthrange. rewrite Hin.
      rewrite (Hrest m') by (unfold m'; lia).
      replace (1 <=? mo) with true by (symmetry; apply Z.leb_le; lia).
      cbn [andb]. destruct ((1 <=? yr) && (yr <=? 9999)); reflexivity.
    + apply Z.ltb_ge in Hbig. cbn [bind]. unfold monthrange.
      destruct (1 <=? mo) eqn:Hlow; cbn [andb]; [|reflexivity].
      apply Z.leb_le in Hlow.
      replace (mo <=? 12) with true by (symmetry; apply Z.leb_le; lia).
      assert (E1 : (mo - 1) / 12 = 0) by (apply Z.div_small; lia).
      assert (E2 : m' = mo) by (unfold m'; rewrite Z.mod_small; lia).
      assert (E3 : year dt + or0 years = yr) by (unfold yr; lia).
      rewrite E3, E2. rewrite (Hrest mo) by lia.
      destruct ((1 <=? yr) && (yr <=? 9999)); reflexivity.
  - apply orb_false_iff in Hg. destruct Hg as [Hg1 Hg2].
    assert (Hy0 : or0 years = 0).
    { destruct years as [z|]; simpl in *; [|reflexivity].
      apply negb_false_iff, Z.eqb_eq in Hg1. exact Hg1. }
    assert (Hm0 : or0 months = 0).
    { destruct months as [z|]; simpl in *; [|reflexivity].
      apply negb_false_iff, Z.eqb_eq in Hg2. exact Hg2. }
    cbn [bind].
    assert (E0 : mo = month dt) by (unfold mo; lia).
    assert (E1 : (mo - 1) / 12 = 0) by (apply Z.div_small; lia).
    assert (E2 : m' = month dt) by (unfold m'; rewrite Z.mod_small; lia).
    assert (E3 : yr = year dt) by (unfold yr; lia).
    rewrite E0, E2, E3.
    replace (1 <=? month dt) with true by (symmetry; apply Z.leb_le; lia).
    replace (1 <=? year dt) with true by (symmetry; apply Z.leb_le; lia).
    replace (year dt <=? 9999) with true by (symmetry; apply Z.leb_le; lia).
    cbn [andb]. rewrite Z.min_l by lia. destruct dt; reflexivity.
Qed.

(** The days, hours, minutes and seconds are added after the months. *)
Lemma advance_split (dt : datetime Clock) (years months days hours minutes seconds : option Z) :
  datetime_advance plus_timedelta dt years months days hours minutes seconds
  = bind (datetime_advance plus_timedelta dt years months None None None None)
         (fun dt1 =>
            if given days || given hours || given minutes || given seconds
            then plus_timedelta dt1 (or0 days) (or0 hours) (or0 minutes) (or0 seconds)
            else inr dt1).
Proof.
  unfold datetime_advance. cbn [given orb].
  match goal with
  | |- bind ?x _ = _ => destruct x as [e|dt1]; reflexivity
  end.
Qed.

Lemma advance_inr (dt dt' : datetime Clock) (years months : option Z) :
  well_formed dt ->
  datetime_advance plus_timedelta dt years months None None None None = inr dt' ->
  let mo := month dt + or0 months in
  1 <= mo
  /\ 1 <= year dt' <= 9999
  /\ year dt' = year dt + or0 years + (mo - 1) / 12
  /\ month dt' = (mo - 1) mod 12 + 1
  /\ day dt' = Z.min (day dt) (days_in_month (year dt') (month dt'))
  /\ clock dt' = clock dt.
Proof.
  intros Hwf H mo. rewrite (advance_eq dt years months None None None None Hwf eq_refl) in H.
  fold mo in H.
  destruct (1 <=? mo) eqn:H1; [|discriminate]. cbn [andb] in H.
  destruct ((1 <=? year dt + or0 years + (mo - 1) / 12)
            && (year dt + or0 years + (mo - 1) / 12 <=? 9999)) eqn:H2; [|discriminate].
  injection H as <-. cbn [year month day clock].
  apply Z.leb_le in H1. apply andb_true_iff in H2. rewrite !Z.leb_le in H2.
  repeat split; lia.
Qed.

End DateFacts.

(** X5 (datetime_advance, lines 791-811).  Advancing a date by years and
    months alone: as long as the month number stays at 1 or more before the
    years are carried (the code carries months above 12 only) and the year
    arrived at is one a date can hold, the call returns a date that exists;
    it lies the asked number of months later, its day is the day of the
    start clamped to the length of the month arrived at, and the time of day
    is kept. *)
Theorem datetime_advance_months {Clock : Type}
        (plus_timedelta : Dates.datetime Clock -> Z -> Z -> Z -> Z
                          -> Raised.error + Dates.datetime Clock)
        (dt : Dates.datetime Clock)
        (years months days hours minutes seconds : option Z) :
  Dates.well_formed dt ->
  Dates.given days || Dates.given hours || Dates.given minutes || Dates.given seconds
  = false ->
  (1 <= Dates.month dt + Dates.or0 months)%Z ->
  (1 <= Dates.year dt + Dates.or0 years
        + (Dates.month dt + Dates.or0 months - 1) / 12 <= 9999)%Z ->
  exists dt' : Dates.datetime Clock,
    Dates.datetime_advance plus_timedelta dt years months days hours minutes seconds
    = inr dt'
    /\ Dates.well_formed dt'
    /\ (Dates.months_of dt'
        = Dates.months_of dt + 12 * Dates.or0 years + Dates.or0 months)%Z
    /\ Dates.day dt'
       = Z.min (Dates.day dt) (Dates.days_in_month (Dates.year dt') (Dates.month dt'))
    /\ Dates.clock dt' = Dates.clock dt.
Proof.
  intros Hwf Hno Hmo Hyr.
  rewrite (advance_eq plus_timedelta dt years months days hours minutes seconds Hwf Hno).
  set (mo := (Dates.month dt + Dates.or0 months)%Z) in *.
  set (yr := (Dates.year dt + Dates.or0 years + (mo - 1) / 12)%Z) in *.
  replace (1 <=? mo)%Z with true by (symmetry; apply Z.leb_le; lia).
  replace (1 <=? yr)%Z with true by (symmetry; apply Z.leb_le; lia).
  replace (yr <=? 9999)%Z with true by (symmetry; apply Z.leb_le; lia).
  cbn [andb]. eexists. split; [reflexivity|].
  assert (Hdiv := Z.div_mod (mo - 1) 12 ltac:(lia)).
  assert (Hmod := Z.mod_pos_bound (mo - 1) 12 ltac:(lia)).
  assert (Hb := days_in_month_bounds yr ((mo - 1) mod 12 + 1) ltac:(lia)).
  unfold Dates.well_formed in *. apply valid_spec in Hwf.
  unfold Dates.months_of. cbn [Dates.year Dates.month Dates.day Dates.clock].
  repeat split; try lia.
  apply valid_spec. lia.
Qed.

Lemma datetime_advance_months_witness :
  exists dt' : Dates.datetime unit,
    Dates.datetime_advance (fun dt _ _ _ _ => inr dt)
      (Dates.mkDatetime 2023 1 31 tt) None (Some 13%Z) None None None None = inr dt'
    /\ Dates.well_formed dt'
    /\ (Dates.months_of dt'
        = Dates.months_of (Dates.mkDatetime 2023 1 31 tt) + 12 * 0 + 13)%Z
    /\ Dates.day dt'
       = Z.min 31 (Dates.days_in_month (Dates.year dt') (Dates.month dt'))
    /\ Dates.clock dt' = tt.
Proof.
  apply (datetime_advance_months (fun dt _ _ _ _ => inr dt)
           (Dates.mkDatetime 2023 1 31 tt) None (Some 13%Z) None None None None);
    [reflexivity | reflexivity | simpl; lia | simpl; lia].
Defined.

(** X6 (datetime_advance, lines 797-808).  Months are never borrowed from
    the year: whenever the months asked for take the month number of a date
    to 0 or below (one month back from a day in January, say), the call
    raises [ValueError] ([calendar.IllegalMonthError]) whatever the other
    arguments, and returns no date. *)
Theorem datetime_advance_before_january {Clock : Type}
        (plus_timedelta : Dates.datetime Clock -> Z -> Z -> Z -> Z
                          -> Raised.error + Dates.datetime Clock)
        (dt : Dates.datetime Clock)
        (years months days hours minutes seconds : option Z) :
  Dates.well_formed dt ->
  (Dates.month dt + Dates.or0 months <= 0)%Z ->
  Dates.datetime_advance plus_timedelta dt years months days hours minutes seconds
  = inl (Raised.Exn Py.ValueError).
Proof.
  intros Hwf Hmo. rewrite advance_split.
  rewrite (advance_eq plus_timedelta dt years months None None None None Hwf eq_refl).
  replace (1 <=? Dates.month dt + Dates.or0 months)%Z with false
    by (symmetry; apply Z.leb_gt; lia).
  reflexivity.
Qed.

Lemma datetime_advance_before_january_witness :
  Dates.datetime_advance (fun dt _ _ _ _ => inr dt)
    (Dates.mkDatetime 2023 1 15 tt) (Some 1%Z) (Some (-1)%Z) None None None None
  = inl (Raised.Exn Py.ValueError).
Proof.
  apply (datetime_advance_before_january (fun dt _ _ _ _ => inr dt)
           (Dates.mkDatetime 2023 1 15 tt) (Some 1%Z) (Some (-1)%Z) None None None None);
    [reflexivity | simpl; lia].
Defined.

(** X7 (datetime_advance, lines 797-808).  Two advances against one: when a
    date is advanced by years and months and the result is advanced again,
    one advance by the sums returns too and arrives at the same year and
    month; the day reached in two steps is at most the day reached in one
    (31 January plus one month plus one month is 28 March, plus two months
    is 31 March), and is the same for a start on the 28th or earlier. *)
Theorem datetime_advance_twice {Clock : Type}
        (plus_timedelta : Dates.datetime Clock -> Z -> Z -> Z -> Z
                          -> Raised.error + Dates.datetime Clock)
        (dt dt1 dt2 : Dates.datetime Clock) (y1 m1 y2 m2 : option Z) :
  Dates.well_formed dt ->
  Dates.datetime_advance plus_timedelta dt y1 m1 None None None None = inr dt1 ->
  Dates.datetime_advance plus_timedelta dt1 y2 m2 None None None None = inr dt2 ->
  exists dt3 : Dates.datetime Clock,
    Dates.datetime_advance plus_timedelta dt
      (Some (Dates.or0 y1 + Dates.or0 y2)%Z) (Some (Dates.or0 m1 + Dates.or0 m2)%Z)
      None None None None = inr dt3
    /\ Dates.year dt2 = Dates.year dt3
    /\ Dates.month dt2 = Dates.month dt3
    /\ (Dates.day dt2 <= Dates.day dt3)%Z
    /\ ((Dates.day dt <= 28)%Z -> Dates.day dt2 = Dates.day dt3).
Proof.
  intros Hwf H1 H2.
  destruct (advance_inr plus_timedelta dt dt1 y1 m1 Hwf H1)
    as [Hmo1 [Hr1 [Hy1 [Hm1 [Hd1 Hc1]]]]].
  assert (Hwf0 := Hwf). unfold Dates.well_formed in Hwf0. apply valid_spec in Hwf0.
  set (mo1 := (Dates.month dt + Dates.or0 m1)%Z) in *.
  assert (Hdiv1 := Z.div_mod (mo1 - 1) 12 ltac:(lia)).
  assert (Hmod1 := Z.mod_pos_bound (mo1 - 1) 12 ltac:(lia)).
  assert (Hb1 := days_in_month_bounds (Dates.year dt1) (Dates.month dt1) ltac:(lia)).
  assert (Hwf1 : Dates.well_formed dt1).
  { unfold Dates.well_formed. apply valid_spec. lia. }
  destruct (advance_inr plus_timedelta dt1 dt2 y2 m2 Hwf1 H2)
    as [Hmo2 [Hr2 [Hy2 [Hm2 [Hd2 Hc2]]]]].
  set (mo2 := (Dates.month dt1 + Dates.or0 m2)%Z) in *.
  assert (Hdiv2 := Z.div_mod (mo2 - 1) 12 ltac:(lia)).
  assert (Hmod2 := Z.mod_pos_bound (mo2 - 1) 12 ltac:(lia)).
  set (mo3 := (Dates.month dt + (Dates.or0 m1 + Dates.or0 m2))%Z).
  assert (Hdiv3 := Z.div_mod (mo3 - 1) 12 ltac:(lia)).
  assert (Hmod3 := Z.mod_pos_bound (mo3 - 1) 12 ltac:(lia)).
  assert (E : (mo3 - 1 = 12 * ((mo1 - 1) / 12 + (mo2 - 1) / 12) + (mo2 - 1) mod 12)%Z).
  { unfold mo3. unfold mo2 in Hdiv2 |- *. unfold mo1 in Hdiv1, Hm1 |- *. lia. }
  assert (Eq : ((mo3 - 1) / 12 = (mo1 - 1) / 12 + (mo2 - 1) / 12)%Z).
  { symmetry. apply (Z.div_unique (mo3 - 1) 12 _ ((mo2 - 1) mod 12)); [lia|exact E]. }
  assert (Er : ((mo3 - 1) mod 12 = (mo2 - 1) mod 12)%Z).
  { symmetry. apply (Z.mod_unique (mo3 - 1) 12 ((mo1 - 1) / 12 + (mo2 - 1) / 12));
      [lia|exact E]. }
  assert (Hq1 : (0 <= (mo1 - 1) / 12)%Z) by (apply Z.div_pos; lia).
  rewrite (advance_eq plus_timedelta dt _ _ None None None None Hwf eq_refl).
  cbn [Dates.or0]. fold mo3.
  replace (1 <=? mo3)%Z with true by (symmetry; apply Z.leb_le; lia).
  rewrite Eq, Er.
  replace (1 <=? Dates.year dt + (Dates.or0 y1 + Dates.or0 y2)
                 + ((mo1 - 1) / 12 + (mo2 - 1) / 12))%Z with true
    by (symmetry; apply Z.leb_le; lia).
  replace (Dates.year dt + (Dates.or0 y1 + Dates.or0 y2)
           + ((mo1 - 1) / 12 + (mo2 - 1) / 12) <=? 9999)%Z with true
    by (symmetry; apply Z.leb_le; lia).
  cbn [andb]. eexists. split; [reflexivity|].
  cbn [Dates.year Dates.month Dates.day].
  assert (Ey : (Dates.year dt + (Dates.or0 y1 + Dates.or0 y2)
                + ((mo1 - 1) / 12 + (mo2 - 1) / 12))%Z = Dates.year dt2) by lia.
  rewrite Ey, <- Hm2.
  assert (Hb2 := days_in_month_bounds (Dates.year dt2) (Dates.month dt2) ltac:(lia)).
  repeat split; lia.
Qed.

Lemma datetime_advance_twice_witness :
  exists dt3 : Dates.datetime unit,
    Dates.datetime_advance (fun dt _ _ _ _ => inr dt) (Dates.mkDatetime 2024 1 31 tt)
      (Some (0 + 0)%Z) (Some (1 + 1)%Z) None None None None = inr dt3
    /\ 2024%Z = Dates.year dt3
    /\ 3%Z = Dates.month dt3
    /\ (29 <= Dates.day dt3)%Z
    /\ ((31 <= 28)%Z -> 29%Z = Dates.day dt3).
Proof.
  exact (datetime_advance_twice (fun dt _ _ _ _ => inr dt)
           (Dates.mkDatetime 2024 1 31 tt) (Dates.mkDatetime 2024 2 29 tt)
           (Dates.mkDatetime 2024 3 29 tt) None (Some 1%Z) None (Some 1%Z)
           eq_refl eq_refl eq_refl).
Defined.

(** ** The headers and the tables of an invoice *)

Section StringFacts.
Import PyStr.

Lemma rstrip_cons (c a : ascii) (s : string) :
  Ascii.eqb a c = false -> rstrip c (String a s) = String a (rstrip c s).
Proof.
  intros H. simpl. rewrite H. destruct (rstrip c s); reflexivity.
Qed.

Lemma can_total (c : string) :
  Tables.can ("_Total " ++ c) = ("total " ++ lower (rstrip "_" c))%string.
Proof.
  unfold Tables.can, strip. cbn [append lstrip Ascii.eqb Bool.eqb].
  rewrite !rstrip_cons by reflexivity. reflexivity.
Qed.

Lemma can_taxes (c : string) :
  Tables.can ("_Taxes " ++ c) = ("taxes " ++ lower (rstrip "_" c))%string.
Proof.
  unfold Tables.can, strip. cbn [append lstrip Ascii.eqb Bool.eqb].
  rewrite !rstrip_cons by reflexivity. reflexivity.
Qed.

End StringFacts.

Section SortedFacts.
Import Conv.

Lemma insert_sorted_NoDup (x : string) (l : list string) :
  ~ In x l -> NoDup l -> NoDup (insert_sorted x l).
Proof.
  induction l as [|y l IH]; simpl; intros Hx Hl.
  - constructor; [tauto|constructor].
  - destruct (String.leb x y).
    + constructor; [simpl; exact Hx|exact Hl].
    + inversion Hl as [|? ? Hy Hl']; subst. constructor.
      * intros Hin. apply insert_sorted_In in Hin. simpl in Hx.
        destruct Hin as [->|Hin]; [apply Hx; now left|tauto].
      * apply IH; [simpl in Hx; tauto|assumption].
Qed.

Lemma sorted_NoDup (l : list string) : NoDup l -> NoDup (sorted l).
Proof.
  induction l as [|x l IH]; simpl; intros H; [constructor|].
  inversion H as [|? ? Hx Hl]; subst.
  apply insert_sorted_NoDup; [|auto].
  intros Hin. apply (proj1 (sorted_In _ _)) in Hin. tauto.
Qed.

Lemma insert_sorted_length (x : string) (l : list string) :
  List.length (insert_sorted x l) = S (List.length l).
Proof.
  induction l as [|y l IH]; simpl; [reflexivity|].
  destruct (String.leb x y); simpl; [reflexivity|now rewrite IH].
Qed.

End SortedFacts.

Section IndexFacts.
Import Table.

Lemma index_app_skip (x : string) (l1 l2 : list string) :
  (forall y : string, In y l1 -> x <> y) ->
  index x (l1 ++ l2) = option_map (Nat.add (List.length l1)) (index x l2).
Proof.
  induction l1 as [|y l1 IH]; simpl; intros H.
  - destruct (index x l2); reflexivity.
  - destruct (String.eqb_spec x y) as [->|Hxy]; [exfalso; apply (H y); auto|].
    rewrite IH by (intros z Hz; apply H; auto).
    destruct (index x l2); reflexivity.
Qed.

Lemma index_app_here (x : string) (l1 l2 : list string) (i : nat) :
  index x l1 = Some i -> index x (l1 ++ l2) = Some i.
Proof.
  revert i. induction l1 as [|y l1 IH]; simpl; intros i H; [discriminate|].
  destruct (x =? y); [exact H|].
  destruct (index x l1) as [j|]; [|discriminate].
  rewrite (IH j eq_refl). exact H.
Qed.

Lemma index_map (f : string -> string) (l : list string) (c : string) (k : nat) :
  NoDup l ->
  (forall c' : string, In c' l -> f c' = f c -> c' = c) ->
  nth_error l k = Some c ->
  index (f c) (map f l) = Some k.
Proof.
  revert k. induction l as [|y l IH]; intros k Hnd Hinj Hk.
  - destruct k; discriminate.
  - inversion Hnd as [|? ? Hy Hl]; subst. simpl.
    destruct k as [|k]; simpl in Hk.
    + injection Hk as ->. now rewrite String.eqb_refl.
    + destruct (String.eqb_spec (f c) (f y)) as [E|E].
      * exfalso. apply Hy. rewrite (Hinj y (or_introl eq_refl) (eq_sym E)).
        eapply nth_error_In; eauto.
      * rewrite (IH k Hl); [reflexivity| |exact Hk].
        intros c' Hc'. apply Hinj. now right.
Qed.

Lemma index_lt (x : string) (l : list string) (i : nat) :
  index x l = Some i -> i < List.length l /\ nth_error l i = Some x.
Proof.
  revert i. induction l as [|y l IH]; simpl; intros i H; [discriminate|].
  destruct (String.eqb_spec x y) as [->|Hxy].
  - injection H as <-. split; [lia|reflexivity].
  - destruct (index x l) as [j|]; [|discriminate]. injection H as <-.
    destruct (IH j eq_refl). split; [lia|assumption].
Qed.

Lemma index_None (x : string) (l : list string) : index x l = None -> ~ In x l.
Proof.
  induction l as [|y l IH]; simpl; intros H; [tauto|].
  destruct (String.eqb_spec x y) as [->|Hxy]; [discriminate|].
  destruct (index x l); [discriminate|]. intros [E|Hin]; [congruence|tauto].
Qed.

End IndexFacts.

Section RowFacts.
Import Py Conv Line Inv Tables.
Variable percent : Qc -> string.
Variable INVOICE_CURRENCY : string.
Variable tokeninfo : string -> exn + TokenInfo.
Variable self : Invoice.

Lemma rows_from_widths (ls : list LineItem) :
  forall (i : nat) (tot tax : Symbol -> Qc) (rows : list Row) (e : option exn) (row : Row),
    rows_from percent INVOICE_CURRENCY tokeninfo self i ls tot tax = (rows, e) ->
    In row rows ->
    List.length (row_totals row) = List.length (sorted_currencies self)
    /\ List.length (row_taxtotals row) = List.length (sorted_currencies self).
Proof.
  induction ls as [|line ls IH]; intros i tot tax rows e row H Hin; simpl in H.
  - injection H as <- <-. destruct Hin.
  - destruct (line_row percent INVOICE_CURRENCY tokeninfo self i line tot tax)
      as [e0|[[row0 tot'] tax']] eqn:E.
    + injection H as <- <-. destruct Hin.
    + destruct (line_row_spec percent INVOICE_CURRENCY tokeninfo self
                  i line tot tax row0 tot' tax' E)
        as (sym & a & t & _ & Htot & Htax & _).
      destruct (rows_from percent INVOICE_CURRENCY tokeninfo self (S i) ls tot' tax')
        as [rows' e'] eqn:R.
      injection H as <- <-. destruct Hin as [<-|Hin].
      * rewrite Htot, Htax, !length_map. auto.
      * exact (IH _ _ _ _ _ _ R Hin).
Qed.

Lemma row_tuple_length (row : Row) :
  List.length (row_tuple row)
  = 13 + List.length (row_totals row) + List.length (row_taxtotals row).
Proof.
  unfold row_tuple. rewrite !length_app, !length_map. simpl. lia.
Qed.

Lemma headers_length :
  List.length (headers self) = 13 + 2 * List.length (sorted_currencies self).
Proof.
  unfold headers. rewrite !length_app, !length_map. simpl. now rewrite Nat.add_0_r.
Qed.

End RowFacts.

(** X8 (Invoice.headers and Invoice.__iter__, lines 412-498).  Every row the
    iteration of an invoice yields has exactly one field for each header:
    13 fields of the line, then a running total and a running tax total for
    each currency of the invoice. *)
Theorem rows_match_headers
        (percent : Qc -> string) (INVOICE_CURRENCY : string)
        (tokeninfo : string -> Py.exn + Inv.TokenInfo)
        (self : Inv.Invoice) (row : Inv.Row) :
  In row (fst (Inv.iter percent INVOICE_CURRENCY tokeninfo self)) ->
  List.length (Tables.row_tuple row) = List.length (Tables.headers self)
  /\ List.length (Tables.headers self)
     = 13 + 2 * List.length (Inv.sorted_currencies self).
Proof.
  intros Hin. rewrite row_tuple_length, headers_length. unfold Inv.iter in Hin.
  destruct (Inv.rows_from percent INVOICE_CURRENCY tokeninfo self 0 (Inv.lines self)
              (fun _ => Q2Qc 0) (fun _ => Q2Qc 0)) as [rows e] eqn:E.
  destruct (rows_from_widths percent INVOICE_CURRENCY tokeninfo self _ _ _ _ _ _ row E Hin)
    as [H1 H2].
  rewrite H1, H2. split; lia.
Qed.

Lemma rows_match_headers_witness :
  List.length
    (Tables.row_tuple
       (nth 1 (fst (Inv.iter Examples.percent_plain "USD" Examples.tokens Examples.invoice))
            Samples.no_row))
  = List.length (Tables.headers Examples.invoice)
  /\ List.length (Tables.headers Examples.invoice)
     = 13 + 2 * List.length (Inv.sorted_currencies Examples.invoice).
Proof.
  apply (rows_match_headers Examples.percent_plain "USD" Examples.tokens Examples.invoice).
  apply nth_In. vm_compute. lia.
Defined.

Section Columns.
Import Py Raised Conv Line Inv Tables.
Variable percent : Qc -> string.
Variable INVOICE_CURRENCY : string.
Variable tokeninfo : string -> exn + TokenInfo.
Variable self : Invoice.

Let cs : list Symbol := sorted_currencies self.
Let key (c : string) : string := PyStr.lower (PyStr.rstrip "_" c).

Let fixed : list string :=
  [ "#"; "description"; "units"; "price"; "tax"; "tax %"; "taxes"; "net";
    "amount"; "currency"; "symbol"; "decimals"; "token" ].

Lemma headers_can_eq :
  map can (headers self)
  = fixed ++ map (fun c => "total " ++ key c)%string cs
          ++ map (fun c => "taxes " ++ key c)%string cs.
Proof.
  unfold headers. rewrite !map_app, !map_map. fold cs.
  f_equal. f_equal; apply map_ext; intros c; [apply can_total|apply can_taxes].
Qed.

Lemma cs_NoDup : NoDup cs.
Proof. apply sorted_NoDup, NoDup_nodup. Qed.

Lemma cs_In (c : Symbol) : In c cs -> In c (currencies self).
Proof.
  intros H. apply (proj1 (sorted_In _ _)) in H. now apply nodup_In in H.
Qed.

Lemma nth_error_row (row : Row) (k : nat) :
  nth_error (row_tuple row) (13 + k)
  = nth_error (map Num (row_totals row) ++ map Num (row_taxtotals row)) k.
Proof. reflexivity. Qed.

Hypothesis distinct :
  forall c1 c2 : Symbol,
    In c1 (currencies self) -> In c2 (currencies self) ->
    can ("_Total " ++ c1) = can ("_Total " ++ c2) -> c1 = c2.

Lemma toti_eq (c : Symbol) (k : nat) :
  nth_error cs k = Some c -> toti (map can (headers self)) c = inr (13 + k).
Proof.
  intros Hk. unfold toti, index. rewrite headers_can_eq, can_total.
  rewrite index_app_skip.
  2:{ intros y Hy. unfold fixed in Hy. simpl in Hy.
      repeat (destruct Hy as [<-|Hy]; [discriminate|]). destruct Hy. }
  rewrite (index_app_here _ _ _ k); [reflexivity|].
  apply (index_map (fun c => "total " ++ key c)%string cs c k cs_NoDup); [|exact Hk].
  intros c' Hc' E. apply distinct.
  - now apply cs_In.
  - apply cs_In. eapply nth_error_In; eauto.
  - now rewrite !can_total.
Qed.

Lemma taxi_eq (c : Symbol) (k : nat) :
  nth_error cs k = Some c ->
  taxi (map can (headers self)) c = inr (13 + (List.length cs + k)).
Proof.
  intros Hk. unfold taxi, index. rewrite headers_can_eq, can_taxes.
  rewrite index_app_skip.
  2:{ intros y Hy. unfold fixed in Hy. simpl in Hy.
      repeat (destruct Hy as [<-|Hy]; [discriminate|]). destruct Hy. }
  rewrite index_app_skip.
  2:{ intros y Hy. apply in_map_iff in Hy. destruct Hy as [c' [<- _]]. discriminate. }
  rewrite length_map.
  match goal with
  | |- context [Table.index ?x ?l] => replace (Table.index x l) with (Some k)
  end; [reflexivity|].
  symmetry.
  apply (index_map (fun c => "taxes " ++ key c)%string cs c k cs_NoDup); [|exact Hk].
  intros c' Hc' E. apply distinct.
  - now apply cs_In.
  - apply cs_In. eapply nth_error_In; eauto.
  - rewrite !can_total. simpl in E. injection E as E. f_equal. exact E.
Qed.

Lemma totals_at (c : Symbol) (k : nat) (row : Row) :
  nth_error cs k = Some c ->
  In row (fst (iter percent INVOICE_CURRENCY tokeninfo self)) ->
  exists total taxes : Qc,
    nth_error (row_totals row) k = Some total
    /\ nth_error (row_taxtotals row) k = Some taxes
    /\ bind (toti (map can (headers self)) c) (getitem (row_tuple row)) = inr (Num total)
    /\ bind (taxi (map can (headers self)) c) (getitem (row_tuple row)) = inr (Num taxes).
Proof.
  intros Hk Hin. unfold iter in Hin.
  destruct (rows_from percent INVOICE_CURRENCY tokeninfo self 0 (lines self)
              (fun _ => Q2Qc 0) (fun _ => Q2Qc 0)) as [rows e] eqn:E.
  destruct (rows_from_widths percent INVOICE_CURRENCY tokeninfo self _ _ _ _ _ _ row E Hin)
    as [H1 H2]. fold cs in H1, H2.
  assert (Hlt : k < List.length cs) by (apply nth_error_Some; congruence).
  destruct (nth_error (row_totals row) k) as [total|] eqn:Et;
    [|apply nth_error_None in Et; lia].
  destruct (nth_error (row_taxtotals row) k) as [taxes|] eqn:Ex;
    [|apply nth_error_None in Ex; lia].
  exists total, taxes. split; [reflexivity|]. split; [reflexivity|].
  rewrite (toti_eq c k Hk), (taxi_eq c k Hk). cbn [bind]. unfold getitem.
  rewrite !nth_error_row. split.
  - rewrite nth_error_app1 by (rewrite length_map; lia).
    rewrite nth_error_map, Et. reflexivity.
  - rewrite <- H1, <- (length_map Num (row_totals row)).
    rewrite nth_error_app2 by lia.
    replace (List.length (map Num (row_totals row)) + k
             - List.length (map Num (row_totals row))) with k by lia.
    rewrite nth_error_map, Ex. reflexivity.
Qed.

End Columns.

(** X9 (Invoice.tables, lines 555-625, with Invoice.headers and
    Invoice.__iter__).  The sums of a currency are found under its own
    headers: when no two currencies of the invoice have the same canonical
    "_Total" header (names that differ in more than case and trailing
    underscores), then for the [k]-th currency [c] in sorted order
    [toti( c )] and [taxi( c )] are the positions, in every row of the
    iteration, of the [k]-th running total and the [k]-th running tax
    total. *)
Theorem total_columns
        (percent : Qc -> string) (INVOICE_CURRENCY : string)
        (tokeninfo : string -> Py.exn + Inv.TokenInfo)
        (self : Inv.Invoice) (c : Conv.Symbol) (k : nat) (row : Inv.Row) :
  (forall c1 c2 : Conv.Symbol,
      In c1 (Inv.currencies self) -> In c2 (Inv.currencies self) ->
      Tables.can ("_Total " ++ c1) = Tables.can ("_Total " ++ c2) -> c1 = c2) ->
  nth_error (Inv.sorted_currencies self) k = Some c ->
  In row (fst (Inv.iter percent INVOICE_CURRENCY tokeninfo self)) ->
  exists total taxes : Qc,
    nth_error (Inv.row_totals row) k = Some total
    /\ nth_error (Inv.row_taxtotals row) k = Some taxes
    /\ Raised.bind (Tables.toti (map Tables.can (Tables.headers self)) c)
                   (Raised.getitem (Tables.row_tuple row)) = inr (Tables.Num total)
    /\ Raised.bind (Tables.taxi (map Tables.can (Tables.headers self)) c)
                   (Raised.getitem (Tables.row_tuple row)) = inr (Tables.Num taxes).
Proof.
  intros Hd Hk Hin.
  exact (totals_at percent INVOICE_CURRENCY tokeninfo self Hd c k row Hk Hin).
Qed.

Lemma total_columns_witness :
  exists total taxes : Qc,
    nth_error
      (Inv.row_totals
         (nth 1 (fst (Inv.iter Examples.percent_plain "USD" Examples.tokens Examples.invoice))
              Samples.no_row))
      0 = Some total
    /\ nth_error
         (Inv.row_taxtotals
            (nth 1 (fst (Inv.iter Examples.percent_plain "USD" Examples.tokens
                           Examples.invoice))
                 Samples.no_row))
         0 = Some taxes
    /\ Raised.bind
         (Tables.toti (map Tables.can (Tables.headers Examples.invoice)) "ETH")
         (Raised.getitem
            (Tables.row_tuple
               (nth 1 (fst (Inv.iter Examples.percent_plain "USD" Examples.tokens
                              Examples.invoice))
                    Samples.no_row)))
       = inr (Tables.Num total)
    /\ Raised.bind
         (Tables.taxi (map Tables.can (Tables.headers Examples.invoice)) "ETH")
         (Raised.getitem
            (Tables.row_tuple
               (nth 1 (fst (Inv.iter Examples.percent_plain "USD" Examples.tokens
                              Examples.invoice))
                    Samples.no_row)))
       = inr (Tables.Num taxes).
Proof.
  apply (total_columns Examples.percent_plain "USD" Examples.tokens Examples.invoice
           "ETH" 0).
  - intros c1 c2 [<-|[<-|[]]] [<-|[<-|[]]] E; try reflexivity;
      vm_compute in E; discriminate E.
  - reflexivity.
  - apply nth_In. vm_compute. lia.
Defined.

Section MapM.
Import Raised.
Context {A B : Type}.
Variable f : A -> error + B.

Lemma mapM_inr (l : list A) (ys : list B) :
  mapM f l = inr ys -> Forall2 (fun x y => f x = inr y) l ys.
Proof.
  revert ys. induction l as [|x l IH]; simpl; intros ys H.
  - injection H as <-. constructor.
  - destruct (f x) as [e|y] eqn:E; [discriminate|]. cbn [bind] in H.
    destruct (mapM f l) as [e|ys'] eqn:E'; [discriminate|]. cbn [bind] in H.
    injection H as <-. constructor; auto.
Qed.

Lemma mapM_total (l : list A) :
  (forall x : A, In x l -> exists y : B, f x = inr y) ->
  exists ys : list B, mapM f l = inr ys.
Proof.
  induction l as [|x l IH]; simpl; intros H; [eauto|].
  destruct (H x (or_introl eq_refl)) as [y ->]. cbn [bind].
  destruct IH as [ys ->]; [intros z Hz; apply H; auto|]. cbn [bind]. eauto.
Qed.

Lemma mapM_inl (l : list A) (e : error) (x : A) :
  (forall (z : A) (e' : error), f z = inl e' -> e' = e) ->
  In x l -> (forall y : B, f x <> inr y) ->
  mapM f l = inl e.
Proof.
  intros He. induction l as [|z l IH]; simpl; intros Hin Hx; [destruct Hin|].
  destruct (f z) as [e'|y] eqn:E.
  - now rewrite (He z e' E).
  - cbn [bind]. destruct Hin as [->|Hin]; [exfalso; exact (Hx y E)|].
    rewrite (IH Hin Hx). reflexivity.
Qed.

End MapM.

Section Selection.
Import Py Raised Conv Line Inv Tables.

Lemma indices_from_cons (s : nat) (keep : string -> bool) (h : string) (l : list string) :
  indices_from s keep (h :: l)
  = (if keep h then [s] else []) ++ indices_from (S s) keep l.
Proof.
  unfold indices_from. simpl. destruct (keep h); reflexivity.
Qed.

Lemma indices_from_app (keep : string -> bool) (l1 l2 : list string) :
  forall s : nat,
    indices_from s keep (l1 ++ l2)
    = indices_from s keep l1 ++ indices_from (s + List.length l1) keep l2.
Proof.
  induction l1 as [|h l1 IH]; intros s.
  - simpl. now rewrite Nat.add_0_r.
  - rewrite <- app_comm_cons, !indices_from_cons, IH, <- app_assoc. simpl.
    now rewrite Nat.add_succ_r.
Qed.

Lemma indices_from_none (keep : string -> bool) (l : list string) :
  (forall h : string, In h l -> keep h = false) ->
  forall s : nat, indices_from s keep l = [].
Proof.
  induction l as [|h l IH]; intros H s; [reflexivity|].
  rewrite indices_from_cons, (H h (or_introl eq_refl)), IH; [reflexivity|].
  intros h' Hh'. apply H. now right.
Qed.

Lemma indices_from_range (keep : string -> bool) (l : list string) :
  forall s i : nat, In i (indices_from s keep l) -> s <= i < s + List.length l.
Proof.
  induction l as [|h l IH]; intros s i H; [destruct H|].
  rewrite indices_from_cons in H. apply in_app_or in H. destruct H as [H|H].
  - destruct (keep h); [|destruct H]. destruct H as [<-|[]]. simpl. lia.
  - apply IH in H. simpl. lia.
Qed.

Lemma indices_where_from (keep : string -> bool) (l : list string) :
  indices_where keep l = indices_from 0 keep l.
Proof. reflexivity. Qed.

Lemma select_range (headers : list string) (columns : Columns) (selected : list nat) :
  select headers columns = inr selected ->
  forall i : nat, In i selected -> i < List.length headers.
Proof.
  unfold select. intros H i Hi.
  assert (Hw : forall keep, In i (indices_where keep headers) -> i < List.length headers).
  { intros keep Hin. rewrite indices_where_from in Hin.
    apply indices_from_range in Hin. lia. }
  destruct (chosen columns) eqn:Hc.
  - destruct columns as [|names|names|predicate].
    + discriminate Hc.
    + apply mapM_inr in H.
      assert (Hall : forall names selected,
                 Forall2 (fun c j => index (map can headers) (can c) = inr j) names selected ->
                 In i selected -> i < List.length headers).
      { clear. intros names selected HF. induction HF as [|c j names selected Hj HF IH];
          intros Hin; [destruct Hin|].
        destruct Hin as [->|Hin]; [|auto].
        unfold index in Hj. destruct (Table.index (can c) (map can headers)) as [j|] eqn:E;
          [|discriminate].
        injection Hj as <-. apply index_lt in E. rewrite length_map in E. tauto. }
      exact (Hall _ _ H Hi).
    + destruct (nonempty _); [|discriminate]. injection H as <-. eauto.
    + injection H as <-. eauto.
  - injection H as <-. eauto.
Qed.

Lemma getitem_total {A : Type} (l : list A) (selected : list nat) :
  (forall i : nat, In i selected -> i < List.length l) ->
  exists xs : list A, mapM (getitem l) selected = inr xs.
Proof.
  intros H. apply mapM_total. intros i Hi. unfold getitem.
  destruct (nth_error l i) as [x|] eqn:E; [eauto|].
  apply nth_error_None in E. specialize (H i Hi). lia.
Qed.

End Selection.

Section TablesFacts.
Import Py Raised Conv Line Inv Tables.
Variable percent : Qc -> string.
Variable INVOICE_CURRENCY : string.
Variable INVOICE_ROWS : Z.
Variable tokeninfo : string -> exn + TokenInfo.
Variable supported : string -> exn + Symbol.
Variable CRYPTO_SYMBOLS : Symbol -> option string.
Variable Rendered : Type.
Variable tabulate : list (list Cell) -> list string -> Format -> Rendered.
Variable self : Invoice.
Variable payable : Payable.

Lemma tables_loop_same (headers_can : list string) (selected : list nat)
      (headers_selected : list string) (decimals : Z) (tablefmt : string) (count : nat)
      (pages : list (list Row)) :
  forall (p : nat) (ys : list (Yield Rendered)) (e : option error) (y : Yield Rendered),
    tables_loop supported CRYPTO_SYMBOLS Rendered tabulate self payable headers_can
                selected headers_selected decimals tablefmt None count p pages = (ys, e) ->
    In y ys ->
    exists (cells : list (list Cell)) (final : bool) (q : nat),
      total_rows supported CRYPTO_SYMBOLS self payable headers_can (yield_page y)
      = inr cells
      /\ yield_subtotal y
         = tabulate cells (sum_headers "Subtotal" final q count)
                    (mkFormat "," General tablefmt)
      /\ yield_total y
         = tabulate cells (sum_headers "Total" final q count)
                    (mkFormat "," General tablefmt).
Proof.
  induction pages as [|page pages IH]; intros p ys e y H Hin; simpl in H.
  - injection H as <- <-. destruct Hin.
  - destruct (page_tables supported CRYPTO_SYMBOLS Rendered tabulate self payable
                headers_can selected headers_selected decimals tablefmt None count p page)
      as [e0|y0] eqn:E.
    + injection H as <- <-. destruct Hin.
    + destruct (tables_loop supported CRYPTO_SYMBOLS Rendered tabulate self payable
                  headers_can selected headers_selected decimals tablefmt None count
                  (S p) pages) as [ys' e'] eqn:R.
      injection H as <- <-. destruct Hin as [<-|Hin]; [|exact (IH _ _ _ _ R Hin)].
      unfold page_tables in E.
      destruct (mapM (fun line => mapM (getitem (row_tuple line)) selected) page)
        as [e1|lines]; [discriminate|]. cbn [bind] in E.
      change (subtotal_rows supported CRYPTO_SYMBOLS self payable headers_can page None)
        with (total_rows supported CRYPTO_SYMBOLS self payable headers_can page) in E.
      destruct (total_rows supported CRYPTO_SYMBOLS self payable headers_can page)
        as [e2|cells] eqn:T; [discriminate|]. cbn [bind] in E.
      injection E as <-. cbn [yield_page yield_subtotal yield_total].
      exists cells, (p + 1 =? count)%nat, p. auto.
Qed.

Lemma decimals_index :
  index (map can (headers self)) (can "_Decimals") = inr 11.
Proof.
  unfold index. rewrite headers_can_eq.
  rewrite (index_app_here _ _ _ 11); reflexivity.
Qed.

Lemma tables_nothing (page : PageFilter) (rows : option Z) (tablefmt : option string)
      (columns : Columns) :
  all_pages percent INVOICE_CURRENCY INVOICE_ROWS tokeninfo self page rows = inr [] ->
  tables percent INVOICE_CURRENCY INVOICE_ROWS tokeninfo supported CRYPTO_SYMBOLS
         Rendered tabulate self payable page rows tablefmt columns
  = ([], Some (match select (headers self) columns with
               | inl e => e
               | inr _ => Exn ValueError
               end)).
Proof.
  intros Hp. unfold tables.
  destruct (select (headers self) columns) as [e|selected] eqn:S; [reflexivity|].
  cbn [bind].
  destruct (getitem_total (headers self) selected (select_range _ _ _ S)) as [hs ->].
  cbn [bind]. rewrite Hp. cbn [bind]. rewrite decimals_index. reflexivity.
Qed.

End TablesFacts.

(** X10 (Invoice.tables, lines 584-662).  The sub-totals of a page are the
    totals up to it: [page_prev] is set to [None] before the loop and by no
    round of it, so that on every page, the first or a later one, the rows
    of the table of sub-totals are the rows of the table of totals (the
    running sums of the last row of the page, rounded), under the same
    formats; the two tables differ in their last header alone. *)
Theorem subtotals_are_totals
        (percent : Qc -> string) (INVOICE_CURRENCY : string) (INVOICE_ROWS : Z)
        (tokeninfo : string -> Py.exn + Inv.TokenInfo)
        (supported : string -> Py.exn + Conv.Symbol)
        (CRYPTO_SYMBOLS : Conv.Symbol -> option string)
        (Rendered : Type)
        (tabulate : list (list Tables.Cell) -> list string -> Tables.Format -> Rendered)
        (self : Inv.Invoice) (payable : Tables.Payable) (page : Inv.PageFilter)
        (rows : option Z) (tablefmt : option string) (columns : Tables.Columns)
        (y : Tables.Yield Rendered) :
  In y (fst (Tables.tables percent INVOICE_CURRENCY INVOICE_ROWS tokeninfo supported
                           CRYPTO_SYMBOLS Rendered tabulate self payable page rows
                           tablefmt columns)) ->
  exists (cells : list (list Tables.Cell)) (final : bool) (p count : nat)
         (format : Tables.Format),
    Tables.total_rows supported CRYPTO_SYMBOLS self payable
                      (map Tables.can (Tables.headers self)) (Tables.yield_page y)
    = inr cells
    /\ Tables.yield_subtotal y
       = tabulate cells (Tables.sum_headers "Subtotal" final p count) format
    /\ Tables.yield_total y
       = tabulate cells (Tables.sum_headers "Total" final p count) format.
Proof.
  unfold Tables.tables. intros Hin.
  match type of Hin with
  | In _ (fst (match ?prep with _ => _ end)) => destruct prep as [e|[[[sel hs] pages] d]]
  end; [destruct Hin|].
  match type of Hin with
  | In _ (fst ?loop) => destruct loop as [ys e] eqn:L
  end.
  destruct (tables_loop_same supported CRYPTO_SYMBOLS Rendered tabulate self payable
              _ _ _ _ _ _ _ _ _ _ y L Hin) as (cells & final & q & H1 & H2 & H3).
  exists cells, final, q. eauto.
Qed.

Lemma subtotals_are_totals_witness :
  exists (cells : list (list Tables.Cell)) (final : bool) (p count : nat)
         (format : Tables.Format),
    Tables.total_rows Samples.supported Samples.CRYPTO_SYMBOLS Examples.invoice
      Samples.payable (map Tables.can (Tables.headers Examples.invoice))
      (Tables.yield_page
         (nth 1 (fst (Tables.tables Examples.percent_plain "USD" 1 Examples.tokens
                        Samples.supported Samples.CRYPTO_SYMBOLS _ Samples.kept
                        Examples.invoice Samples.payable Inv.AllPages None None
                        Tables.NoColumns))
              (Tables.mkYield [] ([], [], Tables.mkFormat "" Tables.General "")
                              ([], [], Tables.mkFormat "" Tables.General "")
                              ([], [], Tables.mkFormat "" Tables.General ""))))
    = inr cells
    /\ Tables.yield_subtotal
         (nth 1 (fst (Tables.tables Examples.percent_plain "USD" 1 Examples.tokens
                        Samples.supported Samples.CRYPTO_SYMBOLS _ Samples.kept
                        Examples.invoice Samples.payable Inv.AllPages None None
                        Tables.NoColumns))
              (Tables.mkYield [] ([], [], Tables.mkFormat "" Tables.General "")
                              ([], [], Tables.mkFormat "" Tables.General "")
                              ([], [], Tables.mkFormat "" Tables.General "")))
       = Samples.kept cells (Tables.sum_headers "Subtotal" final p count) format
    /\ Tables.yield_total
         (nth 1 (fst (Tables.tables Examples.percent_plain "USD" 1 Examples.tokens
                        Samples.supported Samples.CRYPTO_SYMBOLS _ Samples.kept
                        Examples.invoice Samples.payable Inv.AllPages None None
                        Tables.NoColumns))
              (Tables.mkYield [] ([], [], Tables.mkFormat "" Tables.General "")
                              ([], [], Tables.mkFormat "" Tables.General "")
                              ([], [], Tables.mkFormat "" Tables.General "")))
       = Samples.kept cells (Tables.sum_headers "Total" final p count) format.
Proof.
  apply (subtotals_are_totals Examples.percent_plain "USD" 1 Examples.tokens
           Samples.supported Samples.CRYPTO_SYMBOLS _ Samples.kept
           Examples.invoice Samples.payable Inv.AllPages None None Tables.NoColumns).
  apply nth_In. vm_compute. lia.
Defined.

(** X11 (Invoice.tables, lines 575-581).  With no page to tabulate, an
    invoice without lines or a [page] that selects none, [tables] yields
    nothing and raises: the [ValueError] of [max] over no line, unless the
    choice of columns has raised before it. *)
Theorem tables_of_no_page
        (percent : Qc -> string) (INVOICE_CURRENCY : string) (INVOICE_ROWS : Z)
        (tokeninfo : string -> Py.exn + Inv.TokenInfo)
        (supported : string -> Py.exn + Conv.Symbol)
        (CRYPTO_SYMBOLS : Conv.Symbol -> option string)
        (Rendered : Type)
        (tabulate : list (list Tables.Cell) -> list string -> Tables.Format -> Rendered)
        (self : Inv.Invoice) (payable : Tables.Payable) (page : Inv.PageFilter)
        (rows : option Z) (tablefmt : option string) (columns : Tables.Columns) :
  Tables.all_pages percent INVOICE_CURRENCY INVOICE_ROWS tokeninfo self page rows
  = inr [] ->
  Tables.tables percent INVOICE_CURRENCY INVOICE_ROWS tokeninfo supported CRYPTO_SYMBOLS
                Rendered tabulate self payable page rows tablefmt columns
  = ([], Some (match Tables.select (Tables.headers self) columns with
               | inl e => e
               | inr _ => Raised.Exn Py.ValueError
               end)).
Proof. apply tables_nothing. Qed.

Lemma tables_of_no_page_witness :
  Tables.tables Examples.percent_plain "USD" 1 Examples.tokens Samples.supported
                Samples.CRYPTO_SYMBOLS _ Samples.kept Examples.invoice Samples.payable
                (Inv.PageIs 2) None None Tables.NoColumns
  = ([], Some (Raised.Exn Py.ValueError)).
Proof.
  exact (tables_of_no_page Examples.percent_plain "USD" 1 Examples.tokens
           Samples.supported Samples.CRYPTO_SYMBOLS _ Samples.kept Examples.invoice
           Samples.payable (Inv.PageIs 2) None None Tables.NoColumns eq_refl).
Defined.

Section Listed.
Import Py Raised Conv Line Inv Tables.

Lemma listed_found (headers : list string) (names : list string) (selected : list nat) :
  Forall2 (fun c i => index (map can headers) (can c) = inr i) names selected ->
  exists hs : list string,
    mapM (getitem headers) selected = inr hs /\ map can hs = map can names.
Proof.
  induction 1 as [|c i names selected Hi HF IH].
  - exists []. split; reflexivity.
  - destruct IH as [hs [Hhs Hcan]].
    unfold index in Hi.
    destruct (Table.index (can c) (map can headers)) as [j|] eqn:E; [|discriminate].
    injection Hi as <-. apply index_lt in E. destruct E as [_ E].
    rewrite nth_error_map in E.
    destruct (nth_error headers j) as [h|] eqn:Eh; [|discriminate].
    simpl in E. injection E as E.
    exists (h :: hs). simpl. unfold getitem at 1. rewrite Eh. cbn [bind].
    rewrite Hhs. cbn [bind]. split; [reflexivity|]. simpl. now rewrite E, Hcan.
Qed.

Lemma indices_default (currencies : list string) :
  indices_where (fun h => negb (PyStr.startswith h "_"))
    ([ "_#"; "Description"; "Units"; "Price"; "_Tax"; "Tax %"; "Taxes"; "Net";
       "Amount"; "Currency"; "_Symbol"; "_Decimals"; "_Token" ]
     ++ map (fun currency => "_Total " ++ currency)%string currencies
     ++ map (fun currency => "_Taxes " ++ currency)%string currencies)
  = [1; 2; 3; 5; 6; 7; 8; 9].
Proof.
  rewrite indices_where_from, !indices_from_app.
  rewrite (indices_from_none _ (map _ currencies)).
  2:{ intros h Hh. apply in_map_iff in Hh. destruct Hh as [c [<- _]]. reflexivity. }
  rewrite (indices_from_none _ (map _ currencies)).
  2:{ intros h Hh. apply in_map_iff in Hh. destruct Hh as [c [<- _]]. reflexivity. }
  reflexivity.
Qed.

End Listed.

(** X12 (Invoice.tables, lines 551-572).  Columns asked for by a list of
    names are matched without regard to case and to underscores at either
    end, and come in the order asked for: when every name has a header of
    the same canonical form the selected headers are, name by name, equal to
    the names in canonical form; when one name has none, the call raises
    [ValueError]. *)
Theorem listed_columns (headers names : list string) :
  names <> [] ->
  (Forall (fun c => In (Tables.can c) (map Tables.can headers)) names ->
   exists (selected : list nat) (headers_selected : list string),
     Tables.select headers (Tables.Listed names) = inr selected
     /\ Raised.mapM (Raised.getitem headers) selected = inr headers_selected
     /\ map Tables.can headers_selected = map Tables.can names)
  /\ (~ Forall (fun c => In (Tables.can c) (map Tables.can headers)) names ->
      Tables.select headers (Tables.Listed names) = inl (Raised.Exn Py.ValueError)).
Proof.
  intros Hne.
  assert (Hc : Tables.chosen (Tables.Listed names) = true)
    by (destruct names; [congruence|reflexivity]).
  unfold Tables.select. rewrite Hc. split.
  - intros Hall.
    destruct (mapM_total (fun c => Tables.index (map Tables.can headers) (Tables.can c))
                names) as [selected Hs].
    { intros c Hin. rewrite Forall_forall in Hall. specialize (Hall c Hin).
      destruct (index_In _ _ Hall) as [i [Hi _]]. exists i.
      unfold Tables.index. now rewrite Hi. }
    destruct (listed_found headers names selected (mapM_inr _ _ _ Hs)) as [hs [H1 H2]].
    exists selected, hs. auto.
  - intros Hnot. apply Exists_Forall_neg in Hnot.
    2:{ intros c. destruct (in_dec string_dec (Tables.can c) (map Tables.can headers));
          [now left|now right]. }
    apply Exists_exists in Hnot. destruct Hnot as [c [Hin Hc']].
    apply (mapM_inl _ names _ c); [|exact Hin|].
    + intros z e' Hz. unfold Tables.index in Hz.
      destruct (Table.index (Tables.can z) (map Tables.can headers)); [discriminate|].
      now injection Hz as <-.
    + intros i Hi. unfold Tables.index in Hi.
      destruct (Table.index (Tables.can c) (map Tables.can headers)) as [j|] eqn:E;
        [|discriminate].
      apply index_lt in E. destruct E as [_ E]. apply nth_error_In in E. tauto.
Qed.

Lemma listed_columns_witness :
  (Forall (fun c => In (Tables.can c)
                       (map Tables.can (Tables.headers Examples.invoice)))
          [ "TOTAL usd"; "description_" ] ->
   exists (selected : list nat) (headers_selected : list string),
     Tables.select (Tables.headers Examples.invoice)
                   (Tables.Listed [ "TOTAL usd"; "description_" ]) = inr selected
     /\ Raised.mapM (Raised.getitem (Tables.headers Examples.invoice)) selected
        = inr headers_selected
     /\ map Tables.can headers_selected = map Tables.can [ "TOTAL usd"; "description_" ])
  /\ (~ Forall (fun c => In (Tables.can c)
                          (map Tables.can (Tables.headers Examples.invoice)))
               [ "TOTAL usd"; "description_" ] ->
      Tables.select (Tables.headers Examples.invoice)
                    (Tables.Listed [ "TOTAL usd"; "description_" ])
      = inl (Raised.Exn Py.ValueError)).
Proof.
  apply (listed_columns (Tables.headers Examples.invoice) [ "TOTAL usd"; "description_" ]).
  discriminate.
Defined.

(** X13 (Invoice.tables, line 571, with Invoice.headers).  Without a choice
    of columns the table of the lines shows the eight headers that do not
    start with an underscore, whatever the currencies of the invoice: no
    running total and none of the fields kept for the sums is among them. *)
Theorem default_columns (self : Inv.Invoice) :
  Tables.select (Tables.headers self) Tables.NoColumns = inr [1; 2; 3; 5; 6; 7; 8; 9]
  /\ Raised.mapM (Raised.getitem (Tables.headers self)) [1; 2; 3; 5; 6; 7; 8; 9]
     = inr [ "Description"; "Units"; "Price"; "Tax %"; "Taxes"; "Net"; "Amount";
             "Currency" ].
Proof.
  split; [|reflexivity].
  unfold Tables.select. cbn [Tables.chosen]. unfold Tables.headers.
  now rewrite indices_default.
Qed.

(** ** The constructor of an invoice *)

Section Wanting.
Import Py Conv Deduction Init.

Lemma setdefault_keeps (k k' : Pair) (d : Conversions) (v : Ratio) :
  lookup k' d = Some v -> lookup k' (setdefault k d) = Some v.
Proof.
  intros H. unfold setdefault. destruct (lookup k d) eqn:E; [exact H|].
  rewrite lookup_set_other; [exact H|]. intros ->. congruence.
Qed.

Lemma setdefault_present (k : Pair) (d : Conversions) :
  lookup k (setdefault k d) <> None.
Proof.
  unfold setdefault. destruct (lookup k d) eqn:E; [congruence|].
  rewrite lookup_set_same. discriminate.
Qed.

Lemma setdefault_ok (k : Pair) (d : Conversions) : Dict.ok d -> Dict.ok (setdefault k d).
Proof.
  intros H. unfold setdefault. destruct (lookup k d); [exact H|now apply ok_set].
Qed.

Lemma setdefault_new (k k' : Pair) (d : Conversions) :
  lookup k' d = None -> lookup k' (setdefault k d) <> None -> k' = k.
Proof.
  intros H H'. unfold setdefault in H'. destruct (lookup k d); [congruence|].
  destruct (pair_eq_dec k' k) as [E|E]; [exact E|].
  rewrite lookup_set_other in H' by exact E. congruence.
Qed.

Lemma setdefault_unknown (k k' : Pair) (d : Conversions) :
  lookup k' d = None -> lookup k' (setdefault k d) <> None ->
  lookup k' (setdefault k d) = Some None.
Proof.
  intros H H'. pose proof (setdefault_new k k' d H H') as ->.
  unfold setdefault. rewrite H. apply lookup_set_same.
Qed.

Lemma want_row_keeps (ls : Symbol) (cs : list Symbol) :
  forall (d : Conversions) (k : Pair) (v : Ratio),
    lookup k d = Some v -> lookup k (want_row ls cs d) = Some v.
Proof.
  induction cs as [|c cs IH]; intros d k v H; simpl; [exact H|].
  apply IH. destruct (ls =? c); [exact H|now apply setdefault_keeps].
Qed.

Lemma want_row_ok (ls : Symbol) (cs : list Symbol) :
  forall d : Conversions, Dict.ok d -> Dict.ok (want_row ls cs d).
Proof.
  induction cs as [|c cs IH]; intros d H; simpl; [exact H|].
  apply IH. destruct (ls =? c); [exact H|now apply setdefault_ok].
Qed.

Lemma want_row_present (ls : Symbol) (cs : list Symbol) (c : Symbol) :
  forall d : Conversions,
    In c cs -> ls <> c -> lookup (ls, c) (want_row ls cs d) <> None.
Proof.
  induction cs as [|c0 cs IH]; intros d Hin Hne; simpl; [destruct Hin|].
  destruct Hin as [->|Hin]; [|now apply IH].
  destruct (String.eqb_spec ls c) as [E|_]; [congruence|].
  pose proof (setdefault_present (ls, c) d) as Hp.
  destruct (lookup (ls, c) (setdefault (ls, c) d)) as [v|] eqn:E; [|congruence].
  rewrite (want_row_keeps ls cs _ _ v E). discriminate.
Qed.

Lemma want_row_new (ls : Symbol) (cs : list Symbol) (k : Pair) :
  forall d : Conversions,
    lookup k d = None -> lookup k (want_row ls cs d) <> None ->
    lookup k (want_row ls cs d) = Some None
    /\ fst k = ls /\ In (snd k) cs /\ fst k <> snd k.
Proof.
  induction cs as [|c cs IH]; intros d H H'; simpl in *; [congruence|].
  destruct (String.eqb_spec ls c) as [E|E].
  - destruct (IH d H H') as (H1 & H2 & H3 & H4). auto.
  - destruct (lookup k (setdefault (ls, c) d)) as [v|] eqn:Ek.
    + assert (Hk : k = (ls, c)).
      { apply (setdefault_new (ls, c) k d H). congruence. }
      assert (Hv : lookup k (setdefault (ls, c) d) = Some None).
      { apply setdefault_unknown; [exact H|congruence]. }
      rewrite (want_row_keeps ls cs _ _ _ Hv). subst k. simpl. auto.
    + destruct (IH _ Ek H') as (H1 & H2 & H3 & H4). auto.
Qed.

Lemma want_keeps (lss cs : list Symbol) :
  forall (d : Conversions) (k : Pair) (v : Ratio),
    lookup k d = Some v -> lookup k (want lss cs d) = Some v.
Proof.
  induction lss as [|ls lss IH]; intros d k v H; simpl; [exact H|].
  apply IH. now apply want_row_keeps.
Qed.

Lemma want_ok (lss cs : list Symbol) :
  forall d : Conversions, Dict.ok d -> Dict.ok (want lss cs d).
Proof.
  induction lss as [|ls lss IH]; intros d H; simpl; [exact H|].
  apply IH. now apply want_row_ok.
Qed.

Lemma want_present (lss cs : list Symbol) (ls c : Symbol) :
  forall d : Conversions,
    In ls lss -> In c cs -> ls <> c -> lookup (ls, c) (want lss cs d) <> None.
Proof.
  induction lss as [|ls0 lss IH]; intros d Hls Hc Hne; simpl; [destruct Hls|].
  destruct Hls as [->|Hls]; [|now apply IH].
  pose proof (want_row_present ls cs c d Hc Hne) as Hp.
  destruct (lookup (ls, c) (want_row ls cs d)) as [v|] eqn:E; [|congruence].
  rewrite (want_keeps lss cs _ _ v E). discriminate.
Qed.

Lemma want_new (lss cs : list Symbol) (k : Pair) :
  forall d : Conversions,
    lookup k d = None -> lookup k (want lss cs d) <> None ->
    lookup k (want lss cs d) = Some None
    /\ In (fst k) lss /\ In (snd k) cs /\ fst k <> snd k.
Proof.
  induction lss as [|ls lss IH]; intros d H H'; simpl in *; [congruence|].
  destruct (lookup k (want_row ls cs d)) as [v|] eqn:Ek.
  - destruct (want_row_new ls cs k d H) as (H1 & H2 & H3 & H4); [congruence|].
    rewrite (want_keeps lss cs _ _ _ H1). auto.
  - destruct (IH _ Ek H') as (H1 & H2 & H3 & H4). auto.
Qed.

End Wanting.

(** X14 (Invoice.__init__, lines 345-359).  What the constructor asks of the
    conversions: after the loops over the line symbols and the currencies,
    every entry the caller supplied is as it was, every pair of a line
    symbol and a different currency is a key, and a key that was added is
    such a pair and is mapped to [None]; no pair of a symbol with itself is
    ever added. *)
Theorem wanted_conversions
        (line_symbols currencies : list Conv.Symbol) (d : Conv.Conversions) :
  (forall (k : Conv.Pair) (v : Conv.Ratio),
      Conv.lookup k d = Some v ->
      Conv.lookup k (Init.want line_symbols currencies d) = Some v)
  /\ (forall ls c : Conv.Symbol,
         In ls line_symbols -> In c currencies -> ls <> c ->
         Conv.lookup (ls, c) (Init.want line_symbols currencies d) <> None)
  /\ (forall k : Conv.Pair,
         Conv.lookup k d = None ->
         Conv.lookup k (Init.want line_symbols currencies d) <> None ->
         Conv.lookup k (Init.want line_symbols currencies d) = Some None
         /\ In (fst k) line_symbols /\ In (snd k) currencies /\ fst k <> snd k).
Proof.
  split; [|split].
  - intros k v. apply want_keeps.
  - intros ls c. apply want_present.
  - intros k. apply want_new.
Qed.

Section Fetching.
Import Py Raised Conv Deduction Line Inv Tables Init.

Lemma message_not_empty (d : Conversions) (verify : bool) (msg : string) :
  result (conversions_remaining d verify) = Return (Conv.Str msg) -> msg <> "".
Proof.
  unfold conversions_remaining.
  destruct (single_hop d (start d)) as [[u|e] s]; [|simpl; discriminate].
  destruct (updated s); [simpl; discriminate|].
  destruct (two_hop s) as [[[b|e] s']|]; [simpl; discriminate|simpl; discriminate|].
  destruct (remains (conv s) =? ""); [simpl; discriminate|].
  destruct verify; simpl; [discriminate|].
  intros [= <-]. unfold failure_message. simpl. discriminate.
Qed.

Lemma settle_spec (fuel : nat) (d d' : Conversions) (v : Value) :
  Dict.ok d -> settle fuel d = Some (inr (v, d')) ->
  steps d d' /\ Dict.ok d' /\ (truth v = false -> no_unknown d').
Proof.
  intros Hok H. unfold settle in H.
  destruct (resolve fuel false d) as [o|] eqn:R; [|discriminate].
  destruct (resolve_ends fuel false d o Hok R) as (Hs & Hok' & Hsat & Ho).
  destruct (result o) as [v0|e] eqn:Er; [|discriminate].
  injection H as <- <-. split; [exact Hs|]. split; [exact Hok'|].
  intros Ht. rewrite Ho in Er.
  destruct v0 as [[|]|msg]; simpl in Ht.
  - discriminate.
  - exact (proj2 (false_result _ _ Hok' Er)).
  - apply message_not_empty in Er. apply negb_false_iff, String.eqb_eq in Ht. congruence.
Qed.

Section Prices.
Variable tokenprices : string -> option (TokenInfo * TokenInfo * Qc).

Lemma price_one_spec (cs : list Symbol) (d d' : Conversions) :
  price_one tokenprices cs d = Some d' ->
  Dict.ok d ->
  Dict.ok d' /\ forall k : Pair, lookup k d <> None -> lookup k d' <> None.
Proof.
  induction cs as [|c cs IH]; simpl; intros H Hok; [discriminate|].
  destruct (tokenprices c) as [[[one two] ratio]|]; [|auto].
  destruct (is_None (get (c, symbol two) d)
            || is_None (get (symbol one, symbol two) d)); [|auto].
  injection H as <-. destruct (c =? symbol one).
  - split; [now apply ok_set|]. intros k Hk. now apply set_keeps_present.
  - split; [now apply ok_set, ok_set|].
    intros k Hk. now apply set_keeps_present, set_keeps_present.
Qed.

Lemma price_one_none (cs : list Symbol) (d : Conversions) :
  (forall c : Symbol, In c cs -> tokenprices c = None) ->
  price_one tokenprices cs d = None.
Proof.
  induction cs as [|c cs IH]; simpl; intros H; [reflexivity|].
  rewrite (H c (or_introl eq_refl)). apply IH. intros c' Hc'. apply H. now right.
Qed.

Lemma fetch_spec (fuel : nat) :
  forall (v : Value) (d d' : Conversions),
    Dict.ok d -> (truth v = false -> no_unknown d) ->
    fetch tokenprices fuel v d = Some (inr d') ->
    Dict.ok d' /\ no_unknown d'
    /\ forall k : Pair, lookup k d <> None -> lookup k d' <> None.
Proof.
  induction fuel as [|fuel IH]; intros v d d' Hok Hv H; simpl in H; [discriminate|].
  destruct (truth v) eqn:Ev.
  - destruct (price_one tokenprices (candidates d) d) as [d1|] eqn:P; [|discriminate].
    destruct (price_one_spec _ _ _ P Hok) as [Hok1 Hp1].
    destruct (settle fuel d1) as [[e|[v2 d2]]|] eqn:S; [discriminate| |discriminate].
    destruct (settle_spec fuel d1 d2 v2 Hok1 S) as (Hs & Hok2 & Hv2).
    destruct (IH v2 d2 d' Hok2 Hv2 H) as (Hok' & Hno & Hp).
    split; [exact Hok'|]. split; [exact Hno|].
    intros k Hk. apply Hp. eapply steps_keep_present; [exact Hs|]. now apply Hp1.
  - injection H as <-. auto.
Qed.

End Prices.

Lemma present_known (d : Conversions) (k : Pair) :
  no_unknown d -> lookup k d <> None -> exists r : Qc, lookup k d = Some (Some r).
Proof.
  intros Hno Hk. destruct (lookup k d) as [[r|]|] eqn:E; [eauto| |congruence].
  exfalso. exact (Hno k E).
Qed.

Section Iterating.
Variable percent : Qc -> string.
Variable INVOICE_CURRENCY : string.
Variable tokeninfo : string -> exn + TokenInfo.
Variable self : Invoice.

Lemma add_line_returns (ls : Symbol) (amount taxes : Qc) (cs : list Symbol) :
  (forall c : Symbol, In c cs -> ls <> c ->
                      exists r : Qc, lookup (ls, c) (conversions self) = Some (Some r)) ->
  forall tot tax : Symbol -> Qc,
  exists sums : (Symbol -> Qc) * (Symbol -> Qc),
    add_line self ls amount taxes cs tot tax = inr sums.
Proof.
  induction cs as [|c cs IH]; intros H tot tax; simpl; [eauto|].
  assert (Hrest : forall c' : Symbol, In c' cs -> ls <> c' ->
                    exists r : Qc, lookup (ls, c') (conversions self) = Some (Some r))
    by (intros c' Hc'; apply H; now right).
  destruct (String.eqb_spec ls c) as [E|E]; [now apply IH|].
  destruct (H c (or_introl eq_refl) E) as [r ->]. now apply IH.
Qed.

Lemma rows_from_returns (ls : list LineItem) :
  (forall line : LineItem,
      In line ls ->
      exists token : TokenInfo,
        tokeninfo (currency_of INVOICE_CURRENCY line) = inr token
        /\ forall c : Symbol,
            In c (currencies self) -> symbol token <> c ->
            exists r : Qc, lookup (symbol token, c) (conversions self) = Some (Some r)) ->
  forall (i : nat) (tot tax : Symbol -> Qc),
  exists rows : list Row,
    rows_from percent INVOICE_CURRENCY tokeninfo self i ls tot tax = (rows, None)
    /\ List.length rows = List.length ls.
Proof.
  induction ls as [|line ls IH]; intros H i tot tax; simpl.
  - exists []. auto.
  - destruct (H line (or_introl eq_refl)) as [token [Ht Hc]].
    assert (Hrow : exists out, line_row percent INVOICE_CURRENCY tokeninfo self i line tot tax
                               = inr out).
    { unfold line_row. destruct (net percent line) as [[a t] inf]. rewrite Ht.
      match goal with
      | |- context [add_line self ?s ?x ?y ?l tot tax] =>
          destruct (add_line_returns s x y l) with (tot := tot) (tax := tax)
            as [[tot' tax'] ->]
      end; [|eauto].
      intros c Hin. apply Hc. now apply nodup_In in Hin. }
    destruct Hrow as [[[row tot'] tax'] ->].
    destruct (IH (fun l Hl => H l (or_intror Hl)) (S i) tot' tax') as [rows [-> Hlen]].
    exists (row :: rows). simpl. auto.
Qed.

End Iterating.

Lemma Forall2_pick {A B : Type} (R : A -> B -> Prop) (l : list A) (ys : list B) (x : A) :
  Forall2 R l ys -> In x l -> exists y : B, In y ys /\ R x y.
Proof.
  induction 1 as [|a b l ys Hab HF IH]; intros Hin; [destruct Hin|].
  destruct Hin as [->|Hin]; [exists b; simpl; auto|].
  destruct (IH Hin) as [y [Hy HR]]. exists y. simpl. auto.
Qed.

End Fetching.

(** X15 (Invoice.__init__ with Invoice.__iter__, lines 272-410 and
    437-498).  An invoice that the constructor returns can be iterated: when
    [tokeninfo] knows the currency of every line under the symbol the
    constructor filed it under, the conversions of the invoice hold no
    [None], the ratio of every line symbol to every other currency of the
    invoice is known, and the iteration yields a row for each line and
    raises nothing. *)
Theorem built_invoice_iterates
        (percent : Qc -> string) (INVOICE_CURRENCY : string)
        (tokeninfo tokeninfo_default : string -> Py.exn + Inv.TokenInfo)
        (tokenprices : string -> option (Inv.TokenInfo * Inv.TokenInfo * Qc))
        (supported : string -> Py.exn + Conv.Symbol)
        (CRYPTO_SYMBOLS : Conv.Symbol -> option string)
        (listing : list string -> list string)
        (fuel : nat) (lines : list Line.LineItem) (accounts : list Tables.Account)
        (currencies : Init.Wanted) (conversions : option Conv.Conversions)
        (built : Init.Built) :
  (forall (l : list string) (x : string), In x (listing l) <-> In x l) ->
  (forall d : Conv.Conversions, conversions = Some d -> Dict.ok d) ->
  (forall line : Line.LineItem,
      In line lines ->
      exists token : Inv.TokenInfo,
        tokeninfo (Inv.currency_of INVOICE_CURRENCY line) = inr token
        /\ Tables.cryptocurrency_symbol tokeninfo_default supported
             (Inv.currency_of INVOICE_CURRENCY line) = inr (Inv.symbol token)) ->
  Init.init INVOICE_CURRENCY tokeninfo tokeninfo_default tokenprices supported
            CRYPTO_SYMBOLS listing fuel lines accounts currencies conversions
  = Some (inr built) ->
  Inv.lines (Init.invoice built) = lines
  /\ Deduction.no_unknown (Inv.conversions (Init.invoice built))
  /\ exists rows : list Inv.Row,
      Inv.iter percent INVOICE_CURRENCY tokeninfo (Init.invoice built) = (rows, None)
      /\ List.length rows = List.length lines.
Proof.
  intros Hset Hok0 Hlines H. unfold Init.init in H. cbv zeta in H.
  match type of H with
  | context [Raised.mapM ?f ?l] => destruct (Raised.mapM f l) as [e|symbols]
  end; [discriminate|]. cbn [Raised.bind] in H.
  match type of H with
  | context [Init.add_accounts ?a ?l] => destruct (Init.add_accounts a l) as [e|ca0]
  end; [discriminate|]. cbn [Raised.bind] in H.
  match type of H with
  | context [Init.add_proxies ?t ?l ?a ?p] =>
      destruct (Init.add_proxies t l a p) as [ca cp]
  end.
  destruct (Raised.mapM
              (fun lc => Raised.lift
                           (Tables.cryptocurrency_symbol tokeninfo_default supported lc))
              (listing (map (Inv.currency_of INVOICE_CURRENCY) lines)))
    as [e|line_symbols] eqn:Es; [discriminate|]. cbn [Raised.bind] in H.
  match type of H with
  | context [Init.add_names ?a1 ?a2 ?a3 ?a4 ?a5 ?a6] =>
      destruct (Init.add_names a1 a2 a3 a4 a5 a6) as [e|cp']
  end; [discriminate|]. cbn [Raised.bind] in H.
  set (cs := listing (Dict.keys ca)) in *.
  set (d0 := match conversions with
             | Some supplied => supplied
             | None => []
             end) in *.
  assert (Hd0 : Dict.ok d0).
  { unfold d0. destruct conversions as [d|]; [now apply Hok0|constructor]. }
  set (line_currencies := listing (map (Inv.currency_of INVOICE_CURRENCY) lines)) in *.
  set (d1 := Init.want (listing line_symbols) cs d0) in *.
  assert (Hd1 : Dict.ok d1) by now apply want_ok.
  destruct (Init.settle fuel d1) as [[e|[v d2]]|] eqn:S; [discriminate| |discriminate].
  destruct (settle_spec fuel d1 d2 v Hd1 S) as (Hs & Hd2 & Hv).
  destruct (Init.fetch tokenprices fuel v d2) as [[e|d3]|] eqn:F;
    [discriminate| |discriminate].
  destruct (fetch_spec tokenprices fuel v d2 d3 Hd2 Hv F) as (Hd3 & Hno & Hp).
  injection H as <-. cbn [Init.invoice Inv.lines Inv.conversions].
  split; [reflexivity|]. split; [exact Hno|].
  apply rows_from_returns. cbn [Inv.currencies Inv.conversions].
  intros line Hline. destruct (Hlines line Hline) as [token [Ht Hsym]].
  exists token. split; [exact Ht|]. intros c Hc Hne.
  apply present_known; [exact Hno|]. apply Hp.
  eapply steps_keep_present; [exact Hs|]. unfold d1.
  apply want_present; [|exact Hc|exact Hne].
  apply Hset. apply mapM_inr in Es.
  assert (Hin : In (Inv.currency_of INVOICE_CURRENCY line) line_currencies).
  { unfold line_currencies. apply Hset. now apply in_map. }
  destruct (Forall2_pick _ _ _ _ Es Hin) as [y [Hy Hr]].
  rewrite Hsym in Hr. simpl in Hr. injection Hr as <-. exact Hy.
Qed.

Lemma built_invoice_iterates_witness :
  exists built : Init.Built,
    Samples.built Samples.no_prices = Some (inr built)
    /\ Inv.lines (Init.invoice built) = Inv.lines Examples.invoice
    /\ Deduction.no_unknown (Inv.conversions (Init.invoice built))
    /\ exists rows : list Inv.Row,
        Inv.iter Examples.percent_plain "USD" Examples.tokens (Init.invoice built)
        = (rows, None)
        /\ List.length rows = List.length (Inv.lines Examples.invoice).
Proof.
  eexists. split; [vm_compute; reflexivity|].
  apply (built_invoice_iterates Examples.percent_plain "USD" Examples.tokens
           Examples.tokens Samples.no_prices Samples.supported Samples.CRYPTO_SYMBOLS
           (nodup string_dec) 20 (Inv.lines Examples.invoice) [ Samples.account ]
           (Init.Currencies [ "USD"; "ETH" ])
           (Some [ (("ETH", "USD"), Examples.ratio 123456 100) ])).
  - intros l x. apply nodup_In.
  - intros d [= <-]. apply distinct_keys_ok. reflexivity.
  - intros line [<-|[<-|[]]]; eexists; split; reflexivity.
  - vm_compute. reflexivity.
Defined.

Section FetchEnds.
Import Py Raised Conv Deduction Line Inv Tables Init.
Variable tokenprices : string -> option (TokenInfo * TokenInfo * Qc).
Variable d0 : Conversions.

Let U : list Symbol := reach tokenprices d0.

(** What the loop keeps: the keys are distinct and made of symbols of [U],
    and a pair mapped to [None] was so in [d0]. *)
Let kept (d : Conversions) : Prop :=
  Dict.ok d /\ within U d
  /\ forall k : Pair, lookup k d = Some None -> lookup k d0 = Some None.

Lemma filter_le {A : Type} (f g : A -> bool) (l : list A) :
  (forall y : A, In y l -> g y = true -> f y = true) ->
  List.length (filter g l) <= List.length (filter f l).
Proof.
  induction l as [|z l IH]; intros H; simpl; [lia|].
  specialize (IH (fun w Hw => H w (or_intror Hw))).
  destruct (g z) eqn:Gz.
  - rewrite (H z (or_introl eq_refl) Gz). simpl. lia.
  - destruct (f z); simpl; lia.
Qed.

Lemma set_within (syms : list Symbol) (a b : Symbol) (v : Ratio) (d : Conversions) :
  within syms d -> In a syms -> In b syms -> within syms (setitem (a, b) v d).
Proof.
  intros Hw Ha Hb x y H.
  destruct (pair_eq_dec (x, y) (a, b)) as [[= -> ->]|Hk]; [auto|].
  rewrite lookup_set_other in H by exact Hk. now apply Hw.
Qed.

Lemma set_unknown (k k' : Pair) (r : Qc) (d : Conversions) :
  lookup k' (setitem k (Some r) d) = Some None -> lookup k' d = Some None.
Proof.
  intros H. destruct (pair_eq_dec k' k) as [->|Hk].
  - rewrite lookup_set_same in H. discriminate.
  - now rewrite lookup_set_other in H.
Qed.

Lemma set_no_loss (syms : list Symbol) (k : Pair) (r : Qc) (d : Conversions) :
  missing syms (setitem k (Some r) d) <= missing syms d.
Proof.
  unfold missing. apply filter_le. intros k' _ H.
  unfold get in *. destruct (pair_eq_dec k' k) as [->|Hk].
  - rewrite lookup_set_same in H. discriminate.
  - now rewrite lookup_set_other in H.
Qed.

Lemma set_gain (syms : list Symbol) (a b : Symbol) (r : Qc) (d : Conversions) :
  In a syms -> In b syms -> is_None (get (a, b) d) = true ->
  missing syms (setitem (a, b) (Some r) d) < missing syms d.
Proof.
  intros Ha Hb Hn. unfold missing. apply (filter_shrinks _ _ _ (a, b)).
  - intros k' _ H. unfold get in *. destruct (pair_eq_dec k' (a, b)) as [->|Hk].
    + rewrite lookup_set_same in H. discriminate.
    + now rewrite lookup_set_other in H.
  - now apply in_prod.
  - exact Hn.
  - unfold get. now rewrite lookup_set_same.
Qed.

Lemma steps_unknown (d d' : Conversions) (k : Pair) :
  steps d d' -> lookup k d' = Some None -> lookup k d = Some None.
Proof.
  induction 1 as [|d1 d2 Hs IH Hstep]; intros H; [exact H|].
  apply IH. destruct (step_writes d1 d2 Hstep) as (k0 & q & _ & ->).
  now apply set_unknown in H.
Qed.

Lemma steps_kept (d d' : Conversions) : steps d d' -> kept d -> kept d'.
Proof.
  intros Hs (Hok & Hw & Hu). split; [eapply steps_keep_ok; eauto|].
  split; [eapply steps_within; eauto|].
  intros k Hk. apply Hu. eapply steps_unknown; eauto.
Qed.

Lemma candidate_reach (d : Conversions) (c : Symbol) :
  kept d -> In c (candidates d) ->
  In c U
  /\ forall (one two : TokenInfo) (ratio : Qc),
      tokenprices c = Some (one, two, ratio) -> In (symbol one) U /\ In (symbol two) U.
Proof.
  intros (Hok & Hw & Hu) Hc. unfold candidates in Hc.
  apply filter_In in Hc. destruct Hc as [Hc _].
  apply in_flat_map in Hc. destruct Hc as [[[a b] r] [Hin Hc]]. simpl in Hc.
  destruct r as [q|]; simpl in Hc; [destruct Hc|].
  apply (entry_lookup _ _ _ Hok) in Hin. apply Hu in Hin.
  assert (Hs : In c (symbols d0)).
  { apply lookup_entry in Hin. unfold symbols. apply in_flat_map.
    exists ((a, b), None). split; [exact Hin|]. simpl. destruct Hc as [<-|[<-|[]]]; auto. }
  split; [apply in_or_app; now left|].
  intros one two ratio Hp. unfold U, reach, priced_symbols.
  split; apply in_or_app; right; apply in_flat_map; exists c; rewrite Hp; simpl; auto.
Qed.

Lemma price_one_gains (cs : list Symbol) (d d' : Conversions) :
  kept d ->
  (forall c : Symbol, In c cs -> In c (candidates d)) ->
  price_one tokenprices cs d = Some d' ->
  kept d' /\ missing U d' < missing U d.
Proof.
  intros Hk. induction cs as [|c cs IH]; simpl; intros Hcs H; [discriminate|].
  assert (Hrest : forall c' : Symbol, In c' cs -> In c' (candidates d))
    by (intros c' Hc'; apply Hcs; now right).
  destruct (tokenprices c) as [[[one two] ratio]|] eqn:P; [|auto].
  destruct (candidate_reach d c Hk (Hcs c (or_introl eq_refl))) as [Hc Hot].
  destruct (Hot one two ratio P) as [Hone Htwo].
  destruct Hk as (Hok & Hw & Hu).
  destruct (is_None (get (c, symbol two) d)) eqn:N1; simpl in H.
  - injection H as <-.
    pose proof (set_gain U c (symbol two) ratio d Hc Htwo N1) as Hg.
    destruct (c =? symbol one).
    + split; [|exact Hg]. split; [now apply ok_set|].
      split; [now apply set_within|]. intros k Hk. apply Hu. now apply set_unknown in Hk.
    + split.
      * split; [now apply ok_set, ok_set|].
        split; [apply set_within; [apply set_within|..]; assumption|].
        intros k Hk. apply Hu. now apply set_unknown, set_unknown in Hk.
      * pose proof (set_no_loss U (symbol one, symbol two) ratio
                      (setitem (c, symbol two) (Some ratio) d)). lia.
  - destruct (is_None (get (symbol one, symbol two) d)) eqn:N2; [|auto].
    injection H as <-.
    destruct (String.eqb_spec c (symbol one)) as [E|E]; [rewrite E in N1; congruence|].
    split.
    + split; [now apply ok_set, ok_set|].
      split; [apply set_within; [apply set_within|..]; assumption|].
      intros k Hk. apply Hu. now apply set_unknown, set_unknown in Hk.
    + assert (N2' : is_None (get (symbol one, symbol two)
                               (setitem (c, symbol two) (Some ratio) d)) = true).
      { unfold get in *. rewrite lookup_set_other; [exact N2|]. congruence. }
      pose proof (set_gain U (symbol one) (symbol two) ratio _ Hone Htwo N2').
      pose proof (set_no_loss U (c, symbol two) ratio d). lia.
Qed.

Lemma settle_enough (fuel : nat) (d : Conversions) :
  kept d -> missing U d < fuel ->
  exists out : error + Value * Conversions,
    settle fuel d = Some out
    /\ forall (v : Value) (d' : Conversions),
        out = inr (v, d') ->
        kept d' /\ missing U d' <= missing U d /\ (truth v = false -> no_unknown d').
Proof.
  intros Hk Hm. assert (Hk' := Hk). destruct Hk' as (Hok & Hw & Hu).
  destruct (resolve_enough false U fuel d Hok Hw Hm) as [o Ho].
  unfold settle. rewrite Ho. eexists. split; [reflexivity|].
  intros v d' E.
  assert (S : settle fuel d = Some (inr (v, d'))) by (unfold settle; now rewrite Ho, E).
  destruct (settle_spec fuel d d' v Hok S) as (Hs & Hok' & Hv).
  split; [now apply (steps_kept d d')|]. split; [|exact Hv].
  destruct (steps_gain U d d' Hw Hs) as [->|Hlt]; lia.
Qed.

Lemma fetch_enough (fuel : nat) :
  forall (v : Value) (d : Conversions),
    kept d -> missing U d < fuel ->
    exists out : error + Conversions, fetch tokenprices fuel v d = Some out.
Proof.
  induction fuel as [|fuel IH]; intros v d Hk Hm; [lia|]. simpl.
  destruct (truth v); [|eauto].
  destruct (price_one tokenprices (candidates d) d) as [d1|] eqn:P; [|eauto].
  destruct (price_one_gains (candidates d) d d1 Hk (fun c Hc => Hc) P) as [Hk1 Hg].
  destruct (settle_enough fuel d1 Hk1 ltac:(lia)) as [out [-> Hout]].
  destruct out as [e|[v2 d2]]; [eauto|].
  destruct (Hout v2 d2 eq_refl) as (Hk2 & Hle & _).
  apply IH; [exact Hk2|lia].
Qed.

Lemma kept_start : Dict.ok d0 -> kept d0.
Proof.
  intros Hok. split; [exact Hok|]. split; [|auto].
  intros a b H. destruct (within_symbols d0 a b H) as [Ha Hb].
  unfold U, reach. split; apply in_or_app; now left.
Qed.

Lemma settle_fetch_enough (fuel : nat) :
  Dict.ok d0 ->
  List.length U * List.length U < fuel ->
  exists out : error + Value * Conversions,
    settle fuel d0 = Some out
    /\ forall (v : Value) (d : Conversions),
        out = inr (v, d) ->
        exists res : error + Conversions, fetch tokenprices fuel v d = Some res.
Proof.
  intros Hok Hf. pose proof (kept_start Hok) as Hk.
  pose proof (missing_bound U d0) as Hb.
  destruct (settle_enough fuel d0 Hk ltac:(lia)) as [out [Hs Hout]].
  exists out. split; [exact Hs|]. intros v d E.
  destruct (Hout v d E) as (Hk' & Hle & _).
  apply fetch_enough; [exact Hk'|lia].
Qed.

End FetchEnds.

Section PriceNews.
Import Py Raised Conv Deduction Inv Init.
Variable tokenprices : string -> option (TokenInfo * TokenInfo * Qc).

Lemma price_one_news (cs : list Symbol) (d d' : Conversions) :
  price_one tokenprices cs d = Some d' ->
  exists (k : Pair) (q : Qc),
    is_None (get k d) = true /\ lookup k d' = Some (Some q).
Proof.
  induction cs as [|c cs IH]; simpl; intros H; [discriminate|].
  destruct (tokenprices c) as [[[one two] ratio]|]; [|auto].
  destruct (is_None (get (c, symbol two) d)) eqn:N1; simpl in H.
  - injection H as <-. exists (c, symbol two), ratio. split; [exact N1|].
    destruct (c =? symbol one) eqn:E; [apply lookup_set_same|].
    rewrite lookup_set_other; [apply lookup_set_same|].
    intros [= ->]. now rewrite String.eqb_refl in E.
  - destruct (is_None (get (symbol one, symbol two) d)) eqn:N2; [|auto].
    injection H as <-. exists (symbol one, symbol two), ratio. split; [exact N2|].
    destruct (c =? symbol one) eqn:E; [|apply lookup_set_same].
    apply String.eqb_eq in E. subst c. apply lookup_set_same.
Qed.

End PriceNews.

(** X16 (Invoice.__init__, lines 374-405).  The constructor ends, for an
    oracle [tokenprices] that answers the same whenever it is asked about
    the same symbol: for every input there is a number of calls of
    [conversions_remaining] within which it returns an invoice or raises,
    whatever those answers are.  Every round of the loop over the candidates
    that ends in the [break] has written a ratio for a pair that had none. *)
Theorem constructor_ends
        (INVOICE_CURRENCY : string)
        (tokeninfo tokeninfo_default : string -> Py.exn + Inv.TokenInfo)
        (tokenprices : string -> option (Inv.TokenInfo * Inv.TokenInfo * Qc))
        (supported : string -> Py.exn + Conv.Symbol)
        (CRYPTO_SYMBOLS : Conv.Symbol -> option string)
        (listing : list string -> list string)
        (lines : list Line.LineItem) (accounts : list Tables.Account)
        (currencies : Init.Wanted) (conversions : option Conv.Conversions) :
  (forall d : Conv.Conversions, conversions = Some d -> Dict.ok d) ->
  (exists calls : nat,
      forall fuel : nat,
        calls <= fuel ->
        exists out : Raised.error + Init.Built,
          Init.init INVOICE_CURRENCY tokeninfo tokeninfo_default tokenprices supported
                    CRYPTO_SYMBOLS listing fuel lines accounts currencies conversions
          = Some out)
  /\ (forall d d' : Conv.Conversions,
        Init.price_one tokenprices (Init.candidates d) d = Some d' ->
        exists (k : Conv.Pair) (q : Qc),
          Conv.is_None (Conv.get k d) = true /\ Conv.lookup k d' = Some (Some q)).
Proof.
  intros Hok0.
  split; [|intros d d'; apply price_one_news].
  unfold Init.init. cbv zeta.
  match goal with
  | |- context [Raised.mapM ?f ?l] => destruct (Raised.mapM f l) as [e|symbols]
  end; [exists 0; intros fuel _; eexists; reflexivity|]. cbn [Raised.bind].
  match goal with
  | |- context [Init.add_accounts ?a ?l] => destruct (Init.add_accounts a l) as [e|ca0]
  end; [exists 0; intros fuel _; eexists; reflexivity|]. cbn [Raised.bind].
  match goal with
  | |- context [Init.add_proxies ?t ?l ?a ?p] =>
      destruct (Init.add_proxies t l a p) as [ca cp]
  end.
  match goal with
  | |- context [Raised.mapM ?f ?l] => destruct (Raised.mapM f l) as [e|line_symbols]
  end; [exists 0; intros fuel _; eexists; reflexivity|]. cbn [Raised.bind].
  match goal with
  | |- context [Init.add_names ?a1 ?a2 ?a3 ?a4 ?a5 ?a6] =>
      destruct (Init.add_names a1 a2 a3 a4 a5 a6) as [e|cp']
  end; [exists 0; intros fuel _; eexists; reflexivity|]. cbn [Raised.bind].
  match goal with
  | |- context [Init.settle _ ?d] => set (d1 := d)
  end.
  assert (Hd1 : Dict.ok d1).
  { apply want_ok. destruct conversions as [d|]; [now apply Hok0|constructor]. }
  exists (S (List.length (Init.reach tokenprices d1)
             * List.length (Init.reach tokenprices d1))).
  intros fuel Hf.
  destruct (settle_fetch_enough tokenprices d1 fuel Hd1 ltac:(lia)) as [out [-> Hout]].
  destruct out as [e|[v d2]]; [eauto|].
  destruct (Hout v d2 eq_refl) as [res ->]. destruct res; eauto.
Qed.

Lemma constructor_ends_witness :
  Init.price_one Samples.usd_prices
                 (Init.candidates [ (("USD", "ETH"), None); (("ETH", "USD"), None) ])
                 [ (("USD", "ETH"), None); (("ETH", "USD"), None) ]
  = Some [ (("USD", "ETH"), Some (Q2Qc (100 # 123456))); (("ETH", "USD"), None) ]
  /\ Dict.ok [ (("ETH", "USD"), (None : Conv.Ratio)) ]
  /\ (exists built : Init.Built,
        Samples.built_priced = Some (inr built)
        /\ Conv.lookup ("ETH", "USD") (Inv.conversions (Init.invoice built))
           = Some (Some (Q2Qc (123456 # 100))))
  /\ exists calls : nat,
      forall fuel : nat,
        calls <= fuel ->
        exists out : Raised.error + Init.Built,
          Init.init "USD" Examples.tokens Examples.tokens Samples.usd_prices
                    Samples.supported Samples.CRYPTO_SYMBOLS (nodup string_dec) fuel
                    (Inv.lines Examples.invoice) [ Samples.account ]
                    (Init.Currencies [ "USD"; "ETH" ])
                    (Some [ (("ETH", "USD"), None) ])
          = Some out.
Proof.
  split; [reflexivity|].
  split; [apply distinct_keys_ok; reflexivity|]. split.
  - destruct Samples.built_priced as [[e|built]|] eqn:E;
      [vm_compute in E; discriminate E | | vm_compute in E; discriminate E].
    exists built. split; [reflexivity|].
    assert (H : option_map (fun out => match out with
                                       | inr b => Conv.lookup ("ETH", "USD")
                                                    (Inv.conversions (Init.invoice b))
                                       | inl _ => None
                                       end) Samples.built_priced
                = Some (Some (Some (Q2Qc (123456 # 100)))))
      by (vm_compute; do 3 f_equal; qc_eq).
    rewrite E in H. simpl in H. now injection H.
  - refine (proj1 (constructor_ends "USD" Examples.tokens Examples.tokens
                     Samples.usd_prices Samples.supported Samples.CRYPTO_SYMBOLS
                     (nodup string_dec) (Inv.lines Examples.invoice) [ Samples.account ]
                     (Init.Currencies [ "USD"; "ETH" ])
                     (Some [ (("ETH", "USD"), None) ]) _)).
    intros d [= <-]. apply distinct_keys_ok. reflexivity.
Defined.

Section Unpriced.
Import Py Raised Conv Deduction Line Inv Tables Init.

Lemma settle_message (fuel : nat) (d d' : Conversions) (v : Value) :
  Dict.ok d -> settle fuel d = Some (inr (v, d')) -> ~ no_unknown d' ->
  v = Conv.Str (failure_message d') /\ fuel <> 0.
Proof.
  intros Hok H Hun. split; [|intros ->; discriminate H].
  unfold settle in H.
  destruct (resolve fuel false d) as [o|] eqn:R; [|discriminate].
  destruct (resolve_ends fuel false d o Hok R) as (Hs & Hok' & Hsat & Ho).
  destruct (result o) as [v0|e] eqn:Er; [|discriminate].
  injection H as <- <-.
  destruct (remaining_saturated (dict o) false Hok' Hsat) as [E|(a & e & c2 & c3 & _ & _ & E)].
  - rewrite <- Ho in E. rewrite E in Er. unfold settled in Er.
    destruct (remains (dict o) =? "") eqn:Em.
    + apply String.eqb_eq, (remains_no_unknown _ Hok') in Em. contradiction.
    + simpl in Er. now injection Er as <-.
  - rewrite <- Ho in E. rewrite E in Er. discriminate.
Qed.

End Unpriced.

(** X17 (Invoice.__init__, lines 374-402).  Pairs that nothing prices:
    when the deductions end with a pair still mapped to [None] and the
    oracle has no price for any of the candidates, the symbols of such
    pairs but for ETH, the loop over the candidates ends without a [break]
    and the constructor raises [RuntimeError]. *)
Theorem unpriced_pairs_raise
        (tokenprices : string -> option (Inv.TokenInfo * Inv.TokenInfo * Qc))
        (fuel : nat) (d d' : Conv.Conversions) (remaining : Conv.Value) :
  Dict.ok d ->
  Init.settle fuel d = Some (inr (remaining, d')) ->
  ~ Deduction.no_unknown d' ->
  (forall c : Conv.Symbol, In c (Init.candidates d') -> tokenprices c = None) ->
  Init.fetch tokenprices fuel remaining d'
  = Some (inl (Raised.Exn
                 (Py.RuntimeError (Init.unpriced_message (Conv.failure_message d'))))).
Proof.
  intros Hok S Hun Hnone.
  destruct (settle_message fuel d d' remaining Hok S Hun) as [-> Hf].
  destruct fuel as [|fuel]; [congruence|]. cbn [Init.fetch].
  assert (Ht : Conv.truth (Conv.Str (Conv.failure_message d')) = true).
  { unfold Conv.failure_message. reflexivity. }
  rewrite Ht. now rewrite price_one_none.
Qed.

Lemma unpriced_pairs_raise_witness :
  Init.fetch Samples.no_prices 9 (Conv.Str (Conv.failure_message Examples.c_bad_done))
             Examples.c_bad_done
  = Some (inl (Raised.Exn
                 (Py.RuntimeError
                    (Init.unpriced_message (Conv.failure_message Examples.c_bad_done))))).
Proof.
  apply (unpriced_pairs_raise Samples.no_prices 9 Examples.c_bad Examples.c_bad_done).
  - apply distinct_keys_ok. reflexivity.
  - unfold Init.settle.
    assert (E : exists o, Conv.resolve 9 false Examples.c_bad = Some o
                          /\ Conv.result o
                             = Py.Return (Conv.Str (Conv.failure_message Examples.c_bad_done))
                          /\ Deduction.conv_eqb (Conv.dict o) Examples.c_bad_done = true).
    { eexists. split; [vm_compute; reflexivity|]. split; vm_compute; reflexivity. }
    destruct E as (o & -> & -> & E). apply conv_eqb_eq in E. now rewrite E.
  - intros H. apply (H ("DOGE", "USD")). reflexivity.
  - reflexivity.
Defined.

Section Accounts.
Import Py Raised Conv Tables Init.

Let sym_eq : forall x y : string, (x =? y) = true <-> x = y := String.eqb_eq.

Lemma add_accounts_error (accounts : list Account) :
  forall (ca : list (Symbol * option Account)) (e : error),
    add_accounts accounts ca = inl e -> e = AssertionError.
Proof.
  induction accounts as [|a accounts IH]; simpl; intros ca e H; [discriminate|].
  destruct (Dict.lookup String.eqb (account_symbol a) ca) as [[x|]|]; eauto.
  now injection H as <-.
Qed.

Lemma add_accounts_inr (accounts : list Account) :
  forall ca ca' : list (Symbol * option Account),
    add_accounts accounts ca = inr ca' ->
    NoDup (map account_symbol accounts)
    /\ (forall (a x : Account),
           In a accounts -> Dict.lookup String.eqb (account_symbol a) ca <> Some (Some x))
    /\ (forall a : Account,
           In a accounts -> Dict.lookup String.eqb (account_symbol a) ca' = Some (Some a))
    /\ (forall c : Symbol,
           ~ In c (map account_symbol accounts) ->
           Dict.lookup String.eqb c ca' = Dict.lookup String.eqb c ca).
Proof.
  induction accounts as [|a accounts IH]; simpl; intros ca ca' H.
  - injection H as <-. split; [constructor|]. split; [tauto|]. split; [tauto|auto].
  - assert (Hfree : forall x, Dict.lookup String.eqb (account_symbol a) ca <> Some (Some x)).
    { intros x Hx. rewrite Hx in H. discriminate. }
    assert (Hnext : add_accounts accounts
                      (Dict.setitem String.eqb (account_symbol a) (Some a) ca) = inr ca').
    { destruct (Dict.lookup String.eqb (account_symbol a) ca) as [[x|]|];
        [discriminate|exact H|exact H]. }
    destruct (IH _ _ Hnext) as (Hnd & Hfr & Hin & Hout).
    assert (Hnot : ~ In (account_symbol a) (map account_symbol accounts)).
    { intros Hm. apply in_map_iff in Hm. destruct Hm as [b [Eb Hb]].
      apply (Hfr b a Hb). rewrite Eb. apply (lookup_setitem_same String.eqb sym_eq). }
    split; [now constructor|]. split; [|split].
    + intros b x [<-|Hb]; [apply Hfree|].
      intros Hx. apply (Hfr b x Hb).
      rewrite (lookup_setitem_other String.eqb sym_eq); [exact Hx|].
      intros E. apply Hnot. rewrite <- E. now apply in_map.
    + intros b [<-|Hb]; [|now apply Hin].
      rewrite (Hout _ Hnot). apply (lookup_setitem_same String.eqb sym_eq).
    + intros c Hc. rewrite Hout by tauto.
      apply (lookup_setitem_other String.eqb sym_eq). intros ->. tauto.
Qed.

Lemma add_accounts_returns (accounts : list Account) :
  forall ca : list (Symbol * option Account),
    NoDup (map account_symbol accounts) ->
    (forall (a x : Account),
        In a accounts -> Dict.lookup String.eqb (account_symbol a) ca <> Some (Some x)) ->
    exists ca' : list (Symbol * option Account), add_accounts accounts ca = inr ca'.
Proof.
  induction accounts as [|a accounts IH]; simpl; intros ca Hnd Hfree; [eauto|].
  inversion Hnd as [|? ? Hnot Hnd']; subst.
  assert (Hnext : exists ca', add_accounts accounts
                                (Dict.setitem String.eqb (account_symbol a) (Some a) ca)
                              = inr ca').
  { apply IH; [exact Hnd'|]. intros b x Hb Hx.
    rewrite (lookup_setitem_other String.eqb sym_eq) in Hx; [exact (Hfree b x (or_intror Hb) Hx)|].
    intros E. apply Hnot. rewrite <- E. now apply in_map. }
  destruct (Dict.lookup String.eqb (account_symbol a) ca) as [[x|]|] eqn:E;
    [|exact Hnext|exact Hnext].
  exfalso. exact (Hfree a x (or_introl eq_refl) E).
Qed.

End Accounts.

(** X18 (Invoice.__init__, lines 312-317).  One account to a symbol: the
    accounts are filed under their symbols, on top of currencies none of
    which has an account yet.  When no two accounts have the same symbol
    each account is found under its symbol afterwards, also under a symbol
    that was no currency before, and the other currencies are as they were;
    when two accounts share a symbol the constructor raises
    [AssertionError]. *)
Theorem accounts_filed
        (accounts : list Tables.Account)
        (currencies_account : list (Conv.Symbol * option Tables.Account)) :
  (forall (c : Conv.Symbol) (x : Tables.Account),
      Dict.lookup String.eqb c currencies_account <> Some (Some x)) ->
  (NoDup (map Tables.account_symbol accounts) ->
   exists filed : list (Conv.Symbol * option Tables.Account),
     Init.add_accounts accounts currencies_account = inr filed
     /\ (forall a : Tables.Account,
            In a accounts ->
            Dict.lookup String.eqb (Tables.account_symbol a) filed = Some (Some a))
     /\ (forall c : Conv.Symbol,
            ~ In c (map Tables.account_symbol accounts) ->
            Dict.lookup String.eqb c filed = Dict.lookup String.eqb c currencies_account))
  /\ (~ NoDup (map Tables.account_symbol accounts) ->
      Init.add_accounts accounts currencies_account = inl Raised.AssertionError).
Proof.
  intros Hfree. split.
  - intros Hnd.
    destruct (add_accounts_returns accounts currencies_account Hnd) as [filed Hf].
    { intros a x _. apply Hfree. }
    exists filed. split; [exact Hf|].
    destruct (add_accounts_inr accounts _ _ Hf) as (_ & _ & H1 & H2). auto.
  - intros Hdup.
    destruct (Init.add_accounts accounts currencies_account) as [e|filed] eqn:E.
    + now rewrite (add_accounts_error accounts _ e E).
    + destruct (add_accounts_inr accounts _ _ E) as (Hnd & _). contradiction.
Qed.

Lemma accounts_filed_witness :
  (NoDup (map Tables.account_symbol [ Samples.account; Samples.account ]) ->
   exists filed : list (Conv.Symbol * option Tables.Account),
     Init.add_accounts [ Samples.account; Samples.account ] [ ("USD", None) ] = inr filed
     /\ (forall a : Tables.Account,
            In a [ Samples.account; Samples.account ] ->
            Dict.lookup String.eqb (Tables.account_symbol a) filed = Some (Some a))
     /\ (forall c : Conv.Symbol,
            ~ In c (map Tables.account_symbol [ Samples.account; Samples.account ]) ->
            Dict.lookup String.eqb c filed = Dict.lookup String.eqb c [ ("USD", None) ]))
  /\ (~ NoDup (map Tables.account_symbol [ Samples.account; Samples.account ]) ->
      Init.add_accounts [ Samples.account; Samples.account ] [ ("USD", None) ]
      = inl Raised.AssertionError).
Proof.
  apply (accounts_filed [ Samples.account; Samples.account ] [ ("USD", None) ]).
  intros c x. simpl. destruct (c =? "USD"); discriminate.
Defined.

(** ** Components on the pages of a PDF *)

Section SheetNumbers.
Import Py Sheet.
Local Open Scope Qc_scope.

Lemma of_int_le (u v : Z) : (u <= v)%Z -> of_int u <= of_int v.
Proof.
  intros H. unfold of_int, Qcle. cbn [this Q2Qc]. rewrite !Qred_correct.
  rewrite <- Zle_Qle. exact H.
Qed.

Lemma of_int_inj (u v : Z) : of_int u = of_int v -> u = v.
Proof.
  unfold of_int. intros H. apply (proj1 (inject_Z_injective u v)).
  apply Q2Qc_eq_iff. exact H.
Qed.

Lemma of_int_succ (u : Z) : of_int (u + 1) = of_int u + 1.
Proof.
  unfold of_int. apply Qc_is_canon. cbn [this Q2Qc Qcplus].
  rewrite !Qred_correct, inject_Z_plus. reflexivity.
Qed.

Lemma of_int_floor (q : Qc) : of_int (Qfloor q) <= q.
Proof.
  unfold of_int, Qcle. cbn [this Q2Qc]. rewrite Qred_correct. apply Qfloor_le.
Qed.

Lemma Qc_lt_le (a b : Qc) : a < b -> a <= b.
Proof. apply Qclt_le_weak. Qed.

Lemma Qc_pos_neq (b : Qc) : 0 < b -> b <> 0.
Proof. intros H E. rewrite E in H. exact (Qclt_not_eq _ _ H eq_refl). Qed.

Lemma floor_times (a b : Qc) : 0 < b -> of_int (Qfloor (a / b)%Qc) * b <= a.
Proof.
  intros Hb.
  replace a with (a / b * b) at 2 by (field; now apply Qc_pos_neq).
  apply Qcmult_le_compat_r; [apply of_int_floor|now apply Qc_lt_le].
Qed.

Lemma floor_fits (a b : Qc) : 0 < b -> b <= a -> (1 <= Qfloor (a / b)%Qc)%Z.
Proof.
  intros Hb Hab.
  assert (H1 : 1 <= a / b).
  { replace 1 with (b / b) by (field; now apply Qc_pos_neq).
    unfold Qcdiv. apply Qcmult_le_compat_r; [exact Hab|].
    apply Qc_inv_nonneg. now apply Qc_lt_le. }
  change 1%Z with (Qfloor 1). apply Qfloor_resp_le. exact H1.
Qed.

Lemma floordiv_pos (a b : Qc) : 0 < b -> floordiv a b = inr (Qfloor (a / b)%Qc).
Proof.
  intros Hb. unfold floordiv.
  destruct (Qc_eq_bool b 0) eqn:E; [|reflexivity].
  apply Qc_eq_bool_correct in E. now apply Qc_pos_neq in Hb.
Qed.

Lemma offset_inj (m s : Qc) (u v : Z) :
  s <> 0 -> m + of_int u * s = m + of_int v * s -> u = v.
Proof.
  intros Hs H. apply of_int_inj.
  assert (E : (of_int u - of_int v) * s = 0).
  { replace ((of_int u - of_int v) * s)
      with ((m + of_int u * s) - (m + of_int v * s)) by ring.
    rewrite H. ring. }
  apply Qcmult_integral in E. destruct E as [E|E]; [|contradiction].
  replace (of_int u) with ((of_int u - of_int v) + of_int v) by ring.
  rewrite E. ring.
Qed.

Lemma offset_range (m s e : Qc) (u n : Z) :
  0 < s -> (0 <= u < n)%Z -> of_int n * s <= e ->
  m <= m + of_int u * s /\ m + of_int u * s + s <= e + m.
Proof.
  intros Hs Hu Hn. split.
  - apply Qc_le_plus_r. apply Qc_mult_nonneg; [|now apply Qc_lt_le].
    apply Qc_inject_nonneg. lia.
  - replace (m + of_int u * s + s) with (of_int (u + 1) * s + m)
      by (rewrite of_int_succ; ring).
    apply Qcplus_le_compat; [|apply Qcle_refl].
    apply Qcle_trans with (of_int n * s); [|exact Hn].
    apply Qcmult_le_compat_r; [apply of_int_le; lia|now apply Qc_lt_le].
Qed.

End SheetNumbers.

Section SheetFacts.
Import Py Sheet.
Local Open Scope Qc_scope.

Lemma page_xy_at (comp_cols comp_rows : Z) (comp_dim : Coordinate) (m : Qc) (num : Z) :
  (0 < comp_cols)%Z -> (0 < comp_rows)%Z -> (0 <= num)%Z ->
  exists page_rows page_cols : Z,
    page_xy (comp_rows * comp_cols) comp_cols comp_dim m num
    = inr ((num / (comp_rows * comp_cols))%Z,
           mkCoordinate (m + of_int page_cols * x comp_dim)
                        (m + of_int page_rows * y comp_dim))
    /\ (0 <= page_cols < comp_cols)%Z /\ (0 <= page_rows < comp_rows)%Z
    /\ num = ((comp_rows * comp_cols) * (num / (comp_rows * comp_cols))
              + (comp_cols * page_rows + page_cols))%Z.
Proof.
  intros Hc Hr Hn.
  assert (Hpp : (0 < comp_rows * comp_cols)%Z) by nia.
  set (pp := (comp_rows * comp_cols)%Z) in *.
  exists ((num mod pp) / comp_cols)%Z, ((num mod pp) mod comp_cols)%Z.
  unfold page_xy, divmod.
  replace (pp =? 0)%Z with false by (symmetry; apply Z.eqb_neq; lia).
  replace (comp_cols =? 0)%Z with false by (symmetry; apply Z.eqb_neq; lia).
  split; [reflexivity|].
  pose proof (Z.mod_pos_bound num pp Hpp) as Hm.
  pose proof (Z.mod_pos_bound (num mod pp) comp_cols Hc) as Hm2.
  pose proof (Z.div_mod num pp ltac:(lia)) as Hd.
  pose proof (Z.div_mod (num mod pp) comp_cols ltac:(lia)) as Hd2.
  split; [exact Hm2|]. split.
  - split; [apply Z.div_pos; lia|].
    apply Z.div_lt_upper_bound; [lia|]. subst pp. nia.
  - lia.
Qed.

End SheetFacts.

Section SheetApart.
Import Py Sheet.
Local Open Scope Qc_scope.

Lemma offset_step (m s : Qc) (u v : Z) :
  0 < s -> (u < v)%Z -> m + of_int u * s + s <= m + of_int v * s.
Proof.
  intros Hs Huv.
  replace (m + of_int u * s + s) with (m + of_int (u + 1) * s)
    by (rewrite of_int_succ; ring).
  apply Qcplus_le_compat; [apply Qcle_refl|].
  apply Qcmult_le_compat_r; [apply of_int_le; lia|now apply Qc_lt_le].
Qed.

End SheetApart.

(** X19 (layout_components and page_xy, layout.py lines 390-413).  With the
    numbers read as exact rationals: where one component at least fits the
    page across and down (within the width and the height less 95% of the
    two margins), [layout_components] returns, and for every number from 0
    up [page_xy] returns the page [num // comps_pp] and a place on it that
    starts at the margin or beyond and leaves the component within the
    width and the height of the page less 90% of one margin.  No two
    components are laid on each other: two different numbers that come on
    the same page have places a full component width apart across, or a
    full component height apart down, and no two numbers have the same page
    and place. *)
Theorem components_placed (epw eph : Qc) (comp_dim : Sheet.Coordinate) (margin : Qc) :
  (Q2Qc 0 < Sheet.x comp_dim)%Qc -> (Q2Qc 0 < Sheet.y comp_dim)%Qc ->
  (Sheet.x comp_dim <= epw - margin * Q2Qc 2 * Q2Qc 95 / Q2Qc 100)%Qc ->
  (Sheet.y comp_dim <= eph - margin * Q2Qc 2 * Q2Qc 95 / Q2Qc 100)%Qc ->
  exists (comp_cols comp_rows : Z) (page_xy : Z -> Py.exn + Z * Sheet.Coordinate),
    Sheet.layout_components epw eph comp_dim margin
    = inr ((comp_rows * comp_cols)%Z, page_xy)
    /\ (0 < comp_cols)%Z /\ (0 < comp_rows)%Z
    /\ forall num : Z,
        (0 <= num)%Z ->
        exists place : Sheet.Coordinate,
          page_xy num = inr ((num / (comp_rows * comp_cols))%Z, place)
          /\ (margin <= Sheet.x place)%Qc
          /\ (Sheet.x place + Sheet.x comp_dim
              <= epw - margin * Q2Qc 2 * Q2Qc 95 / Q2Qc 100 + margin)%Qc
          /\ (margin <= Sheet.y place)%Qc
          /\ (Sheet.y place + Sheet.y comp_dim
              <= eph - margin * Q2Qc 2 * Q2Qc 95 / Q2Qc 100 + margin)%Qc
          /\ (forall other : Z,
                (0 <= other)%Z -> page_xy other = page_xy num -> other = num)
          /\ (forall (other page : Z) (there : Sheet.Coordinate),
                (0 <= other)%Z -> other <> num ->
                page_xy other = inr (page, there) ->
                page = (num / (comp_rows * comp_cols))%Z ->
                (Sheet.x there + Sheet.x comp_dim <= Sheet.x place)%Qc
                \/ (Sheet.x place + Sheet.x comp_dim <= Sheet.x there)%Qc
                \/ (Sheet.y there + Sheet.y comp_dim <= Sheet.y place)%Qc
                \/ (Sheet.y place + Sheet.y comp_dim <= Sheet.y there)%Qc).
Proof.
  intros Hx Hy Hfx Hfy.
  set (ex := (epw - margin * Q2Qc 2 * Q2Qc 95 / Q2Qc 100)%Qc) in *.
  set (ey := (eph - margin * Q2Qc 2 * Q2Qc 95 / Q2Qc 100)%Qc) in *.
  set (cols := Qfloor (ex / Sheet.x comp_dim)%Qc).
  set (rows := Qfloor (ey / Sheet.y comp_dim)%Qc).
  assert (Hc : (1 <= cols)%Z) by now apply floor_fits.
  assert (Hr : (1 <= rows)%Z) by now apply floor_fits.
  exists cols, rows, (Sheet.page_xy (rows * cols) cols comp_dim margin).
  split.
  { unfold Sheet.layout_components, Sheet.fitting. fold ex. fold ey.
    rewrite (floordiv_pos ex _ Hx), (floordiv_pos ey _ Hy). reflexivity. }
  split; [lia|]. split; [lia|].
  intros num Hnum.
  destruct (page_xy_at cols rows comp_dim margin num ltac:(lia) ltac:(lia) Hnum)
    as (r & c & E & Hcr & Hrr & Hsum).
  eexists. split; [exact E|]. cbn [Sheet.x Sheet.y].
  destruct (offset_range margin (Sheet.x comp_dim) ex c cols Hx Hcr
              (floor_times ex _ Hx)) as [H1 H2].
  destruct (offset_range margin (Sheet.y comp_dim) ey r rows Hy Hrr
              (floor_times ey _ Hy)) as [H3 H4].
  split; [exact H1|]. split; [exact H2|]. split; [exact H3|]. split; [exact H4|].
  split.
  - intros other Hother Heq.
    destruct (page_xy_at cols rows comp_dim margin other ltac:(lia) ltac:(lia) Hother)
      as (r' & c' & E' & Hcr' & Hrr' & Hsum').
    rewrite E, E' in Heq.
    pose proof (f_equal (fun res : Py.exn + Z * Sheet.Coordinate =>
                           match res with
                           | inr (page, _) => page
                           | inl _ => 0%Z
                           end) Heq) as Hp.
    pose proof (f_equal (fun res : Py.exn + Z * Sheet.Coordinate =>
                           match res with
                           | inr (_, place) => Sheet.x place
                           | inl _ => Q2Qc 0
                           end) Heq) as Hxx.
    pose proof (f_equal (fun res : Py.exn + Z * Sheet.Coordinate =>
                           match res with
                           | inr (_, place) => Sheet.y place
                           | inl _ => Q2Qc 0
                           end) Heq) as Hyy.
    cbv beta iota in Hp, Hxx, Hyy. cbn [Sheet.x Sheet.y] in Hxx, Hyy.
    apply offset_inj in Hxx; [|now apply Qc_pos_neq].
    apply offset_inj in Hyy; [|now apply Qc_pos_neq].
    rewrite Hsum, Hsum', Hp, Hxx, Hyy. reflexivity.
  - intros other page there Hother Hne Hthere Hpage.
    destruct (page_xy_at cols rows comp_dim margin other ltac:(lia) ltac:(lia) Hother)
      as (r' & c' & E' & Hcr' & Hrr' & Hsum').
    rewrite E' in Hthere.
    pose proof (f_equal (fun res : Py.exn + Z * Sheet.Coordinate =>
                           match res with
                           | inr (page, _) => page
                           | inl _ => 0%Z
                           end) Hthere) as Hp.
    pose proof (f_equal (fun res : Py.exn + Z * Sheet.Coordinate =>
                           match res with
                           | inr (_, place) => Sheet.x place
                           | inl _ => Q2Qc 0
                           end) Hthere) as Hxx.
    pose proof (f_equal (fun res : Py.exn + Z * Sheet.Coordinate =>
                           match res with
                           | inr (_, place) => Sheet.y place
                           | inl _ => Q2Qc 0
                           end) Hthere) as Hyy.
    cbv beta iota in Hp, Hxx, Hyy. cbn [Sheet.x Sheet.y] in Hxx, Hyy.
    rewrite <- Hxx, <- Hyy.
    assert (Hcase : (c' < c \/ c < c' \/ r' < r \/ r < r')%Z).
    { destruct (Z.lt_trichotomy c' c) as [H|[H|H]]; [now left| |right; now left].
      destruct (Z.lt_trichotomy r' r) as [H'|[H'|H']];
        [right; right; now left| |right; right; now right].
      exfalso. apply Hne. rewrite Hsum, Hsum', Hp, Hpage, H, H'. reflexivity. }
    destruct Hcase as [H|[H|[H|H]]].
    + left. now apply offset_step.
    + right. left. now apply offset_step.
    + right. right. left. now apply offset_step.
    + right. right. right. now apply offset_step.
Qed.

Lemma components_placed_witness :
  exists (comp_cols comp_rows : Z) (page_xy : Z -> Py.exn + Z * Sheet.Coordinate),
    Sheet.layout_components (Q2Qc (2159 # 10)) (Q2Qc (2794 # 10))
      (Sheet.mkCoordinate (Q2Qc 127) (Q2Qc (762 # 10))) (Q2Qc (635 # 100))
    = inr ((comp_rows * comp_cols)%Z, page_xy)
    /\ (0 < comp_cols)%Z /\ (0 < comp_rows)%Z
    /\ forall num : Z,
        (0 <= num)%Z ->
        exists place : Sheet.Coordinate,
          page_xy num = inr ((num / (comp_rows * comp_cols))%Z, place)
          /\ (Q2Qc (635 # 100) <= Sheet.x place)%Qc
          /\ (Sheet.x place + Q2Qc 127
              <= Q2Qc (2159 # 10) - Q2Qc (635 # 100) * Q2Qc 2 * Q2Qc 95 / Q2Qc 100
                 + Q2Qc (635 # 100))%Qc
          /\ (Q2Qc (635 # 100) <= Sheet.y place)%Qc
          /\ (Sheet.y place + Q2Qc (762 # 10)
              <= Q2Qc (2794 # 10) - Q2Qc (635 # 100) * Q2Qc 2 * Q2Qc 95 / Q2Qc 100
                 + Q2Qc (635 # 100))%Qc
          /\ (forall other : Z,
                (0 <= other)%Z -> page_xy other = page_xy num -> other = num)
          /\ (forall (other page : Z) (there : Sheet.Coordinate),
                (0 <= other)%Z -> other <> num ->
                page_xy other = inr (page, there) ->
                page = (num / (comp_rows * comp_cols))%Z ->
                (Sheet.x there + Q2Qc 127 <= Sheet.x place)%Qc
                \/ (Sheet.x place + Q2Qc 127 <= Sheet.x there)%Qc
                \/ (Sheet.y there + Q2Qc (762 # 10) <= Sheet.y place)%Qc
                \/ (Sheet.y place + Q2Qc (762 # 10) <= Sheet.y there)%Qc).
Proof.
  apply (components_placed (Q2Qc (2159 # 10)) (Q2Qc (2794 # 10))
           (Sheet.mkCoordinate (Q2Qc 127) (Q2Qc (762 # 10))) (Q2Qc (635 # 100)));
    vm_compute; first [reflexivity | discriminate].
Defined.

(** X20 (output_pdf, layout.py lines 463-466, with layout_components).  The
    choice between portrait and landscape is the [max] of two tuples whose
    second items are functions: it returns the orientation that takes more
    cards on a page, and whenever both take the same number (a square card,
    or a card too large for either) it raises [TypeError], for [max] then
    goes on to compare the two functions. *)
Theorem layout_choice
        (portrait landscape : Qc * Qc) (card_dim : Sheet.Coordinate) (margin : Qc)
        (cards_portrait cards_landscape : Z)
        (xy_portrait xy_landscape : Z -> Py.exn + Z * Sheet.Coordinate) :
  Sheet.layout_components (fst portrait) (snd portrait) card_dim margin
  = inr (cards_portrait, xy_portrait) ->
  Sheet.layout_components (fst landscape) (snd landscape) card_dim margin
  = inr (cards_landscape, xy_landscape) ->
  Sheet.best_layout portrait landscape card_dim margin
  = if (cards_portrait <? cards_landscape)%Z
    then inr [ Sheet.Number cards_landscape; Sheet.Function 1; Sheet.Object 1;
               Sheet.Word "landscape" ]
    else if (cards_landscape <? cards_portrait)%Z
         then inr [ Sheet.Number cards_portrait; Sheet.Function 0; Sheet.Object 0;
                    Sheet.Word "portrait" ]
         else inl Py.TypeError.
Proof.
  intros Hp Hl. unfold Sheet.best_layout. rewrite Hp, Hl.
  unfold Sheet.max, Sheet.max_from, Sheet.tuple_gt, Sheet.item_eqb, Sheet.item_gt.
  destruct (Z.eqb_spec cards_landscape cards_portrait) as [->|Hne].
  - rewrite Z.ltb_irrefl. reflexivity.
  - destruct (Z.ltb_spec cards_portrait cards_landscape) as [H|H]; [reflexivity|].
    destruct (Z.ltb_spec cards_landscape cards_portrait) as [H'|H']; [reflexivity|lia].
Qed.

Lemma layout_choice_witness :
  Sheet.best_layout (Q2Qc (2159 # 10), Q2Qc (2794 # 10))
                    (Q2Qc (2794 # 10), Q2Qc (2159 # 10))
                    (Sheet.mkCoordinate (Q2Qc 100) (Q2Qc 100)) (Q2Qc (635 # 100))
  = inl Py.TypeError.
Proof.
  exact (layout_choice (Q2Qc (2159 # 10), Q2Qc (2794 # 10))
           (Q2Qc (2794 # 10), Q2Qc (2159 # 10))
           (Sheet.mkCoordinate (Q2Qc 100) (Q2Qc 100)) (Q2Qc (635 # 100))
           4 4
           (Sheet.page_xy 4 2 (Sheet.mkCoordinate (Q2Qc 100) (Q2Qc 100)) (Q2Qc (635 # 100)))
           (Sheet.page_xy 4 2 (Sheet.mkCoordinate (Q2Qc 100) (Q2Qc 100)) (Q2Qc (635 # 100)))
           eq_refl eq_refl).
Defined.

Section Chunks.
Import Sheet.
Context {A : Type}.

Lemma chunker_cons (fuel : nat) (a : A) (sequence : list A) (size : nat) :
  chunker (S fuel) (a :: sequence) size
  = match chunker fuel (skipn size (a :: sequence)) size with
    | Some chunks => Some (firstn size (a :: sequence) :: chunks)
    | None => None
    end.
Proof. reflexivity. Qed.

Lemma chunker_ends (size : nat) :
  0 < size ->
  forall (fuel : nat) (sequence : list A),
    List.length sequence < fuel ->
    exists chunks : list (list A),
      chunker fuel sequence size = Some chunks
      /\ List.concat chunks = sequence
      /\ Forall (fun chunk => 0 < List.length chunk <= size) chunks
      /\ (forall (front : list (list A)) (final : list A),
             chunks = front ++ [ final ] ->
             Forall (fun chunk => List.length chunk = size) front)
      /\ List.length sequence <= List.length chunks * size
      /\ List.length chunks * size < List.length sequence + size.
Proof.
  intros Hs. induction fuel as [|fuel IH]; intros sequence Hf; [lia|].
  destruct sequence as [|a sequence'].
  - exists []. simpl. split; [reflexivity|]. split; [reflexivity|].
    split; [constructor|]. split; [|lia].
    intros front final E. destruct front; discriminate E.
  - rewrite chunker_cons. remember (a :: sequence') as l eqn:El.
    assert (Hlen : 0 < List.length l) by (rewrite El; simpl; lia).
    pose proof (length_skipn size l) as Hsk.
    pose proof (length_firstn size l) as Hfi.
    destruct (IH (skipn size l) ltac:(lia))
      as (chunks & -> & Hcat & Hall & Hfront & Hlo & Hhi).
    exists (firstn size l :: chunks).
    split; [reflexivity|]. split; [simpl; rewrite Hcat; apply firstn_skipn|].
    split; [constructor; [lia|exact Hall]|]. split.
    + intros front final E. destruct front as [|c front]; [constructor|].
      simpl in E. injection E as <- E. constructor; [|now apply (Hfront front final)].
      destruct chunks as [|c0 chunks]; [destruct front; discriminate E|].
      assert (Hne : 0 < List.length (skipn size l)).
      { rewrite <- Hcat. simpl. rewrite length_app.
        inversion Hall as [|? ? Hc0 _]; subst. lia. }
      lia.
    + destruct (le_lt_dec size (List.length l)) as [Hge|Hlt]; [simpl; lia|].
      destruct chunks as [|c0 chunks]; [simpl; lia|]. exfalso.
      apply (f_equal (@List.length A)) in Hcat. simpl in Hcat.
      rewrite length_app in Hcat. inversion Hall as [|? ? Hc0 _]; subst. lia.
Qed.

Lemma chunker_loops (sequence : list A) :
  sequence <> [] -> forall fuel : nat, chunker fuel sequence 0 = None.
Proof.
  intros Hne. induction fuel as [|fuel IH]; [reflexivity|]. simpl.
  destruct sequence; [congruence|]. simpl in IH. now rewrite IH.
Qed.

End Chunks.

(** X21 (chunker in write_pdfs, layout.py lines 699-702).  For a size above
    0 the generator ends and cuts the sequence into slices that give it
    back when joined: none is empty, all but the last have the full size,
    and there are as many as the length divided by the size, rounded up.
    For the size 0 and a sequence that is not empty it never ends. *)
Theorem chunker_slices {A : Type} (sequence : list A) (size : nat) :
  (0 < size ->
   forall fuel : nat,
     List.length sequence < fuel ->
     exists chunks : list (list A),
       Sheet.chunker fuel sequence size = Some chunks
       /\ List.concat chunks = sequence
       /\ Forall (fun chunk => 0 < List.length chunk <= size) chunks
       /\ (forall (front : list (list A)) (final : list A),
              chunks = front ++ [ final ] ->
              Forall (fun chunk => List.length chunk = size) front)
       /\ List.length sequence <= List.length chunks * size
       /\ List.length chunks * size < List.length sequence + size)
  /\ (size = 0 -> sequence <> [] ->
      forall fuel : nat, Sheet.chunker fuel sequence size = None).
Proof.
  split.
  - intros Hs fuel Hf. now apply chunker_ends.
  - intros -> Hne. now apply chunker_loops.
Qed.

(** ** Regions *)

Section StoreFacts.
Import Py Raised Layout.

Lemma put_length (r : nat) (o : Object) (h : Store) :
  List.length (put r o h) = List.length h.
Proof.
  revert r. induction h as [|o' h IH]; intros r; [destruct r; reflexivity|].
  destruct r; simpl; [reflexivity|now rewrite IH].
Qed.

Lemma put_same (r : nat) (o : Object) (h : Store) :
  r < List.length h -> nth_error (put r o h) r = Some o.
Proof.
  revert r. induction h as [|o' h IH]; intros r H; simpl in H; [lia|].
  destruct r; simpl; [reflexivity|apply IH; lia].
Qed.

Lemma put_other (r r' : nat) (o : Object) (h : Store) :
  r <> r' -> nth_error (put r o h) r' = nth_error h r'.
Proof.
  revert r r'. induction h as [|o' h IH]; intros r r' H; [destruct r; reflexivity|].
  destruct r, r'; simpl; try reflexivity; [congruence|apply IH; congruence].
Qed.

Lemma put_app (r : nat) (o : Object) (h h' : Store) :
  r < List.length h -> put r o (h ++ h') = put r o h ++ h'.
Proof.
  revert r. induction h as [|o' h IH]; intros r H; simpl in H; [lia|].
  destruct r; simpl; [reflexivity|]. rewrite IH by lia. reflexivity.
Qed.

Lemma present_lt (h : Store) (r : nat) (o : Object) :
  nth_error h r = Some o -> r < List.length h.
Proof. intros H. apply nth_error_Some. congruence. Qed.

Lemma side_set (s s' : Side) (v : option Qc) (o : Object) :
  side s (set_side s' v o) = if match s, s' with
                                | X1, X1 | Y1, Y1 | X2, X2 | Y2, Y2 => true
                                | _, _ => false
                                end then v else side s o.
Proof. destruct s, s'; reflexivity. Qed.

Lemma assign_spec (s : Side) (value : Object -> Object -> error + option Qc)
      (self region : nat) (h : Store) (me it : Object) (v : option Qc) :
  nth_error h self = Some me -> nth_error h region = Some it ->
  value me it = inr v ->
  assign s value self region h = inr (tt, put region (set_side s v it) h).
Proof.
  intros Hme Hit Hv. unfold assign, andthen, read, write, try.
  now rewrite Hme, Hit, Hv, Hit.
Qed.

Lemma assign_raises (s : Side) (value : Object -> Object -> error + option Qc)
      (self region : nat) (h : Store) (me it : Object) (e : error) :
  nth_error h self = Some me -> nth_error h region = Some it ->
  value me it = inl e ->
  assign s value self region h = inl e.
Proof.
  intros Hme Hit Hv. unfold assign, andthen, read, write, try.
  now rewrite Hme, Hit, Hv.
Qed.

Lemma append_spec (self region : nat) (h : Store) (me : Object) :
  nth_error h self = Some me ->
  append self region h
  = inr (tt, put self (set_regions (regions me ++ [ region ]) me) h).
Proof.
  intros Hme. unfold append, andthen, read, write. now rewrite Hme, Hme.
Qed.

Lemma proportional_spec (h : Store) (self region : nat) (me it : Object) (a b c d : Qc) :
  nth_error h self = Some me -> nth_error h region = Some it -> self <> region ->
  x1 me = Some a -> y1 me = Some b -> x2 me = Some c -> y2 me = Some d ->
  add_region_proportional self region h
  = inr (region,
         put self (set_regions (regions me ++ [ region ]) me)
             (put region (placed a b c d it) h)).
Proof.
  intros Hme Hit Hne Ha Hb Hc Hd.
  assert (Hr : region < List.length h) by (eapply present_lt; eauto).
  unfold add_region_proportional, andthen.
  rewrite (assign_spec X1 _ self region h me it
             (Some (a + (c - a) * ratio X1 (Q2Qc 0) it)%Qc) Hme Hit).
  2:{ unfold between. cbn [side]. rewrite Ha, Hc. reflexivity. }
  set (it1 := set_side X1 _ it). set (h1 := put region it1 h).
  assert (Hme1 : nth_error h1 self = Some me)
    by (unfold h1; rewrite put_other by congruence; exact Hme).
  assert (Hit1 : nth_error h1 region = Some it1) by (unfold h1; now apply put_same).
  rewrite (assign_spec Y1 _ self region h1 me it1
             (Some (b + (d - b) * ratio Y1 (Q2Qc 0) it)%Qc) Hme1 Hit1).
  2:{ unfold between. cbn [side]. rewrite Hb, Hd. reflexivity. }
  set (it2 := set_side Y1 _ it1). set (h2 := put region it2 h1).
  assert (Hl1 : List.length h1 = List.length h) by apply put_length.
  assert (Hme2 : nth_error h2 self = Some me)
    by (unfold h2; rewrite put_other by congruence; exact Hme1).
  assert (Hit2 : nth_error h2 region = Some it2)
    by (unfold h2; apply put_same; lia).
  rewrite (assign_spec X2 _ self region h2 me it2
             (Some (a + (c - a) * ratio X2 (Q2Qc 1) it)%Qc) Hme2 Hit2).
  2:{ unfold between. cbn [side]. rewrite Ha, Hc. reflexivity. }
  set (it3 := set_side X2 _ it2). set (h3 := put region it3 h2).
  assert (Hl2 : List.length h2 = List.length h1) by apply put_length.
  assert (Hme3 : nth_error h3 self = Some me)
    by (unfold h3; rewrite put_other by congruence; exact Hme2).
  assert (Hit3 : nth_error h3 region = Some it3)
    by (unfold h3; apply put_same; lia).
  rewrite (assign_spec Y2 _ self region h3 me it3
             (Some (b + (d - b) * ratio Y2 (Q2Qc 1) it)%Qc) Hme3 Hit3).
  2:{ unfold between. cbn [side]. rewrite Hb, Hd. reflexivity. }
  set (it4 := set_side Y2 _ it3). set (h4 := put region it4 h3).
  assert (Hme4 : nth_error h4 self = Some me)
    by (unfold h4; rewrite put_other by congruence; exact Hme3).
  rewrite (append_spec self region h4 me Hme4). unfold ret.
  f_equal. f_equal. f_equal.
  assert (Hput : forall (o o' : Object) (k : Store),
             put region o (put region o' k) = put region o k).
  { clear. intros o o' k. revert region.
    induction k as [|x k IH]; intros r; [destruct r; reflexivity|].
    destruct r; simpl; [reflexivity|now rewrite IH]. }
  unfold h4, h3, h2, h1. rewrite !Hput. reflexivity.
Qed.

End StoreFacts.

Section RegionFacts.
Import Py Raised Layout.
Local Open Scope Qc_scope.

Lemma between_low (a w f : Qc) : 0 <= w -> 0 <= f -> a <= a + w * f.
Proof. intros Hw Hf. apply Qc_le_plus_r. now apply Qc_mult_nonneg. Qed.

Lemma between_mono (a w f g : Qc) : 0 <= w -> f <= g -> a + w * f <= a + w * g.
Proof.
  intros Hw Hfg. apply Qcplus_le_compat; [apply Qcle_refl|].
  rewrite (Qcmult_comm w f), (Qcmult_comm w g). now apply Qcmult_le_compat_r.
Qed.

Lemma between_high (a c f : Qc) : a <= c -> f <= 1 -> a + (c - a) * f <= c.
Proof.
  intros Hac Hf. replace c with (a + (c - a) * 1) at 2 by ring.
  apply between_mono; [|exact Hf].
  unfold Qcminus. now apply (proj1 (Qcle_minus_iff a c)).
Qed.

Lemma width_nonneg (a c : Qc) : a <= c -> 0 <= c - a.
Proof. intros H. unfold Qcminus. now apply (proj1 (Qcle_minus_iff a c)). Qed.

Lemma placed_sides (a b c d : Qc) (it : Object) :
  x1 (placed a b c d it) = Some (a + (c - a) * ratio X1 0 it)
  /\ y1 (placed a b c d it) = Some (b + (d - b) * ratio Y1 0 it)
  /\ x2 (placed a b c d it) = Some (a + (c - a) * ratio X2 1 it)
  /\ y2 (placed a b c d it) = Some (b + (d - b) * ratio Y2 1 it)
  /\ regions (placed a b c d it) = regions it
  /\ name (placed a b c d it) = name it
  /\ class (placed a b c d it) = class it.
Proof. repeat split. Qed.

Lemma inherit_spec (h : Store) (self region : nat) (me it : Object) :
  nth_error h self = Some me -> nth_error h region = Some it -> self <> region ->
  add_region self region h
  = inr (region,
         put self (set_regions (regions me ++ [ region ]) me)
             (put region
                  (set_side Y2 (match y2 it with None => y2 me | Some v => Some v end)
                     (set_side X2 (match x2 it with None => x2 me | Some v => Some v end)
                        (set_side Y1 (match y1 it with None => y1 me | Some v => Some v end)
                           (set_side X1 (match x1 it with
                                         | None => x1 me
                                         | Some v => Some v
                                         end) it)))) h)).
Proof.
  intros Hme Hit Hne.
  assert (Hr : (region < List.length h)%nat) by (eapply present_lt; eauto).
  unfold add_region, andthen.
  rewrite (assign_spec X1 _ self region h me it _ Hme Hit eq_refl).
  match goal with |- context [put region ?o h] => set (it1 := o); set (h1 := put region it1 h) end.
  assert (Hme1 : nth_error h1 self = Some me)
    by (unfold h1; rewrite put_other by congruence; exact Hme).
  assert (Hit1 : nth_error h1 region = Some it1) by (unfold h1; now apply put_same).
  rewrite (assign_spec Y1 _ self region h1 me it1 _ Hme1 Hit1 eq_refl).
  match goal with |- context [put region ?o h1] => set (it2 := o); set (h2 := put region it2 h1) end.
  assert (Hl1 : List.length h1 = List.length h) by apply put_length.
  assert (Hme2 : nth_error h2 self = Some me)
    by (unfold h2; rewrite put_other by congruence; exact Hme1).
  assert (Hit2 : nth_error h2 region = Some it2)
    by (unfold h2; apply put_same; lia).
  rewrite (assign_spec X2 _ self region h2 me it2 _ Hme2 Hit2 eq_refl).
  match goal with |- context [put region ?o h2] => set (it3 := o); set (h3 := put region it3 h2) end.
  assert (Hl2 : List.length h2 = List.length h1) by apply put_length.
  assert (Hme3 : nth_error h3 self = Some me)
    by (unfold h3; rewrite put_other by congruence; exact Hme2).
  assert (Hit3 : nth_error h3 region = Some it3)
    by (unfold h3; apply put_same; lia).
  rewrite (assign_spec Y2 _ self region h3 me it3 _ Hme3 Hit3 eq_refl).
  match goal with |- context [put region ?o h3] => set (it4 := o); set (h4 := put region it4 h3) end.
  assert (Hme4 : nth_error h4 self = Some me)
    by (unfold h4; rewrite put_other by congruence; exact Hme3).
  rewrite (append_spec self region h4 me Hme4). unfold ret.
  f_equal. f_equal. f_equal.
  assert (Hput : forall (o o' : Object) (k : Store),
             put region o (put region o' k) = put region o k).
  { clear. intros o o' k. revert region.
    induction k as [|x k IH]; intros r; [destruct r; reflexivity|].
    destruct r; simpl; [reflexivity|now rewrite IH]. }
  unfold h4, h3, h2, h1. rewrite !Hput. reflexivity.
Qed.

Lemma put_frame (h : Store) (self region other : nat) (o o' : Object) :
  other <> self -> other <> region ->
  nth_error (put self o (put region o' h)) other = nth_error h other.
Proof. intros H1 H2. rewrite !put_other by congruence. reflexivity. Qed.

End RegionFacts.

(** X22 (Region.add_region_proportional, layout.py lines 79-85).  A region
    placed by its ratios lies within the region it is placed in: when
    [self] has its four sides, with the first not beyond the second each
    way, and the ratios of the region (0 and 1 where none is given) run
    from 0 to 1 in order, the call returns the region with four sides
    within those of [self]; [self] has it as its last region and keeps its
    own sides, and no other object of the store is touched. *)
Theorem proportional_inside
        (h : Layout.Store) (self region : nat) (me it : Layout.Object) (a b c d : Qc) :
  nth_error h self = Some me -> nth_error h region = Some it -> self <> region ->
  Layout.x1 me = Some a -> Layout.y1 me = Some b ->
  Layout.x2 me = Some c -> Layout.y2 me = Some d ->
  (a <= c)%Qc -> (b <= d)%Qc ->
  (Q2Qc 0 <= Layout.ratio Layout.X1 (Q2Qc 0) it)%Qc ->
  (Layout.ratio Layout.X1 (Q2Qc 0) it <= Layout.ratio Layout.X2 (Q2Qc 1) it)%Qc ->
  (Layout.ratio Layout.X2 (Q2Qc 1) it <= Q2Qc 1)%Qc ->
  (Q2Qc 0 <= Layout.ratio Layout.Y1 (Q2Qc 0) it)%Qc ->
  (Layout.ratio Layout.Y1 (Q2Qc 0) it <= Layout.ratio Layout.Y2 (Q2Qc 1) it)%Qc ->
  (Layout.ratio Layout.Y2 (Q2Qc 1) it <= Q2Qc 1)%Qc ->
  exists (h' : Layout.Store) (it' me' : Layout.Object) (left top right bottom : Qc),
    Layout.add_region_proportional self region h = inr (region, h')
    /\ nth_error h' region = Some it'
    /\ Layout.x1 it' = Some left /\ Layout.y1 it' = Some top
    /\ Layout.x2 it' = Some right /\ Layout.y2 it' = Some bottom
    /\ (a <= left)%Qc /\ (left <= right)%Qc /\ (right <= c)%Qc
    /\ (b <= top)%Qc /\ (top <= bottom)%Qc /\ (bottom <= d)%Qc
    /\ nth_error h' self = Some me'
    /\ Layout.regions me' = Layout.regions me ++ [ region ]
    /\ Layout.x1 me' = Some a /\ Layout.y1 me' = Some b
    /\ Layout.x2 me' = Some c /\ Layout.y2 me' = Some d
    /\ forall other : nat,
        other <> self -> other <> region -> nth_error h' other = nth_error h other.
Proof.
  intros Hme Hit Hne Ha Hb Hc Hd Hac Hbd Hx0 Hx1 Hx2 Hy0 Hy1 Hy2.
  pose proof (present_lt _ _ _ Hme) as Hs. pose proof (present_lt _ _ _ Hit) as Hr.
  pose proof (width_nonneg a c Hac) as Hw. pose proof (width_nonneg b d Hbd) as Hh.
  eexists _, (Layout.placed a b c d it), _, _, _, _, _.
  split; [exact (proportional_spec h self region me it a b c d Hme Hit Hne Ha Hb Hc Hd)|].
  split; [rewrite put_other by congruence; now apply put_same|].
  do 4 (split; [reflexivity|]).
  split; [now apply between_low|]. split; [now apply between_mono|].
  split; [now apply between_high|].
  split; [now apply between_low|]. split; [now apply between_mono|].
  split; [now apply between_high|].
  split; [apply put_same; now rewrite put_length|].
  split; [reflexivity|]. cbn [Layout.set_regions Layout.x1 Layout.y1 Layout.x2 Layout.y2].
  do 4 (split; [assumption|]).
  intros other H1 H2. now apply put_frame.
Qed.

Lemma proportional_inside_witness :
  exists (h' : Layout.Store) (it' me' : Layout.Object) (left top right bottom : Qc),
    Layout.add_region_proportional 0 1 Samples.store = inr (1, h')
    /\ nth_error h' 1 = Some it'
    /\ Layout.x1 it' = Some left /\ Layout.y1 it' = Some top
    /\ Layout.x2 it' = Some right /\ Layout.y2 it' = Some bottom
    /\ (Q2Qc 0 <= left)%Qc /\ (left <= right)%Qc /\ (right <= Q2Qc 10)%Qc
    /\ (Q2Qc 0 <= top)%Qc /\ (top <= bottom)%Qc /\ (bottom <= Q2Qc 20)%Qc
    /\ nth_error h' 0 = Some me'
    /\ Layout.regions me' = [] ++ [ 1 ]
    /\ Layout.x1 me' = Some (Q2Qc 0) /\ Layout.y1 me' = Some (Q2Qc 0)
    /\ Layout.x2 me' = Some (Q2Qc 10) /\ Layout.y2 me' = Some (Q2Qc 20)
    /\ forall other : nat,
        other <> 0 -> other <> 1 -> nth_error h' other = nth_error Samples.store other.
Proof.
  apply (proportional_inside Samples.store 0 1
           (Layout.plain Layout.BoxClass "box" (Some (Q2Qc 0)) (Some (Q2Qc 0))
                         (Some (Q2Qc 10)) (Some (Q2Qc 20)) None)
           (Layout.Text "quarter" (Layout.frac 1 2) (Layout.frac 1 2) None None None
                        None None None None None None None false false false)
           (Q2Qc 0) (Q2Qc 0) (Q2Qc 10) (Q2Qc 20));
    first [reflexivity | discriminate | qc_le].
Defined.

Section Nesting.
Import Py Raised Layout.
Local Open Scope Qc_scope.

Lemma nested_spec (h : Store) (self region inner : nat) (me it g : Object)
      (a b c d : Qc) :
  nth_error h self = Some me -> nth_error h region = Some it ->
  nth_error h inner = Some g ->
  self <> region -> self <> inner -> region <> inner ->
  x1 me = Some a -> y1 me = Some b -> x2 me = Some c -> y2 me = Some d ->
  exists h1 h2 : Store,
    add_region_proportional self region h = inr (region, h1)
    /\ add_region_proportional region inner h1 = inr (inner, h2)
    /\ nth_error h2 inner
       = Some (placed (a + (c - a) * ratio X1 0 it) (b + (d - b) * ratio Y1 0 it)
                      (a + (c - a) * ratio X2 1 it) (b + (d - b) * ratio Y2 1 it) g).
Proof.
  intros Hme Hit Hg H1 H2 H3 Ha Hb Hc Hd.
  pose proof (present_lt _ _ _ Hme) as Ls. pose proof (present_lt _ _ _ Hit) as Lr.
  pose proof (present_lt _ _ _ Hg) as Lg.
  eexists _, _.
  split; [exact (proportional_spec h self region me it a b c d Hme Hit H1 Ha Hb Hc Hd)|].
  set (h1 := put self _ (put region _ h)).
  assert (Hit1 : nth_error h1 region = Some (placed a b c d it)).
  { unfold h1. rewrite put_other by congruence. now apply put_same. }
  assert (Hg1 : nth_error h1 inner = Some g).
  { unfold h1. rewrite !put_other by congruence. exact Hg. }
  split.
  - exact (proportional_spec h1 region inner (placed a b c d it) g
             (a + (c - a) * ratio X1 0 it) (b + (d - b) * ratio Y1 0 it)
             (a + (c - a) * ratio X2 1 it) (b + (d - b) * ratio Y2 1 it)
             Hit1 Hg1 H3 eq_refl eq_refl eq_refl eq_refl).
  - rewrite put_other by congruence. apply put_same.
    unfold h1. now rewrite !put_length.
Qed.

End Nesting.

(** X23 (Region.add_region_proportional, layout.py lines 79-85).  Placing by
    ratios composes: a region placed in a region that was itself placed in
    [self] gets the sides it would get in [self] directly at the composed
    ratios, the ratio of the outer region's first side plus its own ratio
    of the way from there to the outer region's second side. *)
Theorem proportional_nested
        (h : Layout.Store) (self region inner : nat) (me it g : Layout.Object)
        (a b c d : Qc) :
  nth_error h self = Some me -> nth_error h region = Some it ->
  nth_error h inner = Some g ->
  self <> region -> self <> inner -> region <> inner ->
  Layout.x1 me = Some a -> Layout.y1 me = Some b ->
  Layout.x2 me = Some c -> Layout.y2 me = Some d ->
  exists (h1 h2 : Layout.Store) (g' : Layout.Object),
    Layout.add_region_proportional self region h = inr (region, h1)
    /\ Layout.add_region_proportional region inner h1 = inr (inner, h2)
    /\ nth_error h2 inner = Some g'
    /\ Layout.x1 g'
       = Some (a + (c - a)
                   * (Layout.ratio Layout.X1 (Q2Qc 0) it
                      + (Layout.ratio Layout.X2 (Q2Qc 1) it
                         - Layout.ratio Layout.X1 (Q2Qc 0) it)
                        * Layout.ratio Layout.X1 (Q2Qc 0) g))%Qc
    /\ Layout.x2 g'
       = Some (a + (c - a)
                   * (Layout.ratio Layout.X1 (Q2Qc 0) it
                      + (Layout.ratio Layout.X2 (Q2Qc 1) it
                         - Layout.ratio Layout.X1 (Q2Qc 0) it)
                        * Layout.ratio Layout.X2 (Q2Qc 1) g))%Qc
    /\ Layout.y1 g'
       = Some (b + (d - b)
                   * (Layout.ratio Layout.Y1 (Q2Qc 0) it
                      + (Layout.ratio Layout.Y2 (Q2Qc 1) it
                         - Layout.ratio Layout.Y1 (Q2Qc 0) it)
                        * Layout.ratio Layout.Y1 (Q2Qc 0) g))%Qc
    /\ Layout.y2 g'
       = Some (b + (d - b)
                   * (Layout.ratio Layout.Y1 (Q2Qc 0) it
                      + (Layout.ratio Layout.Y2 (Q2Qc 1) it
                         - Layout.ratio Layout.Y1 (Q2Qc 0) it)
                        * Layout.ratio Layout.Y2 (Q2Qc 1) g))%Qc.
Proof.
  intros Hme Hit Hg H1 H2 H3 Ha Hb Hc Hd.
  destruct (nested_spec h self region inner me it g a b c d
              Hme Hit Hg H1 H2 H3 Ha Hb Hc Hd) as (h1 & h2 & E1 & E2 & E3).
  exists h1, h2. eexists. split; [exact E1|]. split; [exact E2|]. split; [exact E3|].
  cbn [Layout.placed Layout.set_side Layout.x1 Layout.x2 Layout.y1 Layout.y2].
  repeat split; f_equal; ring.
Qed.

Lemma proportional_nested_witness :
  exists (h1 h2 : Layout.Store) (g' : Layout.Object),
    Layout.add_region_proportional 0 1 Samples.store = inr (1, h1)
    /\ Layout.add_region_proportional 1 2 h1 = inr (2, h2)
    /\ nth_error h2 2 = Some g'
    /\ Layout.x1 g'
       = Some (Q2Qc 0 + (Q2Qc 10 - Q2Qc 0)
                        * (Q2Qc (1 # 2) + (Q2Qc 1 - Q2Qc (1 # 2)) * Q2Qc (1 # 4)))%Qc
    /\ Layout.x2 g'
       = Some (Q2Qc 0 + (Q2Qc 10 - Q2Qc 0)
                        * (Q2Qc (1 # 2) + (Q2Qc 1 - Q2Qc (1 # 2)) * Q2Qc (3 # 4)))%Qc
    /\ Layout.y1 g'
       = Some (Q2Qc 0 + (Q2Qc 20 - Q2Qc 0)
                        * (Q2Qc (1 # 2) + (Q2Qc 1 - Q2Qc (1 # 2)) * Q2Qc (1 # 4)))%Qc
    /\ Layout.y2 g'
       = Some (Q2Qc 0 + (Q2Qc 20 - Q2Qc 0)
                        * (Q2Qc (1 # 2) + (Q2Qc 1 - Q2Qc (1 # 2)) * Q2Qc (3 # 4)))%Qc.
Proof.
  exact (proportional_nested Samples.store 0 1 2 _ _ _ (Q2Qc 0) (Q2Qc 0) (Q2Qc 10) (Q2Qc 20)
           eq_refl eq_refl eq_refl ltac:(discriminate) ltac:(discriminate)
           ltac:(discriminate) eq_refl eq_refl eq_refl eq_refl).
Defined.

Section Defaults.
Import Py Raised Layout.

Lemma relative_raises (h : Store) (self region : nat) (me it : Object) :
  nth_error h self = Some me -> nth_error h region = Some it ->
  x1 it = None ->
  add_region_relative self region h = inl (Exn TypeError).
Proof.
  intros Hme Hit Hx. unfold add_region_relative, andthen.
  rewrite (assign_raises X1 _ self region h me it (Exn TypeError) Hme Hit); [reflexivity|].
  unfold shifted. cbn [side]. rewrite Hx. reflexivity.
Qed.

End Defaults.

(** X24 (Region.add_region, add_region_relative and add_region_proportional,
    layout.py lines 62-85).  A region made with no side at all, with the
    sides read as exact rationals: in a [self] that has its four sides,
    [add_region] and [add_region_proportional] both give it exactly the
    sides of [self], and [add_region_relative] raises [TypeError], for it
    adds to what is [None]. *)
Theorem region_without_sides
        (h : Layout.Store) (self region : nat) (me it : Layout.Object) (a b c d : Qc) :
  nth_error h self = Some me -> nth_error h region = Some it -> self <> region ->
  Layout.x1 me = Some a -> Layout.y1 me = Some b ->
  Layout.x2 me = Some c -> Layout.y2 me = Some d ->
  Layout.x1 it = None -> Layout.y1 it = None ->
  Layout.x2 it = None -> Layout.y2 it = None ->
  (exists (h' : Layout.Store) (it' : Layout.Object),
      Layout.add_region self region h = inr (region, h')
      /\ nth_error h' region = Some it'
      /\ Layout.x1 it' = Some a /\ Layout.y1 it' = Some b
      /\ Layout.x2 it' = Some c /\ Layout.y2 it' = Some d)
  /\ (exists (h' : Layout.Store) (it' : Layout.Object),
         Layout.add_region_proportional self region h = inr (region, h')
         /\ nth_error h' region = Some it'
         /\ Layout.x1 it' = Some a /\ Layout.y1 it' = Some b
         /\ Layout.x2 it' = Some c /\ Layout.y2 it' = Some d)
  /\ Layout.add_region_relative self region h = inl (Raised.Exn Py.TypeError).
Proof.
  intros Hme Hit Hne Ha Hb Hc Hd Ia Ib Ic Id.
  pose proof (present_lt _ _ _ Hit) as Lr.
  split; [|split].
  - eexists _, _. split; [exact (inherit_spec h self region me it Hme Hit Hne)|].
    split; [rewrite put_other by congruence; now apply put_same|].
    cbn [Layout.set_side Layout.x1 Layout.x2 Layout.y1 Layout.y2].
    rewrite Ia, Ib, Ic, Id. auto.
  - eexists _, _.
    split; [exact (proportional_spec h self region me it a b c d Hme Hit Hne Ha Hb Hc Hd)|].
    split; [rewrite put_other by congruence; now apply put_same|].
    cbn [Layout.placed Layout.set_side Layout.x1 Layout.x2 Layout.y1 Layout.y2].
    unfold Layout.ratio. cbn [Layout.side]. rewrite Ia, Ib, Ic, Id.
    repeat split; f_equal; ring.
  - exact (relative_raises h self region me it Hme Hit Ia).
Qed.

Lemma region_without_sides_witness :
  (exists (h' : Layout.Store) (it' : Layout.Object),
      Layout.add_region 0 3 Samples.store = inr (3, h')
      /\ nth_error h' 3 = Some it'
      /\ Layout.x1 it' = Some (Q2Qc 0) /\ Layout.y1 it' = Some (Q2Qc 0)
      /\ Layout.x2 it' = Some (Q2Qc 10) /\ Layout.y2 it' = Some (Q2Qc 20))
  /\ (exists (h' : Layout.Store) (it' : Layout.Object),
         Layout.add_region_proportional 0 3 Samples.store = inr (3, h')
         /\ nth_error h' 3 = Some it'
         /\ Layout.x1 it' = Some (Q2Qc 0) /\ Layout.y1 it' = Some (Q2Qc 0)
         /\ Layout.x2 it' = Some (Q2Qc 10) /\ Layout.y2 it' = Some (Q2Qc 20))
  /\ Layout.add_region_relative 0 3 Samples.store = inl (Raised.Exn Py.TypeError).
Proof.
  exact (region_without_sides Samples.store 0 3 _ _ (Q2Qc 0) (Q2Qc 0) (Q2Qc 10) (Q2Qc 20)
           eq_refl eq_refl ltac:(discriminate) eq_refl eq_refl eq_refl eq_refl
           eq_refl eq_refl eq_refl eq_refl).
Defined.

(** ** The layout of a card *)

Section CardFacts.
Import Py Raised Layout.
Local Open Scope Qc_scope.

Lemma andthen_inr {A B : Type} (m : M A) (k : A -> M B) (h h' : Store) (a : A) :
  m h = inr (a, h') -> andthen m k h = k a h'.
Proof. intros H. unfold andthen. now rewrite H. Qed.

Lemma put_put (r : nat) (o o' : Object) (k : Store) :
  put r o (put r o' k) = put r o k.
Proof.
  revert r. induction k as [|x k IH]; intros r; [destruct r; reflexivity|].
  destruct r; simpl; [reflexivity|now rewrite IH].
Qed.

Lemma put_id (r : nat) (o : Object) (h : Store) :
  nth_error h r = Some o -> put r o h = h.
Proof.
  revert r. induction h as [|x h IH]; intros r H; [destruct r; reflexivity|].
  destruct r; simpl in *; [congruence|]. now rewrite IH.
Qed.

Lemma put_end (o o' : Object) (h : Store) :
  put (List.length h) o (h ++ [ o' ]) = h ++ [ o ].
Proof. induction h as [|x h IH]; simpl; [reflexivity|now rewrite IH]. Qed.

Lemma set_regions_twice (rs rs' : list nat) (o : Object) :
  set_regions rs (set_regions rs' o) = set_regions rs o.
Proof. reflexivity. Qed.

Lemma set_regions_same (o : Object) : set_regions (regions o) o = o.
Proof. now destruct o. Qed.

(** An object made and placed at once. *)
Lemma place_spec (h : Store) (self : nat) (me o : Object) (a b c d : Qc) :
  nth_error h self = Some me ->
  x1 me = Some a -> y1 me = Some b -> x2 me = Some c -> y2 me = Some d ->
  (word <- alloc o ;; add_region_proportional self word ;;; ret tt) h
  = inr (tt, put self (set_regions (regions me ++ [ List.length h ]) me)
                 (h ++ [ placed a b c d o ])).
Proof.
  intros Hme Ha Hb Hc Hd. pose proof (present_lt _ _ _ Hme) as Hlt.
  unfold andthen at 1, alloc.
  rewrite (andthen_inr _ _ _ _ _
             (proportional_spec (h ++ [ o ]) self (List.length h) me o a b c d
                ltac:(rewrite nth_error_app1 by exact Hlt; exact Hme)
                ltac:(rewrite nth_error_app2, Nat.sub_diag by apply Nat.le_refl;
                      reflexivity)
                ltac:(apply Nat.lt_neq; exact Hlt) Ha Hb Hc Hd)).
  unfold ret. now rewrite put_end.
Qed.

(** A loop that makes an object at each turn and places it in [self]. *)
Lemma fill_spec {A : Type} (body : A -> M unit) (g : A -> Object) (self : nat)
      (a b c d : Qc) (l : list A) :
  forall (h : Store) (me : Object),
    (forall (x : A) (k : Store),
        In x l ->
        body x k = (word <- alloc (g x) ;; add_region_proportional self word ;;; ret tt) k) ->
    nth_error h self = Some me ->
    x1 me = Some a -> y1 me = Some b -> x2 me = Some c -> y2 me = Some d ->
    for_each l body h
    = inr (tt, put self (set_regions (regions me ++ seq (List.length h) (List.length l)) me)
                   (h ++ map (fun x => placed a b c d (g x)) l)).
Proof.
  induction l as [|x l IH]; intros h me Hbody Hme Ha Hb Hc Hd.
  - cbn [for_each List.length seq map]. unfold ret.
    now rewrite !app_nil_r, set_regions_same, (put_id _ _ _ Hme).
  - pose proof (present_lt _ _ _ Hme) as Hlt.
    cbn [for_each].
    rewrite (andthen_inr _ _ h _ tt
               (eq_trans (Hbody x h (or_introl eq_refl))
                         (place_spec h self me (g x) a b c d Hme Ha Hb Hc Hd))).
    rewrite (IH _ (set_regions (regions me ++ [ List.length h ]) me));
      [|intros y k Hy; apply Hbody; now right
       |apply put_same; rewrite length_app; simpl; lia|assumption..].
    f_equal. f_equal.
    rewrite set_regions_twice, put_length, length_app. cbn [List.length regions set_regions].
    rewrite <- put_app by (rewrite length_app; simpl; lia).
    rewrite put_put, <- !app_assoc. cbn [app map seq].
    now rewrite Nat.add_1_r.
Qed.

Lemma for_each_app {A : Type} (body : A -> M unit) (l l' : list A) :
  forall h : Store,
    for_each (l ++ l') body h = (for_each l body ;;; for_each l' body) h.
Proof.
  induction l as [|x l IH]; intros h; [reflexivity|].
  rewrite <- app_comm_cons. cbn [for_each]. unfold andthen. destruct (body x h) as [e|[u k]]; [reflexivity|].
  apply IH.
Qed.

Lemma for_each_map {A B : Type} (f : A -> B) (body : B -> M unit) (l : list A) :
  forall h : Store,
    for_each (map f l) body h = for_each l (fun x => body (f x)) h.
Proof.
  induction l as [|x l IH]; intros h; [reflexivity|].
  cbn [map for_each]. unfold andthen. destruct (body (f x) h) as [e|[u k]]; [reflexivity|].
  apply IH.
Qed.

Lemma for_each_flat {A B : Type} (body : A -> B -> M unit) (l : list A) (l' : list B) :
  forall h : Store,
    for_each l (fun r => for_each l' (fun c => body r c)) h
    = for_each (list_prod l l') (fun p => body (fst p) (snd p)) h.
Proof.
  induction l as [|x l IH]; intros h; [reflexivity|].
  cbn [list_prod for_each]. rewrite for_each_app. unfold andthen.
  rewrite for_each_map. cbn [fst snd].
  destruct (for_each l' (fun c => body x c) h) as [e|[u k]]; [reflexivity|].
  apply IH.
Qed.

End CardFacts.

Section CardStore.
Import Py Raised Layout.
Local Open Scope Qc_scope.
Variable COLOR : list string.
Variable MNEM_ROWS_COLS : nat -> option (nat * nat).
Variable int_16 : string -> exn + Z.
Variable FONTS : string -> option string.

Lemma colour_spec (c_n : nat) :
  COLOR <> [] -> (forall s : string, In s COLOR -> exists z : Z, int_16 s = inr z) ->
  exists z : Z, colour COLOR int_16 c_n = inr z.
Proof.
  intros Hne Hall. unfold colour. destruct COLOR as [|s l] eqn:E; [congruence|].
  destruct (nth_error (s :: l) (c_n mod List.length (s :: l))) as [t|] eqn:Ht.
  - destruct (Hall t (nth_error_In _ _ Ht)) as [z Hz]. exists z. now rewrite Hz.
  - apply nth_error_None in Ht.
    pose proof (Nat.mod_upper_bound c_n (List.length (s :: l)) ltac:(discriminate)). lia.
Qed.

Lemma of_nat_nonzero (n : nat) : (0 < n)%nat -> Qc_eq_bool (of_nat n) 0 = false.
Proof.
  intros H. unfold Qc_eq_bool. destruct (Qc_eq_dec (of_nat n) 0) as [E|E]; [|reflexivity].
  exfalso. unfold of_nat in E. apply Q2Qc_eq_iff in E.
  apply (proj1 (inject_Z_injective _ 0%Z)) in E. lia.
Qed.

Lemma cell_spec (rows cols r c : nat) :
  (0 < rows)%nat -> (0 < cols)%nat ->
  mnemonic_cell rows cols r c
  = inr (Text ("mnem-" ++ PyStr.decimal (c * rows + r))
              (Some (of_nat c / of_nat cols)) (Some (of_nat r / of_nat rows))
              (Some (of_nat (c + 1) / of_nat cols)) (Some (of_nat (r + 1) / of_nat rows))
              None (Some "mono") None None (Some (Q2Qc (9 # 16))) None None None
              false false false).
Proof.
  intros Hr Hc. unfold mnemonic_cell, truediv.
  rewrite (of_nat_nonzero _ Hr), (of_nat_nonzero _ Hc). reflexivity.
Qed.

Variable shade : nat -> Z.
Hypothesis Hshade : forall c_n, colour COLOR int_16 c_n = inr (shade c_n).

Ltac store :=
  cbv beta;
  match goal with
  | |- ?p ?h = _ =>
      let h' := eval cbv -[Qcplus Qcminus Qcmult Qcopp Q2Qc Qcdiv Sheet.x Sheet.y] in h in
      change (p h) with (p h')
  end.

Ltac made :=
  match goal with
  | |- andthen (alloc ?o) ?k ?h = _ =>
      let n := eval cbv in (List.length h) in
      rewrite (andthen_inr (alloc o) k h (h ++ [ o ]) n eq_refl); store
  end.

Ltac added :=
  match goal with
  | |- andthen (add_region_proportional ?s ?r) ?k ?h = _ =>
      rewrite (andthen_inr (add_region_proportional s r) k h _ r
                 (proportional_spec h s r _ _ _ _ _ _ eq_refl eq_refl
                    ltac:(discriminate) eq_refl eq_refl eq_refl eq_refl)); store
  end.

Ltac squared :=
  match goal with
  | |- andthen (assign ?s ?v ?r ?r) ?k ?h = _ =>
      rewrite (andthen_inr (assign s v r r) k h _ tt
                 (assign_spec s v r r h _ _ _ eq_refl eq_refl eq_refl)); store
  end.

Lemma elements_eq (fuel : nat) (h : Store) (self : nat) :
  elements FONTS (S fuel) h self
  = match nth_error h self with
    | None => Some ([], Some IndexError)
    | Some me =>
        if is_region (class me) then gather (elements FONTS fuel h) (regions me)
        else match element FONTS me with
             | inl e => Some ([], Some e)
             | inr d =>
                 match gather (elements FONTS fuel h) (regions me) with
                 | None => None
                 | Some (ds, e) => Some (d :: ds, e)
                 end
             end
    end.
Proof. reflexivity. Qed.

Lemma element_ok (o : Object) (a b c d : Qc) :
  x1 o = Some a -> y1 o = Some b -> x2 o = Some c -> y2 o = Some d ->
  exists e : Element, element FONTS o = inr e /\ el_name e = name o.
Proof.
  intros Ha Hb Hc Hd.
  unfold element, text_element, region_element, optional.
  rewrite Ha, Hb, Hc, Hd. cbn [number bind].
  destruct (class o); try (eexists; split; reflexivity).
  destruct (text o), (bold o), (italic o), (underline o), (align o), (foreground o),
    (background o); eexists; split; reflexivity.
Qed.

(** The objects from [start] on that hold no region and are no plain
    [Region] give one element each. *)
Lemma gather_leaves (h : Store) (k : nat) (os : list Object) :
  forall start : nat,
    (forall (j : nat) (o : Object),
        nth_error os j = Some o -> nth_error h (start + j) = Some o) ->
    (forall o : Object,
        In o os ->
        is_region (class o) = false /\ regions o = []
        /\ exists a b c d : Qc,
            x1 o = Some a /\ y1 o = Some b /\ x2 o = Some c /\ y2 o = Some d) ->
    exists ds : list Element,
      gather (elements FONTS (S k) h) (seq start (List.length os)) = Some (ds, None)
      /\ map el_name ds = map name os.
Proof.
  induction os as [|o os IH]; intros start Hat Hall; [exists []; now split|].
  destruct (Hall o (or_introl eq_refl)) as (Hc & Hr & a & b & c & d & Ha & Hb & Hc' & Hd).
  destruct (element_ok o a b c d Ha Hb Hc' Hd) as (e & He & Hn).
  destruct (IH (S start)) as (ds & Hds & Hnames).
  - intros j o' Hj. replace (S start + j)%nat with (start + S j)%nat by lia.
    now apply Hat.
  - intros o' Ho'. apply Hall. now right.
  - exists (e :: ds). split; [|cbn [map]; now rewrite Hn, Hnames].
    cbn [List.length seq gather]. rewrite elements_eq.
    rewrite <- (Nat.add_0_r start) at 1. rewrite (Hat 0%nat o eq_refl).
    rewrite Hc, He, Hr. cbn [gather]. now rewrite Hds.
Qed.

(** The card before the words are laid out: the 27 objects made by then,
    the region of the words among them, and the two images. *)
Lemma card_fixed (card_size : Sheet.Coordinate) (card_margin : Qc) :
  exists (base : Store) (me qr1 qr2 : Object),
    (forall num_mnemonics : nat,
        layout_card COLOR MNEM_ROWS_COLS int_16 card_size card_margin num_mnemonics []
        = match MNEM_ROWS_COLS num_mnemonics with
          | None => inl AssertionError
          | Some (rows, cols) =>
              (for_each (seq 0 rows)
                 (fun r =>
                    for_each (seq 0 cols)
                      (fun c =>
                         cell <- try (mnemonic_cell rows cols r c) ;;
                         word <- alloc cell ;;
                         add_region_proportional 20 word ;;;
                         ret tt)) ;;;
               ret 0%nat) base
          end)
    /\ List.length base = 27%nat
    /\ nth_error base 20 = Some me
    /\ nth_error base 21 = Some qr1
    /\ nth_error base 22 = Some qr2
    /\ x1 me = Some card_margin
    /\ y1 me = Some (card_margin
                     + (Sheet.y card_size - card_margin - card_margin) * Q2Qc (1 # 4))
    /\ x2 me = Some (card_margin
                     + (Sheet.x card_size - card_margin - card_margin) * Q2Qc (13 # 16))
    /\ y2 me = Some (Sheet.y card_size - card_margin)
    /\ name qr1 = "card-qr1" /\ class qr1 = ImageClass
    /\ name qr2 = "card-qr2" /\ class qr2 = ImageClass
    /\ x1 qr1 = x2 me /\ x2 qr1 = Some (Sheet.x card_size - card_margin)
    /\ y1 qr1 = y1 me
    /\ y2 qr1 = Some (card_margin
                      + (Sheet.y card_size - card_margin - card_margin) * Q2Qc (1 # 4)
                      + (Sheet.x card_size - card_margin
                         - (card_margin
                            + (Sheet.x card_size - card_margin - card_margin)
                              * Q2Qc (13 # 16))))
    /\ x1 qr2 = x2 me /\ x2 qr2 = Some (Sheet.x card_size - card_margin)
    /\ y2 qr2 = y2 me
    /\ y1 qr2 = Some (Sheet.y card_size - card_margin
                      - (Sheet.x card_size - card_margin
                         - (card_margin
                            + (Sheet.x card_size - card_margin - card_margin)
                              * Q2Qc (13 # 16))))
    /\ forall (k : nat) (words : list Object) (rs : list nat) (ds : list Element),
        gather (elements FONTS (S k)
                  (put 20 (set_regions (regions me ++ rs) me) (base ++ words))) rs
        = Some (ds, None) ->
        exists all : list Element,
          elements FONTS (5 + k)
            (put 20 (set_regions (regions me ++ rs) me) (base ++ words)) 0
          = Some (all, None)
          /\ map el_name all
             = "card" :: map (fun c_n => ("card-g" ++ PyStr.decimal c_n)%string) (seq 0 16)
                ++ [ "card-title"; "card-requires"; "card-crypto1"; "card-crypto2" ]
                ++ map el_name ds ++ [ "card-qr1"; "card-qr2" ].
Proof.
  do 4 eexists. split.
  - intros num. unfold layout_card.
    cbn -[Qcplus Qcminus Qcmult Qcopp Q2Qc Qcdiv colour for_each mnemonic_cell].
    match goal with
    | |- andthen (for_each ?l ?body) ?k ?h = _ =>
        rewrite (andthen_inr (for_each l body) k h _ tt
                   (fill_spec body
                      (fun c_n => Text ("card-g" ++ PyStr.decimal c_n)
                          (frac 1 8) (frac (-1) 16) (frac 7 8) (frac 5 16)
                          (Some (Q2Qc (-45))) None None None None None
                          (Some (shade c_n)) None false false false)
                      1 _ _ _ _ l h _
                      ltac:(intros x k' _; unfold andthen at 1, try; rewrite Hshade;
                            reflexivity)
                      eq_refl eq_refl eq_refl eq_refl eq_refl))
    end.
    store.
    made. added. made. added. made. added. made. added. squared.
    made. added. squared. made. added. made. added. made. added. made. added.
    destruct (MNEM_ROWS_COLS num) as [[rows cols]|]; reflexivity.
  - do 4 (split; [reflexivity|]).
    cbn [x1 y1 x2 y2 name class].
    repeat (split; [first [reflexivity | f_equal; ring]|]).
    intros k words rs ds E. eexists.
    cbv -[elements Qcplus Qcminus Qcmult Qcopp Q2Qc Qcdiv Sheet.x Sheet.y Qc_eq_bool] in E.
    split.
    + cbv -[elements Qcplus Qcminus Qcmult Qcopp Q2Qc Qcdiv Sheet.x Sheet.y Qc_eq_bool].
      repeat (rewrite elements_eq;
              cbv -[elements Qcplus Qcminus Qcmult Qcopp Q2Qc Qcdiv Sheet.x Sheet.y
                    Qc_eq_bool]).
      rewrite E.
      repeat (rewrite elements_eq;
              cbv -[elements Qcplus Qcminus Qcmult Qcopp Q2Qc Qcdiv Sheet.x Sheet.y
                    Qc_eq_bool]).
      fold (@List.app Element). rewrite !app_nil_r. reflexivity.
    + cbn [map el_name app seq]. rewrite map_app. reflexivity.
Qed.

(** The card with its words. *)
Lemma card_laid (card_size : Sheet.Coordinate) (card_margin : Qc)
      (num_mnemonics rows cols : nat) :
  MNEM_ROWS_COLS num_mnemonics = Some (rows, cols) ->
  exists (base : Store) (me qr1 qr2 : Object),
    layout_card COLOR MNEM_ROWS_COLS int_16 card_size card_margin num_mnemonics []
    = inr (0%nat,
           put 20
             (set_regions
                (regions me
                 ++ seq 27 (List.length (list_prod (seq 0 rows) (seq 0 cols)))) me)
             (base
              ++ map (fun p =>
                        placed card_margin
                          (card_margin
                           + (Sheet.y card_size - card_margin - card_margin) * Q2Qc (1 # 4))
                          (card_margin
                           + (Sheet.x card_size - card_margin - card_margin)
                             * Q2Qc (13 # 16))
                          (Sheet.y card_size - card_margin)
                          (Text ("mnem-" ++ PyStr.decimal (snd p * rows + fst p))
                                (Some (of_nat (snd p) / of_nat cols))
                                (Some (of_nat (fst p) / of_nat rows))
                                (Some (of_nat (snd p + 1) / of_nat cols))
                                (Some (of_nat (fst p + 1) / of_nat rows))
                                None (Some "mono") None None (Some (Q2Qc (9 # 16)))
                                None None None false false false))
                    (list_prod (seq 0 rows) (seq 0 cols))))
    /\ List.length base = 27%nat
    /\ nth_error base 20 = Some me
    /\ nth_error base 21 = Some qr1
    /\ nth_error base 22 = Some qr2
    /\ name qr1 = "card-qr1" /\ class qr1 = ImageClass
    /\ name qr2 = "card-qr2" /\ class qr2 = ImageClass
    /\ x1 qr1 = Some (card_margin
                      + (Sheet.x card_size - card_margin - card_margin) * Q2Qc (13 # 16))
    /\ x2 qr1 = Some (Sheet.x card_size - card_margin)
    /\ y1 qr1 = Some (card_margin
                      + (Sheet.y card_size - card_margin - card_margin) * Q2Qc (1 # 4))
    /\ y2 qr1 = Some (card_margin
                      + (Sheet.y card_size - card_margin - card_margin) * Q2Qc (1 # 4)
                      + (Sheet.x card_size - card_margin
                         - (card_margin
                            + (Sheet.x card_size - card_margin - card_margin)
                              * Q2Qc (13 # 16))))
    /\ x1 qr2 = Some (card_margin
                      + (Sheet.x card_size - card_margin - card_margin) * Q2Qc (13 # 16))
    /\ x2 qr2 = Some (Sheet.x card_size - card_margin)
    /\ y2 qr2 = Some (Sheet.y card_size - card_margin)
    /\ y1 qr2 = Some (Sheet.y card_size - card_margin
                      - (Sheet.x card_size - card_margin
                         - (card_margin
                            + (Sheet.x card_size - card_margin - card_margin)
                              * Q2Qc (13 # 16))))
    /\ forall k : nat,
        exists all : list Element,
          elements FONTS (5 + k)
            (put 20
               (set_regions
                  (regions me
                   ++ seq 27 (List.length (list_prod (seq 0 rows) (seq 0 cols)))) me)
               (base
                ++ map (fun p =>
                          placed card_margin
                            (card_margin
                             + (Sheet.y card_size - card_margin - card_margin)
                               * Q2Qc (1 # 4))
                            (card_margin
                             + (Sheet.x card_size - card_margin - card_margin)
                               * Q2Qc (13 # 16))
                            (Sheet.y card_size - card_margin)
                            (Text ("mnem-" ++ PyStr.decimal (snd p * rows + fst p))
                                  (Some (of_nat (snd p) / of_nat cols))
                                  (Some (of_nat (fst p) / of_nat rows))
                                  (Some (of_nat (snd p + 1) / of_nat cols))
                                  (Some (of_nat (fst p + 1) / of_nat rows))
                                  None (Some "mono") None None (Some (Q2Qc (9 # 16)))
                                  None None None false false false))
                      (list_prod (seq 0 rows) (seq 0 cols)))) 0
          = Some (all, None)
          /\ map el_name all
             = "card"
               :: map (fun c_n => ("card-g" ++ PyStr.decimal c_n)%string) (seq 0 16)
               ++ [ "card-title"; "card-requires"; "card-crypto1"; "card-crypto2" ]
               ++ map (fun p => ("mnem-" ++ PyStr.decimal (snd p * rows + fst p))%string)
                      (list_prod (seq 0 rows) (seq 0 cols))
               ++ [ "card-qr1"; "card-qr2" ].
Proof.
  intros HM.
  destruct (card_fixed card_size card_margin)
    as (base & me & qr1 & qr2 & Hrun & Hlen & Hme & H1 & H2 & Ha & Hb & Hc & Hd
        & N1 & C1 & N2 & C2 & A1 & A2 & A3 & A4 & B1 & B2 & B3 & B4 & G).
  exists base, me, qr1, qr2.
  split; [|rewrite A1, A3, B1, B3, Hb, Hc, Hd; repeat (split; [first [assumption | reflexivity]|])].
  2:{ intros k.
      match goal with
      | |- context [base ++ map ?f ?l] =>
          destruct (gather_leaves
                      (put 20 (set_regions (regions me ++ seq 27 (List.length l)) me)
                           (base ++ map f l))
                      k (map f l) 27) as (ds & Hds & Hnames)
      end.
      - intros j o Hj. rewrite put_other by lia.
        rewrite nth_error_app2 by (rewrite Hlen; lia).
        rewrite Hlen. now replace (27 + j - 27)%nat with j by lia.
      - intros o Ho. apply in_map_iff in Ho. destruct Ho as (p & <- & _).
        split; [reflexivity|]. split; [reflexivity|].
        do 4 eexists. repeat split; reflexivity.
      - rewrite length_map in Hds.
        destruct (G k _ _ _ Hds) as (all & Hall & Hn).
        exists all. split; [exact Hall|].
        rewrite Hn, Hnames, map_map. reflexivity. }
  rewrite Hrun, HM.
  assert (Hbody : forall (p : nat * nat) (k' : Store),
             In p (list_prod (seq 0 rows) (seq 0 cols)) ->
             (cell <- try (mnemonic_cell rows cols (fst p) (snd p)) ;;
              word <- alloc cell ;;
              add_region_proportional 20 word ;;;
              ret tt) k'
             = (word <- alloc (Text ("mnem-" ++ PyStr.decimal (snd p * rows + fst p))
                                 (Some (of_nat (snd p) / of_nat cols))
                                 (Some (of_nat (fst p) / of_nat rows))
                                 (Some (of_nat (snd p + 1) / of_nat cols))
                                 (Some (of_nat (fst p + 1) / of_nat rows))
                                 None (Some "mono") None None (Some (Q2Qc (9 # 16)))
                                 None None None false false false) ;;
                add_region_proportional 20 word ;;;
                ret tt) k').
  { intros [r c] k' Hp. apply in_prod_iff in Hp. destruct Hp as [Hr Hc'].
    apply in_seq in Hr. apply in_seq in Hc'.
    unfold andthen at 1, try. cbn [fst snd].
    rewrite cell_spec by lia. reflexivity. }
  match goal with
  | |- andthen ?m ?k base = _ =>
      rewrite (andthen_inr m k base _ tt
                 (eq_trans
                    (for_each_flat
                       (fun r c =>
                          cell <- try (mnemonic_cell rows cols r c) ;;
                          word <- alloc cell ;;
                          add_region_proportional 20 word ;;;
                          ret tt)
                       (seq 0 rows) (seq 0 cols) base)
                    (fill_spec _ _ 20 _ _ _ _ _ base me Hbody Hme Ha Hb Hc Hd)))
  end.
  unfold ret. now rewrite Hlen.
Qed.

End CardStore.

Section CardResults.
Import Py Raised Layout.
Local Open Scope Qc_scope.

Lemma shades (COLOR : list string) (int_16 : string -> exn + Z) :
  COLOR <> [] -> (forall s : string, In s COLOR -> exists z : Z, int_16 s = inr z) ->
  exists shade : nat -> Z, forall c_n : nat, colour COLOR int_16 c_n = inr (shade c_n).
Proof.
  intros Hne Hall.
  exists (fun c_n => match colour COLOR int_16 c_n with
                     | inr z => z
                     | inl _ => 0%Z
                     end).
  intros c_n. destruct (colour_spec COLOR int_16 c_n Hne Hall) as [z Hz].
  now rewrite Hz.
Qed.

Lemma present_put (h : Store) (r n : nat) (o o' : Object) :
  nth_error h n = Some o -> n <> r -> In o (put r o' h).
Proof.
  intros H Hn. apply (nth_error_In _ n). rewrite put_other by congruence. exact H.
Qed.

End CardResults.

(** X25 (layout_card, layout.py lines 170-200 and 215-231, with
    Region.add_region_relative and Region.add_region_proportional).  The two
    QR images of a card are squares.  On a store with nothing in it, with
    colours that [int( s, 16 )] reads and a word count that [MNEM_ROWS_COLS]
    lists, [layout_card] returns the card, and the images [card-qr1] and
    [card-qr2] it leaves are as high as they are wide: both take the right
    3/16 of the interior, the first hangs from the top of the lower three
    quarters and the second stands on the bottom of the interior. *)
Theorem card_qr_square
        (COLOR : list string) (MNEM_ROWS_COLS : nat -> option (nat * nat))
        (int_16 : string -> Py.exn + Z) (card_size : Sheet.Coordinate) (card_margin : Qc)
        (num_mnemonics rows cols : nat) :
  COLOR <> [] ->
  (forall s : string, In s COLOR -> exists z : Z, int_16 s = inr z) ->
  MNEM_ROWS_COLS num_mnemonics = Some (rows, cols) ->
  exists (h : Layout.Store) (qr1 qr2 : Layout.Object)
         (left right top1 bottom1 top2 bottom2 : Qc),
    Layout.layout_card COLOR MNEM_ROWS_COLS int_16 card_size card_margin num_mnemonics []
    = inr (0, h)
    /\ In qr1 h /\ Layout.name qr1 = "card-qr1" /\ Layout.class qr1 = Layout.ImageClass
    /\ In qr2 h /\ Layout.name qr2 = "card-qr2" /\ Layout.class qr2 = Layout.ImageClass
    /\ Layout.x1 qr1 = Some left /\ Layout.x2 qr1 = Some right
    /\ Layout.y1 qr1 = Some top1 /\ Layout.y2 qr1 = Some bottom1
    /\ Layout.x1 qr2 = Some left /\ Layout.x2 qr2 = Some right
    /\ Layout.y1 qr2 = Some top2 /\ Layout.y2 qr2 = Some bottom2
    /\ (bottom1 - top1 = right - left)%Qc
    /\ (bottom2 - top2 = right - left)%Qc
    /\ left = (card_margin
               + (Sheet.x card_size - card_margin - card_margin) * Q2Qc (13 # 16))%Qc
    /\ right = (Sheet.x card_size - card_margin)%Qc
    /\ top1 = (card_margin
               + (Sheet.y card_size - card_margin - card_margin) * Q2Qc (1 # 4))%Qc
    /\ bottom2 = (Sheet.y card_size - card_margin)%Qc.
Proof.
  intros Hne Hall HM.
  destruct (shades COLOR int_16 Hne Hall) as [shade Hshade].
  destruct (card_laid COLOR MNEM_ROWS_COLS int_16 (fun _ => None) shade Hshade
              card_size card_margin num_mnemonics rows cols HM)
    as (base & me & qr1 & qr2 & Hrun & Hlen & Hme & H1 & H2 & N1 & C1 & N2 & C2
        & A1 & A2 & A3 & A4 & B1 & B2 & B3 & B4 & _).
  eexists _, qr1, qr2, _, _, _, _, _, _.
  split; [exact Hrun|].
  assert (Hin : forall (n : nat) (o : Layout.Object),
             nth_error base n = Some o -> n <> 20 ->
             forall (x : Layout.Object) (l : list Layout.Object),
               In o (Layout.put 20 x (base ++ l))).
  { intros n o Ho Hn x l. apply (present_put _ 20 n); [|exact Hn].
    rewrite nth_error_app1 by (apply (present_lt _ _ _ Ho)). exact Ho. }
  split; [apply (Hin 21 _ H1); discriminate|].
  do 2 (split; [assumption|]).
  split; [apply (Hin 22 _ H2); discriminate|].
  do 2 (split; [assumption|]).
  do 8 (split; [eassumption|]).
  repeat split; ring.
Qed.

Lemma card_qr_square_witness :
  exists (h : Layout.Store) (qr1 qr2 : Layout.Object)
         (left right top1 bottom1 top2 bottom2 : Qc),
    Layout.layout_card Samples.COLOR Samples.MNEM_ROWS_COLS Samples.int_16
                       Samples.card_size (Q2Qc (1 # 8)) 20 []
    = inr (0, h)
    /\ In qr1 h /\ Layout.name qr1 = "card-qr1" /\ Layout.class qr1 = Layout.ImageClass
    /\ In qr2 h /\ Layout.name qr2 = "card-qr2" /\ Layout.class qr2 = Layout.ImageClass
    /\ Layout.x1 qr1 = Some left /\ Layout.x2 qr1 = Some right
    /\ Layout.y1 qr1 = Some top1 /\ Layout.y2 qr1 = Some bottom1
    /\ Layout.x1 qr2 = Some left /\ Layout.x2 qr2 = Some right
    /\ Layout.y1 qr2 = Some top2 /\ Layout.y2 qr2 = Some bottom2
    /\ (bottom1 - top1 = right - left)%Qc
    /\ (bottom2 - top2 = right - left)%Qc
    /\ left = (Q2Qc (1 # 8)
               + (Sheet.x Samples.card_size - Q2Qc (1 # 8) - Q2Qc (1 # 8))
                 * Q2Qc (13 # 16))%Qc
    /\ right = (Sheet.x Samples.card_size - Q2Qc (1 # 8))%Qc
    /\ top1 = (Q2Qc (1 # 8)
               + (Sheet.y Samples.card_size - Q2Qc (1 # 8) - Q2Qc (1 # 8))
                 * Q2Qc (1 # 4))%Qc
    /\ bottom2 = (Sheet.y Samples.card_size - Q2Qc (1 # 8))%Qc.
Proof.
  apply (card_qr_square Samples.COLOR Samples.MNEM_ROWS_COLS Samples.int_16
           Samples.card_size (Q2Qc (1 # 8)) 20 7 3).
  - discriminate.
  - intros s [<-|[<-|[]]]; eexists; reflexivity.
  - reflexivity.
Defined.

(** X26 (layout_card, layout.py lines 215-230, with
    Region.add_region_proportional).  The words of a card run down its
    columns.  With [rows] and [cols] listed for the word count, every
    number [i] below [rows * cols] has its text [mnem-i], and that text is
    the cell of column [i // rows] and row [i % rows] in a grid of [cols] by
    [rows] equal cells over the region of the words, which is the left 13/16
    of the lower three quarters of the interior. *)
Theorem card_words
        (COLOR : list string) (MNEM_ROWS_COLS : nat -> option (nat * nat))
        (int_16 : string -> Py.exn + Z) (card_size : Sheet.Coordinate) (card_margin : Qc)
        (num_mnemonics rows cols i : nat) :
  COLOR <> [] ->
  (forall s : string, In s COLOR -> exists z : Z, int_16 s = inr z) ->
  MNEM_ROWS_COLS num_mnemonics = Some (rows, cols) ->
  i < rows * cols ->
  exists (h : Layout.Store) (word : Layout.Object) (left top right bottom : Qc),
    Layout.layout_card COLOR MNEM_ROWS_COLS int_16 card_size card_margin num_mnemonics []
    = inr (0, h)
    /\ left = card_margin
    /\ top = (card_margin
              + (Sheet.y card_size - card_margin - card_margin) * Q2Qc (1 # 4))%Qc
    /\ right = (card_margin
                + (Sheet.x card_size - card_margin - card_margin) * Q2Qc (13 # 16))%Qc
    /\ bottom = (Sheet.y card_size - card_margin)%Qc
    /\ In word h
    /\ Layout.name word = ("mnem-" ++ PyStr.decimal i)%string
    /\ Layout.class word = Layout.TextClass
    /\ Layout.x1 word
       = Some (left + (right - left)
                      * (Layout.of_nat (i / rows) / Layout.of_nat cols))%Qc
    /\ Layout.x2 word
       = Some (left + (right - left)
                      * (Layout.of_nat (i / rows + 1) / Layout.of_nat cols))%Qc
    /\ Layout.y1 word
       = Some (top + (bottom - top)
                     * (Layout.of_nat (i mod rows) / Layout.of_nat rows))%Qc
    /\ Layout.y2 word
       = Some (top + (bottom - top)
                     * (Layout.of_nat (i mod rows + 1) / Layout.of_nat rows))%Qc.
Proof.
  intros Hne Hall HM Hi.
  destruct (shades COLOR int_16 Hne Hall) as [shade Hshade].
  destruct (card_laid COLOR MNEM_ROWS_COLS int_16 (fun _ => None) shade Hshade
              card_size card_margin num_mnemonics rows cols HM)
    as (base & me & qr1 & qr2 & Hrun & Hlen & _).
  assert (Hrows : 0 < rows) by (destruct rows; [simpl in Hi|]; lia).
  assert (Hc : i / rows < cols)
    by (apply Nat.Div0.div_lt_upper_bound; exact Hi).
  assert (Hr : i mod rows < rows) by (apply Nat.mod_upper_bound; lia).
  assert (Hp : In (i mod rows, i / rows) (list_prod (seq 0 rows) (seq 0 cols)))
    by (apply in_prod; apply in_seq; lia).
  destruct (In_nth_error _ _ Hp) as [j Hj].
  eexists _, _, _, _, _, _. split; [exact Hrun|].
  do 4 (split; [reflexivity|]).
  split.
  - apply (nth_error_In _ (27 + j)). rewrite put_other by lia.
    rewrite nth_error_app2 by (rewrite Hlen; lia). rewrite Hlen.
    replace (27 + j - 27) with j by lia.
    apply map_nth_error. exact Hj.
  - cbn [fst snd Layout.placed Layout.set_side Layout.Text Layout.name Layout.class
         Layout.x1 Layout.y1 Layout.x2 Layout.y2 Layout.ratio Layout.side].
    split; [|repeat split].
    f_equal. f_equal. rewrite (Nat.div_mod_eq i rows) at 3. lia.
Qed.

Lemma card_words_witness :
  exists (h : Layout.Store) (word : Layout.Object) (left top right bottom : Qc),
    Layout.layout_card Samples.COLOR Samples.MNEM_ROWS_COLS Samples.int_16
                       Samples.card_size (Q2Qc (1 # 8)) 20 []
    = inr (0, h)
    /\ left = Q2Qc (1 # 8)
    /\ top = (Q2Qc (1 # 8)
              + (Sheet.y Samples.card_size - Q2Qc (1 # 8) - Q2Qc (1 # 8))
                * Q2Qc (1 # 4))%Qc
    /\ right = (Q2Qc (1 # 8)
                + (Sheet.x Samples.card_size - Q2Qc (1 # 8) - Q2Qc (1 # 8))
                  * Q2Qc (13 # 16))%Qc
    /\ bottom = (Sheet.y Samples.card_size - Q2Qc (1 # 8))%Qc
    /\ In word h
    /\ Layout.name word = ("mnem-" ++ PyStr.decimal 9)%string
    /\ Layout.class word = Layout.TextClass
    /\ Layout.x1 word
       = Some (left + (right - left) * (Layout.of_nat (9 / 7) / Layout.of_nat 3))%Qc
    /\ Layout.x2 word
       = Some (left + (right - left) * (Layout.of_nat (9 / 7 + 1) / Layout.of_nat 3))%Qc
    /\ Layout.y1 word
       = Some (top + (bottom - top) * (Layout.of_nat (9 mod 7) / Layout.of_nat 7))%Qc
    /\ Layout.y2 word
       = Some (top + (bottom - top)
                     * (Layout.of_nat (9 mod 7 + 1) / Layout.of_nat 7))%Qc.
Proof.
  apply (card_words Samples.COLOR Samples.MNEM_ROWS_COLS Samples.int_16
           Samples.card_size (Q2Qc (1 # 8)) 20 7 3 9).
  - discriminate.
  - intros s [<-|[<-|[]]]; eexists; reflexivity.
  - reflexivity.
  - simpl. lia.
Defined.

(** X27 (layout_card, layout.py lines 215-216).  A word count that
    [MNEM_ROWS_COLS] does not list: with colours that [int( s, 16 )] reads,
    [layout_card] raises [AssertionError], whatever the size and the margin
    of the card are. *)
Theorem card_refused
        (COLOR : list string) (MNEM_ROWS_COLS : nat -> option (nat * nat))
        (int_16 : string -> Py.exn + Z) (card_size : Sheet.Coordinate) (card_margin : Qc)
        (num_mnemonics : nat) :
  COLOR <> [] ->
  (forall s : string, In s COLOR -> exists z : Z, int_16 s = inr z) ->
  MNEM_ROWS_COLS num_mnemonics = None ->
  Layout.layout_card COLOR MNEM_ROWS_COLS int_16 card_size card_margin num_mnemonics []
  = inl Raised.AssertionError.
Proof.
  intros Hne Hall HM.
  destruct (shades COLOR int_16 Hne Hall) as [shade Hshade].
  destruct (card_fixed COLOR MNEM_ROWS_COLS int_16 (fun _ => None) shade Hshade
              card_size card_margin) as (base & me & qr1 & qr2 & Hrun & _).
  now rewrite Hrun, HM.
Qed.

Lemma card_refused_witness :
  Layout.layout_card Samples.COLOR Samples.MNEM_ROWS_COLS Samples.int_16
                     Samples.card_size (Q2Qc (1 # 8)) 21 []
  = inl Raised.AssertionError.
Proof.
  apply card_refused.
  - discriminate.
  - intros s [<-|[<-|[]]]; eexists; reflexivity.
  - reflexivity.
Defined.

(** X28 (Region.elements with Region.element, Text.element, Image.element and
    Box.element, layout.py lines 48-57, 91-97 and 118-164, on the result of
    layout_card, lines 170-231).  What a card gives to draw.  On the store
    [layout_card] leaves, the generator [elements] of the card it returns
    ends without an exception, at a depth of five or more, and yields in
    this order: the box of the card, the sixteen texts [card-g0] to
    [card-g15], the four texts of the head, one text for each word, row after
    row, and the two images; the plain regions between them yield
    nothing. *)
Theorem card_elements
        (COLOR : list string) (MNEM_ROWS_COLS : nat -> option (nat * nat))
        (int_16 : string -> Py.exn + Z) (FONTS : string -> option string)
        (card_size : Sheet.Coordinate) (card_margin : Qc)
        (num_mnemonics rows cols : nat) :
  COLOR <> [] ->
  (forall s : string, In s COLOR -> exists z : Z, int_16 s = inr z) ->
  MNEM_ROWS_COLS num_mnemonics = Some (rows, cols) ->
  exists h : Layout.Store,
    Layout.layout_card COLOR MNEM_ROWS_COLS int_16 card_size card_margin num_mnemonics []
    = inr (0, h)
    /\ forall k : nat,
        exists all : list Layout.Element,
          Layout.elements FONTS (5 + k) h 0 = Some (all, None)
          /\ map Layout.el_name all
             = "card"
               :: map (fun c_n => ("card-g" ++ PyStr.decimal c_n)%string) (seq 0 16)
               ++ [ "card-title"; "card-requires"; "card-crypto1"; "card-crypto2" ]
               ++ map (fun p => ("mnem-" ++ PyStr.decimal (snd p * rows + fst p))%string)
                      (list_prod (seq 0 rows) (seq 0 cols))
               ++ [ "card-qr1"; "card-qr2" ].
Proof.
  intros Hne Hall HM.
  destruct (shades COLOR int_16 Hne Hall) as [shade Hshade].
  destruct (card_laid COLOR MNEM_ROWS_COLS int_16 FONTS shade Hshade
              card_size card_margin num_mnemonics rows cols HM)
    as (base & me & qr1 & qr2 & Hrun & Hlen & Hme & H1 & H2 & N1 & C1 & N2 & C2
        & A1 & A2 & A3 & A4 & B1 & B2 & B3 & B4 & G).
  eexists. split; [exact Hrun|exact G].
Qed.

Lemma card_elements_witness :
  exists h : Layout.Store,
    Layout.layout_card Samples.COLOR Samples.MNEM_ROWS_COLS Samples.int_16
                       Samples.card_size (Q2Qc (1 # 8)) 20 []
    = inr (0, h)
    /\ forall k : nat,
        exists all : list Layout.Element,
          Layout.elements Samples.FONTS (5 + k) h 0 = Some (all, None)
          /\ map Layout.el_name all
             = "card"
               :: map (fun c_n => ("card-g" ++ PyStr.decimal c_n)%string) (seq 0 16)
               ++ [ "card-title"; "card-requires"; "card-crypto1"; "card-crypto2" ]
               ++ map (fun p => ("mnem-" ++ PyStr.decimal (snd p * 7 + fst p))%string)
                      (list_prod (seq 0 7) (seq 0 3))
               ++ [ "card-qr1"; "card-qr2" ].
Proof.
  apply (card_elements Samples.COLOR Samples.MNEM_ROWS_COLS Samples.int_16 Samples.FONTS
           Samples.card_size (Q2Qc (1 # 8)) 20 7 3).
  - discriminate.
  - intros s [<-|[<-|[]]]; eexists; reflexivity.
  - reflexivity.
Defined.
